(** * git-sonic: the agent loop, the workflow engine and their helpers

    A shallow embedding of the Go sources and the properties checked on it.
    Go strings are byte strings and are modelled by [string]; Go's [int] is a
    64-bit two's-complement integer, modelled by [Z] with the wrap-around
    written out; a Go map used as a set is a [gset], one used as a dictionary
    a [gmap].  Calls to [log.Printf] have no influence on any result and are
    left out throughout. *)

From Stdlib Require Import ZArith NArith Ascii String List Bool Lia.
From Stdlib Require Import DecimalString SpecFloat.
From stdpp Require Import base option list gmap strings.

Local Open Scope string_scope.
Local Open Scope Z_scope.

(** ** Go basics shared by every package *)

Module Go.

(** Go's [error] values are compared only with [nil] in the code modelled
    here, apart from a few sentinel errors; an error carries its message. *)
Inductive error : Type := errorString (msg : string).

Definition Error (e : error) : string := let 'errorString m := e in m.

Inductive Result (A : Type) : Type :=
| Ok (a : A)
| Err (e : error).
Arguments Ok {A} a.
Arguments Err {A} e.

Definition isOk {A} (r : Result A) : bool :=
  match r with Ok _ => true | Err _ => false end.

(** 64-bit wrap-around of Go's [int]. *)
Definition wrap64 (z : Z) : Z := (z + 2 ^ 63) mod 2 ^ 64 - 2 ^ 63.
Definition int_add (a b : Z) : Z := wrap64 (a + b).
Definition int_sub (a b : Z) : Z := wrap64 (a - b).
Definition is_int (z : Z) : Prop := - 2 ^ 63 <= z < 2 ^ 63.

(** [len] of a slice or of a string, as an [int]. *)
Definition len {A} (l : list A) : Z := Z.of_nat (List.length l).
Definition slen (s : string) : Z := Z.of_nat (String.length s).

(** The newline character. *)
Definition nl : string := String "010" "".

(** [fmt.Sprintf("%d", n)]. *)
Definition itoa (z : Z) : string := NilZero.string_of_int (Z.to_int z).

(** Slice expressions.  They are checked against the length of the list:
    [None] stands for the run-time panic.  (Go checks the upper bound
    against the capacity of the backing array, which is not tracked.) *)
Definition index {A} (l : list A) (i : Z) : option A :=
  if (0 <=? i) && (i <? len l) then l !! Z.to_nat i else None.

Definition slice_from {A} (l : list A) (lo : Z) : option (list A) :=
  if (0 <=? lo) && (lo <=? len l) then Some (drop (Z.to_nat lo) l) else None.

Definition slice_to {A} (l : list A) (hi : Z) : option (list A) :=
  if (0 <=? hi) && (hi <=? len l) then Some (take (Z.to_nat hi) l) else None.

Definition slice {A} (l : list A) (lo hi : Z) : option (list A) :=
  if (0 <=? lo) && (lo <=? hi) && (hi <=? len l)
  then Some (take (Z.to_nat (hi - lo)) (drop (Z.to_nat lo) l))
  else None.

(** [s[:n]] on a string, for [0 <= n <= len(s)]. *)
Fixpoint sprefix (n : nat) (s : string) : string :=
  match n, s with
  | S n', String c s' => String c (sprefix n' s')
  | _, _ => EmptyString
  end.

Fixpoint sdrop (n : nat) (s : string) : string :=
  match n, s with
  | S n', String _ s' => sdrop n' s'
  | _, _ => s
  end.

(** [strings.HasPrefix], [strings.Index] (as an option) and
    [strings.Contains]. *)
Fixpoint HasPrefix (s p : string) {struct p} : bool :=
  match p, s with
  | EmptyString, _ => true
  | String a p', String b s' => if Ascii.eqb a b then HasPrefix s' p' else false
  | String _ _, EmptyString => false
  end.

Fixpoint Index (s sub : string) : option nat :=
  if HasPrefix s sub then Some 0%nat
  else match s with
       | EmptyString => None
       | String _ s' => S <$> Index s' sub
       end.

Definition Contains (s sub : string) : bool := bool_decide (is_Some (Index s sub)).

End Go.
Export Go.

(** ** pkg/llm: messages and content blocks *)

Module llm.

(** [type Role string], [type ContentType string], [type StopReason string]. *)
Definition RoleUser : string := "user".
Definition RoleAssistant : string := "assistant".

Definition ContentTypeText : string := "text".
Definition ContentTypeToolUse : string := "tool_use".
Definition ContentTypeToolResult : string := "tool_result".

Definition StopReasonEndTurn : string := "end_turn".
Definition StopReasonToolUse : string := "tool_use".
Definition StopReasonMaxTokens : string := "max_tokens".
Definition StopReasonStopSeq : string := "stop_sequence".

(** The dynamically typed values of a decoded JSON document
    ([interface{}] after [json.Unmarshal]); a JSON number arrives as a
    float64, modelled by the IEEE 754 values of [SpecFloat]. *)
#[warnings="-register-all"]
Inductive any : Type :=
| anyNil
| anyBool (b : bool)
| anyNumber (f : SpecFloat.spec_float)
| anyString (s : string)
| anySlice (l : list any)
| anyMap (l : list (string * any)).

Record ContentBlock : Type := mkBlock {
  Type_ : string;
  Text : string;
  ID : string;
  Name : string;
  Input : gmap string any;
  ToolUseID : string;
  Content : string;
  IsError : bool
}.

Record Message : Type := mkMessage {
  Role : string;
  MContent : list ContentBlock
}.

Definition textBlock (text : string) : ContentBlock :=
  mkBlock ContentTypeText text "" "" ∅ "" "" false.

Definition toolUseBlock (id name : string) (input : gmap string any) : ContentBlock :=
  mkBlock ContentTypeToolUse "" id name input "" "" false.

Definition toolResultBlock (toolUseID content : string) (isError : bool) : ContentBlock :=
  mkBlock ContentTypeToolResult "" "" "" ∅ toolUseID content isError.

Definition NewTextMessage (role text : string) : Message :=
  mkMessage role [textBlock text].

Definition NewToolResultMessage (toolUseID content : string) (isError : bool) : Message :=
  mkMessage RoleUser [toolResultBlock toolUseID content isError].

(** [Message.GetText]: the text blocks joined by a newline; the separator
    is written only when something was already collected. *)
Definition GetText_step (result : string) (block : ContentBlock) : string :=
  if String.eqb (Type_ block) ContentTypeText
  then (if String.eqb result "" then result else result ++ nl) ++ Text block
  else result.

Definition GetText (m : Message) : string :=
  fold_left GetText_step (MContent m) "".

Definition GetToolUses (m : Message) : list ContentBlock :=
  filter (fun block => Type_ block = ContentTypeToolUse) (MContent m).

Record ToolDefinition : Type := mkToolDefinition {
  TDName : string;
  TDDescription : string;
  TDInputSchema : gmap string any
}.

Record AgentRequest : Type := mkAgentRequest {
  System : string;
  Messages : list Message;
  Tools : list ToolDefinition
}.

Record Usage : Type := mkUsage { InputTokens : Z; OutputTokens : Z }.

Record AgentResponse : Type := mkAgentResponse {
  RID : string;
  RRole : string;
  RContent : list ContentBlock;
  StopReason : string;
  RUsage : Usage
}.

Definition ToMessage (r : AgentResponse) : Message :=
  mkMessage (RRole r) (RContent r).

Definition ResponseGetText (r : AgentResponse) : string := GetText (ToMessage r).

End llm.

(** ** pkg/orchestrator: history-size management of the agent loop *)

Module orchestrator.
Import llm.

Definition defaultMaxIterations : Z := 50.
Definition defaultMaxMessages : Z := 50.

Definition isToolUse (block : ContentBlock) : bool :=
  String.eqb (Type_ block) ContentTypeToolUse.
Definition isToolResult (block : ContentBlock) : bool :=
  String.eqb (Type_ block) ContentTypeToolResult.

(** The tool_use ids with a non-empty ID, added to [ids]
    ([toolUseIDs[block.ID] = true] over a range of messages). *)
Definition addToolUseID (ids : gset string) (block : ContentBlock) : gset string :=
  if isToolUse block && negb (String.eqb (ID block) "")
  then {[ ID block ]} ∪ ids else ids.

Definition addToolUseIDs (ids : gset string) (messages : list Message) : gset string :=
  fold_left (fun ids msg => fold_left addToolUseID (MContent msg) ids) messages ids.

(** *** validateToolPairs *)

Definition orphanEntries (ids : gset string) (i : nat) (msg : Message) : list string :=
  flat_map (fun block =>
    if isToolResult block then
      if String.eqb (ToolUseID block) ""
      then ["msg[" ++ itoa (Z.of_nat i) ++ "]:empty_id"]
      else if bool_decide (ToolUseID block ∈ ids) then []
      else ["msg[" ++ itoa (Z.of_nat i) ++ "]:" ++ ToolUseID block]
    else []) (MContent msg).

Definition orphans (messages : list Message) : list string :=
  let toolUseIDs := addToolUseIDs ∅ messages in
  concat (imap (orphanEntries toolUseIDs) messages).

(** [%v] of a [[]string]. *)
Definition showStrings (l : list string) : string :=
  "[" ++ String.concat " " l ++ "]".

Definition validateToolPairs (messages : list Message) : option error :=
  let orphans := orphans messages in
  if 0 <? len orphans
  then Some (errorString ("found " ++ itoa (len orphans)
                          ++ " orphaned tool_results: " ++ showStrings orphans))
  else None.

(** *** truncateMessages *)

(** The closure [collectToolUseIDs]; [messages[0]] panics on an empty
    slice. *)
Definition collectToolUseIDs (messages : list Message) (from : nat)
    (includeFirst : bool) : option (gset string) :=
  ids ← (if includeFirst
         then first ← index messages 0; Some (addToolUseIDs ∅ [first])
         else Some ∅);
  Some (addToolUseIDs ids (drop from messages)).

Definition hasToolUseWithID (id : string) (msg : Message) : bool :=
  existsb (fun b => isToolUse b && String.eqb (ID b) id) (MContent msg).

(** [for j := keepFrom - 1; j >= 1; j--]: the closest earlier message that
    holds the tool_use.  The index is always in range where the loop is
    reached. *)
Fixpoint searchBackward (messages : list Message) (id : string) (j : nat) : option nat :=
  match j with
  | O => None
  | S j' =>
      match messages !! j with
      | Some msg => if hasToolUseWithID id msg then Some j
                    else searchBackward messages id j'
      | None => searchBackward messages id j'
      end
  end.

Definition resolveBlock (messages : list Message) (keepFrom : nat)
    (toolUseIDs : gset string) (block : ContentBlock) : option nat :=
  if isToolResult block && negb (String.eqb (ToolUseID block) "")
     && negb (bool_decide (ToolUseID block ∈ toolUseIDs))
  then searchBackward messages (ToolUseID block) (keepFrom - 1)
  else None.

(** The nested loops leave at the first block for which the search
    succeeds ([changed = true; break]). *)
Fixpoint firstChange {A} (f : A -> option nat) (l : list A) : option nat :=
  match l with
  | [] => None
  | x :: l' => match f x with
               | Some j => Some j
               | None => firstChange f l'
               end
  end.

(** One round of the fixed-point iteration: [Some j] when [keepFrom] was
    moved to [j], [None] when nothing changed. *)
Definition expandOnce (messages : list Message) (keepFrom : nat) : option (option nat) :=
  toolUseIDs ← collectToolUseIDs messages keepFrom true;
  Some (firstChange
          (fun msg => firstChange (resolveBlock messages keepFrom toolUseIDs) (MContent msg))
          (drop keepFrom messages)).

(** [for iteration := 0; iteration < 100; iteration++]. *)
Fixpoint expand (rounds : nat) (messages : list Message) (keepFrom : nat) : option nat :=
  match rounds with
  | O => Some keepFrom
  | S rounds' =>
      changed ← expandOnce messages keepFrom;
      match changed with
      | Some j => expand rounds' messages j
      | None => Some keepFrom
      end
  end.

Definition initialKeepFrom (messages : list Message) (maxMessages : Z) : Z :=
  let keepFrom := int_add (int_sub (len messages) maxMessages) 1 in
  if keepFrom <? 1 then 1 else keepFrom.

(** [None] is a run-time panic (index or slice bound out of range). *)
Definition truncateMessages (messages : list Message) (maxMessages : Z)
    : option (list Message) :=
  if len messages <=? maxMessages then Some messages
  else
    keepFrom ← expand 100 messages (Z.to_nat (initialKeepFrom messages maxMessages));
    _ ← collectToolUseIDs messages keepFrom true;
    first ← index messages 0;
    rest ← slice_from messages (Z.of_nat keepFrom);
    Some (first :: rest).

(** *** compact.go *)

Record CompactConfig : Type := mkCompactConfig {
  Enabled : bool;
  Threshold : Z;
  KeepRecent : Z
}.

Definition DefaultCompactConfig : CompactConfig := mkCompactConfig true 30 10.

Definition compactSummaryPrompt : string :=
"You are a conversation summarizer. Your task is to create a concise but comprehensive summary of the conversation history that preserves all important context for continuing the task.

Your summary MUST include:
1. **Original Task**: What was the user's initial request/goal?
2. **Key Decisions**: Important decisions made during the conversation
3. **Files Modified**: List of files that were read, created, or modified with brief descriptions of changes
4. **Current State**: What has been accomplished so far?
5. **Pending Work**: What still needs to be done?
6. **Important Context**: Any critical information needed to continue (error messages, specific requirements, etc.)

Format your summary as a structured document. Be concise but don't omit important details.
Do NOT include tool call details or raw outputs - just summarize the key information.".

Definition formatBlock (block : ContentBlock) : string :=
  if String.eqb (Type_ block) ContentTypeText then
    if String.eqb (Text block) "" then "" else Text block ++ nl
  else if String.eqb (Type_ block) ContentTypeToolUse then
    "[Tool Call: " ++ Name block ++ "]" ++ nl
  else if String.eqb (Type_ block) ContentTypeToolResult then
    let content := Content block in
    let content := if 500 <? slen content
                   then sprefix 500 content ++ "... (truncated)" else content in
    if IsError block then "[Tool Error: " ++ content ++ "]" ++ nl
    else "[Tool Result: " ++ content ++ "]" ++ nl
  else "".

Definition formatMessage (i : nat) (msg : Message) : string :=
  let role := Role msg in
  let role := if String.eqb role "assistant" then "Assistant"
              else if String.eqb role "user" then "User" else role in
  "--- Message " ++ itoa (int_add (Z.of_nat i) 1) ++ " (" ++ role ++ ") ---" ++ nl
  ++ String.concat "" (map formatBlock (MContent msg)) ++ nl.

Definition formatMessagesForSummary (messages : list Message) : string :=
  String.concat "" (imap formatMessage messages).

Definition ensureToolPairsIntact (recentMessages olderMessages : list Message)
    : list Message :=
  let recentToolUseIDs := addToolUseIDs ∅ recentMessages in
  let orphanedResults : gset string :=
    list_to_set
      (flat_map (fun msg =>
         flat_map (fun block =>
           if isToolResult block && negb (String.eqb (ToolUseID block) "")
              && negb (bool_decide (ToolUseID block ∈ recentToolUseIDs))
           then [ToolUseID block] else []) (MContent msg)) recentMessages) in
  if bool_decide (orphanedResults = ∅) then recentMessages
  else
    let toolUseMessages :=
      List.filter (fun msg =>
        existsb (fun block => isToolUse block
                              && bool_decide (ID block ∈ orphanedResults))
                (MContent msg)) olderMessages in
    match toolUseMessages with
    | [] => recentMessages
    | _ => toolUseMessages ++ recentMessages
    end.

(** The provider is an interface ([llm.LLMProvider]); a call may depend on
    and change state of its own.  Calls are recorded, and a run-time panic
    aborts the computation. *)
Section Provider.
Context {PS : Type}.
Variable provider_Call : AgentRequest -> PS -> Result AgentResponse * PS.

Record World : Type := mkWorld {
  provider_state : PS;
  provider_calls : list AgentRequest
}.

Definition M (A : Type) : Type := World -> option (A * World).

Definition ret {A} (a : A) : M A := fun w => Some (a, w).
Definition bind {A B} (m : M A) (k : A -> M B) : M B :=
  fun w => match m w with
           | Some (a, w') => k a w'
           | None => None
           end.
Definition orPanic {A} (o : option A) : M A :=
  fun w => match o with Some a => Some (a, w) | None => None end.

Definition Call (req : AgentRequest) : M (Result AgentResponse) :=
  fun w => let '(r, s) := provider_Call req (provider_state w) in
           Some (r, mkWorld s (provider_calls w ++ [req])).

Record Compactor : Type := mkCompactor { config : CompactConfig }.

Definition NewCompactor (cfg : CompactConfig) : Compactor := mkCompactor cfg.

Definition ShouldCompact (c : Compactor) (messages : list Message) : bool :=
  if negb (Enabled (config c)) then false
  else Threshold (config c) <? len messages.

Definition generateSummary (conversationText : string) : M (Result string) :=
  let req := mkAgentRequest compactSummaryPrompt
               [NewTextMessage RoleUser
                  ("Please summarize the following conversation:" ++ nl ++ nl
                   ++ conversationText)]
               [] in
  bind (Call req) (fun r =>
    match r with
    | Err e => ret (Err (errorString ("summary generation failed: " ++ Error e)))
    | Ok resp =>
        let summary := ResponseGetText resp in
        if String.eqb summary ""
        then ret (Err (errorString "summary generation returned empty response"))
        else ret (Ok summary)
    end).

Definition summaryMessage (n : Z) (summary : string) : Message :=
  mkMessage RoleAssistant
    [textBlock ("[Conversation Summary - " ++ itoa n ++ " messages compacted]"
                ++ nl ++ nl ++ summary)].

Definition Compact (c : Compactor) (messages : list Message)
    : M (Result (list Message)) :=
  let keepRecent := KeepRecent (config c) in
  if len messages <=? int_add keepRecent 1 then ret (Ok messages)
  else
    let summarizeEnd := int_sub (len messages) keepRecent in
    if summarizeEnd <=? 1 then ret (Ok messages)
    else
      bind (orPanic (slice messages 1 summarizeEnd)) (fun messagesToSummarize =>
      let conversationText := formatMessagesForSummary messagesToSummarize in
      bind (generateSummary conversationText) (fun r =>
      match r with
      | Err _ =>
          bind (orPanic (truncateMessages messages (int_add keepRecent 1)))
               (fun t => ret (Ok t))
      | Ok summary =>
          bind (orPanic (index messages 0)) (fun first =>
          bind (orPanic (slice_from messages summarizeEnd)) (fun recentMessages =>
          bind (orPanic (slice_to messages summarizeEnd)) (fun olderMessages =>
          ret (Ok (first
                   :: summaryMessage (len messagesToSummarize) summary
                   :: ensureToolPairsIntact recentMessages olderMessages)))))
      end)).

(** The history-size management at the start of an iteration of
    [AgentLoop.Run]: the messages put into the request, and the new
    value of [state.Messages]. *)
Definition manageHistory (compactor : option Compactor) (maxMessages : Z)
    (stateMessages : list Message) : M (list Message * list Message) :=
  let messages := stateMessages in
  bind (match compactor with
        | Some c =>
            if ShouldCompact c messages then
              bind (Compact c messages) (fun r =>
                match r with
                | Err _ => ret (messages, stateMessages)
                | Ok compactedMessages => ret (compactedMessages, compactedMessages)
                end)
            else ret (messages, stateMessages)
        | None => ret (messages, stateMessages)
        end) (fun '(messages, stateMessages) =>
  bind (if maxMessages <? len messages
        then orPanic (truncateMessages messages maxMessages)
        else ret messages) (fun messages =>
  match validateToolPairs messages with
  | Some _ => ret (stateMessages, stateMessages)
  | None => ret (messages, stateMessages)
  end)).

(** [maxMessages] and the compactor as [Run] sets them up. *)
Definition effectiveMaxMessages (reqMaxMessages : Z) : Z :=
  if reqMaxMessages <=? 0 then defaultMaxMessages else reqMaxMessages.

Definition compactorOf (cfg : CompactConfig) : option Compactor :=
  if Enabled cfg then Some (NewCompactor cfg) else None.

End Provider.

End orchestrator.

(** ** pkg/llm: the request to and the outcome of an LLM run *)

Module llm_run.

Definition DecisionProceed : string := "proceed".
Definition DecisionNeedsInfo : string := "needs_info".

Record Comment : Type := mkComment { CUser : string; CBody : string }.

Record Request : Type := mkRequest {
  Mode : string;
  RepoPath : string;
  RepoFullName : string;
  IssueNumber : Z;
  PRNumber : Z;
  IssueTitle : string;
  IssueBody : string;
  IssueLabels : list string;
  IssueComments : list Comment;
  PRTitleIn : string;
  PRBodyIn : string;
  PRHeadRef : string;
  PRBaseRef : string;
  CommentBody : string;
  SlashCommand : string;
  RepoInstructions : string;
  Requirements : string;
  Prompt : string;
  OutputPath : string
}.

Record Response : Type := mkResponse {
  Decision : string;
  NeedsInfoComment : string;
  CommitMessage : string;
  PRTitle : string;
  PRBody : string;
  Patch : string;
  Files : gmap string string;
  Summary : string
}.

(** [Response{}]. *)
Definition emptyResponse : Response := mkResponse "" "" "" "" "" "" ∅ "".

Record RunResult : Type := mkRunResult {
  RResponse : Response;
  Stdout : string;
  Stderr : string
}.

End llm_run.

(** ** Go's [strings] package, as far as the program uses it *)

Module strings.

Definition byte_in (c : ascii) (cs : list ascii) : bool :=
  existsb (Ascii.eqb c) cs.

(** The white space that [strings.TrimSpace] removes, as UTF-8: the ASCII
    characters tab, newline, vertical tab, form feed, carriage return and
    space, and the code points U+0085, U+00A0, U+1680, U+2000 to U+200A,
    U+2028, U+2029, U+202F, U+205F and U+3000.  On input that is not valid
    UTF-8 the decoder yields U+FFFD for the offending byte, which is not
    white space, so matching the encoded forms is exact. *)
Definition asciiSpace : list ascii :=
  ["009"; "010"; "011"; "012"; "013"; " "]%char.

Definition b (n : N) : ascii := ascii_of_N n.

Definition unicodeSpaces : list string :=
  [String (b 194) (String (b 133) "");
   String (b 194) (String (b 160) "");
   String (b 225) (String (b 154) (String (b 128) ""));
   String (b 226) (String (b 128) (String (b 168) ""));
   String (b 226) (String (b 128) (String (b 169) ""));
   String (b 226) (String (b 128) (String (b 175) ""));
   String (b 226) (String (b 129) (String (b 159) ""));
   String (b 227) (String (b 128) (String (b 128) ""))]
  ++ map (fun n => String (b 226) (String (b 128) (String (b (128 + n)) "")))
         [0; 1; 2; 3; 4; 5; 6; 7; 8; 9; 10]%N.

(** The length of the white-space character at the head of [s], if any. *)
Definition leadingSpace (s : string) : option nat :=
  match s with
  | EmptyString => None
  | String c _ =>
      if byte_in c asciiSpace then Some 1%nat
      else String.length <$> List.find (HasPrefix s) unicodeSpaces
  end.

Fixpoint TrimLeftSpace (fuel : nat) (s : string) : string :=
  match fuel with
  | O => s
  | S fuel' =>
      match leadingSpace s with
      | Some n => TrimLeftSpace fuel' (sdrop n s)
      | None => s
      end
  end.

Fixpoint srev_append (s acc : string) : string :=
  match s with
  | EmptyString => acc
  | String c s' => srev_append s' (String c acc)
  end.

Definition srev (s : string) : string := srev_append s "".

Fixpoint everyByte (p : ascii -> bool) (s : string) : bool :=
  match s with
  | EmptyString => true
  | String c s' => p c && everyByte p s'
  end.

(** The same from the right, on the reversed string. *)
Definition trailingSpace (r : string) : option nat :=
  match r with
  | EmptyString => None
  | String c _ =>
      if byte_in c asciiSpace then Some 1%nat
      else String.length <$> List.find (fun u => HasPrefix r (srev u)) unicodeSpaces
  end.

Fixpoint TrimRightSpaceRev (fuel : nat) (r : string) : string :=
  match fuel with
  | O => r
  | S fuel' =>
      match trailingSpace r with
      | Some n => TrimRightSpaceRev fuel' (sdrop n r)
      | None => r
      end
  end.

Definition TrimSpace (s : string) : string :=
  let s := TrimLeftSpace (String.length s) s in
  srev (TrimRightSpaceRev (String.length s) (srev s)).

(** [strings.Split(s, sep)] for a separator that is not empty. *)
Fixpoint SplitFrom (fuel : nat) (s sep cur : string) : list string :=
  match fuel with
  | O => [srev cur]
  | S fuel' =>
      match s with
      | EmptyString => [srev cur]
      | String c s' =>
          if HasPrefix s sep
          then srev cur :: SplitFrom fuel' (sdrop (String.length sep) s) sep ""
          else SplitFrom fuel' s' sep (String c cur)
      end
  end.

Definition Split (s sep : string) : list string :=
  SplitFrom (String.length s) s sep "".

Definition Join (elems : list string) (sep : string) : string :=
  String.concat sep elems.

(** [strings.Count(s, sep)] for a one-byte separator. *)
Fixpoint CountByte (s : string) (c : ascii) : nat :=
  match s with
  | EmptyString => O
  | String a s' => (if Ascii.eqb a c then 1 else 0) + CountByte s' c
  end.

(** ASCII lower-casing; the upper-case letters of other scripts are left
    alone (see the use in [validateCommand]). *)
Definition lowerByte (c : ascii) : ascii :=
  let n := N_of_ascii c in
  if ((65 <=? n) && (n <=? 90))%N then ascii_of_N (n + 32) else c.

Fixpoint ToLowerASCII (s : string) : string :=
  match s with
  | EmptyString => EmptyString
  | String c s' => String (lowerByte c) (ToLowerASCII s')
  end.

(** [strings.IndexByte], and [strings.Index] for a separator of one
    byte. *)
Fixpoint IndexByte (s : string) (c : ascii) : option nat :=
  match s with
  | EmptyString => None
  | String d rest => if Ascii.eqb d c then Some 0%nat else S <$> IndexByte rest c
  end.

(** [strings.LastIndex] for a separator of one byte. *)
Fixpoint LastIndexByte (s : string) (c : ascii) : option nat :=
  match s with
  | EmptyString => None
  | String d rest =>
      match LastIndexByte rest c with
      | Some i => Some (S i)
      | None => if Ascii.eqb d c then Some 0%nat else None
      end
  end.

(** [strings.Cut] for a separator of one byte. *)
Definition Cut (s : string) (sep : ascii) : string * string * bool :=
  match IndexByte s sep with
  | Some i => (sprefix i s, sdrop (S i) s, true)
  | None => (s, EmptyString, false)
  end.

Definition ContainsByte (s : string) (c : ascii) : bool :=
  match IndexByte s c with Some _ => true | None => false end.

Definition HasSuffix (s suffix : string) : bool := HasPrefix (srev s) (srev suffix).

End strings.

(** ** Go's [path/filepath] package on Unix *)

Module filepath.

Definition Separator : ascii := "/"%char.
Definition isSep (c : ascii) : bool := Ascii.eqb c Separator.

Definition IsAbs (path : string) : bool := HasPrefix path "/".

(** [Clean], following the library's loop: [out] is the output written so
    far, kept reversed; [dotdot] is the length of the leading part of the
    output that a [..] element may not remove. *)
Fixpoint backtrack (t : string) (w dotdot : nat) : string :=
  (* [t] is the output up to and including index [w], reversed:
     for out.w > dotdot && !isSep(out[out.w]) { out.w-- };
     the byte at the final [out.w] is no longer part of the output *)
  match t with
  | String c t' =>
      if (dotdot <? w)%nat && negb (isSep c)
      then backtrack t' (w - 1) dotdot
      else t'
  | EmptyString => t
  end.

Fixpoint copyElement (path out : string) : string * string :=
  match path with
  | String c path' =>
      if isSep c then (path, out) else copyElement path' (String c out)
  | EmptyString => (path, out)
  end.

Definition startsDot (path : string) : bool :=
  match path with
  | String "." EmptyString => true
  | String "." (String c _) => isSep c
  | _ => false
  end.

Definition startsDotDot (path : string) : bool :=
  match path with
  | String "." (String "." EmptyString) => true
  | String "." (String "." (String c _)) => isSep c
  | _ => false
  end.

Fixpoint cleanLoop (fuel : nat) (rooted : bool) (path out : string)
    (dotdot : nat) : string :=
  match fuel with
  | O => out
  | S fuel' =>
      match path with
      | EmptyString => out
      | String c path' =>
          if isSep c then cleanLoop fuel' rooted path' out dotdot
          else if startsDot path then cleanLoop fuel' rooted path' out dotdot
          else if startsDotDot path then
            let path'' := sdrop 2 path in
            let w := String.length out in
            if (dotdot <? w)%nat then
              (* out.w--, then back to the previous separator *)
              cleanLoop fuel' rooted path'' (backtrack out (w - 1) dotdot) dotdot
            else if negb rooted then
              let out' := if (0 <? w)%nat then String Separator out else out in
              let out'' := String "." (String "." out') in
              cleanLoop fuel' rooted path'' out'' (String.length out'')
            else cleanLoop fuel' rooted path'' out dotdot
          else
            let w := String.length out in
            let out' := if (rooted && negb (w =? 1)%nat) || (negb rooted && negb (w =? 0)%nat)
                        then String Separator out else out in
            let '(rest, out'') := copyElement path out' in
            cleanLoop fuel' rooted rest out'' dotdot
      end
  end.

Definition Clean (path : string) : string :=
  match path with
  | EmptyString => "."
  | String c rest =>
      let rooted := isSep c in
      let out :=
        if rooted then cleanLoop (String.length path) true rest "/" 1
        else cleanLoop (String.length path) false path "" 0 in
      match out with
      | EmptyString => "."
      | _ => strings.srev out
      end
  end.

(** [Join]: the elements from the first non-empty one on, joined by the
    separator and cleaned; the empty string when all are empty. *)
Fixpoint Join (elem : list string) : string :=
  match elem with
  | [] => ""
  | e :: rest =>
      if String.eqb e "" then Join rest
      else Clean (strings.Join elem "/")
  end.

(** [Base]. *)
Fixpoint stripTrailingSepRev (r : string) : string :=
  match r with
  | String c r' => if isSep c then stripTrailingSepRev r' else r
  | EmptyString => r
  end.

Fixpoint lastElementRev (r acc : string) : string :=
  match r with
  | String c r' => if isSep c then acc else lastElementRev r' (String c acc)
  | EmptyString => acc
  end.

Definition Base (path : string) : string :=
  if String.eqb path "" then "."
  else
    let r := stripTrailingSepRev (strings.srev path) in
    let last := lastElementRev r "" in
    if String.eqb last "" then "/" else last.

(** [Abs]: [os.Getwd] is answered by the environment. *)
Definition Abs (getwd : Result string) (path : string) : Result string :=
  if IsAbs path then Ok (Clean path)
  else match getwd with
       | Ok wd => Ok (Join [wd; path])
       | Err e => Err e
       end.

(** [Rel], following the library's loop over the first differing
    elements.  [cutElement s] is the element at the head of [s] and what
    follows it (starting at the separator, if any). *)
Fixpoint cutElement (s : string) : string * string :=
  match s with
  | EmptyString => ("", "")
  | String c s' =>
      if isSep c then ("", s)
      else let '(e, rest) := cutElement s' in (String c e, rest)
  end.

Definition skipSep (s : string) : string :=
  match s with
  | String c s' => if isSep c then s' else s
  | EmptyString => s
  end.

(** The result is [(base[b0:bi], base[b0:], targ[t0:])] at the exit of the
    loop. *)
Fixpoint relLoop (fuel : nat) (base targ : string) : string * string * string :=
  match fuel with
  | O => ("", base, targ)
  | S fuel' =>
      if String.eqb base "" || String.eqb targ "" then ("", base, targ)
      else
        let '(eb, restb) := cutElement base in
        let '(et, restt) := cutElement targ in
        if negb (String.eqb et eb) then (eb, base, targ)
        else relLoop fuel' (skipSep restb) (skipSep restt)
  end.

Fixpoint repeatUp (seps : nat) : string :=
  match seps with
  | O => ""
  | S n => "/.." ++ repeatUp n
  end.

Definition relError (basepath targpath : string) : error :=
  errorString ("Rel: can't make " ++ targpath ++ " relative to " ++ basepath).

Definition Rel (basepath targpath : string) : Result string :=
  let base := Clean basepath in
  let targ := Clean targpath in
  if String.eqb targ base then Ok "."
  else
    let base := if String.eqb base "." then "" else base in
    let baseSlashed := HasPrefix base "/" in
    let targSlashed := HasPrefix targ "/" in
    if negb (Bool.eqb baseSlashed targSlashed) then Err (relError basepath targpath)
    else
      let '(elem, baseRest, targRest) := relLoop (S (String.length base)) base targ in
      if String.eqb elem ".." then Err (relError basepath targpath)
      else if negb (String.eqb baseRest "") then
        let seps := strings.CountByte baseRest Separator in
        Ok (".." ++ repeatUp seps
            ++ (if negb (String.eqb targRest "") then "/" ++ targRest else ""))
      else Ok targRest.

End filepath.

(** ** Programs that call their environment

    Code that talks to the outside (the git binary, the hosting platform,
    the LLM runner, the file system) is written as a tree of calls: each
    call names the operation and its arguments, and the program continues
    with the answer.  Running a program against an environment yields its
    result and the trace of calls with their answers. *)

Module effects.

Inductive Free (E : Type -> Type) (A : Type) : Type :=
| Ret (a : A)
| Vis {T : Type} (e : E T) (k : T -> Free E A).
Arguments Ret {E A} a.
Arguments Vis {E A T} e k.

Fixpoint bind {E A B} (m : Free E A) (f : A -> Free E B) : Free E B :=
  match m with
  | Ret a => f a
  | Vis e k => Vis e (fun t => bind (k t) f)
  end.

Definition call {E T} (e : E T) : Free E T := Vis e Ret.

Record Event (E : Type -> Type) : Type := mkEvent {
  evType : Type;
  evCall : E evType;
  evAnswer : evType
}.
Arguments mkEvent {E evType} evCall evAnswer.
Arguments evCall {E} e.
Arguments evAnswer {E} e.

(** An environment answers a call knowing the calls made so far. *)
Definition Environment (E : Type -> Type) : Type :=
  forall T, list (Event E) -> E T -> T.

Fixpoint interp {E A} (env : Environment E) (p : Free E A) (trace : list (Event E))
    : A * list (Event E) :=
  match p with
  | Ret a => (a, trace)
  | Vis e k =>
      let answer := env _ trace e in
      interp env (k answer) (trace ++ [mkEvent e answer])
  end.

End effects.

(** ** encoding/json: the scanner

    The state machine of [scanner.go]: one step per byte, a stack of the
    objects and arrays that are open, and the opcode the step returns.  The
    text of a syntax error is kept short; only its presence matters. *)

Module json.

Inductive stepState : Type :=
| stateBeginValueOrEmpty | stateBeginValue | stateBeginStringOrEmpty | stateBeginString
| stateEndValue | stateEndTop
| stateInString | stateInStringEsc
| stateInStringEscU | stateInStringEscU1 | stateInStringEscU12 | stateInStringEscU123
| stateNeg | state1 | state0 | stateDot | stateDot0 | stateE | stateESign | stateE0
| stateT | stateTr | stateTru
| stateF | stateFa | stateFal | stateFals
| stateN | stateNu | stateNul
| stateError.

Inductive parseKind : Type := parseObjectKey | parseObjectValue | parseArrayValue.

Inductive opcode : Type :=
| scanContinue | scanBeginLiteral | scanBeginObject | scanObjectKey | scanObjectValue
| scanEndObject | scanBeginArray | scanArrayValue | scanEndArray | scanSkipSpace
| scanEnd | scanError.

(** The top of [parseState] is the head of the list. *)
Record scanner : Type := mkScanner {
  step : stepState;
  endTop : bool;
  parseState : list parseKind;
  err : option error
}.

Definition maxNestingDepth : N := 10000.

Definition reset : scanner := mkScanner stateBeginValue false [] None.

Definition isSpace (c : ascii) : bool :=
  strings.byte_in c [" "; "009"; "013"; "010"]%char.

Definition between (lo hi c : ascii) : bool :=
  ((N_of_ascii lo <=? N_of_ascii c) && (N_of_ascii c <=? N_of_ascii hi))%N.

Definition isDigit (c : ascii) : bool := between "0" "9" c.
Definition isHex (c : ascii) : bool :=
  between "0" "9" c || between "a" "f" c || between "A" "F" c.

Definition isByte (c d : ascii) : bool := Ascii.eqb c d.

Definition goto (s : scanner) (st : stepState) : scanner :=
  mkScanner st (endTop s) (parseState s) (err s).

Definition syntaxError (s : scanner) (c : ascii) (context : string) : scanner * opcode :=
  (mkScanner stateError (endTop s) (parseState s)
     (Some (errorString ("invalid character '" ++ String c "" ++ "' " ++ context))),
   scanError).

Definition pushParseState (s : scanner) (c : ascii) (newParseState : parseKind)
    (next : stepState) (successState : opcode) : scanner * opcode :=
  let s := mkScanner next (endTop s) (newParseState :: parseState s) (err s) in
  if (N.of_nat (length (parseState s)) <=? maxNestingDepth)%N then (s, successState)
  else syntaxError s c "exceeded max depth".

Definition popParseState (s : scanner) : scanner :=
  match parseState s with
  | _ :: [] => mkScanner stateEndTop true [] (err s)
  | _ :: rest => mkScanner stateEndValue (endTop s) rest (err s)
  | [] => s
  end.

Definition setTop (s : scanner) (k : parseKind) : scanner :=
  match parseState s with
  | _ :: rest => mkScanner (step s) (endTop s) (k :: rest) (err s)
  | [] => s
  end.

Definition doEndTop (s : scanner) (c : ascii) : scanner * opcode :=
  if negb (isSpace c) then (fst (syntaxError s c "after top-level value"), scanEnd)
  else (s, scanEnd).

Definition doEndValue (s : scanner) (c : ascii) : scanner * opcode :=
  match parseState s with
  | [] => doEndTop (mkScanner stateEndTop true [] (err s)) c
  | ps :: _ =>
      if isSpace c then (goto s stateEndValue, scanSkipSpace)
      else match ps with
           | parseObjectKey =>
               if isByte c ":" then (goto (setTop s parseObjectValue) stateBeginValue,
                                 scanObjectKey)
               else syntaxError s c "after object key"
           | parseObjectValue =>
               if isByte c "," then (goto (setTop s parseObjectKey) stateBeginString,
                                 scanObjectValue)
               else if isByte c "}" then (popParseState s, scanEndObject)
               else syntaxError s c "after object key:value pair"
           | parseArrayValue =>
               if isByte c "," then (goto s stateBeginValue, scanArrayValue)
               else if isByte c "]" then (popParseState s, scanEndArray)
               else syntaxError s c "after array element"
           end
  end.

Definition doBeginValue (s : scanner) (c : ascii) : scanner * opcode :=
  if isSpace c then (s, scanSkipSpace)
  else if isByte c "{" then
    pushParseState s c parseObjectKey stateBeginStringOrEmpty scanBeginObject
  else if isByte c "[" then
    pushParseState s c parseArrayValue stateBeginValueOrEmpty scanBeginArray
  else if isByte c (ascii_of_N 34) then (goto s stateInString, scanBeginLiteral)
  else if isByte c "-" then (goto s stateNeg, scanBeginLiteral)
  else if isByte c "0" then (goto s state0, scanBeginLiteral)
  else if isByte c "t" then (goto s stateT, scanBeginLiteral)
  else if isByte c "f" then (goto s stateF, scanBeginLiteral)
  else if isByte c "n" then (goto s stateN, scanBeginLiteral)
  else if between "1" "9" c then (goto s state1, scanBeginLiteral)
  else syntaxError s c "looking for beginning of value".

Definition doBeginString (s : scanner) (c : ascii) : scanner * opcode :=
  if isSpace c then (s, scanSkipSpace)
  else if isByte c (ascii_of_N 34) then (goto s stateInString, scanBeginLiteral)
  else syntaxError s c "looking for beginning of object key string".

Definition do0 (s : scanner) (c : ascii) : scanner * opcode :=
  if isByte c "." then (goto s stateDot, scanContinue)
  else if isByte c "e" || isByte c "E" then (goto s stateE, scanContinue)
  else doEndValue s c.

Definition doESign (s : scanner) (c : ascii) : scanner * opcode :=
  if isDigit c then (goto s stateE0, scanContinue)
  else syntaxError s c "in exponent of numeric literal".

Definition expect (s : scanner) (c want : ascii) (next : stepState) (context : string)
    : scanner * opcode :=
  if isByte c want then (goto s next, scanContinue) else syntaxError s c context.

(** [s.step(s, c)]. *)
Definition stepByte (s : scanner) (c : ascii) : scanner * opcode :=
  match step s with
  | stateBeginValueOrEmpty =>
      if isSpace c then (s, scanSkipSpace)
      else if isByte c "]" then doEndValue s c
      else doBeginValue s c
  | stateBeginValue => doBeginValue s c
  | stateBeginStringOrEmpty =>
      if isSpace c then (s, scanSkipSpace)
      else if isByte c "}" then doEndValue (setTop s parseObjectValue) c
      else doBeginString s c
  | stateBeginString => doBeginString s c
  | stateEndValue => doEndValue s c
  | stateEndTop => doEndTop s c
  | stateInString =>
      if isByte c (ascii_of_N 34) then (goto s stateEndValue, scanContinue)
      else if isByte c "\" then (goto s stateInStringEsc, scanContinue)
      else if (N_of_ascii c <? 32)%N then syntaxError s c "in string literal"
      else (s, scanContinue)
  | stateInStringEsc =>
      if strings.byte_in c ["b"; "f"; "n"; "r"; "t"; "\"; "/"; ascii_of_N 34]%char
      then (goto s stateInString, scanContinue)
      else if isByte c "u" then (goto s stateInStringEscU, scanContinue)
      else syntaxError s c "in string escape code"
  | stateInStringEscU =>
      if isHex c then (goto s stateInStringEscU1, scanContinue)
      else syntaxError s c "in \u hexadecimal character escape"
  | stateInStringEscU1 =>
      if isHex c then (goto s stateInStringEscU12, scanContinue)
      else syntaxError s c "in \u hexadecimal character escape"
  | stateInStringEscU12 =>
      if isHex c then (goto s stateInStringEscU123, scanContinue)
      else syntaxError s c "in \u hexadecimal character escape"
  | stateInStringEscU123 =>
      if isHex c then (goto s stateInString, scanContinue)
      else syntaxError s c "in \u hexadecimal character escape"
  | stateNeg =>
      if isByte c "0" then (goto s state0, scanContinue)
      else if between "1" "9" c then (goto s state1, scanContinue)
      else syntaxError s c "in numeric literal"
  | state1 =>
      if isDigit c then (goto s state1, scanContinue) else do0 s c
  | state0 => do0 s c
  | stateDot =>
      if isDigit c then (goto s stateDot0, scanContinue)
      else syntaxError s c "after decimal point in numeric literal"
  | stateDot0 =>
      if isDigit c then (s, scanContinue)
      else if isByte c "e" || isByte c "E" then (goto s stateE, scanContinue)
      else doEndValue s c
  | stateE =>
      if isByte c "+" || isByte c "-" then (goto s stateESign, scanContinue)
      else doESign s c
  | stateESign => doESign s c
  | stateE0 =>
      if isDigit c then (s, scanContinue) else doEndValue s c
  | stateT => expect s c "r" stateTr "in literal true (expecting 'r')"
  | stateTr => expect s c "u" stateTru "in literal true (expecting 'u')"
  | stateTru => expect s c "e" stateEndValue "in literal true (expecting 'e')"
  | stateF => expect s c "a" stateFa "in literal false (expecting 'a')"
  | stateFa => expect s c "l" stateFal "in literal false (expecting 'l')"
  | stateFal => expect s c "s" stateFals "in literal false (expecting 's')"
  | stateFals => expect s c "e" stateEndValue "in literal false (expecting 'e')"
  | stateN => expect s c "u" stateNu "in literal null (expecting 'u')"
  | stateNu => expect s c "l" stateNul "in literal null (expecting 'l')"
  | stateNul => expect s c "l" stateEndValue "in literal null (expecting 'l')"
  | stateError => (s, scanError)
  end.

Definition scanErr (s : scanner) : error :=
  match err s with Some e => e | None => errorString "invalid JSON" end.

Definition ErrEOF : error := errorString "EOF".
Definition ErrUnexpectedEOF : error := errorString "unexpected EOF".

Fixpoint nonSpace (data : string) : bool :=
  match data with
  | EmptyString => false
  | String c rest => negb (isSpace c) || nonSpace rest
  end.

(** [Decoder.readValue] on input that is all in the buffer: the number
    of bytes of the first value, leading space included.  [n] counts the
    bytes read so far and [all] is the whole input (for the test at the
    end of it). *)
Fixpoint readLoop (s : scanner) (data : string) (n : nat) (all : string) : Result nat :=
  match data with
  | EmptyString =>
      match snd (stepByte s " ") with
      | scanEnd => Ok n
      | _ => Err (if nonSpace all then ErrUnexpectedEOF else ErrEOF)
      end
  | String c rest =>
      let '(s', op) := stepByte s c in
      match op with
      | scanEnd => Ok n
      | scanEndObject | scanEndArray =>
          match snd (doEndValue s' " ") with
          | scanEnd => Ok (S n)
          | _ => readLoop s' rest (S n) all
          end
      | scanError => Err (scanErr s')
      | _ => readLoop s' rest (S n) all
      end
  end.

Definition readValue (data : string) : Result nat := readLoop reset data 0 data.

(** [scanner.eof] and [checkValid]. *)
Definition eof (s : scanner) : bool :=
  match err s with
  | Some _ => false
  | None => endTop s || endTop (fst (stepByte s " "))
  end.

Fixpoint checkLoop (s : scanner) (data : string) : option error :=
  match data with
  | EmptyString =>
      if eof s then None
      else Some (match err (fst (stepByte s " ")) with
                 | Some e => e
                 | None => errorString "unexpected end of JSON input"
                 end)
  | String c rest =>
      let '(s', op) := stepByte s c in
      match op with
      | scanError => Some (scanErr s')
      | _ => checkLoop s' rest
      end
  end.

Definition checkValid (data : string) : option error := checkLoop reset data.

Fixpoint skipSpace (data : string) : string :=
  match data with
  | String c rest => if isSpace c then skipSpace rest else data
  | EmptyString => data
  end.

(** [Decoder.Decode] into a [json.RawMessage], with [InputOffset]: the
    bytes of the first value and the offset behind it. *)
Definition DecodeRaw (data : string) : Result (string * nat) :=
  match readValue data with
  | Err e => Err e
  | Ok n => Ok (skipSpace (sprefix n data), n)
  end.

(** *** unicode/utf8 and the unquoting of string literals *)

Definition RuneError : N := 65533.
Definition MaxRune : N := 1114111.

Definition byteAt (s : string) (i : nat) : option N :=
  N_of_ascii <$> String.get i s.

Definition inRange (lo hi x : N) : bool := ((lo <=? x) && (x <=? hi))%N.

(** The size and the range of the second byte that [first] and
    [acceptRanges] give for a leading byte; [None] for a byte that starts
    no sequence. *)
Definition leading (p0 : N) : option (nat * N * N) :=
  if inRange 194 223 p0 then Some (2%nat, 128%N, 191%N)
  else if (p0 =? 224)%N then Some (3%nat, 160%N, 191%N)
  else if inRange 225 236 p0 || inRange 238 239 p0 then Some (3%nat, 128%N, 191%N)
  else if (p0 =? 237)%N then Some (3%nat, 128%N, 159%N)
  else if (p0 =? 240)%N then Some (4%nat, 144%N, 191%N)
  else if inRange 241 243 p0 then Some (4%nat, 128%N, 191%N)
  else if (p0 =? 244)%N then Some (4%nat, 128%N, 143%N)
  else None.

Definition low6 (x : N) : N := N.land x 63.

(** [utf8.DecodeRune] on a string that is not empty. *)
Definition DecodeRune (p : string) : N * nat :=
  match byteAt p 0 with
  | None => (RuneError, 0%nat)
  | Some p0 =>
      if (p0 <? 128)%N then (p0, 1%nat)
      else match leading p0 with
           | None => (RuneError, 1%nat)
           | Some (sz, lo, hi) =>
               match byteAt p 1, byteAt p 2, byteAt p 3 with
               | Some b1, b2, b3 =>
                   if negb (inRange lo hi b1) then (RuneError, 1%nat)
                   else if (sz <=? 2)%nat then
                     (N.lor (N.shiftl (N.land p0 31) 6) (low6 b1), 2%nat)
                   else match b2 with
                        | None => (RuneError, 1%nat)
                        | Some b2 =>
                            if negb (inRange 128 191 b2) then (RuneError, 1%nat)
                            else if (sz <=? 3)%nat then
                              (N.lor (N.shiftl (N.land p0 15) 12)
                                 (N.lor (N.shiftl (low6 b1) 6) (low6 b2)), 3%nat)
                            else match b3 with
                                 | None => (RuneError, 1%nat)
                                 | Some b3 =>
                                     if negb (inRange 128 191 b3) then (RuneError, 1%nat)
                                     else
                                       (N.lor (N.shiftl (N.land p0 7) 18)
                                          (N.lor (N.shiftl (low6 b1) 12)
                                             (N.lor (N.shiftl (low6 b2) 6) (low6 b3))),
                                        4%nat)
                                 end
                        end
               | None, _, _ => (RuneError, 1%nat)
               end
           end
  end.

Definition isSurrogate (r : N) : bool := inRange 55296 57343 r.

Definition cont (x : N) : ascii := ascii_of_N (N.lor 128 (low6 x)).

(** [utf8.EncodeRune]. *)
Definition EncodeRune (r : N) : string :=
  let r := if (MaxRune <? r)%N || isSurrogate r then RuneError else r in
  if (r <=? 127)%N then String (ascii_of_N r) ""
  else if (r <=? 2047)%N then
    String (ascii_of_N (N.lor 192 (N.shiftr r 6))) (String (cont r) "")
  else if (r <=? 65535)%N then
    String (ascii_of_N (N.lor 224 (N.shiftr r 12)))
      (String (cont (N.shiftr r 6)) (String (cont r) ""))
  else
    String (ascii_of_N (N.lor 240 (N.shiftr r 18)))
      (String (cont (N.shiftr r 12))
         (String (cont (N.shiftr r 6)) (String (cont r) ""))).

Definition hexValue (c : ascii) : option N :=
  let n := N_of_ascii c in
  if isDigit c then Some (n - 48)%N
  else if between "a" "f" c then Some (n - 97 + 10)%N
  else if between "A" "F" c then Some (n - 65 + 10)%N
  else None.

(** [getu4]: the code unit of a [\uXXXX] at the head of [s]. *)
Definition getu4 (s : string) : option N :=
  match s with
  | String "\" (String "u" (String h1 (String h2 (String h3 (String h4 _))))) =>
      a ← hexValue h1; b ← hexValue h2; c ← hexValue h3; d ← hexValue h4;
      Some (a * 4096 + b * 256 + c * 16 + d)%N
  | _ => None
  end.

(** [utf16.DecodeRune]. *)
Definition utf16DecodeRune (r1 : N) (r2 : option N) : N :=
  match r2 with
  | Some r2 =>
      if inRange 55296 56319 r1 && inRange 56320 57343 r2
      then ((r1 - 55296) * 1024 + (r2 - 56320) + 65536)%N
      else RuneError
  | None => RuneError
  end.

Definition dquote : ascii := ascii_of_N 34.

(** The loop of [unquoteBytes] over the text between the quotes.  (The
    source first looks for a byte that needs work and returns the text as
    it is when there is none; the loop gives the same text then.) *)
Fixpoint unquoteLoop (fuel : nat) (s : string) : option string :=
  match fuel, s with
  | _, EmptyString => Some ""
  | O, _ => None
  | S fuel, String c rest =>
      if isByte c "\" then
        match rest with
        | EmptyString => None
        | String e rest' =>
            if strings.byte_in e [dquote; "\"; "/"; "'"]%char
            then String e <$> unquoteLoop fuel rest'
            else if isByte e "b" then String "008" <$> unquoteLoop fuel rest'
            else if isByte e "f" then String "012" <$> unquoteLoop fuel rest'
            else if isByte e "n" then String "010" <$> unquoteLoop fuel rest'
            else if isByte e "r" then String "013" <$> unquoteLoop fuel rest'
            else if isByte e "t" then String "009" <$> unquoteLoop fuel rest'
            else if isByte e "u" then
              rr ← getu4 s;
              let after := sdrop 6 s in
              if isSurrogate rr then
                let dec := utf16DecodeRune rr (getu4 after) in
                if negb (dec =? RuneError)%N
                then append (EncodeRune dec) <$> unquoteLoop fuel (sdrop 6 after)
                else append (EncodeRune RuneError) <$> unquoteLoop fuel after
              else append (EncodeRune rr) <$> unquoteLoop fuel after
            else None
        end
      else if isByte c dquote || (N_of_ascii c <? 32)%N then None
      else if (N_of_ascii c <? 128)%N then String c <$> unquoteLoop fuel rest
      else
        let '(rr, size) := DecodeRune s in
        append (EncodeRune rr) <$> unquoteLoop fuel (sdrop size s)
  end.

Definition unquote (inner : string) : option string :=
  unquoteLoop (String.length inner) inner.

(** *** The values of a text that [checkValid] accepted

    The decoder walks the text with the scanner and finds the end of a
    literal with [rescanLiteral]; the functions below read the same text by
    recursive descent.  A number keeps its text. *)

#[warnings="-register-all"]
Inductive value : Type :=
| Null
| Bool (b : bool)
| Number (text : string)
| Str (s : string)
| Array (elems : list value)
| Object (members : list (string * value)).

(** [rescanLiteral] inside a string: the text up to the closing quote,
    and what follows the quote. *)
Fixpoint stringEnd (s : string) (escaped : bool) : option (string * string) :=
  match s with
  | EmptyString => None
  | String c rest =>
      if escaped then
        '(inner, after) ← stringEnd rest false; Some (String c inner, after)
      else if isByte c dquote then Some (EmptyString, rest)
      else
        '(inner, after) ← stringEnd rest (isByte c "\"); Some (String c inner, after)
  end.

Definition numberByte (c : ascii) : bool :=
  isDigit c || strings.byte_in c ["."; "e"; "E"; "+"; "-"]%char.

Fixpoint numberEnd (s : string) : string * string :=
  match s with
  | String c rest =>
      if numberByte c then let '(n, after) := numberEnd rest in (String c n, after)
      else (EmptyString, s)
  | EmptyString => (EmptyString, EmptyString)
  end.

Definition readString (s : string) : option (string * string) :=
  '(inner, after) ← stringEnd s false;
  text ← unquote inner;
  Some (text, after).

Definition keyword (s word : string) (v : value) : option (value * string) :=
  if HasPrefix s word then Some (v, sdrop (String.length word) s) else None.

Fixpoint readValueAt (fuel : nat) (s : string) : option (value * string) :=
  match fuel with
  | O => None
  | S fuel =>
      match skipSpace s with
      | EmptyString => None
      | String c rest as s =>
          if isByte c "{" then
            match skipSpace rest with
            | String "}" after => Some (Object [], after)
            | _ => '(ms, after) ← readMembers fuel rest; Some (Object ms, after)
            end
          else if isByte c "[" then
            match skipSpace rest with
            | String "]" after => Some (Array [], after)
            | _ => '(vs, after) ← readElements fuel rest; Some (Array vs, after)
            end
          else if isByte c dquote then
            '(text, after) ← readString rest; Some (Str text, after)
          else if isByte c "t" then keyword s "true" (Bool true)
          else if isByte c "f" then keyword s "false" (Bool false)
          else if isByte c "n" then keyword s "null" Null
          else if isByte c "-" || isDigit c then
            let '(n, after) := numberEnd s in Some (Number n, after)
          else None
      end
  end
with readMembers (fuel : nat) (s : string) : option (list (string * value) * string) :=
  match fuel with
  | O => None
  | S fuel =>
      match skipSpace s with
      | String c rest =>
          if isByte c dquote then
            '(key, after) ← readString rest;
            match skipSpace after with
            | String ":" after =>
                '(v, after) ← readValueAt fuel after;
                match skipSpace after with
                | String "," after =>
                    '(ms, after) ← readMembers fuel after; Some ((key, v) :: ms, after)
                | String "}" after => Some ([(key, v)], after)
                | _ => None
                end
            | _ => None
            end
          else None
      | EmptyString => None
      end
  end
with readElements (fuel : nat) (s : string) : option (list value * string) :=
  match fuel with
  | O => None
  | S fuel =>
      '(v, after) ← readValueAt fuel s;
      match skipSpace after with
      | String "," after =>
          '(vs, after) ← readElements fuel after; Some (v :: vs, after)
      | String "]" after => Some ([v], after)
      | _ => None
      end
  end.

(** The value of a whole text: [checkValid], then the descent. *)
Definition valueOf (data : string) : Result value :=
  match checkValid data with
  | Some e => Err e
  | None =>
      match readValueAt (S (String.length data)) data with
      | Some (v, _) => Ok v
      | None => Err (errorString "invalid JSON")
      end
  end.

(** The name [UnmarshalTypeError] gives to the kind of a value. *)
Definition kindOf (v : value) : string :=
  match v with
  | Null => "null"
  | Bool _ => "bool"
  | Number _ => "number"
  | Str _ => "string"
  | Array _ => "array"
  | Object _ => "object"
  end.

Definition upperByte (c : ascii) : ascii :=
  if between "a" "z" c then ascii_of_N (N_of_ascii c - 32) else c.

(** [foldName] on a key, as far as it can meet an ASCII field name: ASCII
    letters go to upper case, and the two letters outside ASCII that fold
    to an ASCII one, U+017F and U+212A, go to S and K.  Every other
    character folds to one outside ASCII and is left as it is. *)
Fixpoint foldName (key : string) : string :=
  match key with
  | EmptyString => EmptyString
  | String c rest =>
      match N_of_ascii c, rest with
      | 197%N, String d rest' =>
          if (N_of_ascii d =? 191)%N then String "S" (foldName rest')
          else String c (foldName rest)
      | 226%N, String d (String e rest') =>
          if ((N_of_ascii d =? 132) && (N_of_ascii e =? 170))%N
          then String "K" (foldName rest')
          else String c (foldName rest)
      | _, _ => String (upperByte c) (foldName rest)
      end
  end.

End json.

(** ** pkg/llm: reading the outcome from the output of an LLM run *)

Module llm_parse.
Import llm_run.

(** *** [json.Unmarshal(raw, &resp)] for a [Response]

    The members of the object are stored one after the other.  A key
    names a field when it equals the field's JSON name up to case folding;
    other keys are skipped.  A string is stored, [null] leaves a string
    field as it is and clears the map, and a value of another kind is
    recorded as the error of the call (the first one is kept) while the
    decoding goes on. *)

Inductive field : Type :=
| FDecision | FNeedsInfoComment | FCommitMessage | FPRTitle | FPRBody | FPatch
| FFiles | FSummary.

Definition jsonName (f : field) : string :=
  match f with
  | FDecision => "decision"
  | FNeedsInfoComment => "needs_info_comment"
  | FCommitMessage => "commit_message"
  | FPRTitle => "pr_title"
  | FPRBody => "pr_body"
  | FPatch => "patch"
  | FFiles => "files"
  | FSummary => "summary"
  end.

Definition fields : list field :=
  [FDecision; FNeedsInfoComment; FCommitMessage; FPRTitle; FPRBody; FPatch; FFiles;
   FSummary].

Definition fieldOf (key : string) : option field :=
  List.find (fun f => String.eqb (json.foldName (jsonName f)) (json.foldName key)) fields.

Definition setString (f : field) (s : string) (r : Response) : Response :=
  match f with
  | FDecision =>
      mkResponse s (NeedsInfoComment r) (CommitMessage r) (PRTitle r) (PRBody r)
        (Patch r) (Files r) (Summary r)
  | FNeedsInfoComment =>
      mkResponse (Decision r) s (CommitMessage r) (PRTitle r) (PRBody r)
        (Patch r) (Files r) (Summary r)
  | FCommitMessage =>
      mkResponse (Decision r) (NeedsInfoComment r) s (PRTitle r) (PRBody r)
        (Patch r) (Files r) (Summary r)
  | FPRTitle =>
      mkResponse (Decision r) (NeedsInfoComment r) (CommitMessage r) s (PRBody r)
        (Patch r) (Files r) (Summary r)
  | FPRBody =>
      mkResponse (Decision r) (NeedsInfoComment r) (CommitMessage r) (PRTitle r) s
        (Patch r) (Files r) (Summary r)
  | FPatch =>
      mkResponse (Decision r) (NeedsInfoComment r) (CommitMessage r) (PRTitle r)
        (PRBody r) s (Files r) (Summary r)
  | FSummary =>
      mkResponse (Decision r) (NeedsInfoComment r) (CommitMessage r) (PRTitle r)
        (PRBody r) (Patch r) (Files r) s
  | FFiles => r
  end.

Definition setFiles (m : gmap string string) (r : Response) : Response :=
  mkResponse (Decision r) (NeedsInfoComment r) (CommitMessage r) (PRTitle r)
    (PRBody r) (Patch r) m (Summary r).

Record decodeState : Type := mkDecodeState {
  target : Response;
  savedError : option error
}.

Definition typeError (v : json.value) (f : field) : error :=
  errorString ("json: cannot unmarshal " ++ json.kindOf v
               ++ " into Go struct field Response." ++ jsonName f).

Definition saveError (e : error) (d : decodeState) : decodeState :=
  match savedError d with
  | Some _ => d
  | None => mkDecodeState (target d) (Some e)
  end.

Definition update (g : Response -> Response) (d : decodeState) : decodeState :=
  mkDecodeState (g (target d)) (savedError d).

(** One entry of the [files] object: the element starts as the empty
    string and is put into the map whatever the value was. *)
Definition storeFile (d : decodeState) (entry : string * json.value) : decodeState :=
  let '(name, v) := entry in
  match v with
  | json.Str s => update (fun r => setFiles (<[name := s]> (Files r)) r) d
  | json.Null => update (fun r => setFiles (<[name := ""]> (Files r)) r) d
  | _ => saveError (typeError v FFiles)
           (update (fun r => setFiles (<[name := ""]> (Files r)) r) d)
  end.

Definition storeMember (d : decodeState) (member : string * json.value) : decodeState :=
  let '(key, v) := member in
  match fieldOf key with
  | None => d
  | Some FFiles =>
      match v with
      | json.Object entries => fold_left storeFile entries d
      | json.Null => update (setFiles ∅) d
      | _ => saveError (typeError v FFiles) d
      end
  | Some f =>
      match v with
      | json.Str s => update (setString f s) d
      | json.Null => d
      | _ => saveError (typeError v f) d
      end
  end.

Definition Unmarshal (raw : string) : Response * option error :=
  match json.valueOf raw with
  | Err e => (emptyResponse, Some e)
  | Ok (json.Object members) =>
      let d := fold_left storeMember members (mkDecodeState emptyResponse None) in
      (target d, savedError d)
  | Ok v =>
      (emptyResponse,
       Some (errorString ("json: cannot unmarshal " ++ json.kindOf v
                          ++ " into Go value of type llm.Response")))
  end.

(** *** The functions of [llm.go] *)

Definition parseResponseJSON (raw : string) : Result Response :=
  match Unmarshal raw with
  | (_, Some e) => Err e
  | (resp, None) =>
      if String.eqb (Decision resp) "" then Err (errorString "missing decision")
      else Ok resp
  end.

(** The raw text and the offset are given also when there is an error,
    as the source returns them. *)
Record decoded : Type := mkDecoded {
  raw : string;
  offset : nat;
  outcome : Result Response
}.

Definition decodeFirstJSONObject (data : string) : Result (string * nat) :=
  json.DecodeRaw data.

Definition decodeResponseFrom (data : string) : decoded :=
  match decodeFirstJSONObject data with
  | Err e => mkDecoded "" 0 (Err e)
  | Ok (raw, offset) =>
      let raw := strings.TrimSpace raw in
      if negb (HasPrefix raw "{")
      then mkDecoded raw offset (Err (errorString "LLM output is not a JSON object"))
      else mkDecoded raw offset (parseResponseJSON raw)
  end.

(** [bytes.IndexByte]. *)
Abbreviation IndexByte := strings.IndexByte.

(** The loop of [extractResponseJSON].  [rest] is the text from the
    place where the next opening brace is looked for, and [last] the raw
    text and the error of the last candidate.  Every round drops at least
    one byte, so the length of the text is fuel enough. *)
Fixpoint candidates (fuel : nat) (rest : string) (lastRaw : string)
    (lastErr : option error) : string * Result Response :=
  match fuel with
  | O => (lastRaw, Err (default (errorString "LLM output missing JSON object") lastErr))
  | S fuel =>
      match IndexByte rest "{" with
      | None =>
          match lastErr with
          | Some e => (lastRaw, Err e)
          | None => ("", Err (errorString "LLM output missing JSON object"))
          end
      | Some idx =>
          let here := sdrop idx rest in
          let d := decodeResponseFrom here in
          match outcome d with
          | Ok resp => (raw d, Ok resp)
          | Err e =>
              let lastRaw := if String.eqb (raw d) "" then lastRaw else raw d in
              if (0 <? offset d)%nat
              then candidates fuel (sdrop (offset d) here) lastRaw (Some e)
              else candidates fuel (sdrop 1 here) lastRaw (Some e)
          end
      end
  end.

Definition extractResponseJSON (data : string) : string * Result Response :=
  let trimmed := strings.TrimSpace data in
  if String.eqb trimmed "" then ("", Err (errorString "LLM output is empty"))
  else candidates (S (String.length trimmed)) trimmed "" None.

Definition ParseResponse (data : string) : Result Response :=
  snd (extractResponseJSON data).

End llm_parse.

(** ** The agent loop: what is claimed of it *)

Module orchestrator_spec.
Import llm orchestrator.

(** Every tool_result names a tool_use of the same list: its id is not
    empty and some tool_use block of the list carries it. *)
Definition pairsIntact (messages : list Message) : Prop :=
  forall msg block,
    msg ∈ messages -> block ∈ MContent msg -> isToolResult block = true ->
    ToolUseID block <> ""
    /\ exists msg' block',
         msg' ∈ messages /\ block' ∈ MContent msg'
         /\ isToolUse block' = true /\ ID block' = ToolUseID block.

(** The stricter reading, in the words of the specification: the matching
    tool_use comes earlier in the list.  Blocks are visited in order and
    a tool_result is accepted when its id was seen on a tool_use before. *)
Definition visitBlock (acc : gset string * bool) (block : ContentBlock)
    : gset string * bool :=
  let '(seen, ok) := acc in
  if isToolUse block then ({[ ID block ]} ∪ seen, ok)
  else if isToolResult block
       then (seen, ok && bool_decide (ToolUseID block ∈ seen))
       else (seen, ok).

Definition pairedWithEarlierToolUse (messages : list Message) : bool :=
  snd (fold_left (fun acc msg => fold_left visitBlock (MContent msg) acc)
                 messages (∅, true)).

(** "first message + last n messages", in the words of the specification. *)
Definition firstAndLast (messages : list Message) (n : Z) : list Message :=
  take 1 messages ++ drop (length messages - Z.to_nat n) messages.

(** A provider that always fails, and one that always answers with the
    same text; neither has state. *)
Definition failingProvider (req : AgentRequest) (s : unit)
    : Result AgentResponse * unit :=
  (Err (errorString "unavailable"), s).

Definition answeringProvider (text : string) (req : AgentRequest) (s : unit)
    : Result AgentResponse * unit :=
  (Ok (mkAgentResponse "msg_1" RoleAssistant [textBlock text]
         StopReasonEndTurn (mkUsage 1 1)), s).

(** Four plain text messages. *)
Definition fourTexts : list Message :=
  [NewTextMessage RoleUser "task";
   NewTextMessage RoleAssistant "reading";
   NewTextMessage RoleAssistant "working";
   NewTextMessage RoleAssistant "done"].

Definition keepOne : CompactConfig := mkCompactConfig true 2 1.

(** A conversation in which a tool_result precedes the tool_use it names. *)
Definition resultBeforeUse : list Message :=
  [NewTextMessage RoleUser "task";
   NewTextMessage RoleAssistant "one";
   NewTextMessage RoleAssistant "two";
   NewToolResultMessage "a" "out" false;
   mkMessage RoleAssistant [toolUseBlock "a" "bash" ∅]].

(** Some tool_use block of [messages] carries the id [x], which is not
    empty. *)
Definition usesID (x : string) (messages : list Message) : Prop :=
  exists msg block,
    msg ∈ messages /\ block ∈ MContent msg
    /\ isToolUse block = true /\ ID block = x /\ x <> "".

End orchestrator_spec.

(** ** pkg/tools: the tool context *)

Module tools.
Import llm.

Record Permissions : Type := mkPermissions {
  AllowBash : bool;
  AllowFileRead : bool;
  AllowFileWrite : bool;
  AllowGit : bool;
  AllowGitHub : bool;
  AllowNetwork : bool
}.

Definition DefaultPermissions : Permissions :=
  mkPermissions true true true true true true.

Definition RestrictedPermissions : Permissions :=
  mkPermissions false true false false false false.

Record ToolContext : Type := mkToolContext {
  WorkDir : string;
  Perms : Permissions;
  GitHubToken : string;
  RepoOwner : string;
  RepoName : string;
  Env : gmap string string;
  BashTimeout : Z
}.

Definition NewToolContext (workDir : string) : ToolContext :=
  mkToolContext workDir DefaultPermissions "" "" "" ∅ 60.

Definition WithBashTimeout (c : ToolContext) (seconds : Z) : ToolContext :=
  mkToolContext (WorkDir c) (Perms c) (GitHubToken c) (RepoOwner c) (RepoName c)
                (Env c) seconds.

Definition WithPermissions (c : ToolContext) (p : Permissions) : ToolContext :=
  mkToolContext (WorkDir c) p (GitHubToken c) (RepoOwner c) (RepoName c)
                (Env c) (BashTimeout c).

Definition ErrNoWorkDir : error := errorString "working directory not set".
Definition ErrPathOutsideWorkDir : error := errorString "path is outside working directory".
Definition ErrBashNotAllowed : error := errorString "bash execution not allowed".

(** [ValidatePath]; [getwd] is the answer of [os.Getwd], which
    [filepath.Abs] asks for when the working directory is relative. *)
Definition ValidatePath (getwd : Result string) (c : ToolContext) (path : string)
    : Result string :=
  if String.eqb (WorkDir c) "" then Err ErrNoWorkDir
  else
    let absPath :=
      if filepath.IsAbs path then filepath.Clean path
      else filepath.Clean (filepath.Join [WorkDir c; path]) in
    match filepath.Abs getwd (WorkDir c) with
    | Err err => Err err
    | Ok absWorkDir =>
        let absWorkDir := filepath.Clean absWorkDir in
        match filepath.Rel absWorkDir absPath with
        | Err _ => Err ErrPathOutsideWorkDir
        | Ok rel =>
            if HasPrefix rel ".." then Err ErrPathOutsideWorkDir
            else Ok absPath
        end
    end.

Definition CheckBash (c : ToolContext) : option error :=
  if negb (AllowBash (Perms c)) then Some ErrBashNotAllowed else None.

Record ToolResult : Type := mkToolResult {
  TRContent : string;
  TRIsError : bool
}.

Definition NewToolResult (content : string) : ToolResult := mkToolResult content false.
Definition NewErrorResult (err : error) : ToolResult := mkToolResult (Error err) true.
Definition NewErrorResultf (message : string) : ToolResult := mkToolResult message true.

End tools.

(** ** pkg/tools/builtin: the bash tool *)

Module builtin.
Import llm tools.

(** What running the command gave: the two output buffers, the error of
    [cmd.Run] and whether the context's deadline had passed
    ([ctx.Err() == context.DeadlineExceeded]). *)
Record ProcessOutcome : Type := mkProcessOutcome {
  stdout : string;
  stderr : string;
  runErr : option error;
  deadlineExceeded : bool
}.

Definition dangerous : list string :=
  ["rm -rf /"; "rm -rf ~"; "mkfs"; "dd if=/dev/"; ":(){:|:&};:"; "> /dev/sd";
   "chmod -R 777 /"].

(** [int(t)] for a float64: the value is cut towards zero.  Outside the
    range of [int] the language leaves the result to the implementation
    ([overflow]). *)
Definition truncate (f : spec_float) : option Z :=
  match f with
  | S754_zero _ => Some 0
  | S754_finite s m e =>
      let mag := if 0 <=? e then Z.pos m * 2 ^ e else Z.pos m / 2 ^ (- e) in
      Some (if s then - mag else mag)
  | _ => None
  end.

Definition float64ToInt (overflow : Z) (f : spec_float) : Z :=
  match truncate f with
  | Some z => if (- 2 ^ 63 <=? z) && (z <? 2 ^ 63) then z else overflow
  | None => overflow
  end.

Section Environment.
(** [strings.ToLower], [os.Getenv("HOME")], the order in which the
    environment map is ranged over, the conversion of an out-of-range
    float, and the operating system that runs the command. *)
Variable ToLower : string -> string.
Variable home : string.
Variable rangeEnv : gmap string string -> list (string * string).
Variable overflow : Z.
Variable runCommand :
  forall (timeout : Z) (command dir : string) (env : list string), ProcessOutcome.

Definition validateCommand (command : string) : option error :=
  let lower := ToLower command in
  match List.find (fun d => Contains lower d) dangerous with
  | Some d => Some (errorString ("potentially dangerous command blocked: " ++ d))
  | None => None
  end.

Definition buildEnv (toolCtx : ToolContext) : list string :=
  let home := if String.eqb home "" then "/tmp" else home in
  ["PATH=/usr/local/bin:/usr/bin:/bin:/usr/sbin:/sbin"; "HOME=" ++ home]
  ++ map (fun '(k, v) => k ++ "=" ++ v) (rangeEnv (Env toolCtx)).

(** The timeout in effect, from [timeout := toolCtx.BashTimeout] to the
    two comparisons. *)
Definition effectiveTimeout (toolCtx : ToolContext) (input : gmap string any) : Z :=
  let timeout := BashTimeout toolCtx in
  let timeout :=
    match input !! "timeout" with
    | Some (anyNumber t) =>
        if SFltb (S754_zero false) t then float64ToInt overflow t else timeout
    | _ => timeout
    end in
  let timeout := if 300 <? timeout then 300 else timeout in
  if timeout <? 1 then 60 else timeout.

Definition Execute (toolCtx : ToolContext) (input : gmap string any) : ToolResult :=
  match CheckBash toolCtx with
  | Some err => NewErrorResult err
  | None =>
      match input !! "command" with
      | Some (anyString command) =>
          if String.eqb command "" then NewErrorResultf "command is required"
          else
            match validateCommand command with
            | Some err => NewErrorResult err
            | None =>
                let timeout := effectiveTimeout toolCtx input in
                let out := runCommand timeout command (WorkDir toolCtx)
                                      (buildEnv toolCtx) in
                let result := stdout out in
                let result :=
                  if 0 <? slen (stderr out)
                  then (if 0 <? slen result then result ++ nl else result)
                       ++ "STDERR:" ++ nl ++ stderr out
                  else result in
                match runErr out with
                | Some err =>
                    if deadlineExceeded out
                    then mkToolResult
                           ("Command timed out after " ++ itoa timeout ++ " seconds"
                            ++ nl ++ result) true
                    else mkToolResult
                           ("Command failed: " ++ Error err ++ nl ++ result)
                           true
                | None =>
                    NewToolResult (if String.eqb result "" then "(no output)" else result)
                end
            end
      | _ => NewErrorResultf "command is required"
      end
  end.

End Environment.

(** The timeout "clamped to 1..300", in the words of the specification:
    the requested number of seconds, or the default of the context when
    none is given, brought into the range. *)
Definition requestedOrDefault (toolCtx : ToolContext) (input : gmap string any) : Z :=
  match input !! "timeout" with
  | Some (anyNumber t) =>
      match truncate t with Some z => z | None => BashTimeout toolCtx end
  | _ => BashTimeout toolCtx
  end.

Definition clampedTimeout (toolCtx : ToolContext) (input : gmap string any) : Z :=
  Z.max 1 (Z.min 300 (requestedOrDefault toolCtx input)).

(** Example inputs: the float64 value -5, a command that does not return
    in time, and an environment for it. *)
Definition minusFive : spec_float := S754_finite true 5629499534213120 (-50).

Definition sleepInput : gmap string any := {[ "command" := anyString "sleep 600" ]}.

Definition killedByDeadline (timeout : Z) (command dir : string) (env : list string)
    : ProcessOutcome :=
  mkProcessOutcome "" "" (Some (errorString "signal: killed")) true.

Definition orderedEnv (env : gmap string string) : list (string * string) :=
  map_to_list env.

End builtin.

(** ** Go's [net/url] package (Go 1.21): [Parse] and [URL.String]

    An error keeps the text of the cause; the wrapping in [url.Error],
    which quotes the input, is left out. *)

Module url.

Inductive encoding : Type :=
| encodePath | encodePathSegment | encodeHost | encodeZone | encodeUserPassword
| encodeQueryComponent | encodeFragment.

Definition isMode (m n : encoding) : bool :=
  match m, n with
  | encodePath, encodePath | encodePathSegment, encodePathSegment
  | encodeHost, encodeHost | encodeZone, encodeZone
  | encodeUserPassword, encodeUserPassword
  | encodeQueryComponent, encodeQueryComponent
  | encodeFragment, encodeFragment => true
  | _, _ => false
  end.

Definition between (lo hi c : ascii) : bool :=
  ((N_of_ascii lo <=? N_of_ascii c) && (N_of_ascii c <=? N_of_ascii hi))%N.

Definition isLetter (c : ascii) : bool := between "a" "z" c || between "A" "Z" c.
Definition isDigit (c : ascii) : bool := between "0" "9" c.
Definition oneOf (c : ascii) (cs : list ascii) : bool := strings.byte_in c cs.

Definition dquote : ascii := ascii_of_N 34.

Definition ishex (c : ascii) : bool :=
  isDigit c || between "a" "f" c || between "A" "F" c.

Definition unhex (c : ascii) : N :=
  let n := N_of_ascii c in
  if isDigit c then n - 48
  else if between "a" "f" c then n - 97 + 10
  else if between "A" "F" c then n - 65 + 10
  else 0.

Definition upperhex (n : N) : ascii :=
  if (n <? 10)%N then ascii_of_N (48 + n) else ascii_of_N (65 + n - 10).

Definition shouldEscape (c : ascii) (mode : encoding) : bool :=
  if isLetter c || isDigit c then false
  else if (isMode mode encodeHost || isMode mode encodeZone)
          && oneOf c ["!"; "$"; "&"; "'"; "("; ")"; "*"; "+"; ","; ";"; "="; ":"; "[";
                      "]"; "<"; ">"; dquote]%char
  then false
  else if oneOf c ["-"; "_"; "."; "~"]%char then false
  else if oneOf c ["$"; "&"; "+"; ","; "/"; ":"; ";"; "="; "?"; "@"]%char
          && negb (isMode mode encodeHost || isMode mode encodeZone)
  then match mode with
       | encodePath => Ascii.eqb c "?"
       | encodePathSegment => oneOf c ["/"; ";"; ","; "?"]%char
       | encodeUserPassword => oneOf c ["@"; "/"; "?"; ":"]%char
       | encodeQueryComponent => true
       | _ => false
       end
  else if isMode mode encodeFragment && oneOf c ["!"; "("; ")"; "*"]%char then false
  else true.

Definition percent (c : ascii) (rest : string) : string :=
  let n := N_of_ascii c in
  String "%" (String (upperhex (N.shiftr n 4)) (String (upperhex (N.land n 15)) rest)).

(** [escape]; when nothing is to be escaped the result is the string
    itself, as in the source. *)
Fixpoint escape (s : string) (mode : encoding) : string :=
  match s with
  | EmptyString => EmptyString
  | String c rest =>
      if shouldEscape c mode then
        if Ascii.eqb c " " && isMode mode encodeQueryComponent
        then String "+" (escape rest mode)
        else percent c (escape rest mode)
      else String c (escape rest mode)
  end.

Definition EscapeError (s : string) : error :=
  errorString ("invalid URL escape " ++ String dquote s ++ String dquote "").
Definition InvalidHostError (s : string) : error :=
  errorString ("invalid character " ++ String dquote s ++ String dquote ""
               ++ " in host name").

(** [unescape].  The source checks the whole string before it builds the
    result; the first fault found from the left is the same. *)
Fixpoint unescape (s : string) (mode : encoding) : Result string :=
  match s with
  | EmptyString => Ok EmptyString
  | String c rest =>
      if Ascii.eqb c "%" then
        match rest with
        | String h (String l rest') =>
            if negb (ishex h && ishex l) then Err (EscapeError (sprefix 3 s))
            else
              let triple := sprefix 3 s in
              let v := ascii_of_N (N.lor (N.shiftl (unhex h) 4) (unhex l)) in
              if isMode mode encodeHost && (unhex h <? 8)%N
                 && negb (String.eqb triple "%25")
              then Err (EscapeError triple)
              else if isMode mode encodeZone && negb (String.eqb triple "%25")
                      && negb (Ascii.eqb v " ") && shouldEscape v encodeHost
              then Err (EscapeError triple)
              else match unescape rest' mode with
                   | Ok t => Ok (String v t)
                   | Err e => Err e
                   end
        | _ => Err (EscapeError (sprefix 3 s))
        end
      else if Ascii.eqb c "+" then
        match unescape rest mode with
        | Ok t => Ok (String (if isMode mode encodeQueryComponent then " " else "+")%char t)
        | Err e => Err e
        end
      else if (isMode mode encodeHost || isMode mode encodeZone)
              && (N_of_ascii c <? 128)%N && shouldEscape c encodeHost
      then Err (InvalidHostError (String c EmptyString))
      else match unescape rest mode with
           | Ok t => Ok (String c t)
           | Err e => Err e
           end
  end.

Definition validEncodedByte (c : ascii) (mode : encoding) : bool :=
  oneOf c ["!"; "$"; "&"; "'"; "("; ")"; "*"; "+"; ","; ";"; "="; ":"; "@"; "["; "]";
           "%"]%char
  || negb (shouldEscape c mode).

Definition validEncoded (s : string) (mode : encoding) : bool :=
  strings.everyByte (fun c => validEncodedByte c mode) s.

Record Userinfo : Type := mkUserinfo {
  username : string;
  password : string;
  passwordSet : bool
}.

Definition User (username : string) : Userinfo := mkUserinfo username "" false.
Definition UserPassword (username password : string) : Userinfo :=
  mkUserinfo username password true.

Definition UserinfoString (u : Userinfo) : string :=
  escape (username u) encodeUserPassword
  ++ (if passwordSet u then ":" ++ escape (password u) encodeUserPassword else "").

Record URL : Type := mkURL {
  Scheme : string;
Opaque : string;
User_ : option Userinfo;
Host : string;
Path : string;
RawPath : string;
OmitHost : bool;
ForceQuery : bool;
RawQuery : string;
Fragment : string;
RawFragment : string
  }.

Definition emptyURL : URL := mkURL "" "" None "" "" "" false false "" "" "".

Definition stringContainsCTLByte (s : string) : bool :=
  negb (strings.everyByte
          (fun c => negb ((N_of_ascii c <? 32)%N || (N_of_ascii c =? 127)%N)) s).

(** The loop of [getScheme]: [i] is the index of the head of [s] in
    [rawURL]. *)
Fixpoint getSchemeLoop (s : string) (i : nat) (rawURL : string)
    : Result (string * string) :=
  match s with
  | EmptyString => Ok (EmptyString, rawURL)
  | String c rest =>
      if isLetter c then getSchemeLoop rest (S i) rawURL
      else if isDigit c || oneOf c ["+"; "-"; "."]%char then
        match i with
        | O => Ok (EmptyString, rawURL)
        | _ => getSchemeLoop rest (S i) rawURL
        end
      else if Ascii.eqb c ":" then
        match i with
        | O => Err (errorString "missing protocol scheme")
        | _ => Ok (sprefix i rawURL, rest)
        end
      else Ok (EmptyString, rawURL)
  end.

Definition getScheme (rawURL : string) : Result (string * string) :=
  getSchemeLoop rawURL 0 rawURL.

Definition validOptionalPort (port : string) : bool :=
  match port with
  | EmptyString => true
  | String c digits => Ascii.eqb c ":" && strings.everyByte isDigit digits
  end.

Definition invalidPort (colonPort : string) : error :=
  errorString ("invalid port " ++ String dquote colonPort ++ String dquote ""
               ++ " after host").

Definition parseHost (host : string) : Result string :=
  if HasPrefix host "[" then
    match strings.LastIndexByte host "]" with
    | None => Err (errorString "missing ']' in host")
    | Some i =>
        let colonPort := sdrop (S i) host in
        if negb (validOptionalPort colonPort) then Err (invalidPort colonPort)
        else match Index (sprefix i host) "%25" with
             | Some zone =>
                 match unescape (sprefix zone host) encodeHost with
                 | Err e => Err e
                 | Ok host1 =>
                     match unescape (sdrop zone (sprefix i host)) encodeZone with
                     | Err e => Err e
                     | Ok host2 =>
                         match unescape (sdrop i host) encodeHost with
                         | Err e => Err e
                         | Ok host3 => Ok (host1 ++ host2 ++ host3)
                         end
                     end
                 end
             | None => unescape host encodeHost
             end
    end
  else
    match strings.LastIndexByte host ":" with
    | Some i =>
        let colonPort := sdrop i host in
        if negb (validOptionalPort colonPort) then Err (invalidPort colonPort)
        else unescape host encodeHost
    | None => unescape host encodeHost
    end.

Definition validUserinfoByte (c : ascii) : bool :=
  isLetter c || isDigit c
  || oneOf c ["-"; "."; "_"; ":"; "~"; "!"; "$"; "&"; "'"; "("; ")"; "*"; "+"; ","; ";";
              "="; "%"; "@"]%char.

(** The source ranges over the runes of the string; a byte outside ASCII
    gives a rune that is not in the list, so the test is one on bytes. *)
Definition validUserinfo (s : string) : bool := strings.everyByte validUserinfoByte s.

Definition parseAuthority (authority : string) : Result (option Userinfo * string) :=
  match strings.LastIndexByte authority "@" with
  | None =>
      match parseHost authority with
      | Err e => Err e
      | Ok host => Ok (None, host)
      end
  | Some i =>
      match parseHost (sdrop (S i) authority) with
      | Err e => Err e
      | Ok host =>
          let userinfo := sprefix i authority in
          if negb (validUserinfo userinfo) then Err (errorString "net/url: invalid userinfo")
          else if negb (strings.ContainsByte userinfo ":") then
            match unescape userinfo encodeUserPassword with
            | Err e => Err e
            | Ok name => Ok (Some (User name), host)
            end
          else
            let '(name, pass, _) := strings.Cut userinfo ":" in
            match unescape name encodeUserPassword with
            | Err e => Err e
            | Ok name =>
                match unescape pass encodeUserPassword with
                | Err e => Err e
                | Ok pass => Ok (Some (UserPassword name pass), host)
                end
            end
      end
  end.

Definition withAuthority (u : URL) (user : option Userinfo) (host : string) : URL :=
  mkURL (Scheme u) (Opaque u) user host (Path u) (RawPath u) (OmitHost u)
    (ForceQuery u) (RawQuery u) (Fragment u) (RawFragment u).

Definition withOmitHost (u : URL) : URL :=
  mkURL (Scheme u) (Opaque u) (User_ u) (Host u) (Path u) (RawPath u) true
    (ForceQuery u) (RawQuery u) (Fragment u) (RawFragment u).

Definition setPath (u : URL) (p : string) : Result URL :=
  match unescape p encodePath with
  | Err e => Err e
  | Ok path =>
      Ok (mkURL (Scheme u) (Opaque u) (User_ u) (Host u) path
            (if String.eqb p (escape path encodePath) then "" else p)
            (OmitHost u) (ForceQuery u) (RawQuery u) (Fragment u) (RawFragment u))
  end.

Definition setFragment (u : URL) (f : string) : Result URL :=
  match unescape f encodeFragment with
  | Err e => Err e
  | Ok frag =>
      Ok (mkURL (Scheme u) (Opaque u) (User_ u) (Host u) (Path u) (RawPath u)
            (OmitHost u) (ForceQuery u) (RawQuery u) frag
            (if String.eqb f (escape frag encodeFragment) then "" else f))
  end.

(** [parse(rawURL, false)]. *)
Definition parse (rawURL : string) : Result URL :=
  if stringContainsCTLByte rawURL
  then Err (errorString "net/url: invalid control character in URL")
  else if String.eqb rawURL "*"
  then Ok (mkURL "" "" None "" "*" "" false false "" "" "")
  else
    match getScheme rawURL with
    | Err e => Err e
    | Ok (scheme, rest) =>
        let scheme := strings.ToLowerASCII scheme in
        let forceQuery :=
          strings.HasSuffix rest "?" && (strings.CountByte rest "?" =? 1)%nat in
        let '(rest, rawQuery) :=
          if forceQuery then (sprefix (String.length rest - 1) rest, EmptyString)
          else let '(before, after, _) := strings.Cut rest "?" in (before, after) in
        let u := mkURL scheme "" None "" "" "" false forceQuery rawQuery "" "" in
        if negb (HasPrefix rest "/") && negb (String.eqb scheme "")
        then Ok (mkURL scheme rest None "" "" "" false forceQuery rawQuery "" "")
        else if negb (HasPrefix rest "/")
                && strings.ContainsByte (strings.Cut rest "/").1.1 ":"
        then Err (errorString "first path segment in URL cannot contain colon")
        else if (negb (String.eqb scheme "") || negb (HasPrefix rest "///"))
                && HasPrefix rest "//"
        then
          let after := sdrop 2 rest in
          let '(authority, rest) :=
            match strings.IndexByte after "/" with
            | Some i => (sprefix i after, sdrop i after)
            | None => (after, EmptyString)
            end in
          match parseAuthority authority with
          | Err e => Err e
          | Ok (user, host) => setPath (withAuthority u user host) rest
          end
        else if negb (String.eqb scheme "") && HasPrefix rest "/"
        then setPath (withOmitHost u) rest
        else setPath u rest
    end.

Definition Parse (rawURL : string) : Result URL :=
  let '(u, frag, _) := strings.Cut rawURL "#" in
  match parse u with
  | Err e => Err e
  | Ok url => if String.eqb frag "" then Ok url else setFragment url frag
  end.

Definition EscapedPath (u : URL) : string :=
  if negb (String.eqb (RawPath u) "") && validEncoded (RawPath u) encodePath
     && match unescape (RawPath u) encodePath with
        | Ok p => String.eqb p (Path u)
        | Err _ => false
        end
  then RawPath u
  else if String.eqb (Path u) "*" then "*"
  else escape (Path u) encodePath.

Definition EscapedFragment (u : URL) : string :=
  if negb (String.eqb (RawFragment u) "") && validEncoded (RawFragment u) encodeFragment
     && match unescape (RawFragment u) encodeFragment with
        | Ok f => String.eqb f (Fragment u)
        | Err _ => false
        end
  then RawFragment u
  else escape (Fragment u) encodeFragment.

Definition isNil {A} (o : option A) : bool :=
  match o with None => true | Some _ => false end.

(** What [URL.String] writes between the scheme and the query. *)
Definition hierPart (u : URL) : string :=
  let authority :=
    if negb (String.eqb (Scheme u) "") || negb (String.eqb (Host u) "")
       || negb (isNil (User_ u))
    then
      if OmitHost u && String.eqb (Host u) "" && isNil (User_ u) then ""
      else
        (if negb (String.eqb (Host u) "") || negb (String.eqb (Path u) "")
            || negb (isNil (User_ u))
         then "//" else "")
        ++ match User_ u with
           | Some ui => UserinfoString ui ++ "@"
           | None => ""
           end
        ++ (if negb (String.eqb (Host u) "") then escape (Host u) encodeHost else "")
    else "" in
  let path := EscapedPath u in
  let slash :=
    if negb (String.eqb path "") && negb (HasPrefix path "/")
       && negb (String.eqb (Host u) "")
    then "/" else "" in
  let written :=
    (if negb (String.eqb (Scheme u) "") then Scheme u ++ ":" else "")
    ++ authority ++ slash in
  let dot :=
    if String.eqb written "" && strings.ContainsByte (strings.Cut path "/").1.1 ":"
    then "./" else "" in
  authority ++ slash ++ dot ++ path.

(** [URL.String]. *)
Definition String_ (u : URL) : string :=
  (if negb (String.eqb (Scheme u) "") then Scheme u ++ ":" else "")
  ++ (if negb (String.eqb (Opaque u) "") then Opaque u else hierPart u)
  ++ (if ForceQuery u || negb (String.eqb (RawQuery u) "")
      then "?" ++ RawQuery u else "")
  ++ (if negb (String.eqb (Fragment u) "") then "#" ++ EscapedFragment u else "").

Definition withUser (u : URL) (user : option Userinfo) : URL :=
  mkURL (Scheme u) (Opaque u) user (Host u) (Path u) (RawPath u) (OmitHost u)
    (ForceQuery u) (RawQuery u) (Fragment u) (RawFragment u).

End url.

(** ** pkg/gitutil: the git client *)

Module gitutil.
Import effects.

Definition ExcludedFiles : gset string :=
  {[ "context.json"; "repo_instructions.md"; "prompt.md"; "llm_response.json";
     "llm_output.json"; "run.log" ]}.

Definition excluded (baseName : string) : bool :=
  bool_decide (baseName ∈ ExcludedFiles).

Record Client : Type := mkClient { GitBinary : string }.

Definition gitBinary (c : Client) : string :=
  if String.eqb (GitBinary c) "" then "git" else GitBinary c.

(** The three ways in which the client starts the git binary ([run],
    [runDir], [runDirOutput]) and the one with a standard input
    ([ApplyPatch]). *)
Inductive GitCall : Type -> Type :=
| Run (binary : string) (args : list string) : GitCall (option error)
| RunDir (binary dir : string) (args : list string) : GitCall (option error)
| RunDirOutput (binary dir : string) (args : list string) : GitCall (Result string)
| RunDirStdin (binary dir : string) (args : list string) (stdin : string)
    : GitCall (option error).

Definition run (c : Client) (args : list string) : Free GitCall (option error) :=
  call (Run (gitBinary c) args).
Definition runDir (c : Client) (dir : string) (args : list string)
    : Free GitCall (option error) :=
  call (RunDir (gitBinary c) dir args).
Definition runDirOutput (c : Client) (dir : string) (args : list string)
    : Free GitCall (Result string) :=
  call (RunDirOutput (gitBinary c) dir args).

(** [bufio.Scanner] with the default split function [ScanLines]: the
    lines without their end-of-line marker, then the error the scanner
    stopped with.  A line of 65536 bytes or more does not fit the buffer
    ([bufio.ErrTooLong]). *)
Definition ErrTooLong : error := errorString "bufio.Scanner: token too long".
Definition MaxScanTokenSize : N := 65536.

Fixpoint rawLines (s cur : string) : list string :=
  match s with
  | EmptyString => if String.eqb cur "" then [] else [strings.srev cur]
  | String c s' =>
      if Ascii.eqb c "010" then strings.srev cur :: rawLines s' ""
      else rawLines s' (String c cur)
  end.

Definition dropCR (line : string) : string :=
  match strings.srev line with
  | String c r => if Ascii.eqb c "013" then strings.srev r else line
  | EmptyString => line
  end.

Fixpoint scanTokens (lines : list string) : list string * option error :=
  match lines with
  | [] => ([], None)
  | l :: rest =>
      if (MaxScanTokenSize <=? N.of_nat (String.length l))%N then ([], Some ErrTooLong)
      else let '(tokens, err) := scanTokens rest in (dropCR l :: tokens, err)
  end.

Definition scanLines (output : string) : list string * option error :=
  scanTokens (rawLines output "").

(** The body of both loops: the file a status line names, if the line is
    long enough to name one. *)
Definition lineFilename (line : string) : option string :=
  if (String.length line <? 3)%nat then None
  else
    let filename := strings.TrimSpace (sdrop 3 line) in
    Some match Index filename " -> " with
         | Some idx => sdrop (idx + 4) filename
         | None => filename
         end.

Definition changedFile (line : string) : bool :=
  match lineFilename line with
  | Some filename => negb (excluded (filepath.Base filename))
  | None => false
  end.

Definition HasChanges (c : Client) (dir : string) : Free GitCall (Result bool) :=
  bind (runDirOutput c dir ["status"; "--porcelain"]) (fun r =>
  match r with
  | Err err => Ret (Err err)
  | Ok output =>
      let '(lines, scanErr) := scanLines output in
      if existsb changedFile lines then Ret (Ok true)
      else match scanErr with
           | Some err => Ret (Err err)
           | None => Ret (Ok false)
           end
  end).

Definition filesToStage (lines : list string) : list string :=
  omap (fun line =>
          match lineFilename line with
          | Some filename =>
              if excluded (filepath.Base filename) then None else Some filename
          | None => None
          end) lines.

Definition CommitAll (c : Client) (dir message : string) : Free GitCall (option error) :=
  bind (runDirOutput c dir ["status"; "--porcelain"]) (fun r =>
  match r with
  | Err err => Ret (Some err)
  | Ok output =>
      let '(lines, scanErr) := scanLines output in
      let filesToStage := filesToStage lines in
      match scanErr with
      | Some err => Ret (Some err)
      | None =>
          match filesToStage with
          | [] => Ret None
          | _ =>
              bind (runDir c dir ("add" :: "--" :: filesToStage)) (fun err =>
              match err with
              | Some err => Ret (Some err)
              | None => runDir c dir ["commit"; "-m"; message]
              end)
          end
      end
  end).

Definition Push (c : Client) (dir branch : string) : Free GitCall (option error) :=
  runDir c dir ["push"; "origin"; branch].

Definition Clone (c : Client) (repoURL dir : string) : Free GitCall (option error) :=
  run c ["clone"; repoURL; dir].

Definition CheckoutBranch (c : Client) (dir branch base : string)
    : Free GitCall (option error) :=
  if String.eqb base "" then runDir c dir ["checkout"; "-B"; branch]
  else runDir c dir ["checkout"; "-B"; branch; base].


Definition injectToken (rawURL token : string) : Result string :=
  match url.Parse rawURL with
  | Err e => Err e
  | Ok parsed =>
      Ok (url.String_ (url.withUser parsed (Some (url.UserPassword "x-access-token" token))))
  end.

Definition InjectToken (rawURL token : string) : Result string :=
  injectToken rawURL token.

Definition RedactToken (rawURL : string) : string :=
  match url.Parse rawURL with
  | Err _ => rawURL
  | Ok parsed =>
      match url.User_ parsed with
      | Some _ => url.String_ (url.withUser parsed (Some (url.User "x-access-token")))
      | None => url.String_ parsed
      end
  end.

End gitutil.

(** ** What [git status --porcelain] prints

    The short format has one line per changed path: two status letters, a
    space and the path, with [old -> new] for a rename.  A path that holds
    a space, a double quote, a backslash, a control character or a byte
    above 127 is printed as a C string literal between double quotes; any
    other path is printed as it is. *)

Module porcelain.

Record StatusEntry : Type := mkStatusEntry {
  code : string;
  renamedFrom : option string;
  path : string
}.

Definition plainByte (c : ascii) : bool :=
  let n := N_of_ascii c in
  ((33 <=? n) && (n <=? 126) && negb (n =? 34) && negb (n =? 92))%N.

Fixpoint allBytes (p : ascii -> bool) (s : string) : bool :=
  match s with
  | EmptyString => true
  | String c s' => p c && allBytes p s'
  end.

Definition plainPath (p : string) : bool :=
  negb (String.eqb p "") && allBytes plainByte p.

Definition dquote : string := String (ascii_of_N 34) "".

Definition octal (n : N) : string :=
  String (ascii_of_N (48 + n / 64))
    (String (ascii_of_N (48 + (n / 8) mod 8))
       (String (ascii_of_N (48 + n mod 8)) "")).

Definition quoteByte (c : ascii) : string :=
  let n := N_of_ascii c in
  if (n =? 34)%N then "\" ++ dquote
  else if (n =? 92)%N then "\\"
  else if (n =? 9)%N then "\t"
  else if (n =? 10)%N then "\n"
  else if (n =? 13)%N then "\r"
  else if ((n <? 32) || (126 <? n))%N then "\" ++ octal n
  else String c "".

Fixpoint quoteBytes (s : string) : string :=
  match s with
  | EmptyString => ""
  | String c s' => quoteByte c ++ quoteBytes s'
  end.

Definition showPath (p : string) : string :=
  if allBytes plainByte p then p else dquote ++ quoteBytes p ++ dquote.

Definition statusLine (e : StatusEntry) : string :=
  code e ++ " "
  ++ match renamedFrom e with
     | Some old => showPath old ++ " -> "
     | None => ""
     end
  ++ showPath (path e).

Definition statusOutput (entries : list StatusEntry) : string :=
  fold_right (fun e rest => statusLine e ++ nl ++ rest) "" entries.

(** The status letters are two bytes, neither of them a line break; the
    paths of the entry are printed bare; the line fits the scanner. *)
Definition statusCode (xy : string) : bool :=
  (String.length xy =? 2)%nat
  && allBytes (fun c => negb (Ascii.eqb c "010") && negb (Ascii.eqb c "013")) xy.

Definition bareEntry (e : StatusEntry) : bool :=
  statusCode (code e)
  && plainPath (path e)
  && match renamedFrom e with Some old => plainPath old | None => true end
  && (N.of_nat (String.length (statusLine e)) <? gitutil.MaxScanTokenSize)%N.

(** The paths the claim speaks of: those whose base name is not an
    automation artifact. *)
Definition outsideArtifacts (e : StatusEntry) : bool :=
  negb (gitutil.excluded (filepath.Base (path e))).

(** An environment in which [git status --porcelain] prints [output]
    and every other git command succeeds. *)
Definition gitPrinting (output : string) : effects.Environment gitutil.GitCall :=
  fun T trace c =>
    match c in gitutil.GitCall T return T with
    | gitutil.Run _ _ => None
    | gitutil.RunDir _ _ _ => None
    | gitutil.RunDirOutput _ _ _ => Ok output
    | gitutil.RunDirStdin _ _ _ _ => None
    end.

Definition readmeAndArtifact : list StatusEntry :=
  [mkStatusEntry " M" None "README.md";
   mkStatusEntry "??" None "outputs/llm_output.json"].

Definition artifactInSpacedDir : list StatusEntry :=
  [mkStatusEntry "??" None "my dir/run.log"].

(** A text that begins with a printable byte. *)
Definition startsPlain (s : string) : Prop :=
  exists c s', s = String c s' /\ plainByte c = true.

(** What a status line shows behind the code when nothing is quoted. *)
Definition lineRest (e : StatusEntry) : string :=
  match renamedFrom e with
  | Some old => old ++ " -> " ++ path e
  | None => path e
  end.

End porcelain.

(** ** internal/controller/webhook and pkg/github: the data *)

Module webhook.

Record Repository : Type := mkRepository {
  FullName : string;
  CloneURL : string;
  DefaultBranch : string
}.

Record Issue : Type := mkIssue {
  Number : Z;
  State : string;
  Title : string;
  Body : string;
  Labels : list string
}.

Record Event : Type := mkEvent {
  Type_ : string;
  Action : string;
  DeliveryID : string;
  Repo : Repository;
  Issue_ : option Issue;
  Label : string;
  CommentBody : string;
  Sender : string
}.

Definition EventIssues : string := "issues".
Definition EventIssueComment : string := "issue_comment".
Definition EventPRComment : string := "pull_request_review_comment".

End webhook.

Module github.

Record Issue : Type := mkIssue {
  Number : Z;
  State : string;
  Title : string;
  Body : string;
  Labels : list string;
  Author : string
}.

Record Comment : Type := mkComment { User : string; Body_ : string }.

Record Repo : Type := mkRepo { DefaultBranch : string; CloneURL : string }.

Record PR : Type := mkPR {
  PNumber : Z;
  PTitle : string;
  PBody : string;
  PState : string;
  HeadRef : string;
  BaseRef : string;
  URL : string
}.

Record PRRequest : Type := mkPRRequest {
  Title_ : string;
  Body__ : string;
  Head : string;
  Base : string
}.

End github.

(** ** internal/service/workflow: the engine, issue path *)

Module workflow.
Import effects llm_run.

Record Config : Type := mkConfig {
  GitHubToken : string;
  RepoCloneBase : string;
  TriggerLabels : list string;
  NeedsInfoLabel : string;
  InProgressLabel : string;
  DoneLabel : string;
  PRSlashCommands : list string
}.

(** The calls of the engine: the three interfaces it is constructed with
    ([GitHubClient], [GitClient], [LLMRunner]), the clock, and its own
    helpers that only touch the file system of the workspace
    ([prepareWorkspace], [preparePrompt], [writeArtifacts],
    [applyChanges]). *)
Inductive Call : Type -> Type :=
| GetIssue (owner repo : string) (number : Z) : Call (Result github.Issue)
| ListIssueComments (owner repo : string) (number : Z) : Call (Result (list github.Comment))
| CreateIssueComment (owner repo : string) (number : Z) (body : string)
    : Call (option error)
| SetIssueLabels (owner repo : string) (number : Z) (labels : list string)
    : Call (option error)
| CreatePR (owner repo : string) (req : github.PRRequest) : Call (Result github.PR)
| AddAssignees (owner repo : string) (number : Z) (assignees : list string)
    : Call (option error)
| GetRepo (owner repo : string) : Call (Result github.Repo)
| CheckoutBranch (dir branch base : string) : Call (option error)
| CommitAll (dir message : string) : Call (option error)
| Push (dir branch : string) : Call (option error)
| SetRemoteAuth (dir token : string) : Call (option error)
| HasChanges (dir : string) : Call (Result bool)
| LLMRun (req : Request) (workDir : string) : Call (RunResult * option error)
| Now : Call string
| PrepareWorkspace (repo : webhook.Repository) (prefix : string) : Call (Result string)
| PreparePrompt (workDir : string) (contextReq : Request) : Call (Result Request)
| WriteArtifacts (workDir : string) (req : Request) (result : RunResult)
    (runErr : option error) : Call unit
| ApplyChanges (workDir : string) (resp : Response) : Call (option error).

(** The logger of a workflow counts its steps; [WrapError] reports the
    number of the current one. *)
Record Logger : Type := mkLogger { workflowName : string; stepNum : Z }.

Definition StartWorkflow (name : string) : Logger := mkLogger name 0.

Definition W (A : Type) : Type := Logger -> Free Call (A * Logger).

#[local] Instance W_ret : MRet W := fun A a log => Ret (a, log).
#[local] Instance W_bind : MBind W :=
  fun A B f m log => bind (m log) (fun '(a, log') => f a log').

Definition perform {T} (c : Call T) : W T :=
  fun log => Vis c (fun t => Ret (t, log)).

Definition Step (stepName : string) : W unit :=
  fun log => Ret (tt, mkLogger (workflowName log) (int_add (stepNum log) 1)).

Definition StepInfo (stepName : string) : W unit := Step stepName.

Definition WorkflowError (workflow step : string) (stepNum : Z) (op : string)
    (err : error) : error :=
  errorString
    (if String.eqb op ""
     then "[" ++ workflow ++ "] step " ++ itoa stepNum ++ " (" ++ step ++ "): " ++ Error err
     else "[" ++ workflow ++ "] step " ++ itoa stepNum ++ " (" ++ step ++ ") " ++ op
          ++ ": " ++ Error err).

Definition WrapError (step op : string) (err : error) : W (option error) :=
  fun log => Ret (Some (WorkflowError (workflowName log) step (stepNum log) op err), log).

Definition RepoSubdir : string := "repo".
Definition OutputsSubdir : string := "outputs".

Definition repoDir (workDir : string) : string := filepath.Join [workDir; RepoSubdir].

Definition issueMode (event : webhook.Event) : string :=
  if String.eqb (webhook.Type_ event) webhook.EventIssueComment then "issue_comment" else "issue".

Definition toLLMComments (comments : list github.Comment) : list Comment :=
  map (fun c => mkComment (github.User c) (github.Body_ c)) comments.

Definition contains (label : string) (labels : list string) : bool :=
  existsb (String.eqb label) labels.

Definition splitFullName (full : string) : Result (string * string) :=
  match strings.Split full "/" with
  | [owner; repo] => Ok (owner, repo)
  | _ => Err (errorString ("invalid repo full name: " ++ full))
  end.

Definition fallback (value def : string) : string :=
  if String.eqb (strings.TrimSpace value) "" then def else value.

Definition appendSlashContext (body slash : string) : string :=
  if Contains body slash then body
  else strings.TrimSpace body ++ nl ++ nl ++ "Automated optimization triggered by: "
       ++ slash.

Section MapOrder.
(** Go ranges over a map in an order of its own choosing. *)
Variable rangeOrder : gset string -> list string.

Definition updateProgressLabels (current : list string) (add : string)
    (remove : list string) : list string :=
  let removeSet : gset string :=
    list_to_set (List.filter (fun label => negb (String.eqb label "")) remove) in
  let labels : gset string :=
    list_to_set (List.filter (fun label => negb (bool_decide (label ∈ removeSet)))
                             current) in
  let labels := if negb (String.eqb add "") then {[ add ]} ∪ labels else labels in
  rangeOrder labels.

Definition mentionParticipants (author : string) (comments : list github.Comment)
    : string :=
  let mentions : gset string :=
    (if negb (String.eqb author "") then {[ author ]} else ∅)
    ∪ list_to_set (List.filter (fun user => negb (String.eqb user ""))
                               (map github.User comments)) in
  if bool_decide (mentions = ∅) then ""
  else strings.Join (map (fun user => "@" ++ user) (rangeOrder mentions)) " ".

(** The three label transitions of [handleIssue]. *)
Definition labelsInProgress (cfg : Config) (current : list string) : list string :=
  updateProgressLabels current (InProgressLabel cfg)
    (DoneLabel cfg :: NeedsInfoLabel cfg :: TriggerLabels cfg).

Definition labelsNeedsInfo (cfg : Config) (current : list string) : list string :=
  updateProgressLabels current (NeedsInfoLabel cfg)
    (InProgressLabel cfg :: DoneLabel cfg :: TriggerLabels cfg).

Definition labelsDone (cfg : Config) (current : list string) : list string :=
  updateProgressLabels current (DoneLabel cfg)
    (InProgressLabel cfg :: NeedsInfoLabel cfg :: TriggerLabels cfg).

(** The comment of the branch taken when the decision is not
    [proceed]. *)
Definition notProceedComment (resp : Response) (author : string)
    (comments : list github.Comment) : string :=
  let comment := NeedsInfoComment resp in
  let comment := if String.eqb comment "" then Summary resp else comment in
  let comment :=
    if String.eqb comment ""
    then "More information is required before automation can proceed."
    else comment in
  let mentions := mentionParticipants author comments in
  if negb (String.eqb mentions "") then comment ++ nl ++ nl ++ mentions else comment.

Definition issueNumber (event : webhook.Event) : Z :=
  match webhook.Issue_ event with Some issue => webhook.Number issue | None => 0 end.

(** [handleIssue]; its callers have checked that the event carries an
    issue. *)
Definition handleIssue (cfg : Config) (event : webhook.Event) (requireLabeler : bool)
    : W (option error) :=
  _ ← Step "parse-repo-info";
  match splitFullName (webhook.FullName (webhook.Repo event)) with
  | Err err => WrapError "parse-repo-info" "splitFullName" err
  | Ok (owner, repo) =>
  _ ← Step "get-issue-details";
  r ← perform (GetIssue owner repo (issueNumber event));
  match r with
  | Err err => WrapError "get-issue-details" "GetIssue" err
  | Ok issue =>
  if negb (String.eqb (github.State issue) "open") then mret None else
  _ ← Step "get-issue-comments";
  r ← perform (ListIssueComments owner repo (github.Number issue));
  match r with
  | Err err => WrapError "get-issue-comments" "ListIssueComments" err
  | Ok comments =>
  _ ← Step "prepare-workspace";
  r ← perform (PrepareWorkspace (webhook.Repo event) ("issue-" ++ itoa (github.Number issue)));
  match r with
  | Err err => mret (Some err)
  | Ok workDir =>
  let repDir := repoDir workDir in
  _ ← Step "set-remote-auth";
  err ← perform (SetRemoteAuth repDir (GitHubToken cfg));
  match err with
  | Some err => WrapError "set-remote-auth" "SetRemoteAuth" err
  | None =>
  _ ← Step "get-default-branch";
  r ← (if String.eqb (webhook.DefaultBranch (webhook.Repo event)) ""
       then r ← perform (GetRepo owner repo);
            mret (match r with
                  | Ok repoInfo => Ok (github.DefaultBranch repoInfo)
                  | Err err => Err err
                  end)
       else mret (Ok (webhook.DefaultBranch (webhook.Repo event))));
  match r with
  | Err err => WrapError "get-default-branch" "GetRepo" err
  | Ok defaultBranch =>
  now ← perform Now;
  let branch := "llm/issue-" ++ itoa (github.Number issue) ++ "-" ++ now in
  _ ← Step "checkout-branch";
  err ← perform (CheckoutBranch repDir branch ("origin/" ++ defaultBranch));
  match err with
  | Some err => WrapError "checkout-branch" "CheckoutBranch" err
  | None =>
  _ ← Step "update-labels-in-progress";
  err ← perform (SetIssueLabels owner repo (github.Number issue)
                   (labelsInProgress cfg (github.Labels issue)));
  match err with
  | Some err => WrapError "update-labels-in-progress" "SetIssueLabels" err
  | None =>
  _ ← Step "prepare-llm-prompt";
  let contextReq :=
    mkRequest (issueMode event) repDir (webhook.FullName (webhook.Repo event))
              (github.Number issue) 0 (github.Title issue) (github.Body issue) (github.Labels issue)
              (toLLMComments comments) "" "" "" "" (webhook.CommentBody event) "" ""
              "Address the issue by implementing a fix and preparing a PR." "" "" in
  r ← perform (PreparePrompt workDir contextReq);
  match r with
  | Err err => WrapError "prepare-llm-prompt" "preparePrompt" err
  | Ok request =>
  _ ← Step "run-llm";
  '(result, err) ← perform (LLMRun request repDir);
  _ ← perform (WriteArtifacts workDir request result err);
  match err with
  | Some err =>
      _ ← perform (CreateIssueComment owner repo (github.Number issue)
                     ("Automation failed: " ++ Error err));
      WrapError "run-llm" "Run" err
  | None =>
  if negb (String.eqb (Decision (RResponse result)) DecisionProceed) then
    _ ← StepInfo "check-decision";
    let comment := notProceedComment (RResponse result) (github.Author issue) comments in
    _ ← (if negb (String.eqb (NeedsInfoLabel cfg) "")
         then _ ← perform (SetIssueLabels owner repo (github.Number issue)
                             (labelsNeedsInfo cfg (github.Labels issue)));
              mret tt
         else mret tt);
    perform (CreateIssueComment owner repo (github.Number issue) comment)
  else
  _ ← Step "apply-changes";
  err ← perform (ApplyChanges workDir (RResponse result));
  match err with
  | Some err => mret (Some err)
  | None =>
  _ ← Step "check-for-changes";
  r ← perform (HasChanges repDir);
  match r with
  | Err err => WrapError "check-for-changes" "HasChanges" err
  | Ok hasChanges =>
  if negb hasChanges then
    perform (CreateIssueComment owner repo (github.Number issue)
               "Automation completed but no file changes were made. The LLM indicated it would make changes but none were detected.")
  else
  _ ← Step "commit-changes";
  let commitMessage :=
    fallback (CommitMessage (RResponse result))
             ("Resolve issue #" ++ itoa (github.Number issue)) in
  err ← perform (CommitAll repDir commitMessage);
  match err with
  | Some err => WrapError "commit-changes" "CommitAll" err
  | None =>
  _ ← Step "push-changes";
  err ← perform (Push repDir branch);
  match err with
  | Some err => WrapError "push-changes" "Push" err
  | None =>
  _ ← Step "create-pr";
  let prTitle := fallback (PRTitle (RResponse result))
                          ("Resolve issue #" ++ itoa (github.Number issue)) in
  let prBody := fallback (PRBody (RResponse result))
                         ("Resolves #" ++ itoa (github.Number issue)) in
  r ← perform (CreatePR owner repo (github.mkPRRequest prTitle prBody branch defaultBranch));
  match r with
  | Err err => WrapError "create-pr" "CreatePR" err
  | Ok pr =>
  _ ← (if requireLabeler && negb (String.eqb (webhook.Sender event) "")
       then _ ← Step "add-assignees";
            _ ← perform (AddAssignees owner repo (github.PNumber pr) [webhook.Sender event]);
            mret tt
       else mret tt);
  _ ← Step "update-labels-done";
  err ← perform (SetIssueLabels owner repo (github.Number issue)
                   (labelsDone cfg (github.Labels issue)));
  match err with
  | Some err => WrapError "update-labels-done" "SetIssueLabels" err
  | None =>
  _ ← Step "post-completion-comment";
  err ← perform (CreateIssueComment owner repo (github.Number issue)
                   ("Automation completed. PR: " ++ github.URL pr));
  match err with
  | Some err => WrapError "post-completion-comment" "CreateIssueComment" err
  | None => mret None
  end end end end end end end end end end end end end end end end end.

(** [HandleIssueLabel] and [HandleIssueComment]. *)
Definition HandleIssueLabel (cfg : Config) (event : webhook.Event) : Free Call (option error) :=
  if negb (String.eqb (webhook.Type_ event) webhook.EventIssues) then Ret None
  else if negb (String.eqb (webhook.Action event) "labeled") then Ret None
  else match webhook.Issue_ event with
       | None => Ret (Some (errorString "missing issue payload"))
       | Some issue =>
           if negb (String.eqb (webhook.State issue) "open") then Ret None
           else if negb (contains (webhook.Label event) (TriggerLabels cfg)) then Ret None
           else bind (handleIssue cfg event true (StartWorkflow "issue-label"))
                     (fun '(err, _) => Ret err)
       end.

Definition HandleIssueComment (cfg : Config) (event : webhook.Event)
    : Free Call (option error) :=
  if negb (String.eqb (webhook.Type_ event) webhook.EventIssueComment) then Ret None
  else if negb (String.eqb (webhook.Action event) "created") then Ret None
  else match webhook.Issue_ event with
       | None => Ret (Some (errorString "missing issue payload"))
       | Some issue =>
           if negb (String.eqb (webhook.State issue) "open") then Ret None
           else bind (handleIssue cfg event false (StartWorkflow "issue-comment"))
                     (fun '(err, _) => Ret err)
       end.

End MapOrder.

(** *** Reading a trace *)

Definition llmAnswer (ev : effects.Event Call) : option (RunResult * option error) :=
  match evCall ev in Call T return T -> option (RunResult * option error) with
  | LLMRun _ _ => fun answer => Some answer
  | _ => fun _ => None
  end (evAnswer ev).



(** The comment posted by an event, with the answer of the platform. *)
Definition commentPosted (ev : effects.Event Call) : option (Z * string * option error) :=
  match evCall ev in Call T return T -> option (Z * string * option error) with
  | CreateIssueComment _ _ number body => fun answer => Some (number, body, answer)
  | _ => fun _ => None
  end (evAnswer ev).


(** Committing, pushing and opening a pull request. *)
Definition publishes (ev : effects.Event Call) : bool :=
  match evCall ev with
  | CommitAll _ _ | Push _ _ | CreatePR _ _ _ => true
  | _ => false
  end.

End workflow.

(** ** The engine: what is claimed of it *)

Module workflow_spec.
Import effects llm_run workflow.

(** The three status labels and the trigger labels are not empty and
    differ from each other (two trigger labels may coincide). *)
Definition distinctLabels (cfg : Config) : Prop :=
  InProgressLabel cfg <> "" /\ NeedsInfoLabel cfg <> "" /\ DoneLabel cfg <> ""
  /\ InProgressLabel cfg <> NeedsInfoLabel cfg
  /\ InProgressLabel cfg <> DoneLabel cfg
  /\ NeedsInfoLabel cfg <> DoneLabel cfg
  /\ forall t, t ∈ TriggerLabels cfg ->
       t <> "" /\ t <> InProgressLabel cfg /\ t <> NeedsInfoLabel cfg
       /\ t <> DoneLabel cfg.

(** A label list holds [target] and neither of the two other status
    labels nor a trigger label. *)
Definition onlyStatus (cfg : Config) (target : string) (labels : list string) : Prop :=
  target ∈ labels
  /\ (forall s, s ∈ [InProgressLabel cfg; NeedsInfoLabel cfg; DoneLabel cfg] ->
      s <> target -> s ∉ labels)
  /\ (forall t, t ∈ TriggerLabels cfg -> t ∉ labels).



(** Example data: the default configuration, an issue event and an
    environment in which every call succeeds and the LLM decides to
    stop. *)
Definition defaultConfig : Config :=
  mkConfig "" "./workdir" ["ai-ready"] "ai-needs-info" "ai-in-progress" "ai-done"
           ["/ai-optimize"].

Definition labeledEvent : webhook.Event :=
  webhook.mkEvent "issues" "labeled" "d-1"
    (webhook.mkRepository "org/repo" "https://host/org/repo.git" "main")
    (Some (webhook.mkIssue 12 "open" "t" "b" ["ai-ready"]))
    "ai-ready" "" "labeler".

Definition stopResponse : Response :=
  mkResponse "stop" "" "" "" "" "" ∅ "cannot be automated".

Definition emptyRequest : Request :=
  mkRequest "" "" "" 0 0 "" "" [] [] "" "" "" "" "" "" "" "" "" "".

Definition stoppingEnv : Environment Call :=
  fun T trace c =>
    match c in Call T return T with
    | GetIssue _ _ n => Ok (github.mkIssue n "open" "t" "b" ["ai-ready"] "author")
    | ListIssueComments _ _ _ => Ok [github.mkComment "commenter" "hello"]
    | CreateIssueComment _ _ _ _ => None
    | SetIssueLabels _ _ _ _ => None
    | CreatePR _ _ _ => Ok (github.mkPR 1 "" "" "open" "" "" "https://host/pr/1")
    | AddAssignees _ _ _ _ => None
    | GetRepo _ _ => Ok (github.mkRepo "main" "")
    | CheckoutBranch _ _ _ => None
    | CommitAll _ _ => None
    | Push _ _ => None
    | SetRemoteAuth _ _ => None
    | HasChanges _ => Ok true
    | LLMRun _ _ => (mkRunResult stopResponse "" "", None)
    | Now => "20260124-232812"
    | PrepareWorkspace _ _ => Ok "/work/issue-12"
    | PreparePrompt _ req => Ok req
    | WriteArtifacts _ _ _ _ => tt
    | ApplyChanges _ _ => None
    end.

Definition sortedOrder (s : gset string) : list string := elements s.

End workflow_spec.

(** ** Vocabulary for the statements about the reading of LLM output *)

Module llm_parse_spec.
Import llm_run llm_parse.

(** A byte of ASCII that is not white space. *)
Definition solid (c : ascii) : bool :=
  (N_of_ascii c <? 128)%N && negb (strings.byte_in c strings.asciiSpace).

Definition soft (c : ascii) : bool := negb (solid c).

(** The scanner is inside an object or an array: something is open, and
    the top-level value has not ended. *)
Definition inside (s : json.scanner) : Prop :=
  json.parseState s <> [] /\ json.step s <> json.stateEndTop.

(** [o] opens with a brace and the decoder reads all of it, and no less,
    as one JSON value. *)
Definition completeObject (o : string) : bool :=
  HasPrefix o "{"
  && match json.readValue o with
     | Ok n => (n =? String.length o)%nat
     | Err _ => false
     end.

Definition noBrace (s : string) : bool :=
  match IndexByte s "{" with None => true | Some _ => false end.

(** What the search passes by in front of the object it returns: a
    complete object that gives no outcome, or an opening brace from which
    the decoder reads no value; and the text without a brace that follows
    either. *)
Inductive piece : Type :=
| Decoded (o text : string)
| Broken (text : string).

(** The pieces one after the other, and [tail] behind them. *)
Fixpoint pieces (l : list piece) (tail : string) : string :=
  match l with
  | [] => tail
  | Decoded o text :: l => o ++ text ++ pieces l tail
  | Broken text :: l => "{" ++ text ++ pieces l tail
  end.

(** Every piece is one that the search passes by; whether the decoder
    reads a value from a brace depends on all the text behind the brace. *)
Fixpoint skipped (l : list piece) (tail : string) : bool :=
  match l with
  | [] => true
  | Decoded o text :: l =>
      completeObject o && negb (isOk (parseResponseJSON o)) && noBrace text
      && skipped l tail
  | Broken text :: l =>
      negb (isOk (decodeFirstJSONObject ("{" ++ text ++ pieces l tail))) && noBrace text
      && skipped l tail
  end.

Definition q : string := String json.dquote "".

(** [{"decision":"stop"}], and the same put into an outer object. *)
Definition stopObject : string :=
  "{" ++ q ++ "decision" ++ q ++ ":" ++ q ++ "stop" ++ q ++ "}".

Definition leadingNoise : string := "{" ++ q ++ "note" ++ q ++ ": ".
Definition trailingNoise : string := "}".

Definition decidedStop : Response := mkResponse "stop" "" "" "" "" "" ∅ "".

(** [{"summary":"missing"}]. *)
Definition summaryOnly : string :=
  "{" ++ q ++ "summary" ++ q ++ ":" ++ q ++ "missing" ++ q ++ "}".

End llm_parse_spec.

(** ** Vocabulary for the statements about the token in a repository URL *)

Module url_spec.
Import url.

(** Bytes that [escape] leaves alone in the host, the path and the
    fragment.  None of them is a control byte, a percent sign or a hash;
    a host byte is no slash, question mark or at sign, and a path byte no
    question mark. *)
Definition hostByte (c : ascii) : bool := negb (shouldEscape c encodeHost).
Definition pathByte (c : ascii) : bool := negb (shouldEscape c encodePath).
Definition fragmentByte (c : ascii) : bool := negb (shouldEscape c encodeFragment).

(** The byte [c] does not occur in [s]. *)
Definition lacks (c : ascii) (s : string) : bool :=
  strings.everyByte (fun d => negb (Ascii.eqb d c)) s.

Definition controlByte (c : ascii) : bool :=
  (N_of_ascii c <? 32)%N || (N_of_ascii c =? 127)%N.

Definition noCTL (s : string) : bool :=
  strings.everyByte (fun c => negb (controlByte c)) s.

Definition queryByte (c : ascii) : bool := negb (controlByte c) && negb (Ascii.eqb c "#").

Definition schemeByte (c : ascii) : bool :=
  between "a" "z" c || isDigit c || oneOf c ["+"; "-"; "."]%char.

(** No scheme, or one in lower case. *)
Definition plainScheme (s : string) : bool :=
  match s with
  | EmptyString => true
  | String c rest => between "a" "z" c && strings.everyByte schemeByte rest
  end.

(** A host name, with a port or without, that is not an IP literal in
    brackets. *)
Definition plainHost (h : string) : bool :=
  strings.everyByte hostByte h && negb (HasPrefix h "[")
  && match strings.LastIndexByte h ":" with
     | Some i => validOptionalPort (sdrop i h)
     | None => true
     end.

(** No path, or an absolute one. *)
Definition plainPath (p : string) : bool :=
  strings.everyByte pathByte p && (String.eqb p "" || HasPrefix p "/").

(** A URL with a hierarchical part whose components are written without
    escapes. *)
Definition plainURL (u : URL) : bool :=
  String.eqb (Opaque u) "" && String.eqb (RawPath u) "" && String.eqb (RawFragment u) ""
  && plainScheme (Scheme u) && plainHost (Host u) && plainPath (Path u)
  && strings.everyByte queryByte (RawQuery u)
  && strings.everyByte fragmentByte (Fragment u).

(** The path is empty or written with a slash in front. *)
Definition rootedPath (u : URL) : bool :=
  String.eqb (EscapedPath u) "" || HasPrefix (EscapedPath u) "/".

(** The zone identifier of an IP literal in brackets: the text from the
    first percent sign up to the closing bracket. *)
Definition zoneOf (host : string) : string :=
  if HasPrefix host "["
  then match strings.LastIndexByte host "]" with
       | Some i =>
           match strings.IndexByte (sprefix i host) "%" with
           | Some zone => sdrop zone (sprefix i host)
           | None => ""
           end
       | None => ""
       end
  else "".

Definition asciiByte (c : ascii) : bool := (N_of_ascii c <? 128)%N.

(** A URL with a hierarchical part: no opaque part, no relative path,
    and no byte outside ASCII in the zone identifier of its host. *)
Definition hierarchical (u : URL) : bool :=
  String.eqb (Opaque u) "" && rootedPath u
  && strings.everyByte asciiByte (zoneOf (Host u)).

(** The text of a URL with these components and this user information. *)
Definition schemePart (scheme : string) : string :=
  if negb (String.eqb scheme "") then scheme ++ ":" else "".

Definition queryPart (forceQuery : bool) (query : string) : string :=
  if forceQuery || negb (String.eqb query "") then "?" ++ query else "".

Definition fragmentPart (fragment : string) : string :=
  if negb (String.eqb fragment "") then "#" ++ fragment else "".

Definition compose (scheme userinfo host path : string) (forceQuery : bool)
    (query fragment : string) : string :=
  schemePart scheme ++ "//" ++ userinfo ++ "@" ++ host ++ path
  ++ queryPart forceQuery query ++ fragmentPart fragment.

Definition accessToken : option Userinfo := Some (User "x-access-token").

(** The components that the redaction is to keep. *)
Definition sameComponents (u v : URL) : Prop :=
  Scheme v = Scheme u /\ Host v = Host u /\ Path v = Path u
  /\ RawQuery v = RawQuery u /\ Fragment v = Fragment u.

(** Inject, redact, parse. *)
Definition redactedAfterInject (rawURL token : string) : Result URL :=
  match gitutil.injectToken rawURL token with
  | Err e => Err e
  | Ok injected => Parse (gitutil.RedactToken injected)
  end.

(** A relative reference, a URL with an opaque part, and a clone URL as
    GitHub gives it, with what it parses to. *)
Definition relativeURL : string := "repo.git".
Definition opaqueURL : string := "mailto:bot@example.com".

(** A URL with an IP literal, a zone, a port and escapes, with what it
    parses to; one whose zone holds a letter outside ASCII (U+00E9 in
    UTF-8); and a relative reference whose first byte is an escaped
    slash. *)
Definition literalURL : string :=
  "https://[fe80::1%25en0]:8080/my%20repo.git?ref=main#top".
Definition literalParsed : URL :=
  mkURL "https" "" None "[fe80::1%en0]:8080" "/my repo.git" "" false false "ref=main"
    "top" "".
Definition zoneURL : string :=
  "http://[fe80::1%25" ++ String (ascii_of_N 195) (String (ascii_of_N 169) "") ++ "]/x".
Definition escapedSlashURL : string := "%2Fsrv/repo.git".

End url_spec.

(** ** [Parse] on what [URL.String] writes: the notions of the proof *)

Module url_readback.
Import url url_spec.

(** [unescape] as a relation between the text and what it stands for: a
    byte stands for itself, a percent sign with two hexadecimal digits
    for the byte they give. *)
Definition byteOf (h l : ascii) : ascii :=
  ascii_of_N (N.lor (N.shiftl (unhex h) 4) (unhex l)).

Definition triple (h l : ascii) : string := String "%" (String h (String l "")).

Definition hostMode (m : encoding) : bool := isMode m encodeHost || isMode m encodeZone.

Definition rawOK (m : encoding) (c : ascii) : bool :=
  negb (hostMode m && (N_of_ascii c <? 128)%N && shouldEscape c encodeHost).

Definition pctOK (m : encoding) (h l : ascii) : bool :=
  ishex h && ishex l
  && negb (isMode m encodeHost && (unhex h <? 8)%N && negb (String.eqb (triple h l) "%25"))
  && negb (isMode m encodeZone && negb (String.eqb (triple h l) "%25")
           && negb (Ascii.eqb (byteOf h l) " ") && shouldEscape (byteOf h l) encodeHost).

Inductive decodes (m : encoding) : string -> string -> Prop :=
| decodes_nil : decodes m "" ""
| decodes_raw c r t :
    Ascii.eqb c "%" = false -> rawOK m c = true -> decodes m r t ->
    decodes m (String c r) (String c t)
| decodes_pct h l r t :
    pctOK m h l = true -> decodes m r t ->
    decodes m (String "%" (String h (String l r))) (String (byteOf h l) t).

Definition highByte (c : ascii) : bool := (128 <=? N_of_ascii c)%N.

(** The bytes that [unescape] can give in a host or in a zone. *)
Definition cls (m : encoding) (c : ascii) : bool :=
  negb (shouldEscape c encodeHost) || highByte c || Ascii.eqb c "%"
  || (isMode m encodeZone && Ascii.eqb c " ").

(** The byte [c], written by [escape] in the mode [em], is read in the
    mode [m] as itself. *)
Definition reads (em m : encoding) (c : ascii) : bool :=
  if shouldEscape c em
  then pctOK m (upperhex (N.shiftr (N_of_ascii c) 4)) (upperhex (N.land (N_of_ascii c) 15))
       && Ascii.eqb (byteOf (upperhex (N.shiftr (N_of_ascii c) 4))
                            (upperhex (N.land (N_of_ascii c) 15))) c
       && negb (isMode em encodeQueryComponent)
  else negb (Ascii.eqb c "%") && rawOK m c.

Definition portByte (c : ascii) : bool := Ascii.eqb c ":" || isDigit c || Ascii.eqb c "]".

(** Bytes that leave the parts of the text where they are: none ends the
    authority, the path or the text before the fragment. *)
Definition authByte (c : ascii) : bool :=
  negb (controlByte c) && negb (Ascii.eqb c "/") && negb (Ascii.eqb c "?")
  && negb (Ascii.eqb c "#") && negb (Ascii.eqb c "@").

Definition pathTextByte (c : ascii) : bool :=
  negb (controlByte c) && negb (Ascii.eqb c "?") && negb (Ascii.eqb c "#").

Definition schemeChar (c : ascii) : bool :=
  isLetter c || (isDigit c || oneOf c ["+"; "-"; "."]%char).

(** The part of the text that the loop of [getScheme] has passed is empty
    or the beginning of a scheme. *)
Definition schemeStart (pre : string) : Prop :=
  pre = "" \/ (pre <> "" /\ plainScheme (strings.ToLowerASCII pre) = true).

(** What every URL that [Parse] returns has. *)
Definition parsedFields (u : URL) : Prop :=
  plainScheme (Scheme u) = true /\ strings.everyByte queryByte (RawQuery u) = true
  /\ exists rh, parseHost rh = Ok (Host u).

(** A URL that [String] writes so that [Parse] reads it back. *)
Definition readable (u : URL) : Prop :=
Opaque u = "" /\ rootedPath u = true /\ plainScheme (Scheme u) = true
/\ parseHost (escape (Host u) encodeHost) = Ok (Host u)
/\ strings.everyByte queryByte (RawQuery u) = true.

(** The two kinds of user information that the client writes. *)
Definition tokenUser (ui : Userinfo) : Prop :=
  ui = User "x-access-token" \/ exists token, ui = UserPassword "x-access-token" token.

End url_readback.

(** ** pkg/orchestrator: the state of a run, tool calls, and the runner *)

Module agentloop.
Import llm tools orchestrator effects llm_run.

#[local] Notation "a +++ b" := (@app string a b) (at level 60, right associativity).

(** *** state.go *)

Record ToolCallRecord : Type := mkToolCallRecord {
  TCName : string;
  TCInput : gmap string any;
  TCResult : ToolResult
}.

Record State : Type := mkState {
  SMessages : list Message;
  Iterations : Z;
  SInputTokens : Z;
  SOutputTokens : Z;
  SToolCalls : list ToolCallRecord
}.

Record OrchestratorResult : Type := mkOrchestratorResult {
  FinalMessage : Message;
  RMessages : list Message;
  TotalIterations : Z;
  TotalInputTokens : Z;
  TotalOutputTokens : Z;
  RToolCalls : list ToolCallRecord
}.

Definition NewState (messages : list Message) : State :=
  mkState messages 0 0 0 [].

Definition AddMessage (s : State) (msg : Message) : State :=
  mkState (SMessages s ++ [msg]) (Iterations s) (SInputTokens s) (SOutputTokens s)
    (SToolCalls s).

Definition AddToolCall (s : State) (name : string) (input : gmap string any)
    (result : ToolResult) : State :=
  mkState (SMessages s) (Iterations s) (SInputTokens s) (SOutputTokens s)
    (SToolCalls s ++ [mkToolCallRecord name input result]).

Definition UpdateUsage (s : State) (usage : Usage) : State :=
  mkState (SMessages s) (Iterations s)
    (int_add (SInputTokens s) (InputTokens usage))
    (int_add (SOutputTokens s) (OutputTokens usage)) (SToolCalls s).

Definition IncrementIteration (s : State) : State :=
  mkState (SMessages s) (int_add (Iterations s) 1) (SInputTokens s) (SOutputTokens s)
    (SToolCalls s).

(** The zero value of [llm.Message]. *)
Definition noMessage : Message := mkMessage "" [].

(** [for i := len(s.Messages) - 1; i >= 0; i--]: the list is given
    reversed. *)
Fixpoint lastAssistant (reversed : list Message) : Message :=
  match reversed with
  | [] => noMessage
  | msg :: earlier =>
      if String.eqb (Role msg) RoleAssistant then msg else lastAssistant earlier
  end.

Definition ToResult (s : State) : OrchestratorResult :=
  mkOrchestratorResult (lastAssistant (rev (SMessages s))) (SMessages s) (Iterations s)
    (SInputTokens s) (SOutputTokens s) (SToolCalls s).

Definition GetFinalText (r : OrchestratorResult) : string := GetText (FinalMessage r).

(** *** loop.go: what follows the answer of the provider *)

(** [generateToolUseID]: the prefix and what the random source (or the
    clock, when that fails) gave. *)
Definition generateToolUseID (entropy : string) : string := "toolu_" ++ entropy.

Definition withID (block : ContentBlock) (id : string) : ContentBlock :=
  mkBlock (Type_ block) (Text block) id (Name block) (Input block) (ToolUseID block)
    (Content block) (IsError block).

Section Tools.
(** The random source, the registry and what the tools act on.  A tool
    answers with a result and an error, as [Tool.Execute] does. *)
Variable entropy : nat -> string.
Context {TW : Type}.
Variable registryGet :
  string ->
  option (ToolContext -> gmap string any -> TW -> (ToolResult * option error) * TW).

(** The loop that makes the tool_use ids of an answer unique: [seen]
    are the ids met so far in the run and [n] counts the ids
    generated. *)
Fixpoint uniqueToolUseIDs (content : list ContentBlock) (seen : gset string) (n : nat)
    : list ContentBlock * gset string * nat :=
  match content with
  | [] => ([], seen, n)
  | block :: rest =>
      if isToolUse block then
        let '(block, n) :=
          if String.eqb (ID block) "" || bool_decide (ID block ∈ seen)
          then (withID block (generateToolUseID (entropy n)), S n)
          else (block, n) in
        let '(rest, seen, n) := uniqueToolUseIDs rest ({[ ID block ]} ∪ seen) n in
        (block :: rest, seen, n)
      else
        let '(rest, seen, n) := uniqueToolUseIDs rest seen n in
        (block :: rest, seen, n)
  end.

Record toolExecResult : Type := mkToolExecResult {
  EID : string;
  EName : string;
  EInput : gmap string any;
  EResult : ToolResult
}.

Definition executeTool (toolCtx : ToolContext) (use : ContentBlock) (w : TW)
    : toolExecResult * TW :=
  let '(result, w) :=
    match registryGet (Name use) with
    | None => (NewErrorResultf ("tool not found: " ++ Name use), w)
    | Some execute =>
        let '((result, err), w) := execute toolCtx (Input use) w in
        match err with
        | Some err => (NewErrorResult err, w)
        | None => (result, w)
        end
    end in
  (mkToolExecResult (ID use) (Name use) (Input use) result, w).

Fixpoint executeTools (toolCtx : ToolContext) (uses : list ContentBlock) (w : TW)
    : list toolExecResult * TW :=
  match uses with
  | [] => ([], w)
  | use :: rest =>
      let '(r, w) := executeTool toolCtx use w in
      let '(rs, w) := executeTools toolCtx rest w in
      (r :: rs, w)
  end.

Definition buildToolResultMessage (results : list toolExecResult) : Message :=
  mkMessage RoleUser
    (map (fun r => mkBlock ContentTypeToolResult "" "" "" ∅ (EID r)
                     (TRContent (EResult r)) (TRIsError (EResult r)))
         results).

Definition ResponseGetToolUses (r : AgentResponse) : list ContentBlock :=
  List.filter isToolUse (RContent r).

Definition HasToolUse (r : AgentResponse) : bool :=
  String.eqb (StopReason r) StopReasonToolUse
  || (0 <? len (ResponseGetToolUses r)).

Definition withContent (r : AgentResponse) (content : list ContentBlock)
    : AgentResponse :=
  mkAgentResponse (RID r) (RRole r) content (StopReason r) (RUsage r).

(** How an iteration ends once the provider has answered. *)
Inductive outcome : Type :=
| Return (result : OrchestratorResult) (err : option error)
| NextIteration (state : State) (seen : gset string) (n : nat).

(** The iteration of [AgentLoop.Run] from [state.UpdateUsage] to the
    end of the loop body. *)
Definition afterResponse (toolCtx : ToolContext) (state : State)
    (seen : gset string) (n : nat) (resp : AgentResponse) (w : TW) : outcome * TW :=
  let state := UpdateUsage state (RUsage resp) in
  let '(content, seen, n) := uniqueToolUseIDs (RContent resp) seen n in
  let resp := withContent resp content in
  let state := AddMessage state (ToMessage resp) in
  if String.eqb (StopReason resp) StopReasonEndTurn
  then (Return (ToResult state) None, w)
  else if String.eqb (StopReason resp) StopReasonMaxTokens
  then (Return (ToResult state) (Some (errorString "max tokens reached")), w)
  else if String.eqb (StopReason resp) StopReasonToolUse || HasToolUse resp then
    let '(toolResults, w) := executeTools toolCtx (ResponseGetToolUses resp) w in
    let state :=
      fold_left (fun s tr => AddToolCall s (EName tr) (EInput tr) (EResult tr))
                toolResults state in
    (NextIteration (AddMessage state (buildToolResultMessage toolResults)) seen n, w)
  else (NextIteration state seen n, w).

End Tools.

(** *** runner.go *)

Record OrchestratorRequest : Type := mkOrchestratorRequest {
  SystemPrompt : string;
  ORepoInstructions : string;
  InitialMessages : list Message;
  MaxIterations : Z;
  MaxMessages : Z;
  OCompactConfig : CompactConfig;
  OWorkDir : string;
  OToolContext : option ToolContext
}.

Record OrchestratorRunner : Type := mkOrchestratorRunner {
  RSystemPrompt : string;
  RMaxIterations : Z;
  RMaxMessages : Z;
  RCompactConfig : CompactConfig
}.

(** The orchestrator is an interface; its [Run] is a call. *)
Inductive RunnerCall : Type -> Type :=
| OrchestratorRun (req : OrchestratorRequest)
    : RunnerCall (OrchestratorResult * option error).

Definition commentLine (c : Comment) : string := "@" ++ CUser c ++ ": " ++ CBody c.

Definition buildPromptFromRequest (req : Request) : string :=
  let issue :=
    if 0 <? IssueNumber req then
      [nl ++ "## Issue #" ++ itoa (IssueNumber req)]
      +++ (if negb (String.eqb (IssueTitle req) "") then ["Title: " ++ IssueTitle req]
          else [])
      +++ (if negb (String.eqb (IssueBody req) "") then ["Body:" ++ nl ++ IssueBody req]
          else [])
      +++ (if 0 <? len (IssueLabels req)
          then ["Labels: " ++ strings.Join (IssueLabels req) ", "] else [])
      +++ (if 0 <? len (IssueComments req)
          then (nl ++ "### Comments:") :: map commentLine (IssueComments req) else [])
    else [] in
  let pr :=
    if 0 <? PRNumber req then
      [nl ++ "## PR #" ++ itoa (PRNumber req)]
      +++ (if negb (String.eqb (PRTitleIn req) "") then ["Title: " ++ PRTitleIn req]
          else [])
      +++ (if negb (String.eqb (PRBodyIn req) "") then ["Body:" ++ nl ++ PRBodyIn req]
          else [])
      +++ (if negb (String.eqb (PRHeadRef req) "") then ["Head: " ++ PRHeadRef req]
          else [])
      +++ (if negb (String.eqb (PRBaseRef req) "") then ["Base: " ++ PRBaseRef req]
          else [])
    else [] in
  let parts :=
    ["Mode: " ++ Mode req; "Repository: " ++ RepoFullName req]
    +++ issue +++ pr
    +++ (if negb (String.eqb (CommentBody req) "")
        then [nl ++ "## Comment" ++ nl ++ CommentBody req] else [])
    +++ (if negb (String.eqb (SlashCommand req) "")
        then [nl ++ "Slash Command: " ++ SlashCommand req] else [])
    +++ (if negb (String.eqb (Requirements req) "")
        then [nl ++ "## Requirements" ++ nl ++ Requirements req] else [])
    +++ [nl ++ "## Instructions";
        "Analyze the context and make the necessary code changes.";
        "Use the available tools to read files, make changes, and run commands.";
        "When complete, output a JSON object with the following fields:";
        "- decision: 'proceed' (changes ready), 'needs_info' (need more info), or 'stop' (cannot automate)";
        "- needs_info_comment: explanation if decision is needs_info";
        "- commit_message: commit message for changes";
        "- pr_title: title for the PR";
        "- pr_body: body for the PR";
        "- files: map of file paths to their complete new content";
        "- summary: summary of what was done"] in
  strings.Join parts nl.

(** [RunResult{}]. *)
Definition emptyRunResult : RunResult := mkRunResult emptyResponse "" "".

(** The response the runner makes of the final text. *)
Definition responseOf (finalText : string) : Response :=
  match llm_parse.ParseResponse finalText with
  | Ok resp => resp
  | Err _ => mkResponse DecisionProceed "" "" "" "" "" ∅ finalText
  end.

Definition Run (r : OrchestratorRunner) (req : Request) (workDir : string)
    : Free RunnerCall (RunResult * option error) :=
  let userPrompt :=
    if String.eqb (Prompt req) "" then buildPromptFromRequest req else Prompt req in
  let orchReq :=
    mkOrchestratorRequest (RSystemPrompt r) (RepoInstructions req)
      [NewTextMessage RoleUser userPrompt] (RMaxIterations r) (RMaxMessages r)
      (RCompactConfig r) workDir (Some (NewToolContext workDir)) in
  bind (call (OrchestratorRun orchReq)) (fun '(result, err) =>
  match err with
  | Some err =>
      Ret (emptyRunResult,
           Some (errorString ("orchestrator run failed: " ++ Error err)))
  | None =>
      let finalText := GetFinalText result in
      Ret (mkRunResult (responseOf finalText) finalText "", None)
  end).

End agentloop.

(** ** Vocabulary for further statements about the agent loop *)

Module agentloop_spec.
Import llm tools orchestrator agentloop.

(** The ids of the tool_use blocks of an answer, in order. *)
Definition toolUseIDs (content : list ContentBlock) : list string :=
  map ID (List.filter isToolUse content).

(** A block as the provider gave it, or a tool_use block with a generated
    id in the place of its own. *)
Definition regenerated (entropy : nat -> string) (given stored : ContentBlock) : Prop :=
  stored = given
  \/ (isToolUse given = true
      /\ exists k, stored = withID given (generateToolUseID (entropy k))).

(** The conversation an iteration leaves behind. *)
Definition messagesOf (o : outcome) : list Message :=
  match o with
  | Return result _ => RMessages result
  | NextIteration state _ _ => SMessages state
  end.

(** A random source that gives a longer string each time. *)
Fixpoint tally (k : nat) : string :=
  match k with
  | O => ""
  | S k => String "x" (tally k)
  end.

(** A registry without tools, an answer with two calls that carry no id,
    and a conversation that ends in a tool_result whose tool_use is older. *)
Definition noTools (name : string)
    : option (ToolContext -> gmap string any -> unit
              -> (ToolResult * option error) * unit) := None.

Definition twoCalls : AgentResponse :=
  mkAgentResponse "msg_1" RoleAssistant
    [textBlock "looking"; toolUseBlock "" "bash" ∅; toolUseBlock "" "read_file" ∅]
    StopReasonToolUse (mkUsage 1 1).

Definition lastWords : AgentResponse :=
  mkAgentResponse "msg_2" RoleAssistant [textBlock "done"] StopReasonEndTurn (mkUsage 1 1).

Definition olderUse : list Message := [mkMessage RoleAssistant [toolUseBlock "a" "bash" ∅]].
Definition recentResult : list Message := [NewToolResultMessage "a" "out" false].

(** An orchestrator that ends with the text given. *)
Definition endingWith (text : string) : effects.Environment RunnerCall :=
  fun T trace c =>
    match c in RunnerCall T return T with
    | OrchestratorRun _ =>
        (mkOrchestratorResult (NewTextMessage RoleAssistant text) [] 1 1 1 [], None)
    end.
End agentloop_spec.

(** ** Vocabulary for further statements about the reading of LLM output *)

Module llm_edge_spec.
(** Text of ASCII white space only. *)
Definition blank (s : string) : bool :=
  strings.everyByte (fun c => strings.byte_in c strings.asciiSpace) s.

(** The no-break space of Unicode (U+00A0) in UTF-8. *)
Definition noBreakSpace : string := String (ascii_of_N 194) (String (ascii_of_N 160) "").
End llm_edge_spec.

(** ** Vocabulary for further statements about the tools *)

Module bash_spec.
(** No byte of [s] is an upper-case letter of ASCII. *)
Definition noUpper (s : string) : bool :=
  strings.everyByte
    (fun c => negb ((65 <=? N_of_ascii c)%N && (N_of_ascii c <=? 90)%N)) s.

(** The patterns of [validateCommand] but the last. *)
Definition lowerCasePatterns : list string :=
  ["rm -rf /"; "rm -rf ~"; "mkfs"; "dd if=/dev/"; ":(){:|:&};:"; "> /dev/sd"].
End bash_spec.

Module path_spec.
Import url_spec.

(** A path element that [Clean] keeps: not empty, without a separator,
    and neither [.] nor [..]. *)
Definition element (e : string) : bool :=
  negb (String.eqb e "") && lacks "/" e && negb (String.eqb e ".")
  && negb (String.eqb e "..").

(** The output buffer of [Clean] on a rooted path, reversed as the loop
    holds it: the separator, and the elements with separators between
    them; the list has the last element first. *)
Fixpoint rootedOut (elements : list string) : string :=
  match elements with
  | [] => "/"
  | e :: earlier =>
      strings.srev e
      ++ match earlier with
         | [] => "/"
         | _ => "/" ++ rootedOut earlier
         end
  end.

(** The elements in their order, with separators between them. *)
Definition joined (es : list string) : string := String.concat "/" es.

(** What follows an element: nothing, or a separator. *)
Definition boundary (rest : string) : Prop := rest = "" \/ exists r, rest = String "/" r.

(** The output read forwards does not begin with a separator. *)
Definition unslashed (out : string) : Prop := HasPrefix (strings.srev out) "/" = false.

(** [p] is [root] or lies under it. *)
Definition within (root p : string) : Prop :=
  p = root \/ HasPrefix p (if String.eqb root "/" then "/" else root ++ "/") = true.
End path_spec.

(** ** Vocabulary for further statements about the engine *)

Module workflow_trace.
Import effects llm_run workflow.

(** The answers to the questions the engine asks before it publishes. *)
Definition applyAnswer (ev : effects.Event Call) : option (option error) :=
  match evCall ev in Call T return T -> option (option error) with
  | ApplyChanges _ _ => fun answer => Some answer
  | _ => fun _ => None
  end (evAnswer ev).

Definition changesAnswer (ev : effects.Event Call) : option (Result bool) :=
  match evCall ev in Call T return T -> option (Result bool) with
  | HasChanges _ => fun answer => Some answer
  | _ => fun _ => None
  end (evAnswer ev).

Definition commitAnswer (ev : effects.Event Call) : option (option error) :=
  match evCall ev in Call T return T -> option (option error) with
  | CommitAll _ _ => fun answer => Some answer
  | _ => fun _ => None
  end (evAnswer ev).

Definition pushAnswer (ev : effects.Event Call) : option (option error) :=
  match evCall ev in Call T return T -> option (option error) with
  | Push _ _ => fun answer => Some answer
  | _ => fun _ => None
  end (evAnswer ev).

Definition opensPR (ev : effects.Event Call) : bool :=
  match evCall ev with
  | CreatePR _ _ _ => true
  | _ => false
  end.

(** The LLM run returned an error. *)
Definition llmFailed (ev : effects.Event Call) : bool :=
  match llmAnswer ev with
  | Some (_, Some _) => true
  | _ => false
  end.

(** Example data: a response with the decision to proceed, and
    environments in which every call succeeds and the LLM decides to
    proceed, or in which the LLM run fails. *)
Definition proceedResponse : Response :=
  mkResponse "proceed" "" "fix the bug" "Fix" "" "" ∅ "fixed".

Definition answering (llm : RunResult * option error) : Environment Call :=
  fun T trace c =>
    match c in Call T return T with
    | LLMRun _ _ => llm
    | c => workflow_spec.stoppingEnv _ trace c
    end.

Definition proceedingEnv : Environment Call :=
  answering (mkRunResult proceedResponse "" "", None).

Definition runFailure : error := errorString "orchestrator run failed: agent call failed".

Definition failingEnv : Environment Call :=
  answering (mkRunResult emptyResponse "" "", Some runFailure).

(** [strings.Split] on the separator of a full name, by the bytes of the
    text: [cur] is the piece collected so far, reversed. *)
Fixpoint splitSlash (s cur : string) : list string :=
  match s with
  | EmptyString => [strings.srev cur]
  | String c s' =>
      if Ascii.eqb c "/" then strings.srev cur :: splitSlash s' ""
      else splitSlash s' (String c cur)
  end.
End workflow_trace.

(** * Properties *)

(** ** Strings *)

Module string_lemmas.

(** stdpp keeps [simpl] from unfolding [append]; these two equations do
    the unfolding. *)
Lemma sapp_cons c (s t : string) : String c s ++ t = String c (s ++ t).
Proof. reflexivity. Qed.

Lemma sapp_nil_l (t : string) : "" ++ t = t.
Proof. reflexivity. Qed.

Ltac sapp := rewrite ?sapp_cons, ?sapp_nil_l.

Lemma sapp_assoc (s t u : string) : s ++ t ++ u = (s ++ t) ++ u.
Proof. induction s as [| c s IH]; sapp; [done | by rewrite IH]. Qed.

Lemma sapp_nil_r (s : string) : s ++ "" = s.
Proof. induction s as [| c s IH]; sapp; [done | by rewrite IH]. Qed.

Lemma srev_append_app s acc : strings.srev_append s acc = strings.srev s ++ acc.
Proof.
  unfold strings.srev. revert acc.
  induction s as [| c s IH]; intros acc; simpl; [done |].
  rewrite IH, (IH (String c "")). by rewrite <- sapp_assoc.
Qed.

Lemma srev_cons c s : strings.srev (String c s) = strings.srev s ++ String c "".
Proof. unfold strings.srev at 1. simpl. apply srev_append_app. Qed.

Lemma srev_app s t : strings.srev (s ++ t) = strings.srev t ++ strings.srev s.
Proof.
  induction s as [| c s IH]; sapp.
  - by rewrite sapp_nil_r.
  - by rewrite !srev_cons, IH, sapp_assoc.
Qed.

Lemma srev_involutive s : strings.srev (strings.srev s) = s.
Proof.
  induction s as [| c s IH]; [done |].
  by rewrite srev_cons, srev_app, IH.
Qed.

Lemma Index_HasPrefix s sub : HasPrefix s sub = true -> Index s sub = Some 0%nat.
Proof. intros H. destruct s; cbn [Index]; by rewrite H. Qed.

Lemma Index_infix a s sub : is_Some (Index s sub) -> is_Some (Index (a ++ s) sub).
Proof.
  intros H. induction a as [| c a IH]; [done |].
  sapp. cbn [Index].
  destruct (HasPrefix (String c (a ++ s)) sub); [eauto |].
  destruct IH as [n Hn]. rewrite Hn. simpl. eauto.
Qed.

Lemma HasPrefix_app p s : HasPrefix (p ++ s) p = true.
Proof.
  induction p as [| c p IH]; sapp; simpl; [by destruct s |].
  by rewrite Ascii.eqb_refl.
Qed.

Lemma Contains_infix a sub c : Contains (a ++ sub ++ c) sub = true.
Proof.
  unfold Contains. apply bool_decide_eq_true. apply Index_infix.
  rewrite Index_HasPrefix by apply HasPrefix_app. eauto.
Qed.

Lemma sdrop_app s t : sdrop (String.length s) (s ++ t) = t.
Proof. induction s as [| c s IH]; sapp; simpl; [by destruct t | done]. Qed.

Lemma slength_app (s t : string) :
  String.length (s ++ t) = (String.length s + String.length t)%nat.
Proof. induction s as [| c s IH]; sapp; simpl; [done | by rewrite IH]. Qed.

Lemma sprefix_app s t : sprefix (String.length s) (s ++ t) = s.
Proof. induction s as [| c s IH]; sapp; simpl; [by destruct t | by rewrite IH]. Qed.

Lemma sprefix_sdrop n s : s = sprefix n s ++ sdrop n s.
Proof.
  revert s. induction n as [| n IH]; intros [| c s]; simpl; sapp; try done.
  by rewrite <- IH.
Qed.

Lemma sdrop_app_le n s t :
  (n <= String.length s)%nat -> sdrop n (s ++ t) = sdrop n s ++ t.
Proof.
  revert s. induction n as [| n IH]; intros s Hn.
  - by destruct s, t.
  - destruct s as [| c s]; simpl in Hn; [lia |]. sapp. simpl. apply IH. lia.
Qed.

Lemma sprefix_app_le n s t :
  (n <= String.length s)%nat -> sprefix n (s ++ t) = sprefix n s.
Proof.
  revert s. induction n as [| n IH]; intros s Hn.
  - by destruct s, t.
  - destruct s as [| c s]; simpl in Hn; [lia |]. sapp. simpl. rewrite IH; [done | lia].
Qed.

Lemma sprefix_length n s :
  (n <= String.length s)%nat -> String.length (sprefix n s) = n.
Proof.
  revert s. induction n as [| n IH]; intros s Hn.
  - by destruct s.
  - destruct s as [| c s]; simpl in Hn; [lia |]. simpl. rewrite IH; [done | lia].
Qed.

Lemma everyByte_app p s t :
  strings.everyByte p (s ++ t) = strings.everyByte p s && strings.everyByte p t.
Proof. induction s as [| c s IH]; sapp; simpl; [done |]. by rewrite IH, andb_assoc. Qed.

Lemma everyByte_srev p s : strings.everyByte p (strings.srev s) = strings.everyByte p s.
Proof.
  induction s as [| c s IH]; [done |].
  rewrite srev_cons, everyByte_app, IH. simpl. by rewrite andb_true_r, andb_comm.
Qed.

Lemma slength_srev s : String.length (strings.srev s) = String.length s.
Proof.
  induction s as [| c s IH]; [done |].
  rewrite srev_cons, slength_app, IH. simpl. lia.
Qed.

(** A prefix made of bytes of one kind ends before a byte of the other
    kind. *)
Lemma HasPrefix_before p pre c rest u :
  HasPrefix (pre ++ String c rest) u = true ->
  strings.everyByte p u = true -> p c = false ->
  (String.length u <= String.length pre)%nat.
Proof.
  revert pre. induction u as [| d u IH]; intros pre H Hu Hc; [simpl; lia |].
  simpl in Hu. apply andb_true_iff in Hu as [Hd Hu].
  destruct pre as [| e pre]; sapp; simpl in H.
  - destruct (Ascii.eqb_spec d c) as [-> | ?]; [congruence | done].
  - destruct (Ascii.eqb d e); [| done]. simpl. apply IH in H; [lia | done..].
Qed.

End string_lemmas.

(** ** The agent loop: compaction, truncation and validation *)

Module orchestrator_props.
Import llm orchestrator orchestrator_spec.

Lemma wrap64_id z : is_int z -> wrap64 z = z.
Proof.
  unfold is_int, wrap64. intros H.
  rewrite Z.mod_small by lia. lia.
Qed.

Lemma len_nonneg {A} (l : list A) : 0 <= len l.
Proof. unfold len. lia. Qed.

#[local] Arguments collectToolUseIDs : simpl never.
#[local] Arguments index : simpl never.
#[local] Arguments slice_from : simpl never.
#[local] Arguments expandOnce : simpl never.
#[local] Arguments truncateMessages : simpl never.
#[local] Arguments validateToolPairs : simpl never.

(** *** Collected tool_use ids *)

Lemma addToolUseID_blocks x blocks ids :
  x ∈ fold_left addToolUseID blocks ids <->
  x ∈ ids \/ exists block, block ∈ blocks /\ isToolUse block = true
                           /\ ID block = x /\ x <> "".
Proof.
  revert ids. induction blocks as [| b blocks IH]; intros ids; simpl.
  - split; [auto | intros [H | (b & Hb & _)]; [done | by apply elem_of_nil in Hb]].
  - rewrite IH. unfold addToolUseID.
    destruct (isToolUse b) eqn:Hu; simpl.
    + destruct (String.eqb_spec (ID b) "") as [He | He]; simpl.
      * split.
        -- intros [H | (b' & Hb' & H)]; [by left |].
           right. exists b'. split; [by apply list_elem_of_further | done].
        -- intros [H | (b' & Hb' & Hu' & Hid & Hne)]; [by left |].
           apply elem_of_cons in Hb' as [-> | Hb']; [congruence |].
           right. by exists b'.
      * split.
        -- intros [H | (b' & Hb' & H)].
           ++ apply elem_of_union in H as [H | H]; [| by left].
              apply elem_of_singleton in H. subst x.
              right. exists b. split; [apply list_elem_of_here | done].
           ++ right. exists b'. split; [by apply list_elem_of_further | done].
        -- intros [H | (b' & Hb' & Hu' & Hid & Hne)].
           ++ left. apply elem_of_union. by right.
           ++ apply elem_of_cons in Hb' as [-> | Hb'].
              ** left. apply elem_of_union. left. by apply elem_of_singleton.
              ** right. by exists b'.
    + split.
      * intros [H | (b' & Hb' & H)]; [by left |].
        right. exists b'. split; [by apply list_elem_of_further | done].
      * intros [H | (b' & Hb' & Hu' & Hid & Hne)]; [by left |].
        apply elem_of_cons in Hb' as [-> | Hb']; [congruence |].
        right. by exists b'.
Qed.

Lemma addToolUseIDs_spec x messages ids :
  x ∈ addToolUseIDs ids messages <-> x ∈ ids \/ usesID x messages.
Proof.
  unfold addToolUseIDs, usesID.
  revert ids. induction messages as [| m messages IH]; intros ids; simpl.
  - split; [auto | intros [H | (m & b & Hm & _)]; [done | by apply elem_of_nil in Hm]].
  - rewrite IH, addToolUseID_blocks. split.
    + intros [[H | (b & Hb & H)] | (m' & b & Hm' & H)].
      * by left.
      * right. exists m, b. split; [apply list_elem_of_here | done].
      * right. exists m', b. split; [by apply list_elem_of_further | done].
    + intros [H | (m' & b & Hm' & Hb & H)].
      * left. by left.
      * apply elem_of_cons in Hm' as [-> | Hm'].
        -- left. right. by exists b.
        -- right. by exists m', b.
Qed.

(** *** validateToolPairs *)

Lemma concat_imap_nil {A B} (f : nat -> A -> list B) (l : list A) :
  concat (imap f l) = [] -> forall i x, l !! i = Some x -> f i x = [].
Proof.
  revert f. induction l as [| y l IH]; intros f H i x Hi; [done |].
  simpl in H. apply app_eq_nil in H as [H0 Hl].
  destruct i as [| i]; simpl in Hi.
  - by inversion Hi; subst.
  - by apply (IH (f ∘ S) Hl i x).
Qed.

Lemma flat_map_nil {A B} (f : A -> list B) (l : list A) :
  flat_map f l = [] -> forall x, x ∈ l -> f x = [].
Proof.
  induction l as [| y l IH]; intros H x Hx; [by apply elem_of_nil in Hx |].
  simpl in H. apply app_eq_nil in H as [H0 Hl].
  apply elem_of_cons in Hx as [-> | Hx]; [done | by apply IH].
Qed.

Lemma orphans_nil_block messages msg block :
  orphans messages = [] ->
  msg ∈ messages -> block ∈ MContent msg -> isToolResult block = true ->
  ToolUseID block <> "" /\ ToolUseID block ∈ addToolUseIDs ∅ messages.
Proof.
  unfold orphans. intros H Hm Hb Hr.
  apply list_elem_of_lookup in Hm as [i Hi].
  pose proof (concat_imap_nil _ _ H i msg Hi) as Hmsg.
  unfold orphanEntries in Hmsg.
  pose proof (flat_map_nil _ _ Hmsg block Hb) as Hblock. simpl in Hblock.
  rewrite Hr in Hblock.
  destruct (String.eqb_spec (ToolUseID block) ""); [done |].
  case_bool_decide; done.
Qed.

Lemma validateToolPairs_None messages :
  validateToolPairs messages = None <-> orphans messages = [].
Proof.
  unfold validateToolPairs.
  destruct (orphans messages) as [| o os] eqn:Ho; [done |].
  split; [| done]. unfold len. simpl. done.
Qed.

(** A list that passes the validation has its pairs intact. *)
Lemma validateToolPairs_pairsIntact messages :
  validateToolPairs messages = None -> pairsIntact messages.
Proof.
  intros H%validateToolPairs_None msg block Hm Hb Hr.
  destruct (orphans_nil_block _ _ _ H Hm Hb Hr) as [Hne Hin].
  split; [done |].
  apply addToolUseIDs_spec in Hin as [Hin | (m' & b' & ? & ? & ? & ? & ?)].
  - by apply not_elem_of_empty in Hin.
  - by exists m', b'.
Qed.

(** *** truncateMessages *)

Lemma searchBackward_bound messages id j k :
  searchBackward messages id j = Some k -> (1 <= k <= j)%nat.
Proof.
  induction j as [| j IH]; simpl; [done |].
  destruct (messages !! S j) as [msg |].
  - destruct (hasToolUseWithID id msg).
    + intros [= <-]. lia.
    + intros H%IH. lia.
  - intros H%IH. lia.
Qed.

Lemma firstChange_Some {A} (f : A -> option nat) l j :
  firstChange f l = Some j -> exists x, x ∈ l /\ f x = Some j.
Proof.
  induction l as [| x l IH]; simpl; [done |].
  destruct (f x) as [j' |] eqn:Hf.
  - intros [= <-]. exists x. split; [apply list_elem_of_here | done].
  - intros (y & Hy & H)%IH. exists y. split; [by apply list_elem_of_further | done].
Qed.

Lemma firstChange_None {A} (f : A -> option nat) l :
  (forall x, x ∈ l -> f x = None) -> firstChange f l = None.
Proof.
  induction l as [| x l IH]; intros H; simpl; [done |].
  rewrite (H x) by apply list_elem_of_here.
  apply IH. intros y Hy. apply H. by apply list_elem_of_further.
Qed.

Lemma index_0 {A} (l : list A) x : index (x :: l) 0 = Some x.
Proof. unfold index, len. simpl. destruct (Z.ltb_spec 0 (Z.pos (Pos.of_succ_nat (length l)))); [done | lia]. Qed.

Lemma collectToolUseIDs_cons first messages from :
  collectToolUseIDs (first :: messages) from true
  = Some (addToolUseIDs ∅ (first :: drop from (first :: messages))).
Proof. unfold collectToolUseIDs. rewrite index_0. reflexivity. Qed.

Lemma expandOnce_bound first messages keepFrom j :
  expandOnce (first :: messages) keepFrom = Some (Some j) ->
  (1 <= j < keepFrom)%nat.
Proof.
  unfold expandOnce. rewrite collectToolUseIDs_cons. simpl.
  intros [= H].
  apply firstChange_Some in H as (msg & _ & H).
  apply firstChange_Some in H as (block & _ & H).
  unfold resolveBlock in H.
  destruct (_ && _); [| done].
  apply searchBackward_bound in H. lia.
Qed.

Lemma expandOnce_total first messages keepFrom :
  exists r, expandOnce (first :: messages) keepFrom = Some r.
Proof. unfold expandOnce. rewrite collectToolUseIDs_cons. simpl. eauto. Qed.

Lemma expand_bound rounds first messages keepFrom :
  (1 <= keepFrom)%nat ->
  exists k, expand rounds (first :: messages) keepFrom = Some k
            /\ (1 <= k <= keepFrom)%nat.
Proof.
  revert keepFrom. induction rounds as [| rounds IH]; intros keepFrom Hk.
  - exists keepFrom. split; [done | lia].
  - cbn [expand].
    destruct (expandOnce_total first messages keepFrom) as [[j |] Hr]; rewrite Hr; simpl.
    + apply expandOnce_bound in Hr.
      destruct (IH j) as (k & Hk' & Hb); [lia |].
      exists k. split; [done | lia].
    + exists keepFrom. split; [done | lia].
Qed.

(** Once the kept messages pass the validation, a round changes nothing. *)
Lemma expandOnce_valid first messages keepFrom :
  validateToolPairs (first :: drop keepFrom (first :: messages)) = None ->
  expandOnce (first :: messages) keepFrom = Some None.
Proof.
  intros H%validateToolPairs_None.
  unfold expandOnce. rewrite collectToolUseIDs_cons. simpl. f_equal.
  apply firstChange_None. intros msg Hm.
  apply firstChange_None. intros block Hb.
  unfold resolveBlock.
  destruct (isToolResult block) eqn:Hr; [| done]. simpl.
  assert (msg ∈ first :: drop keepFrom (first :: messages)) as Hm'
    by by apply list_elem_of_further.
  destruct (orphans_nil_block _ _ _ H Hm' Hb Hr) as [Hne Hin].
  rewrite bool_decide_eq_true_2 by done.
  by rewrite andb_false_r.
Qed.

Lemma expand_valid rounds first messages keepFrom :
  validateToolPairs (first :: drop keepFrom (first :: messages)) = None ->
  expand rounds (first :: messages) keepFrom = Some keepFrom.
Proof.
  intros H. destruct rounds; [done |].
  cbn [expand]. by rewrite (expandOnce_valid _ _ _ H).
Qed.

Lemma initialKeepFrom_eq messages maxMessages :
  1 <= maxMessages -> maxMessages < len messages -> len messages < 2 ^ 63 ->
  initialKeepFrom messages maxMessages = len messages - maxMessages + 1.
Proof.
  intros H1 H2 H3. unfold initialKeepFrom, int_add, int_sub.
  rewrite (wrap64_id (len messages - maxMessages)) by (unfold is_int; lia).
  rewrite wrap64_id by (unfold is_int; lia).
  destruct (Z.ltb_spec (len messages - maxMessages + 1) 1); [lia | done].
Qed.

Lemma slice_from_in_range {A} (l : list A) (k : nat) :
  (k <= length l)%nat -> slice_from l (Z.of_nat k) = Some (drop k l).
Proof.
  intros H. unfold slice_from, len.
  destruct (Z.leb_spec 0 (Z.of_nat k)); [| lia].
  destruct (Z.leb_spec (Z.of_nat k) (Z.of_nat (length l))); [| lia].
  simpl. by rewrite Nat2Z.id.
Qed.

(** The shape of a truncation: the first message and a suffix that starts
    no later than the ideal cut point [len - max + 1]; exactly there when
    that cut leaves the pairs intact. *)
Lemma truncateMessages_shape messages maxMessages :
  1 <= maxMessages -> maxMessages < len messages -> len messages < 2 ^ 63 ->
  exists first k,
    messages !! 0%nat = Some first
    /\ truncateMessages messages maxMessages = Some (first :: drop k messages)
    /\ 1 <= Z.of_nat k <= len messages - maxMessages + 1
    /\ (validateToolPairs
          (first :: drop (Z.to_nat (len messages - maxMessages + 1)) messages) = None ->
        Z.of_nat k = len messages - maxMessages + 1).
Proof.
  intros H1 H2 H3.
  destruct messages as [| first messages]; [unfold len in H2; simpl in H2; lia |].
  unfold truncateMessages.
  destruct (Z.leb_spec (len (first :: messages)) maxMessages); [lia |].
  rewrite initialKeepFrom_eq by done.
  set (k0 := Z.to_nat (len (first :: messages) - maxMessages + 1)).
  assert (1 <= k0 <= length (first :: messages))%nat as Hk0
    by (unfold k0, len in *; lia).
  destruct (expand_bound 100 first messages k0) as (k & Hk & Hb); [lia |].
  exists first, k. split; [done |]. rewrite Hk. simpl.
  rewrite slice_from_in_range by lia. simpl.
  split; [done |]. split; [unfold k0 in *; lia |].
  intros Hv. rewrite (expand_valid _ _ _ _ Hv) in Hk.
  inversion Hk. unfold k0, len in *. lia.
Qed.

Section WithProvider.
Context {PS : Type}.
Variable provider_Call : AgentRequest -> PS -> Result AgentResponse * PS.

(** C10: a conversation of at most keep_recent+1 messages comes back
    from [Compact] unchanged, and the provider is not called: the world,
    which records every call, is the one [Compact] started in. *)
Theorem Compact_short_conversation_unchanged
    (c : Compactor) (messages : list Message) (w : @World PS) :
  is_int (KeepRecent (config c)) ->
  len messages <= KeepRecent (config c) + 1 ->
  Compact provider_Call c messages w = Some (Ok messages, w).
Proof.
  intros Hint Hlen. unfold Compact.
  destruct (Z.eq_dec (KeepRecent (config c)) (2 ^ 63 - 1)) as [Hmax | Hmax].
  - (* keep_recent + 1 wraps around; the second guard returns *)
    rewrite Hmax in *.
    replace (int_add (2 ^ 63 - 1) 1) with (- 2 ^ 63) by reflexivity.
    pose proof (len_nonneg messages) as Hn.
    destruct (Z.leb_spec (len messages) (- 2 ^ 63)); [lia |].
    unfold int_sub. rewrite wrap64_id by (unfold is_int; lia).
    destruct (Z.leb_spec (len messages - (2 ^ 63 - 1)) 1); [reflexivity | lia].
  - unfold int_add. rewrite wrap64_id by (unfold is_int in *; lia).
    destruct (Z.leb_spec (len messages) (KeepRecent (config c) + 1)); [reflexivity | lia].
Qed.

Lemma generateSummary_fails text (w : @World PS) :
  (forall req, exists e, fst (provider_Call req (provider_state w)) = Err e) ->
  exists e w',
    generateSummary provider_Call text w = Some (Err e, w')
    /\ length (provider_calls w') = S (length (provider_calls w)).
Proof.
  intros Hfail. unfold generateSummary, bind, Call.
  match goal with |- context [provider_Call ?r _] => destruct (Hfail r) as [e He] end.
  destruct (provider_Call _ (provider_state w)) as [r s]. simpl in He. subst r.
  eexists _, _. split; [reflexivity |].
  simpl. rewrite length_app. simpl. lia.
Qed.

(** C6, amended: past keep_recent+1 messages and with a failing
    provider, [Compact] returns without error the first message
    followed by a suffix of the conversation; the suffix starts no later
    than at the last keep_recent messages, and exactly there when that
    cut leaves every tool_result with its tool_use.  The provider was
    called once. *)
Theorem Compact_provider_failure_truncates
    (c : Compactor) (messages : list Message) (w : @World PS) :
  0 <= KeepRecent (config c) ->
  KeepRecent (config c) + 1 < len messages ->
  len messages < 2 ^ 63 ->
  (forall req, exists e, fst (provider_Call req (provider_state w)) = Err e) ->
  exists first k w',
    messages !! 0%nat = Some first
    /\ Compact provider_Call c messages w = Some (Ok (first :: drop k messages), w')
    /\ 1 <= Z.of_nat k <= len messages - KeepRecent (config c)
    /\ (validateToolPairs
          (first :: drop (Z.to_nat (len messages - KeepRecent (config c))) messages) = None ->
        Z.of_nat k = len messages - KeepRecent (config c))
    /\ length (provider_calls w') = S (length (provider_calls w)).
Proof.
  intros Hk Hlen Hint Hfail.
  set (kr := KeepRecent (config c)) in *.
  destruct (truncateMessages_shape messages (kr + 1)) as (first & k & H0 & Ht & Hb & Hv);
    [lia | lia | lia |].
  exists first, k.
  unfold Compact. fold kr.
  unfold int_add, int_sub. rewrite !wrap64_id by (unfold is_int; lia).
  destruct (Z.leb_spec (len messages) (kr + 1)); [lia |].
  destruct (Z.leb_spec (len messages - kr) 1); [lia |].
  unfold bind at 1.
  assert (exists ms, slice messages 1 (len messages - kr) = Some ms) as [ms Hms].
  { unfold slice. destruct (Z.leb_spec 1 (len messages - kr)); [| lia].
    destruct (Z.leb_spec (len messages - kr) (len messages)); [| lia].
    simpl. eauto. }
  rewrite Hms. simpl.
  unfold bind at 1.
  destruct (generateSummary_fails (formatMessagesForSummary ms) w Hfail)
    as (e & w' & Hg & Hcalls).
  rewrite Hg. unfold bind, orPanic, ret. rewrite Ht.
  exists w'. split; [done |]. split; [done |].
  split; [lia |]. split; [| done].
  replace (len messages - kr) with (len messages - (kr + 1) + 1) by lia. done.
Qed.

Lemma generateSummary_total text (w : @World PS) :
  exists r w', generateSummary provider_Call text w = Some (r, w').
Proof.
  unfold generateSummary, bind, Call.
  destruct (provider_Call _ (provider_state w)) as [[resp | e] s]; simpl.
  - destruct (String.eqb _ ""); eauto.
  - eauto.
Qed.

Lemma ensureToolPairsIntact_length recent older :
  (length (ensureToolPairsIntact recent older) <= length older + length recent)%nat.
Proof.
  unfold ensureToolPairsIntact.
  case_bool_decide; [lia |].
  match goal with |- context [List.filter ?f older] =>
    pose proof (List.filter_length_le f older) as Hf;
    destruct (List.filter f older) as [| m ms] end; [lia |].
  rewrite length_app. lia.
Qed.

(** Under a non-negative keep_recent [Compact] neither panics nor
    returns an error, and it adds at most two messages. *)
Lemma Compact_total (c : Compactor) (messages : list Message) (w : @World PS) :
  0 <= KeepRecent (config c) -> is_int (KeepRecent (config c)) ->
  len messages < 2 ^ 63 ->
  exists r w', Compact provider_Call c messages w = Some (Ok r, w')
               /\ len r <= len messages + 2.
Proof.
  intros Hk Hint Hlen.
  destruct (Z.le_gt_cases (len messages) (KeepRecent (config c) + 1)) as [Hle | Hgt].
  { exists messages, w. split; [| lia]. unfold Compact.
    destruct (Z.eq_dec (KeepRecent (config c)) (2 ^ 63 - 1)) as [Hmax | Hmax].
    - rewrite Hmax in *.
      replace (int_add (2 ^ 63 - 1) 1) with (- 2 ^ 63) by reflexivity.
      pose proof (len_nonneg messages) as Hn.
      destruct (Z.leb_spec (len messages) (- 2 ^ 63)); [lia |].
      unfold int_sub. rewrite wrap64_id by (unfold is_int; lia).
      destruct (Z.leb_spec (len messages - (2 ^ 63 - 1)) 1); [reflexivity | lia].
    - unfold int_add. rewrite wrap64_id by (unfold is_int in *; lia).
      destruct (Z.leb_spec (len messages) (KeepRecent (config c) + 1));
        [reflexivity | lia]. }
  set (kr := KeepRecent (config c)) in *.
  unfold Compact. fold kr.
  unfold int_add, int_sub. rewrite !wrap64_id by (unfold is_int; lia).
  destruct (Z.leb_spec (len messages) (kr + 1)); [lia |].
  destruct (Z.leb_spec (len messages - kr) 1); [lia |].
  unfold bind at 1.
  assert (exists ms, slice messages 1 (len messages - kr) = Some ms) as [ms Hms].
  { unfold slice. destruct (Z.leb_spec 1 (len messages - kr)); [| lia].
    destruct (Z.leb_spec (len messages - kr) (len messages)); [| lia].
    simpl. eauto. }
  rewrite Hms. simpl. unfold bind at 1.
  destruct (generateSummary_total (formatMessagesForSummary ms) w) as (r & w' & Hg).
  rewrite Hg. destruct r as [summary | e].
  - destruct messages as [| first messages]; [unfold len in *; simpl in *; lia |].
    unfold bind, orPanic, ret. rewrite index_0.
    unfold slice_from, slice_to.
    destruct (Z.leb_spec 0 (len (first :: messages) - kr)); [| lia].
    destruct (Z.leb_spec (len (first :: messages) - kr) (len (first :: messages))); [| lia].
    simpl. eexists _, w'. split; [reflexivity |].
    match goal with |- context [ensureToolPairsIntact ?a ?b] =>
      pose proof (ensureToolPairsIntact_length a b) as Hl;
      assert (length b + length a = length (first :: messages))%nat as Hab
    end.
    { rewrite length_take, length_drop. lia. }
    unfold len in *. simpl in *. lia.
  - destruct (truncateMessages_shape messages (kr + 1)) as (first & k & _ & Ht & Hb & _);
      [lia | lia | lia |].
    unfold bind, orPanic, ret. rewrite Ht.
    eexists _, w'. split; [reflexivity |].
    unfold len in *. simpl. rewrite length_drop. lia.
Qed.

Lemma truncateMessages_total messages maxMessages :
  1 <= maxMessages -> len messages < 2 ^ 63 ->
  exists r, truncateMessages messages maxMessages = Some r.
Proof.
  intros H1 H2.
  destruct (Z.le_gt_cases (len messages) maxMessages) as [Hle | Hgt].
  - exists messages. unfold truncateMessages.
    destruct (Z.leb_spec (len messages) maxMessages); [done | lia].
  - destruct (truncateMessages_shape messages maxMessages) as (first & k & _ & Ht & _);
      [lia | lia | lia |]. eauto.
Qed.

Lemma effectiveMaxMessages_pos n : 1 <= effectiveMaxMessages n.
Proof.
  unfold effectiveMaxMessages, defaultMaxMessages.
  destruct (Z.leb_spec n 0); lia.
Qed.

(** C1, amended: the list put into the request either has every
    tool_result paired with a tool_use somewhere in that list (its id
    not empty), or it is the value of [state.Messages] at that point,
    which is the list the iteration started with unless the compactor
    ran, in which case it is the compactor's output. *)
Theorem manageHistory_sends_paired_or_state
    (cfg : CompactConfig) (reqMaxMessages : Z)
    (stateMessages : list Message) (w : @World PS) :
  0 <= KeepRecent cfg -> is_int (KeepRecent cfg) ->
  len stateMessages + 2 < 2 ^ 63 ->
  exists sent state' w',
    manageHistory provider_Call (compactorOf cfg)
      (effectiveMaxMessages reqMaxMessages) stateMessages w
    = Some ((sent, state'), w')
    /\ (pairsIntact sent \/ sent = state')
    /\ ((state' = stateMessages /\ w' = w)
        \/ (Enabled cfg = true /\ Threshold cfg < len stateMessages
            /\ Compact provider_Call (NewCompactor cfg) stateMessages w
               = Some (Ok state', w'))).
Proof.
  intros Hk Hint Hlen.
  pose proof (effectiveMaxMessages_pos reqMaxMessages) as Hmax.
  set (maxMessages := effectiveMaxMessages reqMaxMessages) in *.
  (* the compaction step *)
  assert (exists messages w',
             (match compactorOf cfg with
              | Some c =>
                  if ShouldCompact c stateMessages then
                    bind (Compact provider_Call c stateMessages) (fun r =>
                      match r with
                      | Err _ => ret (stateMessages, stateMessages)
                      | Ok compactedMessages =>
                          ret (compactedMessages, compactedMessages)
                      end)
                  else ret (stateMessages, stateMessages)
              | None => ret (stateMessages, stateMessages)
              end) w = Some ((messages, messages), w')
             /\ len messages <= len stateMessages + 2
             /\ ((messages = stateMessages /\ w' = w)
                 \/ (Enabled cfg = true /\ Threshold cfg < len stateMessages
                     /\ Compact provider_Call (NewCompactor cfg) stateMessages w
                        = Some (Ok messages, w'))))
    as (messages & w1 & Hstep & Hlen1 & Horigin).
  { unfold compactorOf.
    destruct (Enabled cfg) eqn:Hen.
    - unfold ShouldCompact. simpl. rewrite Hen. simpl.
      destruct (Z.ltb_spec (Threshold cfg) (len stateMessages)).
      + destruct (Compact_total (NewCompactor cfg) stateMessages w)
          as (r & w' & Hc & Hr); [done | done | lia |].
        exists r, w'. unfold bind. rewrite Hc. unfold ret.
        split; [done |]. split; [done |]. right. done.
      + exists stateMessages, w. unfold ret.
        split; [done |]. split; [lia |]. by left.
    - exists stateMessages, w. unfold ret.
      split; [done |]. split; [lia |]. by left. }
  unfold manageHistory. unfold bind at 1. rewrite Hstep.
  (* the truncation step *)
  assert (exists candidate,
             (if maxMessages <? len messages
              then orPanic (truncateMessages messages maxMessages)
              else ret messages) w1 = Some (candidate, w1))
    as (candidate & Htrunc).
  { destruct (Z.ltb_spec maxMessages (len messages)).
    - destruct (truncateMessages_total messages maxMessages) as [r Hr]; [done | lia |].
      exists r. unfold orPanic. by rewrite Hr.
    - by exists messages. }
  unfold bind at 1. rewrite Htrunc.
  (* the validation *)
  destruct (validateToolPairs candidate) as [err |] eqn:Hv.
  - exists messages, messages, w1. unfold ret.
    split; [done |]. split; [by right | done].
  - exists candidate, messages, w1. unfold ret.
    split; [done |]. split; [| done].
    left. by apply validateToolPairs_pairsIntact.
Qed.

End WithProvider.

Lemma Compact_short_conversation_unchanged_witness :
  Compact failingProvider (NewCompactor DefaultCompactConfig)
    [NewTextMessage RoleUser "task"; NewTextMessage RoleAssistant "done"]
    (mkWorld tt [])
  = Some (Ok [NewTextMessage RoleUser "task"; NewTextMessage RoleAssistant "done"],
          mkWorld tt []).
Proof.
  apply (Compact_short_conversation_unchanged failingProvider).
  - unfold is_int. simpl. lia.
  - simpl. unfold len. simpl. lia.
Defined.

(** C6, as stated, fails: with keep_recent = 1 and a failing provider a
    conversation of four messages is cut down to the first and the last
    one, not to the first followed by the last two. *)
Lemma Compact_failure_keeps_fewer_than_claimed :
  fst <$> Compact failingProvider (NewCompactor keepOne) fourTexts (mkWorld tt [])
  = Some (Ok [NewTextMessage RoleUser "task"; NewTextMessage RoleAssistant "done"])
  /\ fst <$> Compact failingProvider (NewCompactor keepOne) fourTexts (mkWorld tt [])
     <> Some (Ok (firstAndLast fourTexts (KeepRecent keepOne + 1))).
Proof. split; [reflexivity | discriminate]. Qed.

Lemma Compact_provider_failure_truncates_witness :
  exists first k w',
    fourTexts !! 0%nat = Some first
    /\ Compact failingProvider (NewCompactor keepOne) fourTexts (mkWorld tt [])
       = Some (Ok (first :: drop k fourTexts), w')
    /\ 1 <= Z.of_nat k <= len fourTexts - KeepRecent keepOne
    /\ (validateToolPairs
          (first :: drop (Z.to_nat (len fourTexts - KeepRecent keepOne)) fourTexts) = None ->
        Z.of_nat k = len fourTexts - KeepRecent keepOne)
    /\ length (provider_calls w') = S (length (provider_calls (mkWorld tt []))).
Proof.
  apply (Compact_provider_failure_truncates failingProvider).
  - simpl. lia.
  - unfold len. simpl. lia.
  - unfold len. simpl. lia.
  - intros req. exists (errorString "unavailable"). reflexivity.
Defined.

(** C1, as stated, fails: truncating [resultBeforeUse] to three messages
    passes the validation, so the truncated list is sent; it is not the
    full list, and its tool_result has no tool_use before it. *)
Lemma manageHistory_sends_result_before_use :
  exists sent,
    fst <$> manageHistory failingProvider None 3 resultBeforeUse (mkWorld tt [])
    = Some (sent, resultBeforeUse)
    /\ pairedWithEarlierToolUse sent = false
    /\ sent <> resultBeforeUse.
Proof.
  eexists. split; [vm_compute; reflexivity |].
  split; [vm_compute; reflexivity | discriminate].
Qed.

Lemma manageHistory_sends_paired_or_state_witness :
  exists sent state' w',
    manageHistory failingProvider (compactorOf keepOne)
      (effectiveMaxMessages 3) fourTexts (mkWorld tt [])
    = Some ((sent, state'), w')
    /\ (pairsIntact sent \/ sent = state')
    /\ ((state' = fourTexts /\ w' = mkWorld tt [])
        \/ (Enabled keepOne = true /\ Threshold keepOne < len fourTexts
            /\ Compact failingProvider (NewCompactor keepOne) fourTexts (mkWorld tt [])
               = Some (Ok state', w'))).
Proof.
  apply (manageHistory_sends_paired_or_state failingProvider).
  - simpl. lia.
  - unfold is_int. simpl. lia.
  - unfold len. simpl. lia.
Defined.

End orchestrator_props.

(** ** The tool context and the bash tool *)

Module tools_props.
Import llm tools builtin string_lemmas.

(** C2: the code rejects a path that stays inside the workspace.  With
    the workspace root [/w], the relative path [..foo] resolves to
    [/w/..foo], a child of the root, and the path relative to the root is
    [..foo]; its first two characters make [ValidatePath] answer with the
    path-outside error. *)
Theorem ValidatePath_rejects_name_starting_with_dots :
  filepath.Clean (filepath.Join ["/w"; "..foo"]) = "/w/..foo"
  /\ filepath.Rel "/w" "/w/..foo" = Ok "..foo"
  /\ ValidatePath (Ok "/") (NewToolContext "/w") "..foo" = Err ErrPathOutsideWorkDir.
Proof. repeat split; reflexivity. Qed.

(** The cases of the unit test behave as the test expects. *)
Example ValidatePath_test_cases :
  ValidatePath (Ok "/") (NewToolContext "/tmp/t") "subdir/file.txt" = Ok "/tmp/t/subdir/file.txt"
  /\ ValidatePath (Ok "/") (NewToolContext "/tmp/t") "." = Ok "/tmp/t"
  /\ ValidatePath (Ok "/") (NewToolContext "/tmp/t") "../outside" = Err ErrPathOutsideWorkDir
  /\ ValidatePath (Ok "/") (NewToolContext "/tmp/t") "/tmp/t/file.txt" = Ok "/tmp/t/file.txt"
  /\ ValidatePath (Ok "/") (NewToolContext "/tmp/t") "/etc/passwd" = Err ErrPathOutsideWorkDir
  /\ ValidatePath (Ok "/") (NewToolContext "") "file.txt" = Err ErrNoWorkDir.
Proof. repeat split; reflexivity. Qed.

(** *** The bash tool *)

Section Environment.
Variable ToLower : string -> string.
Variable home : string.
Variable rangeEnv : gmap string string -> list (string * string).
Variable overflow : Z.
Variable runCommand :
  forall (timeout : Z) (command dir : string) (env : list string), ProcessOutcome.

Lemma effectiveTimeout_range toolCtx input :
  1 <= effectiveTimeout overflow toolCtx input <= 300.
Proof.
  unfold effectiveTimeout.
  set (t := match input !! "timeout" with
            | Some (anyNumber t) => _
            | _ => _
            end).
  destruct (Z.ltb_spec 300 t).
  - destruct (Z.ltb_spec 300 1); lia.
  - destruct (Z.ltb_spec t 1); lia.
Qed.

(** C9, amended: the timeout in effect starts from the requested number
    of seconds, cut to an integer, when a positive number is requested,
    and from the default of the context otherwise; above 300 it becomes
    300 and below 1 it becomes 60, so it always lies in 1..300.  When
    the command is run and the deadline passes, the result carries the
    error flag and its content holds "timed out" and that number. *)
Theorem bash_timeout_effective_and_reported
    (toolCtx : ToolContext) (input : gmap string any) (command : string) :
  let timeout := effectiveTimeout overflow toolCtx input in
  let start :=
    match input !! "timeout" with
    | Some (anyNumber t) =>
        if SFltb (S754_zero false) t then float64ToInt overflow t
        else BashTimeout toolCtx
    | _ => BashTimeout toolCtx
    end in
  1 <= timeout <= 300
  /\ (300 < start -> timeout = 300)
  /\ (start < 1 -> timeout = 60)
  /\ (1 <= start <= 300 -> timeout = start)
  /\ (CheckBash toolCtx = None ->
      input !! "command" = Some (anyString command) -> command <> "" ->
      validateCommand ToLower command = None ->
      let out := runCommand timeout command (WorkDir toolCtx)
                            (buildEnv home rangeEnv toolCtx) in
      runErr out <> None -> deadlineExceeded out = true ->
      let result := Execute ToLower home rangeEnv overflow runCommand toolCtx input in
      TRIsError result = true
      /\ Contains (TRContent result) "timed out" = true
      /\ Contains (TRContent result) (itoa timeout) = true).
Proof.
  intros timeout start.
  split; [apply effectiveTimeout_range |].
  assert (timeout = (let t := if 300 <? start then 300 else start in
                     if t <? 1 then 60 else t)) as Ht by reflexivity.
  simpl in Ht.
  split; [| split; [| split]].
  - intros H. rewrite Ht. destruct (Z.ltb_spec 300 start); [| lia].
    destruct (Z.ltb_spec 300 1); lia.
  - intros H. rewrite Ht. destruct (Z.ltb_spec 300 start); [lia |].
    destruct (Z.ltb_spec start 1); lia.
  - intros H. rewrite Ht. destruct (Z.ltb_spec 300 start); [lia |].
    destruct (Z.ltb_spec start 1); lia.
  - intros Hperm Hcmd Hne Hvalid out Herr Hdead result.
    unfold result, Execute. rewrite Hperm, Hcmd.
    destruct (String.eqb_spec command ""); [done |].
    rewrite Hvalid. fold timeout. fold out.
    destruct (runErr out) as [err |]; [| done].
    rewrite Hdead. simpl.
    split; [done |]. split.
    + match goal with |- Contains (_ ++ _ ++ ?rest) _ = _ =>
        exact (Contains_infix "Command " "timed out"
                              (" after " ++ itoa timeout ++ rest)) end.
    + apply (Contains_infix "Command timed out after ").
Qed.

End Environment.

(** C9, as stated, fails at the lower end: a context whose default is 0
    runs the command with 60 seconds, and a request of -5 seconds is set
    aside in favour of the default of 60; clamping gives 1 for both. *)
Lemma bash_timeout_below_one_is_not_clamped :
  (effectiveTimeout 0 (WithBashTimeout (NewToolContext "/w") 0) sleepInput = 60
   /\ clampedTimeout (WithBashTimeout (NewToolContext "/w") 0) sleepInput = 1)
  /\ (effectiveTimeout 0 (NewToolContext "/w")
        (<[ "timeout" := anyNumber minusFive ]> sleepInput) = 60
      /\ clampedTimeout (NewToolContext "/w")
           (<[ "timeout" := anyNumber minusFive ]> sleepInput) = 1).
Proof. repeat split; vm_compute; reflexivity. Qed.

Lemma bash_timeout_effective_and_reported_witness :
  let toolCtx := WithBashTimeout (NewToolContext "/w") 2 in
  let result := Execute strings.ToLowerASCII "/root" orderedEnv 0 killedByDeadline
                        toolCtx sleepInput in
  effectiveTimeout 0 toolCtx sleepInput = 2
  /\ TRIsError result = true
  /\ Contains (TRContent result) "timed out" = true
  /\ Contains (TRContent result) (itoa 2) = true.
Proof.
  intros toolCtx result.
  pose proof (bash_timeout_effective_and_reported strings.ToLowerASCII "/root"
                orderedEnv 0 killedByDeadline toolCtx sleepInput "sleep 600")
    as (_ & _ & _ & Heq & H).
  split; [apply Heq; vm_compute; split; discriminate |].
  apply H; try reflexivity; discriminate.
Defined.

End tools_props.

(** ** The git client: artifact exclusion *)

Module gitutil_props.
Import effects gitutil porcelain string_lemmas.

Lemma allBytes_app p s t : allBytes p (s ++ t) = allBytes p s && allBytes p t.
Proof. induction s as [| c s IH]; sapp; simpl; [done |]. by rewrite IH, andb_assoc. Qed.

Lemma allBytes_srev p s : allBytes p (strings.srev s) = allBytes p s.
Proof.
  induction s as [| c s IH]; [done |].
  rewrite srev_cons, allBytes_app, IH. simpl. by rewrite andb_true_r, andb_comm.
Qed.

(** *** A printable byte is not white space *)

Lemma plain_leadingSpace c s :
  plainByte c = true -> strings.leadingSpace (String c s) = None.
Proof.
  destruct c as [[] [] [] [] [] [] [] []]; intros H; try discriminate H; reflexivity.
Qed.

Lemma plain_trailingSpace c r :
  plainByte c = true -> strings.trailingSpace (String c r) = None.
Proof.
  destruct c as [[] [] [] [] [] [] [] []]; intros H; try discriminate H; reflexivity.
Qed.

Lemma plain_not_space c : plainByte c = true -> Ascii.eqb " " c = false.
Proof.
  destruct c as [[] [] [] [] [] [] [] []]; intros H; try discriminate H; reflexivity.
Qed.

Lemma plain_not_newline c : plainByte c = true -> Ascii.eqb c "010" = false.
Proof.
  destruct c as [[] [] [] [] [] [] [] []]; intros H; try discriminate H; reflexivity.
Qed.

Lemma plain_not_return c : plainByte c = true -> Ascii.eqb c "013" = false.
Proof.
  destruct c as [[] [] [] [] [] [] [] []]; intros H; try discriminate H; reflexivity.
Qed.

Lemma TrimSpace_plain_ends s :
  startsPlain s -> startsPlain (strings.srev s) -> strings.TrimSpace s = s.
Proof.
  intros (c & s' & -> & Hc) (d & r & Hr & Hd).
  unfold strings.TrimSpace.
  assert (forall fuel, strings.TrimLeftSpace fuel (String c s') = String c s') as Hl.
  { intros [| fuel]; [done |]. cbn [strings.TrimLeftSpace].
    by rewrite plain_leadingSpace. }
  rewrite Hl, Hr.
  assert (forall fuel, strings.TrimRightSpaceRev fuel (String d r) = String d r) as Ht.
  { intros [| fuel]; [done |]. cbn [strings.TrimRightSpaceRev].
    by rewrite plain_trailingSpace. }
  rewrite Ht, <- Hr. apply srev_involutive.
Qed.

Lemma plainPath_starts p : plainPath p = true -> startsPlain p.
Proof.
  unfold plainPath. destruct p as [| c p]; [done |]. simpl.
  intros [Hc _]%andb_prop. by exists c, p.
Qed.

Lemma plainPath_ends p : plainPath p = true -> startsPlain (strings.srev p).
Proof.
  unfold plainPath. intros [Hne Hall]%andb_prop.
  rewrite <- allBytes_srev in Hall.
  destruct (strings.srev p) as [| c r] eqn:Hr.
  - apply (f_equal strings.srev) in Hr. rewrite srev_involutive in Hr.
    subst p. done.
  - simpl in Hall. apply andb_prop in Hall as [Hc _]. by exists c, r.
Qed.

Lemma plainPath_all p : plainPath p = true -> allBytes plainByte p = true.
Proof. unfold plainPath. by intros [_ H]%andb_prop. Qed.

Lemma showPath_plain p : plainPath p = true -> showPath p = p.
Proof. intros H%plainPath_all. unfold showPath. by rewrite H. Qed.

(** *** Finding the arrow of a rename *)

Lemma HasPrefix_arrow_plain c s :
  plainByte c = true -> HasPrefix (String c s) " -> " = false.
Proof. intros H. cbn [HasPrefix]. by rewrite plain_not_space. Qed.

Lemma Index_arrow_none p :
  allBytes plainByte p = true -> Index p " -> " = None.
Proof.
  induction p as [| c p IH]; [done |].
  simpl allBytes. intros [Hc Hp]%andb_prop.
  cbn [Index]. rewrite HasPrefix_arrow_plain by done.
  by rewrite IH.
Qed.

Lemma Index_arrow_after old p :
  allBytes plainByte old = true ->
  Index (old ++ " -> " ++ p) " -> " = Some (String.length old).
Proof.
  induction old as [| c old IH].
  - intros _. sapp. by apply Index_HasPrefix.
  - simpl allBytes. intros [Hc Hp]%andb_prop.
    rewrite sapp_cons. cbn [Index]. rewrite HasPrefix_arrow_plain by done.
    by rewrite IH.
Qed.

Lemma sdrop_arrow old p :
  sdrop (String.length old + 4) (old ++ " -> " ++ p) = p.
Proof.
  induction old as [| c old IH]; [done |]. rewrite sapp_cons. simpl. apply IH.
Qed.

(** *** One status line *)

Lemma statusLine_bare e :
  bareEntry e = true ->
  exists x y, statusLine e = String x (String y (String " " (lineRest e)))
              /\ Ascii.eqb x "010" = false /\ Ascii.eqb y "010" = false.
Proof.
  unfold bareEntry, statusCode, statusLine, lineRest.
  intros [[[[Hlen Hcode]%andb_prop Hpath]%andb_prop Hold]%andb_prop _]%andb_prop.
  destruct (code e) as [| x [| y [| z xy]]]; try discriminate Hlen.
  simpl in Hcode.
  apply andb_prop in Hcode as [[Hx _]%andb_prop [[Hy _]%andb_prop _]%andb_prop].
  apply negb_true_iff in Hx, Hy.
  exists x, y. split; [| done].
  rewrite (showPath_plain _ Hpath).
  destruct (renamedFrom e) as [old |]; [| done].
  rewrite (showPath_plain _ Hold). sapp. by rewrite <- sapp_assoc.
Qed.

Lemma lineRest_plain e :
  bareEntry e = true -> allBytes (fun c => negb (Ascii.eqb c "010")) (lineRest e) = true
                        /\ startsPlain (lineRest e)
                        /\ startsPlain (strings.srev (lineRest e)).
Proof.
  unfold bareEntry, lineRest.
  intros [[[_ Hpath]%andb_prop Hold]%andb_prop _]%andb_prop.
  assert (forall s, allBytes plainByte s = true ->
                    allBytes (fun c => negb (Ascii.eqb c "010")) s = true) as Hnl.
  { induction s as [| c s IH]; [done |]. simpl. intros [Hc Hs]%andb_prop.
    by rewrite plain_not_newline, IH. }
  destruct (renamedFrom e) as [old |].
  - split; [| split].
    + rewrite !allBytes_app.
    rewrite (Hnl old), (Hnl (path e)) by by apply plainPath_all. reflexivity.
    + destruct (plainPath_starts _ Hold) as (c & s' & -> & Hc). by exists c, (s' ++ " -> " ++ path e).
    + rewrite !srev_app.
      destruct (plainPath_ends _ Hpath) as (c & r & -> & Hc). by eexists c, _.
  - split; [by apply Hnl, plainPath_all |].
    split; [by apply plainPath_starts | by apply plainPath_ends].
Qed.

Lemma lineFilename_bare e :
  bareEntry e = true -> lineFilename (statusLine e) = Some (path e).
Proof.
  intros He.
  destruct (statusLine_bare e He) as (x & y & -> & _).
  destruct (lineRest_plain e He) as (_ & Hs & Hr).
  unfold lineFilename. cbn [String.length Nat.ltb Nat.leb sdrop].
  rewrite (TrimSpace_plain_ends _ Hs Hr).
  unfold bareEntry in He.
  apply andb_prop in He as [[[_ Hpath]%andb_prop Hold]%andb_prop _].
  unfold lineRest. destruct (renamedFrom e) as [old |].
  - rewrite Index_arrow_after by by apply plainPath_all.
    by rewrite sdrop_arrow.
  - by rewrite Index_arrow_none by by apply plainPath_all.
Qed.

(** *** The scanner *)

Lemma rawLines_line l rest cur :
  allBytes (fun c => negb (Ascii.eqb c "010")) l = true ->
  rawLines (l ++ nl ++ rest) cur = (strings.srev cur ++ l) :: rawLines rest "".
Proof.
  revert cur. induction l as [| c l IH]; intros cur H.
  - sapp. simpl. by rewrite sapp_nil_r.
  - simpl in H. apply andb_prop in H as [Hc Hl]. apply negb_true_iff in Hc.
    sapp. simpl. rewrite Hc, IH by done.
    by rewrite srev_cons, <- sapp_assoc.
Qed.

Lemma statusLine_no_newline e :
  bareEntry e = true ->
  allBytes (fun c => negb (Ascii.eqb c "010")) (statusLine e) = true.
Proof.
  intros He. destruct (statusLine_bare e He) as (x & y & -> & Hx & Hy).
  destruct (lineRest_plain e He) as (Hn & _). simpl.
  by rewrite Hx, Hy, Hn.
Qed.

Lemma rawLines_statusOutput entries :
  forallb bareEntry entries = true ->
  rawLines (statusOutput entries) "" = map statusLine entries.
Proof.
  induction entries as [| e entries IH]; [done |].
  simpl. intros [He Hes]%andb_prop.
  rewrite rawLines_line by by apply statusLine_no_newline.
  by rewrite IH.
Qed.

Lemma dropCR_bare e : bareEntry e = true -> dropCR (statusLine e) = statusLine e.
Proof.
  intros He. destruct (statusLine_bare e He) as (x & y & Hline & _).
  destruct (lineRest_plain e He) as (_ & _ & (c & r & Hr & Hc)).
  unfold dropCR. rewrite Hline.
  change (String x (String y (String " " (lineRest e))))
    with (String x (String y " ") ++ lineRest e).
  rewrite srev_app, Hr. simpl. by rewrite plain_not_return.
Qed.

Lemma scanLines_statusOutput entries :
  forallb bareEntry entries = true ->
  scanLines (statusOutput entries) = (map statusLine entries, None).
Proof.
  intros H. unfold scanLines. rewrite rawLines_statusOutput by done.
  induction entries as [| e entries IH]; [done |].
  simpl in H. apply andb_prop in H as [He Hes].
  simpl. rewrite (IH Hes), dropCR_bare by done.
  unfold bareEntry in He. apply andb_prop in He as [_ Hlen].
  apply N.ltb_lt in Hlen.
  destruct (N.leb_spec MaxScanTokenSize (N.of_nat (String.length (statusLine e))));
    [lia | done].
Qed.

Lemma changedFile_bare e :
  bareEntry e = true -> changedFile (statusLine e) = outsideArtifacts e.
Proof. intros He. unfold changedFile. by rewrite lineFilename_bare. Qed.

Lemma existsb_changedFile entries :
  forallb bareEntry entries = true ->
  existsb changedFile (map statusLine entries) = existsb outsideArtifacts entries.
Proof.
  induction entries as [| e entries IH]; [done |].
  simpl. intros [He Hes]%andb_prop.
  by rewrite changedFile_bare, IH.
Qed.

Lemma omap_cons {A B} (f : A -> option B) x l :
  omap f (x :: l) = match f x with Some y => y :: omap f l | None => omap f l end.
Proof. reflexivity. Qed.

Lemma filesToStage_bare entries :
  forallb bareEntry entries = true ->
  filesToStage (map statusLine entries)
  = map path (List.filter outsideArtifacts entries).
Proof.
  unfold filesToStage.
  induction entries as [| e entries IH]; [done |].
  cbn [forallb]. intros [He Hes]%andb_prop.
  cbn [map List.filter]. rewrite omap_cons, lineFilename_bare, (IH Hes) by done.
  unfold outsideArtifacts.
  by destruct (excluded (filepath.Base (path e))).
Qed.

(** Where the status output consists of lines with bare paths, the
    exclusion works as the doc comments say: [HasChanges] answers true
    exactly when some path has a base name outside the exclusion set;
    [CommitAll] runs [git add --] on exactly those paths, in the order of
    the status output, and then commits; and it runs neither command when
    there is no such path. *)
Lemma status_filter_on_bare_paths
    (c : Client) (dir message : string) (entries : list StatusEntry)
    (env : Environment GitCall) :
  forallb bareEntry entries = true ->
  env _ [] (RunDirOutput (gitBinary c) dir ["status"; "--porcelain"])
  = Ok (statusOutput entries) ->
  let statusEv := mkEvent (RunDirOutput (gitBinary c) dir ["status"; "--porcelain"])
                          (Ok (statusOutput entries)) in
  let staged := map path (List.filter outsideArtifacts entries) in
  let add := RunDir (gitBinary c) dir ("add" :: "--" :: staged) in
  let commit := RunDir (gitBinary c) dir ["commit"; "-m"; message] in
  interp env (HasChanges c dir) []
  = (Ok (existsb outsideArtifacts entries), [statusEv])
  /\ interp env (CommitAll c dir message) []
     = match staged with
       | [] => (None, [statusEv])
       | _ =>
           let addEv := mkEvent add (env _ [statusEv] add) in
           match env _ [statusEv] add with
           | Some err => (Some err, [statusEv; addEv])
           | None =>
               let commitEv := mkEvent commit (env _ [statusEv; addEv] commit) in
               (env _ [statusEv; addEv] commit, [statusEv; addEv; commitEv])
           end
       end.
Proof.
  intros Hbare Hstatus statusEv staged add commit.
  split.
  - unfold HasChanges, runDirOutput, call. simpl. rewrite Hstatus.
    rewrite scanLines_statusOutput by done.
    rewrite existsb_changedFile by done.
    destruct (existsb outsideArtifacts entries); reflexivity.
  - unfold CommitAll, runDirOutput, runDir, call. simpl. rewrite Hstatus.
    rewrite scanLines_statusOutput by done.
    rewrite filesToStage_bare by done. fold staged.
    destruct staged as [| f fs] eqn:Hs; [reflexivity |].
    simpl. fold statusEv. subst add. simpl.
    destruct (env (option error) [statusEv] _); reflexivity.
Qed.

(** C5: the exclusion by base name misses an artifact whose path git
    prints quoted.  The only change of the working tree is the untracked
    file [my dir/run.log], whose base name is in the exclusion set; git
    prints the path between double quotes, the client does not undo the
    quoting and takes the closing quote for a part of the base name:
    [HasChanges] reports a change, and [CommitAll] runs [git add --] on
    the quoted text. *)
Theorem quoted_artifact_counts_as_change :
  let quoted := dquote ++ "my dir/run.log" ++ dquote in
  let git := gitPrinting (statusOutput artifactInSpacedDir) in
  existsb outsideArtifacts artifactInSpacedDir = false
  /\ statusOutput artifactInSpacedDir = "?? " ++ quoted ++ nl
  /\ filepath.Base quoted = "run.log" ++ dquote
  /\ fst (interp git (HasChanges (mkClient "") "/w/repo") []) = Ok true
  /\ snd (interp git (CommitAll (mkClient "") "/w/repo" "msg") []) !! 1%nat
     = Some (mkEvent (RunDir "git" "/w/repo" ["add"; "--"; quoted]) None).
Proof. repeat split; vm_compute; reflexivity. Qed.

Lemma status_filter_on_bare_paths_witness :
  fst (interp (gitPrinting (statusOutput readmeAndArtifact))
              (HasChanges (mkClient "") "/w/repo") []) = Ok true
  /\ fst (interp (gitPrinting (statusOutput readmeAndArtifact))
                 (CommitAll (mkClient "") "/w/repo" "msg") []) = None.
Proof.
  pose proof (status_filter_on_bare_paths (mkClient "") "/w/repo" "msg"
                readmeAndArtifact (gitPrinting (statusOutput readmeAndArtifact))
                eq_refl eq_refl) as [Hh Hc].
  split; [by rewrite Hh | by rewrite Hc].
Defined.

End gitutil_props.

(** ** The token in a repository URL *)

Module url_props.
Import url url_spec gitutil string_lemmas.

(** *** Bytes *)

Ltac each_byte c :=
  destruct c as [[] [] [] [] [] [] [] []].

Lemma unescape_step mode c rest :
  shouldEscape c mode = false ->
  unescape (String c rest) mode
  = match unescape rest mode with
    | Ok t => Ok (String c t)
    | Err e => Err e
    end.
Proof.
  destruct mode; each_byte c; intros H; try discriminate H; reflexivity.
Qed.

Lemma unescape_percent c rest :
  shouldEscape c encodeUserPassword = true ->
  unescape (percent c rest) encodeUserPassword
  = match unescape rest encodeUserPassword with
    | Ok t => Ok (String c t)
    | Err e => Err e
    end.
Proof. each_byte c; intros H; try discriminate H; reflexivity. Qed.

Lemma hostByte_inert c :
  hostByte c = true ->
  controlByte c = false /\ Ascii.eqb c "/" = false /\ Ascii.eqb c "?" = false
  /\ Ascii.eqb c "#" = false /\ Ascii.eqb c "@" = false.
Proof. each_byte c; intros H; try discriminate H; repeat split; reflexivity. Qed.

Lemma pathByte_inert c :
  pathByte c = true ->
  controlByte c = false /\ Ascii.eqb c "?" = false /\ Ascii.eqb c "#" = false.
Proof. each_byte c; intros H; try discriminate H; repeat split; reflexivity. Qed.

Lemma fragmentByte_inert c : fragmentByte c = true -> controlByte c = false.
Proof. each_byte c; intros H; try discriminate H; reflexivity. Qed.

Lemma schemeByte_inert c :
  schemeByte c = true ->
  (controlByte c = false /\ Ascii.eqb c "?" = false /\ Ascii.eqb c "#" = false)
  /\ (isLetter c || (isDigit c || oneOf c ["+"; "-"; "."]%char) = true)
  /\ strings.lowerByte c = c.
Proof. each_byte c; intros H; try discriminate H; repeat split; reflexivity. Qed.

Lemma userinfoByte_inert c :
  validUserinfoByte c = true ->
  controlByte c = false /\ Ascii.eqb c "/" = false /\ Ascii.eqb c "?" = false
  /\ Ascii.eqb c "#" = false.
Proof. each_byte c; intros H; try discriminate H; repeat split; reflexivity. Qed.

(** One byte of an escaped user name or password. *)
Lemma escaped_byte c :
  if shouldEscape c encodeUserPassword
  then validUserinfo (percent c "") && lacks ":" (percent c "")
       && lacks "@" (percent c "") = true
  else validUserinfoByte c && negb (Ascii.eqb c ":") && negb (Ascii.eqb c "@") = true.
Proof. each_byte c; reflexivity. Qed.

(** *** Strings of such bytes *)

Lemma everyByte_impl (p q : ascii -> bool) s :
  (forall c, p c = true -> q c = true) ->
  strings.everyByte p s = true -> strings.everyByte q s = true.
Proof.
  intros Hpq. induction s as [| c s IH]; [done |]. simpl.
  intros [Hc Hs]%andb_true_iff. by rewrite (Hpq c Hc), IH.
Qed.

Lemma lacks_app c s t : lacks c (s ++ t) = lacks c s && lacks c t.
Proof. apply everyByte_app. Qed.

Lemma IndexByte_none c s : lacks c s = true -> strings.IndexByte s c = None.
Proof.
  induction s as [| d s IH]; [done |]. cbn [lacks strings.everyByte strings.IndexByte].
  intros [Hd Hs]%andb_true_iff. apply negb_true_iff in Hd. rewrite Hd.
  unfold lacks in IH. by rewrite IH.
Qed.

Lemma IndexByte_first c pre rest :
  lacks c pre = true ->
  strings.IndexByte (pre ++ String c rest) c = Some (String.length pre).
Proof.
  induction pre as [| d pre IH]; sapp.
  - intros _. cbn [strings.IndexByte]. by rewrite Ascii.eqb_refl.
  - cbn [lacks strings.everyByte strings.IndexByte].
    intros [Hd Hs]%andb_true_iff. apply negb_true_iff in Hd. rewrite Hd.
    unfold lacks in IH. by rewrite IH.
Qed.

Lemma LastIndexByte_none c s : lacks c s = true -> strings.LastIndexByte s c = None.
Proof.
  induction s as [| d s IH]; [done |].
  cbn [lacks strings.everyByte strings.LastIndexByte].
  intros [Hd Hs]%andb_true_iff. apply negb_true_iff in Hd.
  unfold lacks in IH. by rewrite IH, Hd.
Qed.

Lemma LastIndexByte_last c pre post :
  lacks c post = true ->
  strings.LastIndexByte (pre ++ String c post) c = Some (String.length pre).
Proof.
  intros Hpost. induction pre as [| d pre IH]; sapp.
  - cbn [strings.LastIndexByte]. by rewrite LastIndexByte_none, Ascii.eqb_refl.
  - cbn [strings.LastIndexByte]. by rewrite IH.
Qed.

Lemma CountByte_none c s : lacks c s = true -> strings.CountByte s c = 0%nat.
Proof.
  induction s as [| d s IH]; [done |].
  cbn [lacks strings.everyByte strings.CountByte].
  intros [Hd Hs]%andb_true_iff. apply negb_true_iff in Hd.
  unfold lacks in IH. by rewrite IH, Hd.
Qed.

Lemma CountByte_app c s t :
  strings.CountByte (s ++ t) c = (strings.CountByte s c + strings.CountByte t c)%nat.
Proof.
  induction s as [| d s IH]; sapp; [done |]. cbn [strings.CountByte]. rewrite IH. lia.
Qed.

Lemma escape_plain mode s :
  strings.everyByte (fun c => negb (shouldEscape c mode)) s = true -> escape s mode = s.
Proof.
  induction s as [| c s IH]; [done |]. cbn [strings.everyByte escape].
  intros [Hc Hs]%andb_true_iff. apply negb_true_iff in Hc. by rewrite Hc, IH.
Qed.

Lemma unescape_plain mode s :
  strings.everyByte (fun c => negb (shouldEscape c mode)) s = true ->
  unescape s mode = Ok s.
Proof.
  induction s as [| c s IH]; [done |]. cbn [strings.everyByte].
  intros [Hc Hs]%andb_true_iff. apply negb_true_iff in Hc.
  by rewrite unescape_step, IH.
Qed.

(** *** The escaped token *)

Lemma escape_cons c s mode :
  escape (String c s) mode
  = if shouldEscape c mode then
      if Ascii.eqb c " " && isMode mode encodeQueryComponent
      then String "+" (escape s mode)
      else percent c (escape s mode)
    else String c (escape s mode).
Proof. reflexivity. Qed.

Lemma percent_app c rest : percent c rest = percent c "" ++ rest.
Proof. reflexivity. Qed.

Lemma unescape_escape t :
  unescape (escape t encodeUserPassword) encodeUserPassword = Ok t.
Proof.
  induction t as [| c t IH]; [done |]. rewrite escape_cons.
  destruct (shouldEscape c encodeUserPassword) eqn:Hc.
  - rewrite andb_false_r. by rewrite unescape_percent, IH.
  - by rewrite unescape_step, IH.
Qed.

Lemma escape_valid t :
  validUserinfo (escape t encodeUserPassword) = true
  /\ lacks ":" (escape t encodeUserPassword) = true.
Proof.
  induction t as [| c t [IH1 IH2]]; [done |]. rewrite escape_cons.
  pose proof (escaped_byte c) as Hc.
  destruct (shouldEscape c encodeUserPassword).
  - rewrite andb_false_r, percent_app. unfold validUserinfo.
    rewrite lacks_app, everyByte_app.
    apply andb_true_iff in Hc as [[H1 H2]%andb_true_iff _].
    unfold validUserinfo in *. by rewrite H1, H2, IH1, IH2.
  - apply andb_true_iff in Hc as [[H1 H2]%andb_true_iff _].
    unfold validUserinfo, lacks in *. cbn [strings.everyByte].
    by rewrite H1, H2, IH1, IH2.
Qed.

(** *** The components of a plain URL *)

Lemma lacks_cons c d s : lacks c (String d s) = negb (Ascii.eqb d c) && lacks c s.
Proof. reflexivity. Qed.

Lemma noCTL_cons d s : noCTL (String d s) = negb (controlByte d) && noCTL s.
Proof. reflexivity. Qed.

Lemma noCTL_app s t : noCTL (s ++ t) = noCTL s && noCTL t.
Proof. apply everyByte_app. Qed.

Lemma host_clean h :
  strings.everyByte hostByte h = true ->
  noCTL h = true /\ lacks "/" h = true /\ lacks "?" h = true /\ lacks "#" h = true
  /\ lacks "@" h = true.
Proof.
  induction h as [| c h IH]; [done |]. cbn [strings.everyByte].
  intros [Hc Hh]%andb_true_iff.
  apply hostByte_inert in Hc as (H1 & H2 & H3 & H4 & H5).
  destruct (IH Hh) as (I1 & I2 & I3 & I4 & I5).
  rewrite noCTL_cons, !lacks_cons. by rewrite H1, H2, H3, H4, H5, I1, I2, I3, I4, I5.
Qed.

Lemma path_clean p :
  strings.everyByte pathByte p = true ->
  noCTL p = true /\ lacks "?" p = true /\ lacks "#" p = true.
Proof.
  induction p as [| c p IH]; [done |]. cbn [strings.everyByte].
  intros [Hc Hp]%andb_true_iff.
  apply pathByte_inert in Hc as (H1 & H2 & H3). destruct (IH Hp) as (I1 & I2 & I3).
  rewrite noCTL_cons, !lacks_cons. by rewrite H1, H2, H3, I1, I2, I3.
Qed.

Lemma fragment_clean f : strings.everyByte fragmentByte f = true -> noCTL f = true.
Proof.
  induction f as [| c f IH]; [done |]. cbn [strings.everyByte].
  intros [Hc Hf]%andb_true_iff. apply fragmentByte_inert in Hc.
  rewrite noCTL_cons. by rewrite Hc, IH.
Qed.

Lemma query_clean q :
  strings.everyByte queryByte q = true -> noCTL q = true /\ lacks "#" q = true.
Proof.
  induction q as [| c q IH]; [done |]. cbn [strings.everyByte].
  intros [[H1 H2]%andb_true_iff Hq]%andb_true_iff. destruct (IH Hq) as (I1 & I2).
  rewrite noCTL_cons, lacks_cons. by rewrite H1, H2, I1, I2.
Qed.

Lemma userinfo_clean s :
  validUserinfo s = true ->
  noCTL s = true /\ lacks "/" s = true /\ lacks "?" s = true /\ lacks "#" s = true.
Proof.
  unfold validUserinfo.
  induction s as [| c s IH]; [done |]. cbn [strings.everyByte].
  intros [Hc Hs]%andb_true_iff.
  apply userinfoByte_inert in Hc as (H1 & H2 & H3 & H4).
  destruct (IH Hs) as (I1 & I2 & I3 & I4).
  rewrite noCTL_cons, !lacks_cons. by rewrite H1, H2, H3, H4, I1, I2, I3, I4.
Qed.

Lemma scheme_clean s :
  strings.everyByte schemeByte s = true ->
  noCTL s = true /\ lacks "?" s = true /\ lacks "#" s = true
  /\ strings.ToLowerASCII s = s.
Proof.
  induction s as [| c s IH]; [done |]. cbn [strings.everyByte].
  intros [Hc Hs]%andb_true_iff.
  apply schemeByte_inert in Hc as ((H1 & H2 & H3) & _ & H4).
  destruct (IH Hs) as (I1 & I2 & I3 & I4).
  rewrite noCTL_cons, !lacks_cons. cbn [strings.ToLowerASCII].
  by rewrite H1, H2, H3, H4, I1, I2, I3, I4.
Qed.

Lemma plainScheme_tail c s :
  plainScheme (String c s) = true ->
  strings.everyByte schemeByte (String c s) = true /\ isLetter c = true.
Proof.
  cbn [plainScheme strings.everyByte]. intros [Hc Hs]%andb_true_iff.
  rewrite Hs. unfold schemeByte at 1. unfold isLetter. by rewrite Hc.
Qed.

(** *** [getScheme] *)

Lemma getSchemeLoop_scheme s : forall i rawURL rest,
  strings.everyByte schemeByte s = true -> (0 < i)%nat ->
  getSchemeLoop (s ++ String ":" rest) i rawURL
  = Ok (sprefix (i + String.length s) rawURL, rest).
Proof.
  induction s as [| c s IH]; intros i rawURL rest Hs Hi.
  - sapp. cbn [getSchemeLoop]. destruct i; [lia |].
    change (isLetter ":") with false. change (isDigit ":" || _) with false.
    cbn [orb]. rewrite Ascii.eqb_refl. simpl String.length. by rewrite Nat.add_0_r.
  - sapp. cbn [strings.everyByte] in Hs. apply andb_true_iff in Hs as [Hc Hs].
    apply schemeByte_inert in Hc as (_ & Hc & _).
    cbn [getSchemeLoop].
    destruct (isLetter c).
    + rewrite IH by (done || lia). simpl String.length. do 3 f_equal. lia.
    + cbn [orb] in Hc. rewrite Hc. destruct i; [lia |].
      rewrite IH by (done || lia). simpl String.length. do 3 f_equal. lia.
Qed.

Lemma getScheme_compose scheme rest :
  plainScheme scheme = true ->
  getScheme (schemePart scheme ++ String "/" rest) = Ok (scheme, String "/" rest).
Proof.
  unfold schemePart. destruct scheme as [| c s]; [done |].
  intros [[_ Hs]%andb_true_iff Hc]%plainScheme_tail.
  change (negb (String.eqb (String c s) "")) with true. cbv iota.
  rewrite <- sapp_assoc. sapp.
  unfold getScheme. cbn [getSchemeLoop]. rewrite Hc.
  rewrite getSchemeLoop_scheme by (done || lia).
  change (1 + String.length s)%nat with (String.length (String c s)).
  by rewrite <- (sapp_cons c s), sprefix_app.
Qed.

(** *** The query and the path *)

Lemma sdrop_app_S s c t : sdrop (S (String.length s)) (s ++ String c t) = t.
Proof. induction s as [| d s IH]; sapp; simpl; [by destruct t | done]. Qed.

Lemma sprefix_all s : sprefix (String.length s) s = s.
Proof. induction s as [| c s IH]; simpl; [done | by rewrite IH]. Qed.

Lemma Cut_first c pre rest :
  lacks c pre = true -> strings.Cut (pre ++ String c rest) c = (pre, rest, true).
Proof.
  intros H. unfold strings.Cut. rewrite IndexByte_first by done.
  by rewrite sprefix_app, sdrop_app_S.
Qed.

Lemma Cut_none c s : lacks c s = true -> strings.Cut s c = (s, "", false).
Proof. intros H. unfold strings.Cut. by rewrite IndexByte_none. Qed.

Lemma HasSuffix_last s c : strings.HasSuffix (s ++ String c "") (String c "") = true.
Proof.
  unfold strings.HasSuffix. rewrite srev_app. change (strings.srev (String c "")) with (String c "").
  sapp. cbn [HasPrefix]. by rewrite Ascii.eqb_refl.
Qed.

Lemma HasSuffix_count s c :
  strings.HasSuffix s (String c "") = true -> (1 <= strings.CountByte s c)%nat.
Proof.
  unfold strings.HasSuffix. change (strings.srev (String c "")) with (String c "").
  rewrite <- (srev_involutive s) at 2.
  destruct (strings.srev s) as [| d r]; [done |]. cbn [HasPrefix].
  destruct (Ascii.eqb_spec c d) as [<- | ?]; [| done]. intros _.
  rewrite srev_cons, CountByte_app. cbn [strings.CountByte].
  rewrite Ascii.eqb_refl. lia.
Qed.

Lemma split_query X fq q :
  lacks "?" X = true ->
  let rest := X ++ queryPart fq q in
  let forceQuery :=
    strings.HasSuffix rest "?" && (strings.CountByte rest "?" =? 1)%nat in
  forceQuery = fq && String.eqb q ""
  /\ (if forceQuery then (sprefix (String.length rest - 1) rest, EmptyString)
      else let '(before, after, _) := strings.Cut rest "?" in (before, after))
     = (X, q).
Proof.
  intros HX. cbv zeta. unfold queryPart.
  destruct q as [| c q]; [destruct fq |].
  - cbn [orb]. rewrite sapp_cons, sapp_nil_l.
    rewrite HasSuffix_last, CountByte_app, CountByte_none by done.
    cbn [strings.CountByte Ascii.eqb Bool.eqb Nat.add Nat.eqb andb].
    split; [done |]. rewrite slength_app. simpl String.length.
    replace (String.length X + 1 - 1)%nat with (String.length X) by lia.
    by rewrite sprefix_app.
  - cbn [orb String.eqb negb]. rewrite sapp_nil_r, CountByte_none by done.
    rewrite andb_false_r. split; [done |]. by rewrite Cut_none.
  - change (negb (String.eqb (String c q) "")) with true. rewrite orb_true_r.
    change (String.eqb (String c q) "") with false. rewrite andb_false_r.
    rewrite sapp_cons, sapp_nil_l.
    assert (strings.HasSuffix (X ++ String "?" (String c q)) "?"
            && (strings.CountByte (X ++ String "?" (String c q)) "?" =? 1)%nat = false)
      as ->.
    { destruct (strings.HasSuffix _ _) eqn:Hsuf; [| done]. cbn [andb].
      apply Nat.eqb_neq. rewrite CountByte_app, CountByte_none by done.
      change (strings.CountByte (String "?" (String c q)) "?")
        with (1 + strings.CountByte (String c q) "?")%nat.
      assert (1 <= strings.CountByte (String c q) "?")%nat; [| lia].
      apply HasSuffix_count. unfold strings.HasSuffix in *.
      rewrite srev_app, srev_cons in Hsuf.
      destruct (strings.srev (String c q)) as [| d r] eqn:Hr.
      - apply (f_equal String.length) in Hr. rewrite slength_srev in Hr. done.
      - rewrite <- sapp_assoc in Hsuf. by rewrite sapp_cons in Hsuf. }
    split; [done |]. by rewrite Cut_first.
Qed.

Lemma plainPath_cases p :
  plainPath p = true ->
  strings.everyByte pathByte p = true /\ (p = "" \/ exists p', p = String "/" p').
Proof.
  unfold plainPath. intros [Hp Hs]%andb_true_iff. split; [done |].
  destruct p as [| c p]; [by left | right]. cbn [String.eqb orb HasPrefix] in Hs.
  destruct (Ascii.eqb_spec "/" c) as [<- | ?]; [by exists p | done].
Qed.

Lemma split_path A p :
  lacks "/" A = true -> plainPath p = true ->
  match strings.IndexByte (A ++ p) "/" with
  | Some i => (sprefix i (A ++ p), sdrop i (A ++ p))
  | None => (A ++ p, EmptyString)
  end = (A, p).
Proof.
  intros HA [_ [-> | [p' ->]]]%plainPath_cases.
  - rewrite sapp_nil_r. by rewrite IndexByte_none.
  - rewrite IndexByte_first by done. by rewrite sprefix_app, sdrop_app.
Qed.

(** *** The authority *)

Lemma parseHost_plain h : plainHost h = true -> parseHost h = Ok h.
Proof.
  unfold plainHost, parseHost.
  intros [[Hh Hb%negb_true_iff]%andb_true_iff Hport]%andb_true_iff. rewrite Hb.
  assert (unescape h encodeHost = Ok h) as Hun by (by apply unescape_plain).
  destruct (strings.LastIndexByte h ":"); [| done]. by rewrite Hport.
Qed.

Lemma parseAuthority_user name h :
  plainHost h = true -> validUserinfo name = true -> lacks ":" name = true ->
  parseAuthority (name ++ String "@" h)
  = match unescape name encodeUserPassword with
    | Ok n => Ok (Some (User n), h)
    | Err e => Err e
    end.
Proof.
  intros Hh Hv Hc. unfold parseAuthority.
  pose proof Hh as [[Hb _]%andb_true_iff _]%andb_true_iff.
  apply host_clean in Hb as (_ & _ & _ & _ & Hat).
  rewrite LastIndexByte_last, sdrop_app_S, sprefix_app, parseHost_plain, Hv by done.
  cbn [negb]. unfold strings.ContainsByte. by rewrite IndexByte_none.
Qed.


(** *** [Parse] on the text of a plain URL *)

Lemma setPath_plain u p :
  plainPath p = true ->
  setPath u p
  = Ok (mkURL (Scheme u) (Opaque u) (User_ u) (Host u) p "" (OmitHost u) (ForceQuery u)
          (RawQuery u) (Fragment u) (RawFragment u)).
Proof.
  intros [Hp _]%plainPath_cases. unfold setPath.
  rewrite unescape_plain, escape_plain by done. by rewrite String.eqb_refl.
Qed.

Lemma setFragment_plain u f :
  strings.everyByte fragmentByte f = true ->
  setFragment u f
  = Ok (mkURL (Scheme u) (Opaque u) (User_ u) (Host u) (Path u) (RawPath u) (OmitHost u)
          (ForceQuery u) (RawQuery u) f "").
Proof.
  intros Hf. unfold setFragment.
  rewrite unescape_plain, escape_plain by done. by rewrite String.eqb_refl.
Qed.

(** The text before the fragment. *)
Lemma parse_compose scheme userinfo host path fq query user :
  plainScheme scheme = true -> validUserinfo userinfo = true ->
  plainHost host = true -> plainPath path = true ->
  strings.everyByte queryByte query = true ->
  parseAuthority (userinfo ++ String "@" host) = Ok (user, host) ->
  parse (schemePart scheme ++ String "/" (String "/" (userinfo ++ String "@" host ++ path))
         ++ queryPart fq query)
  = Ok (mkURL scheme "" user host path "" false (fq && String.eqb query "") query "" "").
Proof.
  intros Hs Hu Hh Hp Hq Hauth.
  pose proof Hh as [[Hhb _]%andb_true_iff _]%andb_true_iff.
  destruct (host_clean _ Hhb) as (Hh1 & Hh2 & Hh3 & Hh4 & Hh5).
  destruct (userinfo_clean _ Hu) as (Hu1 & Hu2 & Hu3 & Hu4).
  pose proof Hp as [Hpb Hpc]%plainPath_cases.
  destruct (path_clean _ Hpb) as (Hp1 & Hp2 & Hp3).
  destruct (query_clean _ Hq) as (Hq1 & Hq2).
  set (X := String "/" (String "/" (userinfo ++ String "@" host ++ path))).
  assert (lacks "?" X = true) as HX.
  { subst X. rewrite !lacks_cons, !lacks_app, lacks_cons, Hu3, Hh3, Hp2. reflexivity. }
  assert (noCTL (schemePart scheme) = true /\ strings.ToLowerASCII scheme = scheme
          /\ String.eqb (schemePart scheme ++ X ++ queryPart fq query) "*" = false)
    as (Hs1 & Hlow & Hstar).
  { unfold schemePart. destruct scheme as [| c s]; [done |].
    apply plainScheme_tail in Hs as [Hs _].
    apply scheme_clean in Hs as (Hs1 & _ & _ & Hs4).
    change (negb (String.eqb (String c s) "")) with true. cbv iota.
    rewrite noCTL_app, Hs1. split; [done |]. split; [done |].
    apply String.eqb_neq. intros Heq. apply (f_equal String.length) in Heq.
    rewrite !slength_app in Heq. subst X. simpl in Heq. lia. }
  unfold parse.
  assert (stringContainsCTLByte (schemePart scheme ++ X ++ queryPart fq query) = false)
    as ->.
  { unfold stringContainsCTLByte. apply negb_false_iff.
    change (noCTL (schemePart scheme ++ X ++ queryPart fq query) = true).
    rewrite !noCTL_app, Hs1. subst X.
    rewrite !noCTL_cons, !noCTL_app, noCTL_cons, Hu1, Hh1, Hp1.
    unfold queryPart. destruct (fq || _); [| done].
    rewrite sapp_cons, sapp_nil_l, noCTL_cons, Hq1. reflexivity. }
  rewrite Hstar.
  replace (schemePart scheme ++ X ++ queryPart fq query)
    with (schemePart scheme ++ String "/" (String "/" (userinfo ++ String "@" host ++ path)
                                           ++ queryPart fq query))
    by (subst X; by sapp).
  rewrite getScheme_compose by done. rewrite Hlow.
  change (String "/" (String "/" (userinfo ++ String "@" host ++ path)
                      ++ queryPart fq query))
    with (X ++ queryPart fq query).
  destruct (split_query X fq query HX) as [Hforce Hsplit].
  cbv zeta in Hforce, Hsplit. cbv zeta. rewrite Hsplit, Hforce.
  assert (HasPrefix X "/" = true) as -> by done.
  assert (HasPrefix X "//" = true) as -> by done.
  assert (HasPrefix X "///" = false) as ->.
  { subst X. destruct userinfo as [| c r]; [done |]. sapp.
    match goal with
    | |- HasPrefix (String _ (String _ (String c ?t))) _ = _ =>
        change (HasPrefix (String "/" (String "/" (String c t))) "///")
          with (if Ascii.eqb "/" c then true else false)
    end.
    rewrite lacks_cons in Hu2. apply andb_true_iff in Hu2 as [Hc%negb_true_iff _].
    rewrite Ascii.eqb_sym. by rewrite Hc. }
  cbn [negb andb orb]. rewrite orb_true_r. cbn [andb].
  change (sdrop 2 X) with (userinfo ++ String "@" host ++ path).
  replace (userinfo ++ String "@" host ++ path)
    with ((userinfo ++ String "@" host) ++ path) by (by rewrite <- sapp_assoc; sapp).
  rewrite split_path; [| | done].
  2:{ rewrite lacks_app, lacks_cons, Hu2, Hh2. reflexivity. }
  rewrite Hauth. by rewrite setPath_plain.
Qed.

Ltac snorm := repeat (progress (rewrite <- ?sapp_assoc, ?sapp_cons, ?sapp_nil_l)).

Lemma compose_eq scheme userinfo host path fq query fragment :
  compose scheme userinfo host path fq query fragment
  = (schemePart scheme ++ String "/" (String "/" (userinfo ++ String "@" host ++ path))
     ++ queryPart fq query)
    ++ fragmentPart fragment.
Proof. unfold compose. by snorm. Qed.

Lemma Parse_compose scheme userinfo host path fq query fragment user :
  plainScheme scheme = true -> validUserinfo userinfo = true ->
  plainHost host = true -> plainPath path = true ->
  strings.everyByte queryByte query = true ->
  strings.everyByte fragmentByte fragment = true ->
  parseAuthority (userinfo ++ String "@" host) = Ok (user, host) ->
  Parse (compose scheme userinfo host path fq query fragment)
  = Ok (mkURL scheme "" user host path "" false (fq && String.eqb query "") query
          fragment "").
Proof.
  intros Hs Hu Hh Hp Hq Hf Hauth. rewrite compose_eq.
  set (before := schemePart scheme ++ _).
  assert (lacks "#" before = true) as Hhash.
  { subst before.
    pose proof Hh as [[Hhb _]%andb_true_iff _]%andb_true_iff.
    destruct (host_clean _ Hhb) as (_ & _ & _ & Hh4 & _).
    destruct (userinfo_clean _ Hu) as (_ & _ & _ & Hu4).
    pose proof Hp as [Hpb _]%plainPath_cases.
    destruct (path_clean _ Hpb) as (_ & _ & Hp3).
    destruct (query_clean _ Hq) as (_ & Hq2).
    repeat (rewrite lacks_app || rewrite lacks_cons). rewrite Hu4, Hh4, Hp3.
    assert (lacks "#" (schemePart scheme) = true) as ->.
    { unfold schemePart. destruct scheme as [| c s]; [done |].
      apply plainScheme_tail in Hs as [Hs _].
      apply scheme_clean in Hs as (_ & _ & Hs3 & _).
      change (negb (String.eqb (String c s) "")) with true. cbv iota.
      by rewrite lacks_app, Hs3. }
    unfold queryPart. destruct (fq || _); [| done].
    by rewrite sapp_cons, sapp_nil_l, lacks_cons, Hq2. }
  unfold Parse, fragmentPart.
  destruct fragment as [| c f].
  - cbn [String.eqb negb]. rewrite sapp_nil_r, Cut_none by done.
    subst before. by rewrite (parse_compose _ _ _ _ _ _ user).
  - change (negb (String.eqb (String c f) "")) with true. cbv iota.
    rewrite sapp_cons, sapp_nil_l, Cut_first by done.
    subst before. rewrite (parse_compose _ _ _ _ _ _ user) by done.
    change (String.eqb (String c f) "") with false. cbv iota.
    by rewrite setFragment_plain.
Qed.

(** *** [String] on a plain URL with user information *)

Lemma plainURL_fields u :
  plainURL u = true ->
Opaque u = "" /\ RawPath u = "" /\ RawFragment u = ""
/\ plainScheme (Scheme u) = true /\ plainHost (Host u) = true
/\ plainPath (Path u) = true /\ strings.everyByte queryByte (RawQuery u) = true
/\ strings.everyByte fragmentByte (Fragment u) = true.
Proof.
  unfold plainURL. rewrite !andb_true_iff, !String.eqb_eq. tauto.
Qed.

Lemma String_plain u ui :
  plainURL u = true ->
  String_ (withUser u (Some ui))
  = compose (Scheme u) (UserinfoString ui) (Host u) (Path u) (ForceQuery u) (RawQuery u)
      (Fragment u).
Proof.
  intros (Ho & Hrp & Hrf & Hs & Hh & Hp & Hq & Hf)%plainURL_fields.
  destruct u as [scheme opaque user host path rawPath omit fq query fragment rawFragment].
  cbn [Opaque RawPath RawFragment Scheme Host Path RawQuery Fragment ForceQuery] in *.
  subst opaque rawPath rawFragment.
  unfold String_, withUser, compose.
  cbn [Opaque RawPath RawFragment Scheme Host Path RawQuery Fragment ForceQuery User_
       OmitHost].
  cbn [String.eqb negb]. fold (schemePart scheme). fold (queryPart fq query).
  assert (EscapedFragment
            (mkURL scheme "" (Some ui) host path "" omit fq query fragment "")
          = fragment) as ->.
  { unfold EscapedFragment. cbn [RawFragment Fragment String.eqb negb andb].
    by apply escape_plain. }
  fold (fragmentPart fragment). f_equal.
  rewrite !sapp_assoc. f_equal. f_equal.
  unfold hierPart.
  cbn [Opaque RawPath RawFragment Scheme Host Path RawQuery Fragment ForceQuery User_
       OmitHost isNil negb].
  rewrite !orb_true_r, !andb_false_r.
  pose proof Hp as [Hpb Hpc]%plainPath_cases.
  assert (EscapedPath (mkURL scheme "" (Some ui) host path "" omit fq query fragment "")
          = path) as ->.
  { unfold EscapedPath. cbn [RawPath Path String.eqb negb andb].
    rewrite escape_plain by done.
    destruct Hpc as [-> | [p' ->]]; reflexivity. }
  assert (negb (String.eqb path "") && negb (HasPrefix path "/") = false) as ->.
  { destruct Hpc as [-> | [p' ->]]; reflexivity. }
  cbn [andb].
  assert ((if negb (String.eqb host "") then escape host encodeHost else "") = host) as ->.
  { destruct host as [| c h]; [done |].
    change (negb (String.eqb (String c h) "")) with true. cbv iota.
    apply escape_plain. by apply andb_true_iff in Hh as [[? _]%andb_true_iff _]. }
  assert (forall a b, String.eqb (a ++ ("//" ++ b) ++ "") "" = false) as Hne.
  { intros a b. apply String.eqb_neq. intros Heq. apply (f_equal String.length) in Heq.
    rewrite !slength_app in Heq. simpl in Heq. lia. }
  rewrite Hne. cbn [andb]. rewrite !sapp_nil_l, <- !sapp_assoc. by sapp.
Qed.

(** *** Injecting and redacting *)

Lemma plainURL_rebuilt u user fq :
  plainURL u = true ->
  plainURL (mkURL (Scheme u) "" user (Host u) (Path u) "" false fq (RawQuery u)
              (Fragment u) "") = true.
Proof.
  intros (Ho & Hrp & Hrf & Hs & Hh & Hp & Hq & Hf)%plainURL_fields.
  unfold plainURL.
  cbn [Opaque RawPath RawFragment Scheme Host Path RawQuery Fragment String.eqb andb].
  by rewrite Hs, Hh, Hp, Hq, Hf.
Qed.


Lemma Parse_redacted u fq :
  plainURL u = true ->
  Parse (String_ (withUser
                    (mkURL (Scheme u) "" (Some (UserPassword "x-access-token" "")) (Host u)
                       (Path u) "" false fq (RawQuery u) (Fragment u) "")
                    (Some (User "x-access-token"))))
  = Ok (mkURL (Scheme u) "" (Some (User "x-access-token")) (Host u) (Path u) "" false
          (fq && String.eqb (RawQuery u) "") (RawQuery u) (Fragment u) "").
Proof.
  intros Hu. rewrite String_plain by (by apply plainURL_rebuilt).
  pose proof Hu as (Ho & Hrp & Hrf & Hs & Hh & Hp & Hq & Hf)%plainURL_fields.
  cbn [Scheme Host Path ForceQuery RawQuery Fragment].
  change (UserinfoString (User "x-access-token")) with "x-access-token".
  apply Parse_compose; try done.
  by rewrite parseAuthority_user.
Qed.

End url_props.

(** ** The token in a repository URL: [Parse] on what [URL.String] writes *)

Module url_readback_props.
Import url url_spec url_readback gitutil string_lemmas url_props.


(** *** [unescape] as a relation *)

Lemma unescape_raw m c r :
  isMode m encodeQueryComponent = false -> Ascii.eqb c "%" = false ->
  unescape (String c r) m
  = if rawOK m c
    then match unescape r m with Ok t => Ok (String c t) | Err e => Err e end
    else Err (InvalidHostError (String c "")).
Proof.
  intros Hm Hc. cbn [unescape]. rewrite Hc, Hm. unfold rawOK, hostMode.
  destruct (Ascii.eqb_spec c "+") as [-> | _].
  - by destruct m.
  - by destruct (_ && _ && _).
Qed.

Lemma unescape_pct m h l r :
  unescape (String "%" (String h (String l r))) m
  = if pctOK m h l
    then match unescape r m with Ok t => Ok (String (byteOf h l) t) | Err e => Err e end
    else Err (EscapeError (triple h l)).
Proof.
  cbn [unescape sprefix]. change (Ascii.eqb "%" "%") with true. cbv iota.
  unfold pctOK. fold (triple h l). fold (byteOf h l).
  destruct (ishex h && ishex l); [| done]. cbn [negb andb].
  destruct (isMode m encodeHost && _ && _); [done |]. cbn [negb andb].
  by destruct (isMode m encodeZone && _ && _ && _).
Qed.

Lemma decodes_unescape m r t :
  isMode m encodeQueryComponent = false -> decodes m r t -> unescape r m = Ok t.
Proof.
  intros Hm. induction 1 as [| c r t Hc Hraw _ IH | h l r t Hp _ IH]; [done | |].
  - by rewrite unescape_raw, Hraw, IH.
  - by rewrite unescape_pct, Hp, IH.
Qed.

Lemma unescape_decodes m :
  isMode m encodeQueryComponent = false ->
  forall n r t, (String.length r <= n)%nat -> unescape r m = Ok t -> decodes m r t.
Proof.
  intros Hm. induction n as [| n IH]; intros r t Hlen.
  - destruct r; [| simpl in Hlen; lia]. intros [= <-]. constructor.
  - destruct r as [| c r]; [intros [= <-]; constructor |].
    destruct (Ascii.eqb_spec c "%") as [-> | Hc%Ascii.eqb_neq].
    + destruct r as [| h [| l r]]; [done | done |].
      rewrite unescape_pct. destruct (pctOK m h l) eqn:Hp; [| done].
      destruct (unescape r m) as [t' |] eqn:Hr; [| done]. intros [= <-].
      apply decodes_pct; [done |]. apply IH; [simpl in Hlen; lia | done].
    + rewrite unescape_raw by done. destruct (rawOK m c) eqn:Hraw; [| done].
      destruct (unescape r m) as [t' |] eqn:Hr; [| done]. intros [= <-].
      apply decodes_raw; [done | done |]. apply IH; [simpl in Hlen; lia | done].
Qed.

Lemma unescape_iff m r t :
  isMode m encodeQueryComponent = false -> unescape r m = Ok t <-> decodes m r t.
Proof.
  intros Hm. split; [by apply (unescape_decodes m Hm (String.length r)) |].
  by apply decodes_unescape.
Qed.

Lemma decodes_app m a ha b hb :
  decodes m a ha -> decodes m b hb -> decodes m (a ++ b) (ha ++ hb).
Proof.
  induction 1; intros Hb; sapp; [done | |]; constructor; auto.
Qed.

Lemma pctOK_hex m h l : pctOK m h l = true -> ishex h = true /\ ishex l = true.
Proof.
  unfold pctOK. intros [[[? ?]%andb_true_iff _]%andb_true_iff _]%andb_true_iff. done.
Qed.

Lemma decodes_app_inv m c b s H :
  decodes m s H -> forall a, s = a ++ String c b -> ishex c = false ->
  exists ha hb, decodes m a ha /\ decodes m (String c b) hb /\ H = ha ++ hb.
Proof.
  induction 1 as [| c0 r t Hc Hraw Hd IH | h l r t Hp Hd IH]; intros a Heq Hhex.
  - by destruct a.
  - destruct a as [| c1 a].
    + rewrite sapp_nil_l in Heq. exists "", (String c0 t). rewrite <- Heq.
      split; [constructor |]. split; [by constructor | done].
    + rewrite sapp_cons in Heq. injection Heq as <- ->.
      destruct (IH a eq_refl Hhex) as (ha & hb & Ha & Hb & ->).
      exists (String c0 ha), hb. split; [by constructor | done].
  - pose proof (pctOK_hex _ _ _ Hp) as [Hh Hl].
    destruct a as [| c1 [| c2 [| c3 a]]]; repeat rewrite ?sapp_cons, ?sapp_nil_l in Heq.
    + exists "", (String (byteOf h l) t). rewrite <- Heq.
      split; [constructor |]. split; [by constructor | done].
    + injection Heq as <- <- _. congruence.
    + injection Heq as <- <- <- _. congruence.
    + injection Heq as <- <- <- ->.
      destruct (IH a eq_refl Hhex) as (ha & hb & Ha & Hb & ->).
      exists (String (byteOf h l) ha), hb. split; [by constructor | done].
Qed.

(** *** The bytes that [unescape] gives in a host *)

Lemma unhex_nibble c : (unhex c < 16)%N.
Proof. each_byte c; vm_compute; reflexivity. Qed.

Lemma below16 (P : N -> Prop) :
  P 0%N -> P 1%N -> P 2%N -> P 3%N -> P 4%N -> P 5%N -> P 6%N -> P 7%N ->
  P 8%N -> P 9%N -> P 10%N -> P 11%N -> P 12%N -> P 13%N -> P 14%N -> P 15%N ->
  forall a, (a < 16)%N -> P a.
Proof.
  intros. destruct a as [| p]; [done |].
  do 4 (destruct p as [p | p |]; try done); lia.
Qed.

Lemma high_nibble a b :
  (a < 16)%N -> (b < 16)%N -> (a <? 8)%N = false ->
  highByte (ascii_of_N (N.lor (N.shiftl a 4) b)) = true.
Proof.
  intros Ha Hb. revert b Hb. revert a Ha.
  apply (below16 (fun a => forall b, (b < 16)%N -> (a <? 8)%N = false -> _));
    intros b Hb; try discriminate; intros _; revert b Hb;
    apply below16; reflexivity.
Qed.

Lemma triple_pct h l : String.eqb (triple h l) "%25" = true -> byteOf h l = "%"%char.
Proof. intros [= -> ->]%String.eqb_eq. reflexivity. Qed.

(** What a percent triple stands for in a host: a byte outside ASCII or
    the percent sign. *)
Lemma pctOK_host h l :
  pctOK encodeHost h l = true ->
  highByte (byteOf h l) = true
  \/ (byteOf h l = "%"%char /\ String.eqb (triple h l) "%25" = true).
Proof.
  unfold pctOK. cbn [isMode andb negb]. rewrite andb_true_r, andb_true_iff, negb_true_iff.
  intros [_ H]. destruct (String.eqb (triple h l) "%25") eqn:Heq.
  - right. split; [by apply triple_pct | done].
  - left. rewrite andb_true_r in H. apply high_nibble; [apply unhex_nibble .. | done].
Qed.

Lemma pctOK_zone h l :
  pctOK encodeZone h l = true ->
  byteOf h l = "%"%char \/ byteOf h l = " "%char
  \/ shouldEscape (byteOf h l) encodeHost = false.
Proof.
  unfold pctOK. cbn [isMode andb negb]. rewrite !andb_true_iff, negb_true_iff.
  intros [_ H]. destruct (String.eqb (triple h l) "%25") eqn:Heq.
  - left. by apply triple_pct.
  - cbn [negb andb] in H. destruct (Ascii.eqb_spec (byteOf h l) " ") as [-> | _]; [auto |].
    cbn [negb andb] in H. auto.
Qed.

Lemma rawOK_cls m c : hostMode m = true -> rawOK m c = true -> cls m c = true.
Proof.
  unfold rawOK, cls, highByte. intros ->. cbn [andb].
  destruct (N.ltb_spec (N_of_ascii c) 128), (N.leb_spec 128 (N_of_ascii c)); try lia;
    cbn [andb]; first [by intros ->%negb_true_iff | intros _; by rewrite orb_true_r].
Qed.

Lemma decodes_cls m r t :
  hostMode m = true -> decodes m r t -> strings.everyByte (cls m) t = true.
Proof.
  intros Hm. induction 1 as [| c r t Hc Hraw _ IH | h l r t Hp _ IH]; [done | |];
    cbn [strings.everyByte]; rewrite IH, andb_true_r.
  - by apply rawOK_cls.
  - unfold cls. destruct m; try discriminate Hm.
    + destruct (pctOK_host _ _ Hp) as [-> | [-> _]]; [by rewrite orb_true_r | done].
    + destruct (pctOK_zone _ _ Hp) as [-> | [-> | ->]]; done.
Qed.

(** *** [escape] and then [unescape] *)

Lemma escape_decodes em m s :
  strings.everyByte (reads em m) s = true -> decodes m (escape s em) s.
Proof.
  induction s as [| c s IH]; [constructor |]. cbn [strings.everyByte].
  intros [Hc Hs]%andb_true_iff. rewrite escape_cons. unfold reads in Hc.
  destruct (shouldEscape c em).
  - apply andb_true_iff in Hc as [[Hp Hv%Ascii.eqb_eq]%andb_true_iff Hq%negb_true_iff].
    rewrite Hq, andb_false_r. unfold percent.
    rewrite <- Hv at 3. apply decodes_pct; auto.
  - apply andb_true_iff in Hc as [Hc%negb_true_iff Hraw]. apply decodes_raw; auto.
Qed.

Lemma reads_path c : reads encodePath encodePath c = true.
Proof. each_byte c; vm_compute; reflexivity. Qed.

Lemma reads_fragment c : reads encodeFragment encodeFragment c = true.
Proof. each_byte c; vm_compute; reflexivity. Qed.

Lemma reads_host c : cls encodeHost c = true -> reads encodeHost encodeHost c = true.
Proof. each_byte c; intros H; try discriminate H; vm_compute; reflexivity. Qed.

Lemma reads_zone c :
  cls encodeZone c = true -> asciiByte c = true -> reads encodeHost encodeZone c = true.
Proof.
  each_byte c; intros H; try discriminate H; intros H'; try discriminate H';
    vm_compute; reflexivity.
Qed.

Lemma everyByte_true (p : ascii -> bool) s :
  (forall c, p c = true) -> strings.everyByte p s = true.
Proof. intros H. induction s as [| c s IH]; [done |]. simpl. by rewrite H, IH. Qed.

Lemma everyByte_and (p q r : ascii -> bool) s :
  (forall c, p c = true -> q c = true -> r c = true) ->
  strings.everyByte p s = true -> strings.everyByte q s = true ->
  strings.everyByte r s = true.
Proof.
  intros H. induction s as [| c s IH]; [done |]. cbn [strings.everyByte].
  intros [? ?]%andb_true_iff [? ?]%andb_true_iff. rewrite H, IH; auto.
Qed.

Lemma escape_unescape_path p : unescape (escape p encodePath) encodePath = Ok p.
Proof.
  apply decodes_unescape; [done |]. apply escape_decodes, everyByte_true, reads_path.
Qed.

Lemma escape_unescape_fragment f :
  unescape (escape f encodeFragment) encodeFragment = Ok f.
Proof.
  apply decodes_unescape; [done |]. apply escape_decodes, everyByte_true, reads_fragment.
Qed.

Lemma escape_unescape_host h :
  strings.everyByte (cls encodeHost) h = true ->
  unescape (escape h encodeHost) encodeHost = Ok h.
Proof.
  intros H. apply decodes_unescape; [done |]. apply escape_decodes.
  eapply everyByte_impl; [| exact H]. apply reads_host.
Qed.

Lemma escape_unescape_zone h :
  strings.everyByte (cls encodeZone) h = true -> strings.everyByte asciiByte h = true ->
  unescape (escape h encodeHost) encodeZone = Ok h.
Proof.
  intros H Ha. apply decodes_unescape; [done |]. apply escape_decodes.
  eapply everyByte_and; [| exact H | exact Ha]. apply reads_zone.
Qed.

(** *** Where the marks of a host are *)

Lemma LastIndexByte_lacks c s : strings.LastIndexByte s c = None -> lacks c s = true.
Proof.
  induction s as [| d s IH]; [done |]. cbn [strings.LastIndexByte]. rewrite lacks_cons.
  destruct (strings.LastIndexByte s c); [done |].
  destruct (Ascii.eqb d c); [done |]. intros _. by rewrite IH.
Qed.

Lemma LastIndexByte_inv c s i :
  strings.LastIndexByte s c = Some i ->
  exists a b, s = a ++ String c b /\ lacks c b = true /\ String.length a = i.
Proof.
  revert i. induction s as [| d s IH]; intros i; [done |]. cbn [strings.LastIndexByte].
  destruct (strings.LastIndexByte s c) as [j |] eqn:Hj.
  - intros [= <-]. destruct (IH j eq_refl) as (a & b & -> & Hb & <-).
    by exists (String d a), b.
  - destruct (Ascii.eqb_spec d c) as [-> | _]; [| done]. intros [= <-].
    exists "", s. split; [done |]. split; [by apply LastIndexByte_lacks | done].
Qed.

Lemma Index_cons c s sub :
  Index (String c s) sub
  = if HasPrefix (String c s) sub then Some 0%nat else S <$> Index s sub.
Proof. reflexivity. Qed.

Lemma HasPrefix_sprefix n s sub :
  HasPrefix (sprefix n s) sub = true -> HasPrefix s sub = true.
Proof.
  revert n s. induction sub as [| a sub IH]; intros n s; [done |].
  destruct n, s as [| b s]; try done. cbn [sprefix HasPrefix].
  destruct (Ascii.eqb a b); [apply IH | done].
Qed.

Lemma Index_sprefix s c sub z :
  Index s (String c sub) = Some z -> Index (sprefix z s) (String c sub) = None.
Proof.
  revert z. induction s as [| d s IH]; intros z.
  - by destruct z.
  - rewrite Index_cons. destruct (HasPrefix (String d s) (String c sub)) eqn:Hp.
    + by intros [= <-].
    + destruct (Index s (String c sub)) as [k |] eqn:Hk; [| done]. intros [= <-].
      cbn [sprefix]. rewrite Index_cons, (IH k eq_refl).
      destruct (HasPrefix (String d (sprefix k s)) (String c sub)) eqn:Hq; [| done].
      apply (HasPrefix_sprefix (S k) (String d s)) in Hq. congruence.
Qed.

Lemma Index_Some s sub z :
  Index s sub = Some z ->
  HasPrefix (sdrop z s) sub = true /\ (z <= String.length s)%nat.
Proof.
  revert z. induction s as [| d s IH]; intros z.
  - cbn [Index]. destruct (HasPrefix "" sub) eqn:Hp; [| done]. by intros [= <-].
  - rewrite Index_cons. destruct (HasPrefix (String d s) sub) eqn:Hp.
    + intros [= <-]. split; [done | simpl; lia].
    + destruct (Index s sub) as [k |] eqn:Hk; [| done]. intros [= <-].
      destruct (IH k eq_refl). split; [done | simpl; lia].
Qed.

Lemma highByte_facts c :
  highByte c = true ->
  shouldEscape c encodeHost = true /\ Ascii.eqb c "%" = false /\ Ascii.eqb c ":" = false
  /\ Ascii.eqb "[" c = false.
Proof. each_byte c; intros H; try discriminate H; repeat split; reflexivity. Qed.

Lemma decodes_no_pct r t :
  decodes encodeHost r t -> Index r "%25" = None -> lacks "%" t = true.
Proof.
  induction 1 as [| c r t Hc Hraw _ IH | h l r t Hp _ IH]; [done | |];
    rewrite Index_cons; destruct (HasPrefix _ _) eqn:Hpre; try done.
  - destruct (Index r "%25"); [done |]. intros _. by rewrite lacks_cons, Hc, IH.
  - rewrite !Index_cons.
    destruct (HasPrefix (String h (String l r)) "%25"), (HasPrefix (String l r) "%25");
      try done.
    destruct (Index r "%25"); [done |]. intros _.
    destruct (pctOK_host _ _ Hp) as [Hv | [_ Heq]].
    + apply highByte_facts in Hv as (_ & Hv & _). by rewrite lacks_cons, Hv, IH.
    + apply String.eqb_eq in Heq. injection Heq as -> ->. done.
Qed.

Lemma percent_Index c rest :
  Ascii.eqb c "%" = false ->
  Index (percent c rest) "%25" = S <$> (S <$> (S <$> Index rest "%25")).
Proof. each_byte c; intros H; try discriminate H; reflexivity. Qed.

Lemma raw_Index c rest :
  Ascii.eqb c "%" = false -> Index (String c rest) "%25" = S <$> Index rest "%25".
Proof.
  intros H. rewrite Index_cons. cbn [HasPrefix]. rewrite Ascii.eqb_sym in H. by rewrite H.
Qed.

Lemma Index_escape_none h :
  lacks "%" h = true -> Index (escape h encodeHost) "%25" = None.
Proof.
  induction h as [| c h IH]; [done |]. rewrite lacks_cons.
  intros [Hc%negb_true_iff Hh]%andb_true_iff. rewrite escape_cons.
  destruct (shouldEscape c encodeHost).
  - cbn [isMode andb]. rewrite andb_false_r, percent_Index, IH by done. done.
  - rewrite raw_Index, IH by done. done.
Qed.

Lemma Index_escape_zone h rest :
  lacks "%" h = true ->
  Index (escape h encodeHost ++ String "%" (String "2" (String "5" rest))) "%25"
  = Some (String.length (escape h encodeHost)).
Proof.
  induction h as [| c h IH]; [done |]. rewrite lacks_cons.
  intros [Hc%negb_true_iff Hh]%andb_true_iff. rewrite escape_cons.
  destruct (shouldEscape c encodeHost).
  - cbn [isMode andb]. rewrite andb_false_r. unfold percent at 1. rewrite !sapp_cons.
    fold (percent c (escape h encodeHost ++ String "%" (String "2" (String "5" rest)))).
    rewrite percent_Index, IH by done. done.
  - rewrite sapp_cons, raw_Index, IH by done. done.
Qed.

Lemma escape_cons_host c s :
  escape (String c s) encodeHost
  = if shouldEscape c encodeHost then percent c (escape s encodeHost)
    else String c (escape s encodeHost).
Proof. rewrite escape_cons. cbn [isMode]. by rewrite andb_false_r. Qed.

(** A host that does not begin with a bracket is written without one in
    front. *)
Lemma decodes_no_bracket r t :
  decodes encodeHost r t -> HasPrefix r "[" = false ->
  HasPrefix (escape t encodeHost) "[" = false.
Proof.
  destruct 1 as [| c r t Hc Hraw _ | h l r t Hp _]; [done | |];
    rewrite escape_cons_host.
  - cbn [HasPrefix]. intros Hb. destruct (shouldEscape c encodeHost); [done |].
    cbn [HasPrefix]. exact Hb.
  - intros _. destruct (shouldEscape (byteOf h l) encodeHost); [done |].
    cbn [HasPrefix]. destruct (pctOK_host _ _ Hp) as [Hv | [-> _]]; [| done].
    apply highByte_facts in Hv as (_ & _ & _ & ->). done.
Qed.

Lemma percent_lacks_colon c : lacks ":" (percent c "") = true.
Proof. each_byte c; reflexivity. Qed.

Lemma escape_app s t m : escape (s ++ t) m = escape s m ++ escape t m.
Proof.
  induction s as [| c s IH]; [done |]. rewrite sapp_cons, !escape_cons, IH.
  destruct (shouldEscape c m); [| done]. destruct (_ && _); [done |].
  unfold percent. by sapp.
Qed.

Lemma decodes_no_colon r t :
  decodes encodeHost r t -> lacks ":" r = true -> lacks ":" (escape t encodeHost) = true.
Proof.
  induction 1 as [| c r t Hc Hraw _ IH | h l r t Hp _ IH]; [done | |];
    rewrite !lacks_cons, escape_cons_host.
  - intros [Hcolon Hr]%andb_true_iff. destruct (shouldEscape c encodeHost).
    + by rewrite percent_app, lacks_app, percent_lacks_colon, IH.
    + by rewrite lacks_cons, Hcolon, IH.
  - intros [_ [_ [_ Hr]%andb_true_iff]%andb_true_iff]%andb_true_iff.
    destruct (shouldEscape (byteOf h l) encodeHost).
    + by rewrite percent_app, lacks_app, percent_lacks_colon, IH.
    + rewrite lacks_cons, IH by done.
      destruct (pctOK_host _ _ Hp) as [Hv | [-> _]]; [| done].
      apply highByte_facts in Hv as (_ & _ & -> & _). done.
Qed.


(** *** The host *)

Lemma portByte_plain c :
  portByte c = true -> negb (shouldEscape c encodeHost) = true.
Proof. each_byte c; intros H; try discriminate H; reflexivity. Qed.

Lemma digit_facts c :
  isDigit c = true ->
  portByte c = true /\ Ascii.eqb c "]" = false /\ Ascii.eqb c ":" = false.
Proof. each_byte c; intros H; try discriminate H; repeat split; reflexivity. Qed.

Lemma port_bytes b :
  validOptionalPort b = true ->
  strings.everyByte portByte (String "]" b) = true /\ lacks "]" b = true.
Proof.
  destruct b as [| c b]; [done |]. cbn [validOptionalPort].
  intros [->%Ascii.eqb_eq Hd]%andb_true_iff. cbn [strings.everyByte].
  rewrite lacks_cons. change (portByte "]") with true. change (portByte ":") with true.
  cbn [andb negb]. change (Ascii.eqb ":" "]") with false. cbn [negb andb].
  induction b as [| d b IH]; [done |]. cbn [strings.everyByte] in *.
  apply andb_true_iff in Hd as [Hd Hb]. rewrite lacks_cons.
  destruct (digit_facts d Hd) as (-> & -> & _). destruct (IH Hb) as [-> ->]. done.
Qed.

Lemma port_escape s :
  strings.everyByte portByte s = true ->
  escape s encodeHost = s /\ unescape s encodeHost = Ok s.
Proof.
  intros H. split; [apply escape_plain | apply unescape_plain];
    (eapply everyByte_impl; [| exact H]); apply portByte_plain.
Qed.

Lemma decodes_bracket m r t :
  decodes m (String "[" r) t -> exists t', t = String "[" t' /\ decodes m r t'.
Proof. inversion 1; subst. by eexists. Qed.

Lemma decodes_zone_start m r t :
  decodes m (String "%" (String "2" (String "5" r))) t ->
  exists t', t = String "%" t' /\ decodes m r t'.
Proof. inversion 1; subst; [done |]. by eexists. Qed.

Lemma HasPrefix_inv s p : HasPrefix s p = true -> exists rest, s = p ++ rest.
Proof.
  revert s. induction p as [| a p IH]; intros s; [by exists s |].
  destruct s as [| b s]; [done |]. cbn [HasPrefix].
  destruct (Ascii.eqb_spec a b) as [-> | _]; [| done].
  intros [rest ->]%IH. by exists rest.
Qed.

Lemma parseHost_reads_back r h :
  parseHost r = Ok h -> strings.everyByte asciiByte (zoneOf h) = true ->
  parseHost (escape h encodeHost) = Ok h.
Proof.
  unfold parseHost at 1.
  destruct (HasPrefix r "[") eqn:Hb.
  - destruct (strings.LastIndexByte r "]") as [i |] eqn:Hi; [| done].
    apply LastIndexByte_inv in Hi as (a & b & -> & Hlb & <-).
    rewrite sdrop_app_S, sprefix_app, sdrop_app.
    destruct (validOptionalPort b) eqn:Hport; [| done]. cbn [negb].
    destruct (port_bytes b Hport) as [Hpb _].
    destruct (port_escape _ Hpb) as [Hpe Hpu].
    destruct a as [| c a]; [done |]. rewrite sapp_cons in Hb. cbn [HasPrefix] in Hb.
    destruct (Ascii.eqb_spec "[" c) as [<- | _]; [| done]. clear Hb.
    destruct (Index (String "[" a) "%25") as [z |] eqn:Hz.
    + rewrite sprefix_app_le by (apply Index_Some in Hz; lia).
      destruct (unescape (sprefix z (String "[" a)) encodeHost) as [h1 |] eqn:H1; [| done].
      destruct (unescape (sdrop z (String "[" a)) encodeZone) as [h2 |] eqn:H2; [| done].
      rewrite Hpu. intros [= <-].
      apply unescape_iff in H1, H2; try done.
      pose proof (decodes_cls encodeHost _ _ eq_refl H1) as Hc1.
      pose proof (decodes_cls encodeZone _ _ eq_refl H2) as Hc2.
      pose proof (decodes_no_pct _ _ H1 (Index_sprefix _ _ _ _ Hz)) as Hn1.
      destruct z as [| z].
      { rewrite Index_cons in Hz. change (HasPrefix (String "[" a) "%25") with false in Hz.
        by destruct (Index a "%25"). }
      cbn [sprefix] in H1.
      apply decodes_bracket in H1 as (h1' & -> & H1).
      destruct (Index_Some _ _ _ Hz) as [(a2 & Ha2)%HasPrefix_inv _].
      rewrite Ha2 in H2. apply decodes_zone_start in H2 as (h2' & -> & H2).
      intros Hzone.
      assert (zoneOf (String "[" h1' ++ String "%" h2' ++ String "]" b) = String "%" h2')
        as Hzo.
      { unfold zoneOf. rewrite sapp_cons. cbn [HasPrefix]. cbv iota.
        replace (String "[" (h1' ++ String "%" h2' ++ String "]" b))
          with ((String "[" h1' ++ String "%" h2') ++ String "]" b)
          by (by rewrite <- !sapp_assoc).
        rewrite LastIndexByte_last, sprefix_app by done.
        rewrite IndexByte_first by done. by rewrite sdrop_app. }
      rewrite Hzo in Hzone.
      rewrite !escape_app, Hpe.
      set (e1 := escape (String "[" h1') encodeHost).
      assert (exists e2, escape (String "%" h2') encodeHost
                         = String "%" (String "2" (String "5" e2))) as [e2 He2].
      { by eexists. }
      unfold parseHost.
      assert (HasPrefix (e1 ++ escape (String "%" h2') encodeHost ++ String "]" b) "["
              = true) as ->.
      { subst e1. by rewrite escape_cons_host. }
      rewrite (sapp_assoc e1).
      rewrite LastIndexByte_last, sdrop_app_S, sprefix_app, sdrop_app, Hport by done.
      cbn [negb]. rewrite He2.
      subst e1. rewrite Index_escape_zone by done.
      rewrite <- (sapp_assoc (escape (String "[" h1') encodeHost)).
      rewrite sprefix_app. rewrite sdrop_app. rewrite <- He2.
      by rewrite escape_unescape_host, escape_unescape_zone, Hpu by done.
    + intros Hun _. pose proof Hun as Hd. apply unescape_iff in Hd; [| done].
      pose proof (decodes_cls encodeHost _ _ eq_refl Hd) as Hcls.
      change (String "[" a ++ String "]" b) with (String "[" (a ++ String "]" b)) in Hd.
      apply decodes_bracket in Hd as (h' & -> & Hd).
      destruct (decodes_app_inv _ _ _ _ _ Hd a eq_refl eq_refl) as (ha & hb & Ha & Hpd & ->).
      apply decodes_unescape in Hpd; [| done]. rewrite Hpu in Hpd. injection Hpd as <-.
      assert (lacks "%" (String "[" ha) = true) as Hn.
      { apply (decodes_no_pct (String "[" a)); [| done]. by constructor. }
      change (String "[" (ha ++ String "]" b)) with (String "[" ha ++ String "]" b).
      rewrite escape_app, Hpe. unfold parseHost.
      assert (HasPrefix (escape (String "[" ha) encodeHost ++ String "]" b) "[" = true)
        as -> by (by rewrite escape_cons_host).
      rewrite LastIndexByte_last, sdrop_app_S, sprefix_app, Hport by done.
      cbn [negb]. rewrite Index_escape_none by done.
      rewrite <- Hpe at 1. rewrite <- escape_app. by apply escape_unescape_host.
  - intros Hun _.
    assert (unescape r encodeHost = Ok h) as Hun'.
    { by destruct (strings.LastIndexByte r ":"); [destruct (negb _) |]. }
    pose proof Hun' as Hd. apply unescape_iff in Hd; [| done].
    pose proof (decodes_cls encodeHost _ _ eq_refl Hd) as Hcls.
    unfold parseHost. rewrite (decodes_no_bracket _ _ Hd Hb).
    destruct (strings.LastIndexByte r ":") as [i |] eqn:Hi.
    + apply LastIndexByte_inv in Hi as (a & b & -> & Hlb & <-).
      rewrite sdrop_app in Hun.
      destruct (validOptionalPort (String ":" b)) eqn:Hport; [| done].
      assert (strings.everyByte portByte (String ":" b) = true) as Hpb.
      { cbn [validOptionalPort] in Hport. cbn [strings.everyByte].
        change (portByte ":") with true. cbn [andb].
        apply andb_true_iff in Hport as [_ Hd'].
        eapply everyByte_impl; [| exact Hd']. intros c Hc. by apply digit_facts in Hc as [? _]. }
      destruct (port_escape _ Hpb) as [Hpe Hpu].
      destruct (decodes_app_inv _ _ _ _ _ Hd a eq_refl eq_refl) as (ha & hb & Ha & Hpd & ->).
      apply decodes_unescape in Hpd; [| done]. rewrite Hpu in Hpd. injection Hpd as <-.
      rewrite escape_app, Hpe.
      rewrite LastIndexByte_last, sdrop_app, Hport by done. cbn [negb].
      rewrite <- Hpe at 1. rewrite <- escape_app. by apply escape_unescape_host.
    + apply LastIndexByte_lacks in Hi.
      rewrite LastIndexByte_none by (by apply (decodes_no_colon r)).
      by apply escape_unescape_host.
Qed.


(** *** What [String] writes *)

Lemma escaped_host_byte c :
  if shouldEscape c encodeHost then strings.everyByte authByte (percent c "") = true
  else authByte c = true.
Proof. each_byte c; reflexivity. Qed.

Lemma escaped_path_byte c :
  if shouldEscape c encodePath then strings.everyByte pathTextByte (percent c "") = true
  else pathTextByte c = true.
Proof. each_byte c; reflexivity. Qed.

Lemma valid_path_byte c : validEncodedByte c encodePath = true -> pathTextByte c = true.
Proof. each_byte c; intros H; try discriminate H; reflexivity. Qed.

Lemma escape_host_clean h : strings.everyByte authByte (escape h encodeHost) = true.
Proof.
  induction h as [| c h IH]; [done |]. rewrite escape_cons_host.
  pose proof (escaped_host_byte c) as Hc. destruct (shouldEscape c encodeHost).
  - by rewrite percent_app, everyByte_app, Hc, IH.
  - cbn [strings.everyByte]. by rewrite Hc, IH.
Qed.

Lemma escape_path_clean p : strings.everyByte pathTextByte (escape p encodePath) = true.
Proof.
  induction p as [| c p IH]; [done |]. rewrite escape_cons. cbn [isMode].
  rewrite andb_false_r.
  pose proof (escaped_path_byte c) as Hc. destruct (shouldEscape c encodePath).
  - by rewrite percent_app, everyByte_app, Hc, IH.
  - cbn [strings.everyByte]. by rewrite Hc, IH.
Qed.

Lemma authByte_clean e :
  strings.everyByte authByte e = true ->
  noCTL e = true /\ lacks "/" e = true /\ lacks "?" e = true /\ lacks "#" e = true
  /\ lacks "@" e = true.
Proof.
  induction e as [| c e IH]; [done |]. cbn [strings.everyByte].
  intros [Hc He]%andb_true_iff. unfold authByte in Hc.
  apply andb_true_iff in Hc as [[[[H1 H2]%andb_true_iff H3]%andb_true_iff
                                   H4]%andb_true_iff H5].
  destruct (IH He) as (I1 & I2 & I3 & I4 & I5).
  rewrite noCTL_cons, !lacks_cons. by rewrite H1, H2, H3, H4, H5, I1, I2, I3, I4, I5.
Qed.

Lemma pathText_clean p :
  strings.everyByte pathTextByte p = true ->
  noCTL p = true /\ lacks "?" p = true /\ lacks "#" p = true.
Proof.
  induction p as [| c p IH]; [done |]. cbn [strings.everyByte].
  intros [Hc Hp]%andb_true_iff. unfold pathTextByte in Hc.
  apply andb_true_iff in Hc as [[H1 H2]%andb_true_iff H3].
  destruct (IH Hp) as (I1 & I2 & I3).
  rewrite noCTL_cons, !lacks_cons. by rewrite H1, H2, H3, I1, I2, I3.
Qed.

(** The path as [String] writes it. *)
Lemma EscapedPath_cases u :
  (EscapedPath u <> "" /\ validEncoded (EscapedPath u) encodePath = true
   /\ unescape (EscapedPath u) encodePath = Ok (Path u))
  \/ (EscapedPath u = escape (Path u) encodePath /\ Path u <> "*").
Proof.
  unfold EscapedPath.
  destruct (negb (String.eqb (RawPath u) "")) eqn:Hne; cbn [andb].
  - destruct (validEncoded (RawPath u) encodePath) eqn:Hv; cbn [andb].
    + destruct (unescape (RawPath u) encodePath) as [p |] eqn:Hun.
      * destruct (String.eqb_spec p (Path u)) as [<- | _].
        -- left. apply negb_true_iff, String.eqb_neq in Hne. done.
        -- destruct (String.eqb_spec (Path u) "*") as [-> | ?]; [by left | by right].
      * destruct (String.eqb_spec (Path u) "*") as [-> | ?]; [by left | by right].
    + destruct (String.eqb_spec (Path u) "*") as [-> | ?]; [by left | by right].
  - destruct (String.eqb_spec (Path u) "*") as [-> | ?]; [by left | by right].
Qed.

Lemma EscapedPath_unescape u : unescape (EscapedPath u) encodePath = Ok (Path u).
Proof.
  destruct (EscapedPath_cases u) as [(_ & _ & H) | [-> _]]; [done |].
  apply escape_unescape_path.
Qed.

Lemma EscapedPath_clean u : strings.everyByte pathTextByte (EscapedPath u) = true.
Proof.
  destruct (EscapedPath_cases u) as [(_ & H & _) | [-> _]]; [| apply escape_path_clean].
  eapply everyByte_impl; [| exact H]. apply valid_path_byte.
Qed.

Lemma EscapedFragment_cases u :
  (EscapedFragment u <> "" /\ validEncoded (EscapedFragment u) encodeFragment = true
   /\ unescape (EscapedFragment u) encodeFragment = Ok (Fragment u))
  \/ EscapedFragment u = escape (Fragment u) encodeFragment.
Proof.
  unfold EscapedFragment.
  destruct (negb (String.eqb (RawFragment u) "")) eqn:Hne; cbn [andb]; [| by right].
  destruct (validEncoded (RawFragment u) encodeFragment) eqn:Hv; cbn [andb]; [| by right].
  destruct (unescape (RawFragment u) encodeFragment) as [p |] eqn:Hun; [| by right].
  destruct (String.eqb_spec p (Fragment u)) as [<- | _]; [| by right].
  left. apply negb_true_iff, String.eqb_neq in Hne. done.
Qed.

Lemma EscapedFragment_unescape u :
  unescape (EscapedFragment u) encodeFragment = Ok (Fragment u).
Proof.
  destruct (EscapedFragment_cases u) as [(_ & _ & H) | ->]; [done |].
  apply escape_unescape_fragment.
Qed.

Lemma decodes_empty m r t : decodes m r t -> r = "" <-> t = "".
Proof. by destruct 1. Qed.

Lemma EscapedFragment_empty u :
  String.eqb (EscapedFragment u) "" = String.eqb (Fragment u) "".
Proof.
  pose proof (EscapedFragment_unescape u) as H. apply unescape_iff in H; [| done].
  apply decodes_empty in H.
  destruct (String.eqb_spec (EscapedFragment u) ""), (String.eqb_spec (Fragment u) "");
    tauto.
Qed.

Lemma rooted_cases u :
  rootedPath u = true -> EscapedPath u = "" \/ exists p', EscapedPath u = String "/" p'.
Proof.
  unfold rootedPath. intros H. destruct (EscapedPath u) as [| c p]; [by left | right].
  cbn [String.eqb orb HasPrefix] in H.
  destruct (Ascii.eqb_spec "/" c) as [<- | ?]; [by exists p | done].
Qed.

Lemma rooted_no_star u : rootedPath u = true -> Path u <> "*".
Proof.
  intros Hr Hstar. pose proof (EscapedPath_unescape u) as H. rewrite Hstar in H.
  destruct (rooted_cases u Hr) as [Heq | [p' Heq]]; rewrite Heq in H; [done |].
  rewrite unescape_step in H by done. by destruct (unescape p' encodePath).
Qed.

Lemma String_hier u ui :
Opaque u = "" -> rootedPath u = true ->
String_ (withUser u (Some ui))
= compose (Scheme u) (UserinfoString ui) (escape (Host u) encodeHost) (EscapedPath u)
    (ForceQuery u) (RawQuery u) (EscapedFragment u).
Proof.
  intros Ho Hr. pose proof (rooted_cases u Hr) as Hp.
  pose proof (EscapedFragment_empty u) as Hf.
  destruct u as [scheme opaque user host path rawPath omit fq query fragment rawFragment].
  cbn [Opaque Scheme Host ForceQuery RawQuery] in *. subst opaque.
  unfold String_, withUser, compose.
  cbn [Opaque RawPath RawFragment Scheme Host Path RawQuery Fragment ForceQuery User_
       OmitHost].
  cbn [String.eqb negb]. fold (schemePart scheme). fold (queryPart fq query).
  change (EscapedFragment (mkURL scheme "" (Some ui) host path rawPath omit fq query
                             fragment rawFragment))
    with (EscapedFragment (mkURL scheme "" user host path rawPath omit fq query
                             fragment rawFragment)).
  set (ef := EscapedFragment _) in *. cbn [Fragment] in Hf. rewrite <- Hf.
  fold (fragmentPart ef). f_equal.
  rewrite !sapp_assoc. f_equal. f_equal.
  unfold hierPart.
  cbn [Opaque RawPath RawFragment Scheme Host Path RawQuery Fragment ForceQuery User_
       OmitHost isNil negb].
  rewrite !orb_true_r, !andb_false_r.
  change (EscapedPath (mkURL scheme "" (Some ui) host path rawPath omit fq query
                         fragment rawFragment))
    with (EscapedPath (mkURL scheme "" user host path rawPath omit fq query
                         fragment rawFragment)).
  set (ep := EscapedPath _) in *.
  assert (negb (String.eqb ep "") && negb (HasPrefix ep "/") = false) as ->.
  { destruct Hp as [-> | [p' ->]]; reflexivity. }
  cbn [andb].
  assert ((if negb (String.eqb host "") then escape host encodeHost else "")
          = escape host encodeHost) as ->.
  { by destruct host. }
  assert (forall a b, String.eqb (a ++ ("//" ++ b) ++ "") "" = false) as Hne.
  { intros a b. apply String.eqb_neq. intros Heq. apply (f_equal String.length) in Heq.
    rewrite !slength_app in Heq. simpl in Heq. lia. }
  rewrite Hne. cbn [andb]. rewrite !sapp_nil_l, <- !sapp_assoc. by sapp.
Qed.

(** *** [Parse] on what [String] writes *)

Lemma split_rooted A p :
  lacks "/" A = true -> p = "" \/ (exists p', p = String "/" p') ->
  match strings.IndexByte (A ++ p) "/" with
  | Some i => (sprefix i (A ++ p), sdrop i (A ++ p))
  | None => (A ++ p, EmptyString)
  end = (A, p).
Proof.
  intros HA [-> | [p' ->]].
  - rewrite sapp_nil_r. by rewrite IndexByte_none.
  - rewrite IndexByte_first by done. by rewrite sprefix_app, sdrop_app.
Qed.

Lemma schemePart_clean scheme :
  plainScheme scheme = true ->
  noCTL (schemePart scheme) = true /\ lacks "#" (schemePart scheme) = true
  /\ strings.ToLowerASCII scheme = scheme.
Proof.
  unfold schemePart. destruct scheme as [| c s]; [done |].
  intros [Hs _]%plainScheme_tail.
  apply scheme_clean in Hs as (Hs1 & _ & Hs3 & Hs4).
  change (negb (String.eqb (String c s) "")) with true. cbv iota.
  by rewrite noCTL_app, lacks_app, Hs1, Hs3.
Qed.

(** The text before the fragment. *)
Lemma parse_text scheme userinfo e p fq query user host :
  plainScheme scheme = true -> validUserinfo userinfo = true ->
  strings.everyByte authByte e = true ->
  strings.everyByte pathTextByte p = true -> p = "" \/ (exists p', p = String "/" p') ->
  strings.everyByte queryByte query = true ->
  parseAuthority (userinfo ++ String "@" e) = Ok (user, host) ->
  parse (schemePart scheme ++ String "/" (String "/" (userinfo ++ String "@" e ++ p))
         ++ queryPart fq query)
  = setPath (mkURL scheme "" user host "" "" false (fq && String.eqb query "") query "" "")
      p.
Proof.
  intros Hs Hu He Hp Hpc Hq Hauth.
  destruct (authByte_clean _ He) as (Hh1 & Hh2 & Hh3 & Hh4 & Hh5).
  destruct (userinfo_clean _ Hu) as (Hu1 & Hu2 & Hu3 & Hu4).
  destruct (pathText_clean _ Hp) as (Hp1 & Hp2 & Hp3).
  destruct (query_clean _ Hq) as (Hq1 & Hq2).
  destruct (schemePart_clean _ Hs) as (Hs1 & _ & Hlow).
  set (X := String "/" (String "/" (userinfo ++ String "@" e ++ p))).
  assert (lacks "?" X = true) as HX.
  { subst X. rewrite !lacks_cons, !lacks_app, lacks_cons, Hu3, Hh3, Hp2. reflexivity. }
  assert (String.eqb (schemePart scheme ++ X ++ queryPart fq query) "*" = false) as Hstar.
  { apply String.eqb_neq. intros Heq. apply (f_equal String.length) in Heq.
    rewrite !slength_app in Heq. subst X. simpl in Heq. lia. }
  unfold parse.
  assert (stringContainsCTLByte (schemePart scheme ++ X ++ queryPart fq query) = false)
    as ->.
  { unfold stringContainsCTLByte. apply negb_false_iff.
    change (noCTL (schemePart scheme ++ X ++ queryPart fq query) = true).
    rewrite !noCTL_app, Hs1. subst X.
    rewrite !noCTL_cons, !noCTL_app, noCTL_cons, Hu1, Hh1, Hp1.
    unfold queryPart. destruct (fq || _); [| done].
    rewrite sapp_cons, sapp_nil_l, noCTL_cons, Hq1. reflexivity. }
  rewrite Hstar.
  replace (schemePart scheme ++ X ++ queryPart fq query)
    with (schemePart scheme ++ String "/" (String "/" (userinfo ++ String "@" e ++ p)
                                           ++ queryPart fq query))
    by (subst X; by sapp).
  rewrite getScheme_compose by done. rewrite Hlow.
  change (String "/" (String "/" (userinfo ++ String "@" e ++ p)
                      ++ queryPart fq query))
    with (X ++ queryPart fq query).
  destruct (split_query X fq query HX) as [Hforce Hsplit].
  cbv zeta in Hforce, Hsplit. cbv zeta. rewrite Hsplit, Hforce.
  assert (HasPrefix X "/" = true) as -> by done.
  assert (HasPrefix X "//" = true) as -> by done.
  assert (HasPrefix X "///" = false) as ->.
  { subst X. destruct userinfo as [| c r]; [done |]. sapp.
    match goal with
    | |- HasPrefix (String _ (String _ (String c ?t))) _ = _ =>
        change (HasPrefix (String "/" (String "/" (String c t))) "///")
          with (if Ascii.eqb "/" c then true else false)
    end.
    rewrite lacks_cons in Hu2. apply andb_true_iff in Hu2 as [Hc%negb_true_iff _].
    rewrite Ascii.eqb_sym. by rewrite Hc. }
  cbn [negb andb orb]. rewrite orb_true_r. cbn [andb].
  change (sdrop 2 X) with (userinfo ++ String "@" e ++ p).
  replace (userinfo ++ String "@" e ++ p)
    with ((userinfo ++ String "@" e) ++ p) by (by rewrite <- sapp_assoc; sapp).
  rewrite split_rooted; [| | done].
  2:{ rewrite lacks_app, lacks_cons, Hu2, Hh2. reflexivity. }
  by rewrite Hauth.
Qed.

Lemma Parse_text scheme userinfo e p fq query frag user host :
  plainScheme scheme = true -> validUserinfo userinfo = true ->
  strings.everyByte authByte e = true ->
  strings.everyByte pathTextByte p = true -> p = "" \/ (exists p', p = String "/" p') ->
  strings.everyByte queryByte query = true ->
  parseAuthority (userinfo ++ String "@" e) = Ok (user, host) ->
  Parse (compose scheme userinfo e p fq query frag)
  = match setPath (mkURL scheme "" user host "" "" false (fq && String.eqb query "") query
                     "" "") p with
    | Err err => Err err
    | Ok url => if String.eqb frag "" then Ok url else setFragment url frag
    end.
Proof.
  intros Hs Hu He Hp Hpc Hq Hauth. rewrite compose_eq.
  set (before := schemePart scheme ++ _).
  assert (lacks "#" before = true) as Hhash.
  { subst before.
    destruct (authByte_clean _ He) as (_ & _ & _ & Hh4 & _).
    destruct (userinfo_clean _ Hu) as (_ & _ & _ & Hu4).
    destruct (pathText_clean _ Hp) as (_ & _ & Hp3).
    destruct (query_clean _ Hq) as (_ & Hq2).
    destruct (schemePart_clean _ Hs) as (_ & Hs3 & _).
    repeat (rewrite lacks_app || rewrite lacks_cons). rewrite Hu4, Hh4, Hp3, Hs3.
    unfold queryPart. destruct (fq || _); [| done].
    by rewrite sapp_cons, sapp_nil_l, lacks_cons, Hq2. }
  unfold Parse, fragmentPart.
  destruct frag as [| c f].
  - cbn [String.eqb negb]. rewrite sapp_nil_r, Cut_none by done.
    subst before. by rewrite (parse_text _ _ _ _ _ _ user host).
  - change (negb (String.eqb (String c f) "")) with true. cbv iota.
    rewrite sapp_cons, sapp_nil_l, Cut_first by done.
    subst before. by rewrite (parse_text _ _ _ _ _ _ user host).
Qed.

(** *** The user information *)

Lemma parseAuthority_name name e :
  lacks "@" e = true -> validUserinfo name = true -> lacks ":" name = true ->
  parseAuthority (name ++ String "@" e)
  = match parseHost e with
    | Err err => Err err
    | Ok host =>
        match unescape name encodeUserPassword with
        | Ok n => Ok (Some (User n), host)
        | Err err => Err err
        end
    end.
Proof.
  intros Hat Hv Hc. unfold parseAuthority.
  rewrite LastIndexByte_last, sdrop_app_S, sprefix_app, Hv by done.
  cbn [negb]. unfold strings.ContainsByte. by rewrite IndexByte_none.
Qed.

Lemma parseAuthority_name_password name pass e :
  lacks "@" e = true -> validUserinfo name = true -> validUserinfo pass = true ->
  lacks ":" name = true ->
  parseAuthority (name ++ String ":" pass ++ String "@" e)
  = match parseHost e with
    | Err err => Err err
    | Ok host =>
        match unescape name encodeUserPassword with
        | Ok n =>
            match unescape pass encodeUserPassword with
            | Ok p => Ok (Some (UserPassword n p), host)
            | Err err => Err err
            end
        | Err err => Err err
        end
    end.
Proof.
  intros Hat Hn Hp Hc. unfold parseAuthority.
  replace (name ++ String ":" pass ++ String "@" e)
    with ((name ++ String ":" pass) ++ String "@" e)
    by (by rewrite <- sapp_assoc; sapp).
  rewrite LastIndexByte_last, sdrop_app_S, sprefix_app by done.
  assert (validUserinfo (name ++ String ":" pass) = true) as ->.
  { unfold validUserinfo in *. rewrite everyByte_app. cbn [strings.everyByte].
    rewrite Hn, Hp. reflexivity. }
  cbn [negb]. unfold strings.ContainsByte.
  rewrite IndexByte_first by done. cbn [negb]. by rewrite Cut_first.
Qed.

Lemma tokenUser_read ui e host :
  tokenUser ui -> lacks "@" e = true -> parseHost e = Ok host ->
  validUserinfo (UserinfoString ui) = true
  /\ parseAuthority (UserinfoString ui ++ String "@" e) = Ok (Some ui, host).
Proof.
  intros [-> | [token ->]] Hat Hh.
  - split; [done |]. change (UserinfoString (User "x-access-token")) with "x-access-token".
    by rewrite parseAuthority_name, Hh.
  - destruct (escape_valid token) as [Hv Hc].
    change (UserinfoString (UserPassword "x-access-token" token))
      with ("x-access-token" ++ String ":" (escape token encodeUserPassword)).
    split.
    + unfold validUserinfo in *. rewrite everyByte_app. cbn [strings.everyByte].
      rewrite Hv. reflexivity.
    + rewrite <- sapp_assoc. rewrite parseAuthority_name_password, Hh by done.
      change (unescape "x-access-token" encodeUserPassword) with (Ok "x-access-token").
      by rewrite unescape_escape.
Qed.


(** *** What [Parse] gives *)

Lemma lower_schemeChar c :
  schemeChar c = true -> schemeByte (strings.lowerByte c) = true.
Proof. each_byte c; intros H; try discriminate H; reflexivity. Qed.

Lemma lower_letter c :
  isLetter c = true -> between "a" "z" (strings.lowerByte c) = true.
Proof. each_byte c; intros H; try discriminate H; reflexivity. Qed.

Lemma ToLowerASCII_app s t :
  strings.ToLowerASCII (s ++ t) = strings.ToLowerASCII s ++ strings.ToLowerASCII t.
Proof. induction s as [| c s IH]; [done |]. sapp. cbn [strings.ToLowerASCII]. by rewrite IH. Qed.

Lemma plainScheme_snoc t d :
  plainScheme t = true -> t <> "" -> schemeByte d = true ->
  plainScheme (t ++ String d "") = true.
Proof.
  destruct t as [| c t]; [done |]. cbn [plainScheme]. intros [Hc Ht]%andb_true_iff _ Hd.
  sapp. cbn [plainScheme]. rewrite Hc, everyByte_app, Ht. cbn [strings.everyByte].
  by rewrite Hd.
Qed.

Lemma schemeStart_snoc pre c :
  schemeStart pre -> schemeChar c = true -> (pre = "" -> isLetter c = true) ->
  schemeStart (pre ++ String c "").
Proof.
  intros [-> | [Hne Hp]] Hc Hl; right.
  - split; [done |]. rewrite sapp_nil_l.
    change (plainScheme (String (strings.lowerByte c) "") = true).
    unfold plainScheme. by rewrite lower_letter by auto.
  - split; [by destruct pre |]. rewrite ToLowerASCII_app.
    apply plainScheme_snoc; [done | by destruct pre | by apply lower_schemeChar].
Qed.

Lemma getSchemeLoop_inv s : forall i rawURL scheme rest pre,
  rawURL = pre ++ s -> String.length pre = i -> schemeStart pre ->
  getSchemeLoop s i rawURL = Ok (scheme, rest) ->
  plainScheme (strings.ToLowerASCII scheme) = true /\ exists pre', rawURL = pre' ++ rest.
Proof.
  induction s as [| c s IH]; intros i rawURL scheme rest pre Hraw Hlen Hpre.
  - cbn [getSchemeLoop]. intros [= <- <-]. split; [done | by exists ""].
  - assert (rawURL = (pre ++ String c "") ++ s) as Hraw'.
    { by rewrite <- sapp_assoc. }
    assert (String.length (pre ++ String c "") = S i) as Hlen'.
    { rewrite slength_app. simpl. lia. }
    cbn [getSchemeLoop]. destruct (isLetter c) eqn:Hl.
    + apply (IH _ _ _ _ _ Hraw' Hlen'). apply schemeStart_snoc; [done | | done].
      unfold schemeChar. by rewrite Hl.
    + destruct (isDigit c || oneOf c ["+"; "-"; "."]%char) eqn:Hd.
      * destruct i as [| i]; [intros [= <- <-]; split; [done | by exists ""] |].
        apply (IH _ _ _ _ _ Hraw' Hlen'). apply schemeStart_snoc; [done | |].
        -- unfold schemeChar. by rewrite Hd, orb_true_r.
        -- intros ->. done.
      * destruct (Ascii.eqb_spec c ":") as [-> | _];
          [| intros [= <- <-]; split; [done | by exists ""]].
        destruct i as [| i]; [done |]. intros [= <- <-].
        change (match rawURL with
                | "" => ""
                | String c s' => String c (sprefix i s')
                end) with (sprefix (S i) rawURL).
        rewrite Hraw, <- Hlen, sprefix_app. split.
        -- destruct Hpre as [-> | [_ ?]]; done.
        -- exists (pre ++ ":"). by rewrite <- sapp_assoc.
Qed.

Lemma getScheme_inv rawURL scheme rest :
  getScheme rawURL = Ok (scheme, rest) ->
  plainScheme (strings.ToLowerASCII scheme) = true /\ exists pre, rawURL = pre ++ rest.
Proof. apply (getSchemeLoop_inv rawURL 0 rawURL scheme rest ""); [done | done | by left]. Qed.

Lemma queryByte_both s :
  noCTL s = true -> lacks "#" s = true -> strings.everyByte queryByte s = true.
Proof.
  induction s as [| c s IH]; [done |]. rewrite noCTL_cons, lacks_cons.
  intros [H1 H2]%andb_true_iff [H3 H4]%andb_true_iff. cbn [strings.everyByte].
  unfold queryByte at 1. by rewrite H1, H3, IH.
Qed.

Lemma everyByte_sdrop (p : ascii -> bool) n s :
  strings.everyByte p s = true -> strings.everyByte p (sdrop n s) = true.
Proof.
  revert s. induction n as [| n IH]; intros s; [by destruct s |].
  destruct s as [| c s]; [done |]. cbn [strings.everyByte sdrop].
  intros [_ H]%andb_true_iff. by apply IH.
Qed.

Lemma setPath_fields x p y :
  setPath x p = Ok y ->
  Scheme y = Scheme x /\ Opaque y = Opaque x /\ Host y = Host x
  /\ RawQuery y = RawQuery x.
Proof.
  unfold setPath. destruct (unescape p encodePath); [| done]. by intros [= <-].
Qed.

Lemma setFragment_fields x f y :
  setFragment x f = Ok y ->
  Scheme y = Scheme x /\ Opaque y = Opaque x /\ Host y = Host x
  /\ RawQuery y = RawQuery x /\ Path y = Path x /\ RawPath y = RawPath x.
Proof.
  unfold setFragment. destruct (unescape f encodeFragment); [| done]. by intros [= <-].
Qed.

Lemma parseAuthority_host a user host :
  parseAuthority a = Ok (user, host) -> exists rh, parseHost rh = Ok host.
Proof.
  unfold parseAuthority. destruct (strings.LastIndexByte a "@") as [i |].
  - destruct (parseHost (sdrop (S i) a)) as [h |] eqn:Hh; [| done].
    destruct (negb (validUserinfo _)); [done |].
    destruct (negb (strings.ContainsByte _ _)).
    + destruct (unescape _ _); [| done]. intros [= _ <-]. by eexists.
    + destruct (strings.Cut _ _) as [[name pass] ?].
      destruct (unescape name _); [| done]. destruct (unescape pass _); [| done].
      intros [= _ <-]. by eexists.
  - destruct (parseHost a) as [h |] eqn:Hh; [| done]. intros [= _ <-]. by eexists.
Qed.

Lemma parsedFields_setPath x p y :
  setPath x p = Ok y -> parsedFields x -> parsedFields y.
Proof.
  intros (Hs & _ & Hh & Hq)%setPath_fields. unfold parsedFields.
  by rewrite Hs, Hh, Hq.
Qed.

Lemma parse_fields before url :
  parse before = Ok url -> lacks "#" before = true -> parsedFields url.
Proof.
  unfold parse. destruct (stringContainsCTLByte before) eqn:Hctl; [done |].
  apply negb_false_iff in Hctl. change (noCTL before = true) in Hctl.
  assert (exists rh, parseHost rh = Ok "") as Hempty by (by exists "").
  destruct (String.eqb before "*"); [by intros [= <-] _ |].
  destruct (getScheme before) as [[scheme rest] |] eqn:Hsch; [| done].
  apply getScheme_inv in Hsch as [Hscheme [pre ->]]. cbv zeta.
  intros Hparse Hhash. rewrite noCTL_app in Hctl. rewrite lacks_app in Hhash.
  apply andb_true_iff in Hctl as [_ Hctl]. apply andb_true_iff in Hhash as [_ Hhash].
  pose proof (queryByte_both _ Hctl Hhash) as Hrest. clear Hctl Hhash.
  revert Hparse.
  set (fq := strings.HasSuffix rest "?" && _).
  assert (forall (k : string -> string -> Result URL),
             (forall rest1 rawQuery,
                 strings.everyByte queryByte rawQuery = true ->
                 k rest1 rawQuery = Ok url -> parsedFields url) ->
             (let '(rest1, rawQuery) :=
                if fq then (sprefix (String.length rest - 1) rest, EmptyString)
                else let '(b, a, _) := strings.Cut rest "?" in (b, a) in
              k rest1 rawQuery) = Ok url -> parsedFields url) as Hk.
  { intros k Hcont. destruct fq; [by apply Hcont |].
    unfold strings.Cut. destruct (strings.IndexByte rest "?"); apply Hcont; [| done].
    by apply everyByte_sdrop. }
  apply Hk. clear Hk. intros rest1 rawQuery Hq.
  destruct (negb (HasPrefix rest1 "/") && negb (String.eqb _ "")); [by intros [= <-] |].
  destruct (negb (HasPrefix rest1 "/") && _); [done |].
  destruct ((negb (String.eqb _ "") || negb (HasPrefix rest1 "///")) && _).
  - destruct (strings.IndexByte (sdrop 2 rest1) "/");
      (destruct (parseAuthority _) as [[user host] |] eqn:Hauth; [| done]);
      apply parseAuthority_host in Hauth;
      intros H; by apply (parsedFields_setPath _ _ _ H).
  - destruct (negb (String.eqb _ "") && HasPrefix rest1 "/");
      intros H; by apply (parsedFields_setPath _ _ _ H).
Qed.

Lemma IndexByte_lacks c s : strings.IndexByte s c = None -> lacks c s = true.
Proof.
  induction s as [| d s IH]; [done |]. cbn [strings.IndexByte]. rewrite lacks_cons.
  destruct (Ascii.eqb d c); [done |].
  destruct (strings.IndexByte s c); [done |]. intros _. by rewrite IH.
Qed.

Lemma IndexByte_lacks_before c s i :
  strings.IndexByte s c = Some i -> lacks c (sprefix i s) = true.
Proof.
  revert i. induction s as [| d s IH]; intros i; [done |]. cbn [strings.IndexByte].
  destruct (Ascii.eqb d c) eqn:Hd; [by intros [= <-] |].
  destruct (strings.IndexByte s c) as [k |]; [| done]. intros [= <-].
  cbn [sprefix]. by rewrite lacks_cons, Hd, (IH k).
Qed.

Lemma Parse_fields rawURL u : Parse rawURL = Ok u -> parsedFields u.
Proof.
  unfold Parse, strings.Cut.
  assert (forall before frag,
             lacks "#" before = true ->
             match parse before with
             | Err e => Err e
             | Ok url => if String.eqb frag "" then Ok url else setFragment url frag
             end = Ok u -> parsedFields u) as Hk.
  { intros before frag Hhash. destruct (parse before) as [url |] eqn:Hp; [| done].
    apply parse_fields in Hp; [| done].
    destruct (String.eqb frag ""); [by intros [= <-] |].
    intros (Hs & _ & Hh & Hq & _)%setFragment_fields. unfold parsedFields in *.
    by rewrite Hs, Hh, Hq. }
  destruct (strings.IndexByte rawURL "#") as [i |] eqn:Hi; apply Hk.
  - by apply IndexByte_lacks_before.
  - by apply IndexByte_lacks.
Qed.

(** *** A URL that [String] writes so that [Parse] reads it back *)

Lemma hierarchical_fields u :
  hierarchical u = true ->
Opaque u = "" /\ rootedPath u = true
/\ strings.everyByte asciiByte (zoneOf (Host u)) = true.
Proof. unfold hierarchical. rewrite !andb_true_iff, String.eqb_eq. tauto. Qed.

Lemma Parse_readable rawURL u :
  Parse rawURL = Ok u -> hierarchical u = true -> readable u.
Proof.
  intros (Hs & Hq & rh & Hh)%Parse_fields (Ho & Hr & Hz)%hierarchical_fields.
  repeat split; try done. by apply (parseHost_reads_back rh).
Qed.

Lemma queryPart_force fq query :
  queryPart (fq && String.eqb query "") query = queryPart fq query.
Proof.
  unfold queryPart. destruct query as [| c q]; [| by rewrite !orb_true_r].
  by rewrite andb_true_r.
Qed.

(** The path and the fragment that [Parse] stores for the text that
    [String] wrote are written by [String] in the same way. *)
Lemma EscapedPath_again u v :
  rootedPath u = true -> Path v = Path u ->
  RawPath v = (if String.eqb (EscapedPath u) (escape (Path u) encodePath)
               then "" else EscapedPath u) ->
  EscapedPath v = EscapedPath u.
Proof.
  intros Hr Hp Hrp. pose proof (rooted_no_star u Hr) as Hstar.
  unfold EscapedPath at 1. rewrite Hrp, Hp.
  destruct (String.eqb_spec (EscapedPath u) (escape (Path u) encodePath)) as [Heq | Hne].
  - cbn [String.eqb negb andb].
    by destruct (String.eqb_spec (Path u) "*").
  - destruct (EscapedPath_cases u) as [(Hn & Hv & Hun) | [? _]]; [| done].
    rewrite Hv, Hun, String.eqb_refl.
    by destruct (String.eqb_spec (EscapedPath u) "").
Qed.

Lemma EscapedFragment_again u v :
  Fragment v = Fragment u ->
  RawFragment v = (if String.eqb (EscapedFragment u) (escape (Fragment u) encodeFragment)
                   then "" else EscapedFragment u) ->
  EscapedFragment v = EscapedFragment u.
Proof.
  intros Hp Hrp. unfold EscapedFragment at 1. rewrite Hrp, Hp.
  destruct (String.eqb_spec (EscapedFragment u) (escape (Fragment u) encodeFragment))
    as [Heq | Hne]; [done |].
  destruct (EscapedFragment_cases u) as [(Hn & Hv & Hun) | ?]; [| done].
  rewrite Hv, Hun, String.eqb_refl.
  by destruct (String.eqb_spec (EscapedFragment u) "").
Qed.

Lemma Parse_written u ui :
  readable u -> tokenUser ui ->
  exists v,
    Parse (String_ (withUser u (Some ui))) = Ok v
    /\ User_ v = Some ui /\ sameComponents u v /\ readable v
    /\ forall ui', String_ (withUser v (Some ui')) = String_ (withUser u (Some ui')).
Proof.
  intros (Ho & Hr & Hs & Hh & Hq) Hui.
  pose proof (escape_host_clean (Host u)) as He.
  destruct (authByte_clean _ He) as (_ & _ & _ & _ & Hat).
  destruct (tokenUser_read ui _ _ Hui Hat Hh) as [Hv Hauth].
  rewrite String_hier by done.
  rewrite (Parse_text _ _ _ _ _ _ _ (Some ui) (Host u));
    [| done | done | done | apply EscapedPath_clean | by apply rooted_cases | done | done].
  unfold setPath. rewrite EscapedPath_unescape.
  set (rp := if String.eqb (EscapedPath u) _ then "" else EscapedPath u).
  set (fq := ForceQuery u && _).
  assert (forall v,
             Scheme v = Scheme u -> Opaque v = "" -> User_ v = Some ui ->
             Host v = Host u -> Path v = Path u -> RawPath v = rp -> ForceQuery v = fq ->
             RawQuery v = RawQuery u -> Fragment v = Fragment u ->
             EscapedFragment v = EscapedFragment u ->
             User_ v = Some ui /\ sameComponents u v /\ readable v
             /\ forall ui', String_ (withUser v (Some ui'))
                             = String_ (withUser u (Some ui'))) as Hgoal.
  { intros v H1 H2 H3 H4 H5 H6 H7 H8 H9 H10.
    assert (EscapedPath v = EscapedPath u) as Hep by (by apply EscapedPath_again).
    assert (rootedPath v = true) as Hrv by (unfold rootedPath; by rewrite Hep).
    split; [done |]. split; [done |]. split.
    - unfold readable. by rewrite H1, H4, H8.
    - intros ui'. rewrite !String_hier by done.
      rewrite H1, H4, Hep, H7, H8, H10. unfold compose, fq.
      by rewrite queryPart_force. }
  destruct (String.eqb_spec (EscapedFragment u) "") as [Hef | Hef].
  - eexists. split; [reflexivity |]. apply Hgoal; try reflexivity.
    + cbn [Fragment]. pose proof (EscapedFragment_empty u) as H. rewrite Hef in H.
      symmetry. by apply String.eqb_eq.
    + rewrite Hef. unfold EscapedFragment. cbn [RawFragment Fragment String.eqb negb andb].
      pose proof (EscapedFragment_empty u) as H. rewrite Hef in H.
      symmetry in H. apply String.eqb_eq in H. (* Fragment u = "" *)
      done.
  - unfold setFragment. rewrite EscapedFragment_unescape.
    eexists. split; [reflexivity |]. apply Hgoal; try reflexivity.
    by apply EscapedFragment_again.
Qed.

(** *** Injecting and redacting *)

Lemma injectToken_written rawURL token u :
  Parse rawURL = Ok u ->
  injectToken rawURL token
  = Ok (String_ (withUser u (Some (UserPassword "x-access-token" token)))).
Proof. intros H. unfold injectToken. by rewrite H. Qed.

Lemma RedactToken_written injected v ui :
  Parse injected = Ok v -> User_ v = Some ui ->
  RedactToken injected = String_ (withUser v (Some (User "x-access-token"))).
Proof. intros H Hu. unfold RedactToken. by rewrite H, Hu. Qed.

Lemma sameComponents_trans u v w :
  sameComponents u v -> sameComponents v w -> sameComponents u w.
Proof.
  unfold sameComponents. intros (? & ? & ? & ? & ?) (? & ? & ? & ? & ?).
  repeat split; congruence.
Qed.

(** A URL whose hierarchical part is written without escapes is one of
    the hierarchical URLs. *)
Lemma plainURL_hierarchical u : plainURL u = true -> hierarchical u = true.
Proof.
  intros (Ho & Hrp & _ & _ & Hh & Hp & _)%plainURL_fields.
  apply plainPath_cases in Hp as [Hpb Hpc].
  unfold hierarchical, rootedPath, EscapedPath, zoneOf. rewrite Ho, Hrp.
  cbn [String.eqb negb andb].
  apply andb_true_iff in Hh as [[_ ->%negb_true_iff]%andb_true_iff _].
  rewrite escape_plain by done.
  destruct Hpc as [-> | [p' Heq]]; [done |]. by rewrite Heq.
Qed.

(** C8, for the URLs it holds for.  When the URL parses to one with a
    hierarchical part (no opaque part; no path, or a path written with a
    slash in front; no byte outside ASCII in a zone identifier), injecting
    any token and then redacting gives a text that parses to a URL whose
    user information is [x-access-token] without a password and whose
    scheme, host, path, query and fragment are those of the URL.  Escapes
    in the path, the query and the fragment, host names outside ASCII, IP
    literals in brackets and ports are all covered. *)
Theorem redact_after_inject_keeps_components (rawURL token : string) (u : URL) :
  Parse rawURL = Ok u -> hierarchical u = true ->
  exists final,
    redactedAfterInject rawURL token = Ok final
    /\ User_ final = accessToken /\ sameComponents u final.
Proof.
  intros Hparse Hu. pose proof (Parse_readable _ _ Hparse Hu) as Hr.
  unfold redactedAfterInject. rewrite (injectToken_written _ _ _ Hparse).
  destruct (Parse_written u (UserPassword "x-access-token" token) Hr)
    as (v & Hv & Huser & Hsame & Hrv & _); [right; by eexists |].
  rewrite (RedactToken_written _ _ _ Hv Huser).
  destruct (Parse_written v (User "x-access-token") Hrv)
    as (w & Hw & Huser' & Hsame' & _); [by left |].
  exists w. split; [done |]. split; [done |]. by apply (sameComponents_trans u v w).
Qed.

(** C8, as the claim has it, fails in each of the cases that the theorem
    leaves out.  A relative reference comes back with its path as host;
    in a URL with an opaque part the token is not injected, so that
    nothing is there to redact; and with a byte outside ASCII in the zone
    identifier, or with an escaped slash in front of a relative path, the
    injected text does not parse again: it is returned as it is, with the
    token. *)
Lemma inject_then_redact_changes_some_urls :
  (exists u final,
     Parse relativeURL = Ok u /\ redactedAfterInject relativeURL "tok" = Ok final
     /\ Host u = "" /\ Path u = "repo.git"
     /\ Host final = "repo.git" /\ Path final = "")
  /\ (exists final,
        redactedAfterInject opaqueURL "tok" = Ok final /\ User_ final = None)
  /\ (exists u injected e,
        Parse zoneURL = Ok u /\ injectToken zoneURL "tok" = Ok injected
        /\ Parse injected = Err e /\ RedactToken injected = injected)
  /\ (exists u injected e,
        Parse escapedSlashURL = Ok u /\ injectToken escapedSlashURL "tok" = Ok injected
        /\ Parse injected = Err e /\ RedactToken injected = injected).
Proof.
  split; [| split; [| split]].
  - do 2 eexists. split; [vm_compute; reflexivity |].
    split; [vm_compute; reflexivity |]. by repeat split.
  - eexists. split; [vm_compute; reflexivity | reflexivity].
  - do 3 eexists. split; [vm_compute; reflexivity |].
    split; [vm_compute; reflexivity |]. split; vm_compute; reflexivity.
  - do 3 eexists. split; [vm_compute; reflexivity |].
    split; [vm_compute; reflexivity |]. split; vm_compute; reflexivity.
Qed.

Lemma redact_after_inject_keeps_components_witness :
  exists final,
    redactedAfterInject literalURL "s3cr3t:/@" = Ok final
    /\ User_ final = accessToken /\ sameComponents literalParsed final.
Proof.
  apply (redact_after_inject_keeps_components literalURL "s3cr3t:/@" literalParsed);
    vm_compute; reflexivity.
Defined.

End url_readback_props.

(** ** The reading of LLM output *)

Module llm_parse_props.
Import json llm_run llm_parse llm_parse_spec string_lemmas.

(** *** The scanner inside a value *)

Lemma step_inside s c s' op :
  inside s -> stepByte s c = (s', op) ->
  op <> scanEnd /\
  (op = scanError \/ inside s' \/
   ((op = scanEndObject \/ op = scanEndArray) /\ snd (doEndValue s' " ") = scanEnd)).
Proof.
  intros [Hps Hst] H.
  destruct s as [st e ps er]. simpl in *.
  destruct ps as [| k ps]; [done |].
  unfold stepByte, doBeginValue, doBeginString, do0, doESign, doEndValue, expect,
    pushParseState, syntaxError, goto, setTop, popParseState in H.
  cbn [step parseState endTop err] in H.
  destruct st; try done;
    repeat match type of H with
           | context [if ?b then _ else _] => destruct b eqn:?
           | context [match ?k with parseObjectKey => _ | _ => _ end] => destruct k
           | context [match ?l with [] => _ | _ :: _ => _ end] => destruct l
           end;
    inversion H; subst; clear H;
    (split; [done |]);
    first [ by left
          | by (right; left; split; simpl)
          | by (right; right; split; [auto | reflexivity]) ].
Qed.

Lemma step_end_byte s c s' op :
  stepByte s c = (s', op) -> op = scanEndObject \/ op = scanEndArray ->
  c = "}"%char \/ c = "]"%char.
Proof.
  intros H Hop.
  destruct s as [st e ps er].
  unfold stepByte, doBeginValue, doBeginString, do0, doESign, doEndValue, doEndTop, expect,
    pushParseState, syntaxError, goto, setTop, popParseState in H.
  cbn [step parseState endTop err] in H.
  destruct st;
    repeat match type of H with
           | context [if ?b then _ else _] => destruct b eqn:?
           | context [match ?k with parseObjectKey => _ | _ => _ end] => destruct k
           | context [match ?l with [] => _ | _ :: _ => _ end] => destruct l
           end;
    inversion H; subst; clear H; destruct Hop as [? | ?]; try discriminate;
    unfold isByte in *;
    repeat match goal with
           | E : Ascii.eqb _ _ = true |- _ => apply Ascii.eqb_eq in E; subst
           end; auto.
Qed.

Lemma readLoop_bound s a n all m :
  readLoop s a n all = Ok m -> (n <= m <= n + String.length a)%nat.
Proof.
  revert s n. induction a as [| c a IH]; intros s n; cbn [readLoop].
  - destruct (snd (stepByte s " ")); intros [= <-]; simpl; lia.
  - destruct (stepByte s c) as [s' op].
    destruct op; try (intros H; apply IH in H; simpl; lia);
      try (intros [= <-]; simpl; lia).
    all: destruct (snd (doEndValue s' " "));
      try (intros H; apply IH in H; simpl; lia); intros [= <-]; simpl; lia.
Qed.

Lemma readLoop_prefix s a b n all all' m :
  inside s -> readLoop s a n all = Ok m -> readLoop s (a ++ b) n all' = Ok m.
Proof.
  revert s n. induction a as [| c a IH]; intros s n Hin.
  - cbn [readLoop]. destruct (stepByte s " ") as [s' op] eqn:E.
    apply step_inside in E as [Hne _]; [| done]. simpl. by destruct op.
  - sapp. cbn [readLoop].
    destruct (stepByte s c) as [s' op] eqn:E.
    apply step_inside in E as [Hne Hcase]; [| done].
    destruct Hcase as [-> | [Hin' | [Hop Hend]]]; [done | |].
    + destruct op; try done; try (by apply IH).
      all: destruct (snd (doEndValue s' " ")); try done; by apply IH.
    + by destruct Hop as [-> | ->]; rewrite Hend.
Qed.

(** A value that ends with the text ends with a closing brace or
    bracket. *)
Lemma readLoop_last s a n all :
  inside s -> readLoop s a n all = Ok (n + String.length a)%nat ->
  exists a' c, a = a' ++ String c "" /\ (c = "}"%char \/ c = "]"%char).
Proof.
  revert s n. induction a as [| c a IH]; intros s n Hin.
  - cbn [readLoop]. destruct (stepByte s " ") as [s' op] eqn:E.
    apply step_inside in E as [Hne _]; [| done]. simpl. by destruct op.
  - cbn [readLoop].
    destruct (stepByte s c) as [s' op] eqn:E.
    pose proof (step_end_byte _ _ _ _ E) as Hbyte.
    apply step_inside in E as [Hne Hcase]; [| done].
    assert (Hrec : readLoop s' a (S n) all = Ok (n + String.length (String c a))%nat ->
                   inside s' ->
                   exists a' c0, String c a = a' ++ String c0 "" /\
                                 (c0 = "}"%char \/ c0 = "]"%char)).
    { intros H Hin'. replace (n + String.length (String c a))%nat
        with (S n + String.length a)%nat in H by (simpl; lia).
      apply IH in H as (a' & c0 & -> & Hc0); [| done].
      exists (String c a'), c0. by sapp. }
    assert (Hstop : @Ok nat (S n) = Ok (n + String.length (String c a))%nat ->
                    op = scanEndObject \/ op = scanEndArray ->
                    exists a' c0, String c a = a' ++ String c0 "" /\
                                  (c0 = "}"%char \/ c0 = "]"%char)).
    { intros [= Hlen] Hop. simpl in Hlen. assert (a = "") as ->.
      { destruct a; [done | simpl in Hlen; lia]. }
      exists "", c. split; [done | auto]. }
    destruct Hcase as [-> | [Hin' | [Hop Hend]]]; [done | |].
    + destruct op; try done; try (intros H; by apply Hrec);
        try (intros [= H]; simpl in H; lia).
      all: destruct (snd (doEndValue s' " ")); try (intros H; by apply Hrec);
        intros H; apply Hstop; auto.
    + destruct Hop as [-> | ->]; rewrite Hend; intros H; apply Hstop; auto.
Qed.

(** *** White space around a text *)


Lemma spaces_soft :
  forallb (fun u => strings.everyByte soft u && strings.everyByte soft (strings.srev u)
                    && negb (String.eqb u ""))
    strings.unicodeSpaces = true.
Proof. vm_compute. reflexivity. Qed.

Lemma asciiSpace_soft c : strings.byte_in c strings.asciiSpace = true -> soft c = true.
Proof. intros H. unfold soft, solid. by rewrite H, andb_false_r. Qed.

Lemma HasPrefix_one c s : HasPrefix (String c s) (String c "") = true.
Proof. simpl. by rewrite Ascii.eqb_refl. Qed.

Lemma leadingSpace_some s n :
  strings.leadingSpace s = Some n ->
  exists u, HasPrefix s u = true /\ String.length u = n /\ strings.everyByte soft u = true.
Proof.
  destruct s as [| c s]; [done |]. unfold strings.leadingSpace.
  destruct (strings.byte_in c strings.asciiSpace) eqn:Hc.
  - intros [= <-]. exists (String c ""). split; [apply HasPrefix_one |].
    split; [done |]. simpl. by rewrite asciiSpace_soft.
  - destruct (find _ _) as [u |] eqn:Hf; [| done]. intros [= <-].
    apply find_some in Hf as [Hin Hu]. exists u. split; [done |]. split; [done |].
    pose proof spaces_soft as Hall. rewrite forallb_forall in Hall.
    apply Hall in Hin. by apply andb_true_iff in Hin as [[? ?]%andb_true_iff _].
Qed.

Lemma trailingSpace_some r n :
  strings.trailingSpace r = Some n ->
  exists u, HasPrefix r u = true /\ String.length u = n /\ strings.everyByte soft u = true.
Proof.
  destruct r as [| c r]; [done |]. unfold strings.trailingSpace.
  destruct (strings.byte_in c strings.asciiSpace) eqn:Hc.
  - intros [= <-]. exists (String c ""). split; [apply HasPrefix_one |].
    split; [done |]. simpl. by rewrite asciiSpace_soft.
  - destruct (find _ _) as [u |] eqn:Hf; [| done]. intros [= <-].
    apply find_some in Hf as [Hin Hu]. exists (strings.srev u). split; [done |].
    pose proof spaces_soft as Hall. rewrite forallb_forall in Hall.
    apply Hall in Hin. apply andb_true_iff in Hin as [[? ?]%andb_true_iff _].
    split; [apply slength_srev | done].
Qed.

Lemma solid_not_soft c : solid c = true -> soft c = false.
Proof. unfold soft. by intros ->. Qed.

(** Trimming on the left stops at the first solid byte at the latest. *)
Lemma TrimLeftSpace_keeps fuel pre c rest :
  solid c = true ->
  exists a pre', pre = a ++ pre' /\
    strings.TrimLeftSpace fuel (pre ++ String c rest) = pre' ++ String c rest.
Proof.
  intros Hc. revert pre. induction fuel as [| fuel IH]; intros pre.
  - by exists "", pre.
  - cbn [strings.TrimLeftSpace].
    destruct (strings.leadingSpace _) as [n |] eqn:E; [| by exists "", pre].
    apply leadingSpace_some in E as (u & Hu & <- & Hsoft).
    eapply HasPrefix_before in Hu; [| done | by apply solid_not_soft].
    rewrite sdrop_app_le by done.
    destruct (IH (sdrop (String.length u) pre)) as (a & pre' & Hpre & ->).
    exists (sprefix (String.length u) pre ++ a), pre'. split; [| done].
    rewrite <- sapp_assoc, <- Hpre. apply sprefix_sdrop.
Qed.

Lemma TrimRightSpaceRev_keeps fuel pre c rest :
  solid c = true ->
  exists a pre', pre = a ++ pre' /\
    strings.TrimRightSpaceRev fuel (pre ++ String c rest) = pre' ++ String c rest.
Proof.
  intros Hc. revert pre. induction fuel as [| fuel IH]; intros pre.
  - by exists "", pre.
  - cbn [strings.TrimRightSpaceRev].
    destruct (strings.trailingSpace _) as [n |] eqn:E; [| by exists "", pre].
    apply trailingSpace_some in E as (u & Hu & <- & Hsoft).
    eapply HasPrefix_before in Hu; [| done | by apply solid_not_soft].
    rewrite sdrop_app_le by done.
    destruct (IH (sdrop (String.length u) pre)) as (a & pre' & Hpre & ->).
    exists (sprefix (String.length u) pre ++ a), pre'. split; [| done].
    rewrite <- sapp_assoc, <- Hpre. apply sprefix_sdrop.
Qed.

(** White space is trimmed around a text that begins and ends with a
    solid byte, and not inside it. *)
Lemma TrimSpace_around pre c mid d post :
  solid c = true -> solid d = true ->
  exists a pre' post' z, pre = a ++ pre' /\ post = post' ++ z /\
    strings.TrimSpace (pre ++ String c mid ++ String d post)
    = pre' ++ String c mid ++ String d post'.
Proof.
  intros Hc Hd. unfold strings.TrimSpace. rewrite sapp_cons.
  destruct (TrimLeftSpace_keeps
              (String.length (pre ++ String c (mid ++ String d post)))
              pre c (mid ++ String d post) Hc) as (a & pre' & Hpre & Hl).
  rewrite Hl.
  set (fuel := String.length _). clearbody fuel.
  replace (pre' ++ String c (mid ++ String d post))
    with ((pre' ++ String c mid) ++ String d post)
    by (by rewrite <- !sapp_assoc; sapp).
  rewrite srev_app, srev_cons, <- sapp_assoc. rewrite sapp_cons, sapp_nil_l.
  destruct (TrimRightSpaceRev_keeps fuel (strings.srev post) d
              (strings.srev (pre' ++ String c mid)) Hd) as (z & r & Hpost & ->).
  exists a, pre', (strings.srev r), (strings.srev z).
  split; [done |]. split.
  - by rewrite <- srev_app, <- Hpost, srev_involutive.
  - rewrite srev_app, srev_cons, srev_involutive.
    by rewrite <- !sapp_assoc; sapp.
Qed.

(** *** The decoder on a complete object *)

Lemma readLoop_prefix_inv s a b n all all' m :
  inside s -> readLoop s (a ++ b) n all = Ok m -> (m <= n + String.length a)%nat ->
  readLoop s a n all' = Ok m.
Proof.
  revert s n. induction a as [| c a IH]; intros s n Hin.
  - sapp. intros H Hm. exfalso.
    destruct b as [| c b]; cbn [readLoop] in H.
    + destruct (stepByte s " ") as [s' op] eqn:E.
      apply step_inside in E as [Hne _]; [| done]. simpl in H. by destruct op.
    + destruct (stepByte s c) as [s' op] eqn:E.
      apply step_inside in E as [Hne _]; [| done].
      assert (forall s', readLoop s' b (S n) all = Ok m -> False) as Hrec.
      { intros s0 H0. apply readLoop_bound in H0. simpl in Hm. lia. }
      assert (@Ok nat (S n) = Ok m -> False) as Hstop.
      { intros [= <-]. simpl in Hm. lia. }
      destruct op; try done; eauto.
      all: destruct (snd (doEndValue s' " ")); eauto.
  - sapp. cbn [readLoop]. intros H Hm.
    destruct (stepByte s c) as [s' op] eqn:E.
    apply step_inside in E as [Hne Hcase]; [| done].
    assert (inside s' -> readLoop s' (a ++ b) (S n) all = Ok m ->
            readLoop s' a (S n) all' = Ok m) as Hrec.
    { intros Hin' H0. eapply IH; [done | done |]. simpl in Hm. lia. }
    destruct Hcase as [-> | [Hin' | [Hop Hend]]]; [done | |].
    + destruct op; try done; try (by apply Hrec).
      all: destruct (snd (doEndValue s' " ")); try done; by apply Hrec.
    + destruct Hop as [-> | ->]; by rewrite Hend in *.
Qed.

Lemma open_brace rest n all :
  readLoop reset (String "{" rest) n all
  = readLoop (mkScanner stateBeginStringOrEmpty false [parseObjectKey] None)
      rest (S n) all.
Proof. reflexivity. Qed.

Lemma inside_open : inside (mkScanner stateBeginStringOrEmpty false [parseObjectKey] None).
Proof. by split. Qed.

Lemma completeObject_spec o :
  completeObject o = true <->
  exists rest, o = String "{" rest /\ readValue o = Ok (String.length o).
Proof.
  unfold completeObject. rewrite andb_true_iff. split.
  - intros [Hp Hr]. destruct o as [| c o]; [done |]. cbn [HasPrefix] in Hp.
    destruct (Ascii.eqb_spec "{" c) as [<- | ?]; [| done].
    exists o. split; [done |].
    destruct (readValue _) as [n | e]; [| done].
    by apply Nat.eqb_eq in Hr as ->.
  - intros (rest & -> & ->). split; [done | apply Nat.eqb_refl].
Qed.

Lemma complete_read o rest :
  completeObject o = true -> readValue (o ++ rest) = Ok (String.length o).
Proof.
  intros (o' & -> & H)%completeObject_spec. unfold readValue in *. sapp.
  rewrite open_brace in *. by eapply readLoop_prefix; [apply inside_open |].
Qed.

Lemma complete_decode o rest :
  completeObject o = true -> DecodeRaw (o ++ rest) = Ok (o, String.length o).
Proof.
  intros H. unfold DecodeRaw. rewrite complete_read by done.
  rewrite sprefix_app. by apply completeObject_spec in H as (o' & -> & _).
Qed.

Lemma complete_ends o :
  completeObject o = true ->
  exists o' mid d, o = String "{" o' /\ o = String "{" mid ++ String d "" /\ solid d = true.
Proof.
  intros (o' & -> & H)%completeObject_spec. unfold readValue in H.
  rewrite open_brace in H.
  apply (readLoop_last _ _ 1) in H as (a & d & -> & Hd); [| apply inside_open].
  exists (a ++ String d ""), a, d. split; [done |]. split; [done |].
  by destruct Hd as [-> | ->].
Qed.

Lemma complete_trim o : completeObject o = true -> strings.TrimSpace o = o.
Proof.
  intros (o' & mid & d & _ & -> & Hd)%complete_ends.
  destruct (TrimSpace_around "" "{" mid d "" eq_refl Hd)
    as (a & pre' & post' & z & Hpre & Hpost & H).
  destruct a, pre'; try done. destruct post', z; try done.
Qed.

Lemma complete_decodeResponseFrom o rest :
  completeObject o = true ->
  decodeResponseFrom (o ++ rest) = mkDecoded o (String.length o) (parseResponseJSON o).
Proof.
  intros H. unfold decodeResponseFrom, decodeFirstJSONObject.
  rewrite complete_decode, complete_trim by done.
  by apply completeObject_spec in H as (o' & -> & _).
Qed.

(** *** The search for the opening brace *)

Lemma IndexByte_some s c n :
  IndexByte s c = Some n ->
  exists rest, s = sprefix n s ++ String c rest /\ sdrop n s = String c rest
               /\ (n <= String.length s)%nat.
Proof.
  revert n. induction s as [| d s IH]; intros n; [done |]. cbn [IndexByte].
  destruct (Ascii.eqb_spec d c) as [-> | Hne].
  - intros [= <-]. exists s. simpl. split; [done |]. split; [done | lia].
  - destruct (IndexByte s c) as [k |]; [| done]. intros [= <-].
    destruct (IH k eq_refl) as (rest & H1 & H2 & H3). exists rest. simpl. sapp.
    split; [by rewrite <- H1 |]. split; [done | lia].
Qed.

Lemma noBrace_app s t : noBrace (s ++ t) = noBrace s && noBrace t.
Proof.
  unfold noBrace. induction s as [| c s IH]; sapp; [done |]. cbn [IndexByte].
  destruct (Ascii.eqb c "{"); [done |].
  destruct (IndexByte (s ++ t) "{"), (IndexByte s "{"); simpl in *; try done.
Qed.

Lemma IndexByte_brace pre rest :
  noBrace pre = true -> IndexByte (pre ++ String "{" rest) "{" = Some (String.length pre).
Proof.
  unfold noBrace. induction pre as [| c pre IH]; sapp; [done |]. cbn [IndexByte].
  destruct (Ascii.eqb c "{"); [done |].
  destruct (IndexByte pre "{"); [done |]. intros _. by rewrite IH.
Qed.

(** *** The loop over the candidates *)

Lemma candidates_first fuel pre o rest lastRaw lastErr :
  noBrace pre = true -> completeObject o = true ->
  candidates (S fuel) (pre ++ o ++ rest) lastRaw lastErr
  = match parseResponseJSON o with
    | Ok resp => (o, Ok resp)
    | Err e => candidates fuel rest o (Some e)
    end.
Proof.
  intros Hpre Ho. cbn [candidates].
  pose proof Ho as (o' & Heq & _)%completeObject_spec.
  assert (IndexByte (pre ++ o ++ rest) "{" = Some (String.length pre)) as ->.
  { rewrite Heq, sapp_cons. by apply IndexByte_brace. }
  rewrite sdrop_app.
  rewrite complete_decodeResponseFrom by done. cbn [outcome raw offset].
  destruct (parseResponseJSON o) as [resp | e]; [done |].
  rewrite sdrop_app.
  assert (String.eqb o "" = false) as -> by (by rewrite Heq).
  assert ((0 <? String.length o)%nat = true) as ->; [| done].
  rewrite Heq. reflexivity.
Qed.

Lemma pieces_app l tail z : pieces l (tail ++ z) = pieces l tail ++ z.
Proof.
  induction l as [| [o text | text] l IH]; cbn [pieces]; [done | |];
    by rewrite IH, <- ?sapp_assoc.
Qed.

Lemma pieces_length l tail :
  skipped l tail = true -> (length l + String.length tail <= String.length (pieces l tail))%nat.
Proof.
  induction l as [| [o text | text] l IH]; cbn [pieces skipped length]; [lia | |].
  - intros [[[Ho _]%andb_true_iff _]%andb_true_iff Hl]%andb_true_iff.
    specialize (IH Hl). apply completeObject_spec in Ho as (r & -> & _).
    rewrite !slength_app. simpl. lia.
  - intros [_ Hl]%andb_true_iff. specialize (IH Hl).
    rewrite !slength_app. simpl. lia.
Qed.

(** A value that the decoder reads from a text it reads from any longer
    text. *)
Lemma DecodeRaw_app here' z r :
  DecodeRaw (String "{" here') = Ok r -> DecodeRaw (String "{" here' ++ z) = Ok r.
Proof.
  unfold DecodeRaw.
  destruct (readValue (String "{" here')) as [n | e] eqn:Hread; [| done].
  intros [= <-].
  assert (n <= String.length (String "{" here'))%nat as Hn.
  { unfold readValue in Hread. apply readLoop_bound in Hread. simpl in *. lia. }
  assert (readValue (String "{" here' ++ z) = Ok n) as ->.
  { unfold readValue in *. rewrite sapp_cons, open_brace in *.
    by eapply readLoop_prefix; [apply inside_open |]. }
  by rewrite sprefix_app_le.
Qed.

Lemma Broken_skipped text l tail :
  skipped (Broken text :: l) tail = true <->
  (exists e, DecodeRaw (String "{" (text ++ pieces l tail)) = Err e)
  /\ noBrace text = true /\ skipped l tail = true.
Proof.
  cbn [skipped]. rewrite !andb_true_iff, negb_true_iff. unfold decodeFirstJSONObject.
  change ("{" ++ text ++ pieces l tail) with (String "{" (text ++ pieces l tail)).
  destruct (DecodeRaw _) as [r | e]; simpl; split.
  - by intros [[? ?] ?].
  - by intros [[e ?] ?].
  - intros [[_ ?] ?]. split; [by exists e | done].
  - by intros [_ [? ?]].
Qed.

Lemma Decoded_skipped o text l tail :
  skipped (Decoded o text :: l) tail = true <->
  completeObject o = true /\ (exists e, parseResponseJSON o = Err e)
  /\ noBrace text = true /\ skipped l tail = true.
Proof.
  cbn [skipped]. rewrite !andb_true_iff, negb_true_iff.
  destruct (parseResponseJSON o) as [r | e]; simpl; split.
  - by intros [[[? ?] ?] ?].
  - by intros [? [[e ?] ?]].
  - intros [[[? _] ?] ?]. split; [done |]. split; [by exists e | done].
  - by intros [? [_ [? ?]]].
Qed.

Lemma skipped_app l tail z :
  skipped l (tail ++ z) = true -> skipped l tail = true.
Proof.
  induction l as [| [o text | text] l IH]; [done | |].
  - rewrite !Decoded_skipped. intros (? & ? & ? & ?). auto.
  - rewrite !Broken_skipped. intros ([e He] & ? & ?). split; [| auto].
    destruct (DecodeRaw (String "{" (text ++ pieces l tail))) as [r | e'] eqn:E;
      [| by exists e'].
    apply (DecodeRaw_app _ z) in E.
    rewrite sapp_cons, <- sapp_assoc, <- pieces_app in E. by rewrite E in He.
Qed.

Lemma candidates_broken fuel pre here' e lastRaw lastErr :
  noBrace pre = true -> DecodeRaw (String "{" here') = Err e ->
  candidates (S fuel) (pre ++ String "{" here') lastRaw lastErr
  = candidates fuel here' lastRaw (Some e).
Proof.
  intros Hpre He. cbn [candidates].
  rewrite IndexByte_brace, sdrop_app by done.
  unfold decodeResponseFrom, decodeFirstJSONObject. rewrite He. reflexivity.
Qed.

Lemma candidates_skip l : forall fuel pre o post resp lastRaw lastErr,
  noBrace pre = true -> skipped l (o ++ post) = true ->
  completeObject o = true -> parseResponseJSON o = Ok resp ->
  (length l < fuel)%nat ->
  snd (candidates fuel (pre ++ pieces l (o ++ post)) lastRaw lastErr) = Ok resp.
Proof.
  induction l as [| [o1 text | text] l IH]; intros fuel pre o post resp lastRaw lastErr
    Hpre Hl Ho Hresp Hfuel;
    (destruct fuel as [| fuel]; [simpl in Hfuel; lia |]).
  - cbn [pieces]. rewrite candidates_first by done. by rewrite Hresp.
  - apply Decoded_skipped in Hl as (Ho1 & [e He] & Htext & Hl).
    cbn [pieces]. rewrite candidates_first by done. rewrite He.
    apply IH; try done. simpl in Hfuel. lia.
  - apply Broken_skipped in Hl as ([e He] & Htext & Hl).
    cbn [pieces]. sapp. rewrite (candidates_broken _ _ _ e) by done.
    apply IH; try done. simpl in Hfuel. lia.
Qed.

Lemma pieces_ends l o tail :
  skipped l tail = true -> completeObject o = true ->
  exists mid d, (forall t, pieces l (o ++ t) = String "{" mid ++ String d t)
                /\ solid d = true.
Proof.
  intros Hl (o' & mid & d & Ho & Hend & Hd)%complete_ends.
  assert (forall t, pieces l (o ++ t) = pieces l "" ++ String "{" mid ++ String d t) as Hp.
  { intros t. rewrite <- (sapp_nil_l (o ++ t)), pieces_app, Hend, <- sapp_assoc. by sapp. }
  destruct l as [| [o1 text | text] l].
  - exists mid, d. split; [| done]. intros t. by rewrite Hp.
  - apply Decoded_skipped in Hl as ((r & Heq & _)%completeObject_spec & _).
    exists (r ++ text ++ pieces l "" ++ String "{" mid), d. split; [| done].
    intros t. rewrite Hp. cbn [pieces].
    rewrite Heq, <- !sapp_assoc. sapp. by rewrite <- !sapp_assoc.
  - exists (text ++ pieces l "" ++ String "{" mid), d. split; [| done].
    intros t. rewrite Hp. cbn [pieces]. rewrite <- !sapp_assoc. sapp.
    by rewrite <- !sapp_assoc.
Qed.

Lemma ParseResponse_skips pre l o post resp :
  noBrace pre = true -> skipped l (o ++ post) = true ->
  completeObject o = true -> parseResponseJSON o = Ok resp ->
  ParseResponse (pre ++ pieces l (o ++ post)) = Ok resp.
Proof.
  intros Hpre Hl Ho Hresp. unfold ParseResponse, extractResponseJSON.
  destruct (pieces_ends l o _ Hl Ho) as (mid & d & Heq & Hd).
  destruct (TrimSpace_around pre "{" mid d post eq_refl Hd)
    as (a & pre' & post' & z & -> & -> & Htrim).
  rewrite Heq, Htrim, <- Heq. cbv zeta.
  rewrite sapp_assoc in Hl. apply skipped_app in Hl.
  assert (String.eqb (pre' ++ pieces l (o ++ post')) "" = false) as ->.
  { apply String.eqb_neq. intros H. apply (f_equal String.length) in H.
    rewrite slength_app in H. pose proof (pieces_length _ _ Hl) as Hlen.
    rewrite slength_app in Hlen.
    apply completeObject_spec in Ho as (r & -> & _). simpl in *. lia. }
  rewrite noBrace_app in Hpre. apply andb_true_iff in Hpre as [_ Hpre].
  apply candidates_skip; try done.
  rewrite slength_app. pose proof (pieces_length _ _ Hl). lia.
Qed.

(** *** What a returned outcome comes from *)

Lemma decodeResponseFrom_Ok here' resp :
  outcome (decodeResponseFrom (String "{" here')) = Ok resp ->
  exists o after, String "{" here' = o ++ after /\ completeObject o = true
                  /\ parseResponseJSON o = Ok resp.
Proof.
  unfold decodeResponseFrom, decodeFirstJSONObject, DecodeRaw.
  destruct (readValue (String "{" here')) as [n | e] eqn:Hread; [| done].
  set (here := String "{" here') in *.
  assert (1 <= n <= String.length here)%nat as Hn.
  { unfold readValue in Hread. subst here. rewrite open_brace in Hread.
    apply readLoop_bound in Hread. simpl in *. lia. }
  assert (skipSpace (sprefix n here) = sprefix n here) as ->.
  { subst here. destruct n; [lia | done]. }
  assert (completeObject (sprefix n here) = true) as Ho.
  { apply completeObject_spec. exists (sprefix (n - 1) here'). split.
    - subst here. destruct n; [lia |]. simpl. by rewrite Nat.sub_0_r.
    - rewrite sprefix_length by lia.
      rewrite (sprefix_sdrop n here) in Hread at 1. unfold readValue in *.
      assert (sprefix n here = String "{" (sprefix (n - 1) here')) as Heq.
      { subst here. destruct n; [lia |]. simpl. by rewrite Nat.sub_0_r. }
      rewrite Heq in *. rewrite sapp_cons, open_brace in Hread. rewrite open_brace.
      eapply readLoop_prefix_inv; [apply inside_open | exact Hread |].
      apply (f_equal String.length) in Heq. rewrite sprefix_length in Heq by lia.
      simpl in Heq. lia. }
  rewrite complete_trim by done.
  destruct (negb _); [done |]. cbn [outcome]. intros Hresp.
  exists (sprefix n here), (sdrop n here). split; [apply sprefix_sdrop | done].
Qed.

Lemma candidates_Ok fuel : forall rest lastRaw lastErr resp,
  snd (candidates fuel rest lastRaw lastErr) = Ok resp ->
  exists before o after, rest = before ++ o ++ after /\ completeObject o = true
                         /\ parseResponseJSON o = Ok resp.
Proof.
  induction fuel as [| fuel IH]; intros rest lastRaw lastErr resp; [done |].
  cbn [candidates].
  destruct (IndexByte rest "{") as [idx |] eqn:Hidx; [| by destruct lastErr].
  apply IndexByte_some in Hidx as (here' & Hrest & -> & Hlen).
  destruct (outcome _) as [r | e] eqn:Hout.
  - cbn [snd]. intros [= ->].
    apply decodeResponseFrom_Ok in Hout as (o & after & Hhere & Ho & Hresp).
    exists (sprefix idx rest), o, after. by rewrite <- Hhere.
  - assert (forall k lastRaw,
              snd (candidates fuel (sdrop k (String "{" here')) lastRaw (Some e)) = Ok resp ->
              exists before o after, rest = before ++ o ++ after /\
                completeObject o = true /\ parseResponseJSON o = Ok resp) as Hrec.
    { intros k lr (before & o & after & Heq & Ho & Hresp)%IH.
      exists (sprefix idx rest ++ sprefix k (String "{" here') ++ before), o, after.
      split; [| done]. rewrite <- !sapp_assoc, <- Heq, <- sprefix_sdrop. exact Hrest. }
    destruct (0 <? _)%nat; apply Hrec.
Qed.

Lemma TrimLeftSpace_suffix fuel s : exists a, s = a ++ strings.TrimLeftSpace fuel s.
Proof.
  revert s. induction fuel as [| fuel IH]; intros s; [by exists "" |].
  cbn [strings.TrimLeftSpace]. destruct (strings.leadingSpace s) as [n |]; [| by exists ""].
  destruct (IH (sdrop n s)) as [a Ha]. exists (sprefix n s ++ a).
  rewrite <- sapp_assoc, <- Ha. apply sprefix_sdrop.
Qed.

Lemma TrimRightSpaceRev_suffix fuel r : exists a, r = a ++ strings.TrimRightSpaceRev fuel r.
Proof.
  revert r. induction fuel as [| fuel IH]; intros r; [by exists "" |].
  cbn [strings.TrimRightSpaceRev].
  destruct (strings.trailingSpace r) as [n |]; [| by exists ""].
  destruct (IH (sdrop n r)) as [a Ha]. exists (sprefix n r ++ a).
  rewrite <- sapp_assoc, <- Ha. apply sprefix_sdrop.
Qed.

Lemma TrimSpace_infix s : exists a z, s = a ++ strings.TrimSpace s ++ z.
Proof.
  unfold strings.TrimSpace.
  destruct (TrimLeftSpace_suffix (String.length s) s) as [a Ha].
  set (l := strings.TrimLeftSpace _ s) in *.
  destruct (TrimRightSpaceRev_suffix (String.length l) (strings.srev l)) as [z Hz].
  exists a, (strings.srev z). rewrite <- srev_app, <- Hz, srev_involutive. exact Ha.
Qed.

Lemma ParseResponse_Ok data resp :
  ParseResponse data = Ok resp ->
  Decision resp <> "" /\
  exists before o after, data = before ++ o ++ after /\ completeObject o = true
                         /\ parseResponseJSON o = Ok resp.
Proof.
  unfold ParseResponse, extractResponseJSON. cbv zeta.
  destruct (String.eqb _ ""); [done |].
  intros (before & o & after & Heq & Ho & Hresp)%candidates_Ok.
  split.
  - unfold parseResponseJSON in Hresp. destruct (Unmarshal o) as [r [e |]]; [done |].
    destruct (String.eqb_spec (Decision r) ""); [done |]. by injection Hresp as <-.
  - destruct (TrimSpace_infix data) as (a & z & Hdata).
    exists (a ++ before), o, (after ++ z). split; [| done].
    rewrite Hdata at 1. rewrite Heq, <- !sapp_assoc. done.
Qed.

Lemma IndexByte_noBrace s n :
  IndexByte s "{" = Some n -> noBrace (sprefix n s) = true.
Proof.
  unfold noBrace. revert n. induction s as [| d s IH]; intros n; [done |].
  cbn [IndexByte]. destruct (Ascii.eqb_spec d "{") as [-> | Hne].
  - by intros [= <-].
  - destruct (IndexByte s "{") as [k |]; [| done]. intros [= <-].
    specialize (IH k eq_refl). cbn [sprefix IndexByte].
    destruct (Ascii.eqb_spec d "{"); [done |].
    by destruct (IndexByte (sprefix k s) "{").
Qed.

Lemma DecodeRaw_object here' r n :
  DecodeRaw (String "{" here') = Ok (r, n) ->
  exists o, String "{" here' = o ++ sdrop n (String "{" here')
            /\ n = String.length o /\ completeObject o = true.
Proof.
  unfold DecodeRaw.
  destruct (readValue (String "{" here')) as [m | e] eqn:Hread; [| done].
  intros [= _ <-].
  set (here := String "{" here') in *.
  assert (1 <= m <= String.length here)%nat as Hn.
  { unfold readValue in Hread. subst here. rewrite open_brace in Hread.
    apply readLoop_bound in Hread. simpl in *. lia. }
  exists (sprefix m here). split; [apply sprefix_sdrop |].
  split; [by rewrite sprefix_length by lia |].
  apply completeObject_spec. exists (sprefix (m - 1) here'). split.
  - subst here. destruct m; [lia |]. simpl. by rewrite Nat.sub_0_r.
  - rewrite sprefix_length by lia.
    rewrite (sprefix_sdrop m here) in Hread at 1. unfold readValue in *.
    assert (sprefix m here = String "{" (sprefix (m - 1) here')) as Heq.
    { subst here. destruct m; [lia |]. simpl. by rewrite Nat.sub_0_r. }
    rewrite Heq in *. rewrite sapp_cons, open_brace in Hread. rewrite open_brace.
    eapply readLoop_prefix_inv; [apply inside_open | exact Hread |].
    apply (f_equal String.length) in Heq. rewrite sprefix_length in Heq by lia.
    simpl in Heq. lia.
Qed.

Lemma candidates_reached fuel : forall rest lastRaw lastErr resp,
  snd (candidates fuel rest lastRaw lastErr) = Ok resp ->
  exists pre l o post,
    rest = pre ++ pieces l (o ++ post) /\ noBrace pre = true
    /\ skipped l (o ++ post) = true /\ completeObject o = true
    /\ parseResponseJSON o = Ok resp.
Proof.
  induction fuel as [| fuel IH]; intros rest lastRaw lastErr resp; [done |].
  cbn [candidates].
  destruct (IndexByte rest "{") as [idx |] eqn:Hidx; [| by destruct lastErr].
  pose proof (IndexByte_noBrace _ _ Hidx) as Hpre.
  apply IndexByte_some in Hidx as (here' & Hrest & -> & Hlen).
  set (pre := sprefix idx rest) in *.
  destruct (DecodeRaw (String "{" here')) as [[r n] | e] eqn:Hdec.
  - destruct (DecodeRaw_object _ _ _ Hdec) as (o & Hhere & -> & Ho).
    rewrite Hhere, complete_decodeResponseFrom by done. cbn [outcome raw offset].
    destruct (parseResponseJSON o) as [found | e] eqn:Hout.
    + cbn [snd]. intros [= ->].
      exists pre, [], o, (sdrop (String.length o) (String "{" here')).
      cbn [pieces skipped]. by rewrite <- Hhere.
    + assert ((0 <? String.length o)%nat = true) as ->.
      { apply completeObject_spec in Ho as (? & -> & _). reflexivity. }
      rewrite sdrop_app.
      intros (text & l & o' & post & Heq & Htext & Hl & Ho' & Hresp)%IH.
      exists pre, (Decoded o text :: l), o', post.
      split; [| split; [done |]; split; [| done]].
      * cbn [pieces]. by rewrite <- Heq, <- Hhere.
      * apply Decoded_skipped. split; [done |]. split; [by exists e | done].
  - unfold decodeResponseFrom, decodeFirstJSONObject. rewrite Hdec.
    cbn [outcome raw offset Nat.ltb Nat.leb sdrop].
    intros (text & l & o' & post & Heq & Htext & Hl & Ho' & Hresp)%IH.
    exists pre, (Broken text :: l), o', post.
    split; [| split; [done |]; split; [| done]].
    * cbn [pieces]. sapp. by rewrite <- Heq.
    * apply Broken_skipped. split; [| done]. exists e. by rewrite <- Heq.
Qed.

Lemma ParseResponse_reached data resp :
  ParseResponse data = Ok resp ->
  exists pre l o post,
    strings.TrimSpace data = pre ++ pieces l (o ++ post) /\ noBrace pre = true
    /\ skipped l (o ++ post) = true /\ completeObject o = true
    /\ parseResponseJSON o = Ok resp.
Proof.
  unfold ParseResponse, extractResponseJSON. cbv zeta.
  destruct (String.eqb _ ""); [done |]. apply candidates_reached.
Qed.

(** C7, as the code has it.  The parser returns the outcome of the first
    candidate that decodes and has a decision that is not empty.  The
    search goes from brace to brace: in front of the object with the
    decision the text may begin with any text without an opening brace
    and go on with pieces of two kinds, each followed by text without a
    brace: a complete object that gives no outcome, which is passed by as
    a whole, and an opening brace from which the decoder reads no value,
    behind which the search goes on; any text at all may follow the
    object.  Conversely, an outcome that the parser returns has a decision
    that is not empty, is the outcome of a complete object of the input,
    and that object is reached in this way in the trimmed input; so input
    without such an object gives an error. *)
Theorem ParseResponse_returns_first_decided_candidate
    (pre post data : string) (l : list piece) (o : string) (resp found : Response) :
  (noBrace pre = true -> skipped l (o ++ post) = true ->
   completeObject o = true -> parseResponseJSON o = Ok resp ->
   ParseResponse (pre ++ pieces l (o ++ post)) = Ok resp)
  /\ (ParseResponse data = Ok found ->
      Decision found <> ""
      /\ (exists before o' after,
            data = before ++ o' ++ after /\ completeObject o' = true
            /\ parseResponseJSON o' = Ok found)
      /\ exists pre' l' o' post',
           strings.TrimSpace data = pre' ++ pieces l' (o' ++ post')
           /\ noBrace pre' = true /\ skipped l' (o' ++ post') = true
           /\ completeObject o' = true /\ parseResponseJSON o' = Ok found).
Proof.
  split; [apply ParseResponse_skips |].
  intros H. destruct (ParseResponse_Ok data found H) as [Hd Hex].
  split; [done |]. split; [done |]. by apply ParseResponse_reached.
Qed.

(** C7, as the claim has it, fails: text around the object changes the
    result.  Put into an outer object, the object with the decision is
    part of a candidate that decodes and has no decision of its own; the
    candidate is skipped as a whole. *)
Lemma wrapped_decision_is_not_found :
  ParseResponse stopObject = Ok decidedStop
  /\ ParseResponse (leadingNoise ++ stopObject ++ trailingNoise)
     = Err (errorString "missing decision").
Proof. split; vm_compute; reflexivity. Qed.

Lemma ParseResponse_returns_first_decided_candidate_witness :
  ParseResponse ("see " ++ pieces [Broken " here "; Decoded summaryOnly " more "]
                                 (stopObject ++ " END"))
  = Ok decidedStop
  /\ Decision decidedStop <> "".
Proof.
  pose proof (ParseResponse_returns_first_decided_candidate
                "see " " END"
                ("see " ++ pieces [Broken " here "; Decoded summaryOnly " more "]
                                  (stopObject ++ " END"))
                [Broken " here "; Decoded summaryOnly " more "]
                stopObject decidedStop decidedStop)
    as [Hskip Hfound].
  assert (ParseResponse
            ("see " ++ pieces [Broken " here "; Decoded summaryOnly " more "]
                              (stopObject ++ " END"))
          = Ok decidedStop) as H.
  { apply Hskip; vm_compute; reflexivity. }
  split; [exact H | exact (proj1 (Hfound H))].
Defined.

End llm_parse_props.

(** ** The workflow engine *)

Module workflow_props.
Import effects llm_run workflow workflow_spec.

Section MapOrder.
Variable rangeOrder : gset string -> list string.
Hypothesis rangeOrder_perm : forall s, rangeOrder s ≡ₚ elements s.

Lemma elem_of_rangeOrder x (s : gset string) : x ∈ rangeOrder s <-> x ∈ s.
Proof. by rewrite rangeOrder_perm, elem_of_elements. Qed.

Lemma elem_of_filter_list (f : string -> bool) x (l : list string) :
  x ∈ List.filter f l <-> x ∈ l /\ f x = true.
Proof. by rewrite !list_elem_of_In, filter_In. Qed.

(** What [updateProgressLabels] returns: the label to add when it is
    not empty, and the current labels that are not a non-empty label
    to remove. *)
Lemma elem_of_updateProgressLabels x current add remove :
  x ∈ updateProgressLabels rangeOrder current add remove <->
  (x = add /\ add <> "") \/ (x ∈ current /\ ~ (x ∈ remove /\ x <> "")).
Proof.
  unfold updateProgressLabels.
  rewrite elem_of_rangeOrder.
  assert (x ∈ (list_to_set
            (List.filter
               (fun label => negb (bool_decide
                  (label ∈ (list_to_set
                     (List.filter (fun label => negb (String.eqb label "")) remove)
                     : gset string))))
               current) : gset string)
          <-> x ∈ current /\ ~ (x ∈ remove /\ x <> "")) as Hkept.
  { rewrite elem_of_list_to_set, elem_of_filter_list.
    rewrite negb_true_iff, bool_decide_eq_false.
    rewrite elem_of_list_to_set, elem_of_filter_list.
    rewrite negb_true_iff, String.eqb_neq. done. }
  destruct (String.eqb_spec add "") as [-> | Hadd]; simpl.
  - rewrite Hkept. intuition congruence.
  - rewrite elem_of_union, elem_of_singleton, Hkept. intuition congruence.
Qed.

Lemma updateProgressLabels_onlyStatus cfg current target other1 other2 :
  distinctLabels cfg ->
  target ∈ [InProgressLabel cfg; NeedsInfoLabel cfg; DoneLabel cfg] ->
  (forall s, s ∈ [InProgressLabel cfg; NeedsInfoLabel cfg; DoneLabel cfg] ->
             s <> target -> s = other1 \/ s = other2) ->
  onlyStatus cfg target
    (updateProgressLabels rangeOrder current target
       (other1 :: other2 :: TriggerLabels cfg)).
Proof.
  intros (Hip & Hni & Hdn & H1 & H2 & H3 & Htrig) Htarget Hothers.
  assert (target <> "") as Hne.
  { rewrite !elem_of_cons in Htarget.
    destruct Htarget as [-> | [-> | [-> | []%elem_of_nil]]]; done. }
  split; [| split].
  - apply elem_of_updateProgressLabels. by left.
  - intros s Hs Hst [[-> _] | [_ Hkeep]]%elem_of_updateProgressLabels; [done |].
    apply Hkeep. split.
    + rewrite !elem_of_cons. destruct (Hothers s Hs Hst); auto.
    + rewrite !elem_of_cons in Hs.
      destruct Hs as [-> | [-> | [-> | []%elem_of_nil]]]; done.
  - intros t Ht [[-> _] | [_ Hkeep]]%elem_of_updateProgressLabels.
    + destruct (Htrig _ Ht) as (_ & Ha & Hb & Hc).
      rewrite !elem_of_cons, elem_of_nil in Htarget. intuition congruence.
    + apply Hkeep. split.
      * rewrite !elem_of_cons. auto.
      * by destruct (Htrig _ Ht).
Qed.

(** C3: each of the three label transitions of the engine yields a list
    that holds the target status label, neither of the two other status
    labels, and no trigger label. *)
Theorem label_transitions_leave_one_status (cfg : Config) (current : list string) :
  distinctLabels cfg ->
  onlyStatus cfg (InProgressLabel cfg) (labelsInProgress rangeOrder cfg current)
  /\ onlyStatus cfg (NeedsInfoLabel cfg) (labelsNeedsInfo rangeOrder cfg current)
  /\ onlyStatus cfg (DoneLabel cfg) (labelsDone rangeOrder cfg current).
Proof.
  intros Hcfg. pose proof Hcfg as (_ & _ & _ & H1 & H2 & H3 & _).
  unfold labelsInProgress, labelsNeedsInfo, labelsDone.
  split; [| split]; apply updateProgressLabels_onlyStatus; try done.
  - rewrite !elem_of_cons. auto.
  - intros s Hs Hne. rewrite !elem_of_cons in Hs.
    destruct Hs as [-> | [-> | [-> | []%elem_of_nil]]]; auto. done.
  - rewrite !elem_of_cons. auto.
  - intros s Hs Hne. rewrite !elem_of_cons in Hs.
    destruct Hs as [-> | [-> | [-> | []%elem_of_nil]]]; auto. done.
  - rewrite !elem_of_cons. auto.
  - intros s Hs Hne. rewrite !elem_of_cons in Hs.
    destruct Hs as [-> | [-> | [-> | []%elem_of_nil]]]; auto. done.
Qed.

(** *** The decision [stop] *)

#[local] Arguments labelsInProgress : simpl never.
#[local] Arguments labelsNeedsInfo : simpl never.
#[local] Arguments labelsDone : simpl never.
#[local] Arguments notProceedComment : simpl never.
#[local] Arguments repoDir : simpl never.
#[local] Arguments fallback : simpl never.
#[local] Arguments itoa : simpl never.
#[local] Arguments issueMode : simpl never.
#[local] Arguments toLLMComments : simpl never.
#[local] Arguments int_add : simpl never.



Ltac answer env :=
  match goal with
  | |- context [env ?T ?tr ?c] =>
      lazymatch tr with
      | context [env] => fail
      | _ => destruct (env T tr c) eqn:?
      end
  end.

Ltac clock env :=
  match goal with
  | |- context [env string ?tr Now] =>
      generalize (env string tr Now); intros ?
  end.





End MapOrder.

Lemma defaultConfig_distinct : distinctLabels defaultConfig.
Proof.
  repeat split; try discriminate.
  all: apply elem_of_cons in H as [-> | []%elem_of_nil]; discriminate.
Qed.

Lemma label_transitions_leave_one_status_witness :
  onlyStatus defaultConfig "ai-in-progress"
    (labelsInProgress sortedOrder defaultConfig ["ai-ready"; "bug"; "ai-done"])
  /\ onlyStatus defaultConfig "ai-needs-info"
       (labelsNeedsInfo sortedOrder defaultConfig ["ai-ready"; "bug"; "ai-done"])
  /\ onlyStatus defaultConfig "ai-done"
       (labelsDone sortedOrder defaultConfig ["ai-ready"; "bug"; "ai-done"]).
Proof.
  apply (label_transitions_leave_one_status sortedOrder).
  - intros s. reflexivity.
  - apply defaultConfig_distinct.
Defined.



End workflow_props.

(** ** The agent loop: more on validation, truncation and compaction *)

Module history_props.
Import llm orchestrator orchestrator_spec orchestrator_props agentloop_spec.

#[local] Arguments collectToolUseIDs : simpl never.
#[local] Arguments index : simpl never.
#[local] Arguments slice_from : simpl never.
#[local] Arguments expandOnce : simpl never.
#[local] Arguments truncateMessages : simpl never.
#[local] Arguments validateToolPairs : simpl never.

Lemma concat_imap_nil_intro {A B} (f : nat -> A -> list B) (l : list A) :
  (forall i x, l !! i = Some x -> f i x = []) -> concat (imap f l) = [].
Proof.
  revert f. induction l as [| y l IH]; intros f H; [done |]. simpl.
  rewrite (H 0%nat y eq_refl). simpl. apply IH. intros i x Hi. apply (H (S i) x Hi).
Qed.

Lemma flat_map_nil_intro {A B} (f : A -> list B) (l : list A) :
  (forall x, x ∈ l -> f x = []) -> flat_map f l = [].
Proof.
  induction l as [| y l IH]; intros H; [done |]. simpl.
  rewrite (H y) by apply list_elem_of_here. simpl. apply IH.
  intros x Hx. apply H. by apply list_elem_of_further.
Qed.

Lemma pairsIntact_orphans messages : pairsIntact messages -> orphans messages = [].
Proof.
  intros H. unfold orphans. apply concat_imap_nil_intro. intros i msg Hi.
  unfold orphanEntries. apply flat_map_nil_intro. intros block Hb.
  destruct (isToolResult block) eqn:Hr; [| done].
  destruct (H msg block) as (Hne & m' & b' & Hm' & Hb' & Hu & Hid);
    [by eapply list_elem_of_lookup_2 | done | done |].
  destruct (String.eqb_spec (ToolUseID block) ""); [done |].
  rewrite bool_decide_eq_true_2; [done |].
  apply addToolUseIDs_spec. right. exists m', b'. by rewrite Hid.
Qed.

(** X1: the validation accepts exactly the lists in which every tool_result
    names, by an id that is not empty, a tool_use of the list. *)
Theorem validateToolPairs_accepts_intact_pairs (messages : list Message) :
  validateToolPairs messages = None <-> pairsIntact messages.
Proof.
  split; [apply validateToolPairs_pairsIntact |].
  intros H. apply validateToolPairs_None. by apply pairsIntact_orphans.
Qed.

(** *** truncateMessages *)

(** X2: with a bound of at least one, the truncation does not panic; a list
    within the bound comes back as it is, and a longer one keeps its first
    message and a tail that holds at least the last [maxMessages - 1]
    messages. *)
Theorem truncateMessages_keeps_first_and_tail (messages : list Message) (maxMessages : Z) :
  1 <= maxMessages -> len messages < 2 ^ 63 ->
  exists result,
    truncateMessages messages maxMessages = Some result
    /\ (len messages <= maxMessages -> result = messages)
    /\ (maxMessages < len messages ->
        exists first k,
          messages !! 0%nat = Some first /\ result = first :: drop k messages
          /\ 1 <= Z.of_nat k <= len messages - maxMessages + 1).
Proof.
  intros H1 H2.
  destruct (Z.le_gt_cases (len messages) maxMessages) as [Hle | Hgt].
  - exists messages. unfold truncateMessages.
    destruct (Z.leb_spec (len messages) maxMessages); [| lia].
    split; [done |]. split; [done | lia].
  - destruct (truncateMessages_shape messages maxMessages) as (first & k & H0 & Ht & Hk & _);
      [lia | lia | lia |].
    exists (first :: drop k messages). split; [done |]. split; [lia |].
    intros _. by exists first, k.
Qed.

(** X3: a bound below one that the list exceeds makes the truncation panic
    whenever the place to cut, [len - maxMessages + 1], is computed without
    overflow of [int]: the place then lies behind the end of the list.
    (Nothing is said of a bound so close to the least [int] that the
    subtraction or the addition wraps around.) *)
Theorem truncateMessages_panics_without_room (messages : list Message) (maxMessages : Z) :
  is_int maxMessages -> maxMessages <= 0 -> maxMessages < len messages ->
  len messages - maxMessages + 1 < 2 ^ 63 ->
  truncateMessages messages maxMessages = None.
Proof.
  intros Hint Hm Hne Hlen.
  unfold truncateMessages.
  destruct (Z.leb_spec (len messages) maxMessages); [lia |].
  destruct messages as [| first messages]; [done |].
  assert (initialKeepFrom (first :: messages) maxMessages
          = len (first :: messages) - maxMessages + 1) as ->.
  { unfold initialKeepFrom, int_add, int_sub.
    rewrite (wrap64_id (len (first :: messages) - maxMessages))
      by (unfold is_int, len in *; lia).
    rewrite wrap64_id by (unfold is_int, len in *; lia).
    destruct (Z.ltb_spec (len (first :: messages) - maxMessages + 1) 1); [| done].
    unfold len in *. lia. }
  set (k0 := Z.to_nat (len (first :: messages) - maxMessages + 1)).
  assert (length (first :: messages) < k0)%nat as Hk0 by (unfold k0, len in *; lia).
  assert (expand 100 (first :: messages) k0 = Some k0) as ->.
  { cbn [expand]. unfold expandOnce. rewrite collectToolUseIDs_cons.
    rewrite drop_ge by lia. done. }
  cbn [mbind option_bind]. rewrite collectToolUseIDs_cons.
  unfold slice_from.
  destruct (Z.leb_spec (Z.of_nat k0) (len (first :: messages))) as [Hle |];
    [unfold len in Hle; lia |].
  by rewrite andb_false_r.
Qed.

(** *** ensureToolPairsIntact *)

Lemma List_filter_sublist {A} (f : A -> bool) (l : list A) :
  sublist (List.filter f l) l.
Proof.
  induction l as [| x l IH]; simpl; [constructor |].
  destruct (f x); by constructor.
Qed.

Lemma ensureToolPairsIntact_shape recent older :
  exists brought,
    ensureToolPairsIntact recent older = (brought ++ recent)%list
    /\ sublist brought older.
Proof.
  unfold ensureToolPairsIntact.
  case_bool_decide; [exists []; split; [done | apply sublist_nil_l] |].
  match goal with |- context [List.filter ?f older] =>
    pose proof (List_filter_sublist f older) as Hs;
    destruct (List.filter f older) as [| m ms] eqn:Hf end.
  - exists []. split; [done | apply sublist_nil_l].
  - exists (m :: ms). split; [done | exact Hs].
Qed.

Lemma orphaned_elem recent (ids : gset string) x :
  x ∈ (list_to_set
         (flat_map (fun msg : Message =>
            flat_map (fun block =>
              if isToolResult block && negb (String.eqb (ToolUseID block) "")
                 && negb (bool_decide (ToolUseID block ∈ ids))
              then [ToolUseID block] else []) (MContent msg)) recent) : gset string)
  <-> exists msg block, msg ∈ recent /\ block ∈ MContent msg
        /\ isToolResult block = true /\ ToolUseID block = x /\ x <> "" /\ x ∉ ids.
Proof.
  rewrite elem_of_list_to_set, list_elem_of_In, in_flat_map. split.
  - intros (msg & Hm & Hx). apply in_flat_map in Hx as (block & Hb & Hx).
    exists msg, block. rewrite !list_elem_of_In.
    destruct (isToolResult block); [| by destruct Hx].
    destruct (String.eqb_spec (ToolUseID block) ""); [by destruct Hx |].
    case_bool_decide; [by destruct Hx |]. simpl in Hx.
    destruct Hx as [<- | []]. done.
  - intros (msg & block & Hm & Hb & Hr & Hid & Hne & Hnot).
    exists msg. rewrite <- list_elem_of_In. split; [done |].
    apply in_flat_map. exists block. rewrite <- list_elem_of_In. split; [done |].
    rewrite Hr, Hid.
    destruct (String.eqb_spec x ""); [done |].
    rewrite bool_decide_eq_false_2 by done. by left.
Qed.

(** X4: the messages kept as recent stay at the end of the result, in
    front of them stand messages of the older part in their order, and a
    tool_result of the recent part whose tool_use is in the older part
    gets that tool_use back. *)
Theorem ensureToolPairsIntact_brings_tool_uses_back
    (recent older : list Message) (msg : Message) (block : ContentBlock) :
  msg ∈ recent -> block ∈ MContent msg -> isToolResult block = true ->
  usesID (ToolUseID block) (older ++ recent)%list ->
  (exists brought,
     ensureToolPairsIntact recent older = (brought ++ recent)%list
     /\ sublist brought older)
  /\ usesID (ToolUseID block) (ensureToolPairsIntact recent older).
Proof.
  intros Hm Hb Hr (m' & b' & Hm' & Hb' & Hu & Hid & Hne).
  split; [apply ensureToolPairsIntact_shape |].
  destruct (decide (ToolUseID block ∈ addToolUseIDs ∅ recent)) as [Hin | Hnot].
  { apply addToolUseIDs_spec in Hin as [Hin | (m2 & b2 & Hm2 & H2)];
      [by apply not_elem_of_empty in Hin |].
    destruct (ensureToolPairsIntact_shape recent older) as (brought & -> & _).
    exists m2, b2. split; [| done]. apply elem_of_app. by right. }
  apply elem_of_app in Hm' as [Hold | Hrec].
  2: { exfalso. apply Hnot, addToolUseIDs_spec. right. by exists m', b'. }
  unfold ensureToolPairsIntact.
  match goal with |- context [bool_decide (?s = ∅)] =>
    assert (ToolUseID block ∈ s) as Horph
  end.
  { apply orphaned_elem. by exists msg, block. }
  rewrite bool_decide_eq_false_2
    by (intros He; rewrite He in Horph; by apply not_elem_of_empty in Horph).
  match goal with |- context [List.filter ?f older] =>
    assert (m' ∈ List.filter f older) as Hf
  end.
  { apply list_elem_of_In, filter_In. split; [by apply list_elem_of_In |].
    apply existsb_exists. exists b'. split; [by apply list_elem_of_In |].
    rewrite Hu, Hid. simpl. by apply bool_decide_eq_true_2. }
  match goal with |- context [List.filter ?f older] =>
    destruct (List.filter f older) as [| m ms] end;
    [by apply elem_of_nil in Hf |].
  exists m', b'. split; [| done]. apply elem_of_app. by left.
Qed.

Section WithProvider.
Context {PS : Type}.
Variable provider_Call : AgentRequest -> PS -> Result AgentResponse * PS.

Lemma generateSummary_calls text (w : @World PS) :
  exists r w' req,
    generateSummary provider_Call text w = Some (r, w')
    /\ provider_calls w' = (provider_calls w ++ [req])%list
    /\ System req = compactSummaryPrompt /\ Tools req = [].
Proof.
  unfold generateSummary, bind, Call.
  destruct (provider_Call _ (provider_state w)) as [[resp | e] s]; simpl.
  - destruct (String.eqb _ ""); eexists _, _, _; (split; [reflexivity |]); done.
  - eexists _, _, _; (split; [reflexivity |]); done.
Qed.

Lemma Compact_cases (c : Compactor) (messages : list Message) (w : @World PS) :
  0 <= KeepRecent (config c) -> is_int (KeepRecent (config c)) ->
  len messages < 2 ^ 63 ->
  exists r w',
    Compact provider_Call c messages w = Some (Ok r, w')
    /\ ((r = messages /\ w' = w)
        \/ exists first front req,
             messages !! 0%nat = Some first
             /\ r = first :: (front
                      ++ drop (length messages - Z.to_nat (KeepRecent (config c))) messages)%list
             /\ (length front <= 1 + length messages - Z.to_nat (KeepRecent (config c)))%nat
             /\ provider_calls w' = (provider_calls w ++ [req])%list
             /\ System req = compactSummaryPrompt /\ Tools req = []).
Proof.
  intros Hk Hint Hlen.
  set (kr := KeepRecent (config c)) in *.
  unfold Compact. fold kr.
  destruct (Z.le_gt_cases (len messages) (kr + 1)) as [Hle | Hgt].
  { exists messages, w. split; [| by left].
    destruct (Z.eq_dec kr (2 ^ 63 - 1)) as [Hmax | Hmax].
    - rewrite Hmax in *.
      replace (int_add (2 ^ 63 - 1) 1) with (- 2 ^ 63) by reflexivity.
      pose proof (len_nonneg messages) as Hn.
      destruct (Z.leb_spec (len messages) (- 2 ^ 63)); [lia |].
      unfold int_sub. rewrite wrap64_id by (unfold is_int; lia).
      destruct (Z.leb_spec (len messages - (2 ^ 63 - 1)) 1); [reflexivity | lia].
    - unfold int_add. rewrite wrap64_id by (unfold is_int in *; lia).
      destruct (Z.leb_spec (len messages) (kr + 1)); [reflexivity | lia]. }
  unfold int_add, int_sub. rewrite !wrap64_id by (unfold is_int; lia).
  destruct (Z.leb_spec (len messages) (kr + 1)); [lia |].
  destruct (Z.leb_spec (len messages - kr) 1); [lia |].
  unfold bind at 1.
  assert (exists ms, slice messages 1 (len messages - kr) = Some ms) as [ms Hms].
  { unfold slice. destruct (Z.leb_spec 1 (len messages - kr)); [| lia].
    destruct (Z.leb_spec (len messages - kr) (len messages)); [| lia].
    simpl. eauto. }
  rewrite Hms. simpl. unfold bind at 1.
  destruct (generateSummary_calls (formatMessagesForSummary ms) w)
    as (r & w' & req & Hg & Hcalls & Hsys & Htools).
  rewrite Hg.
  assert (Z.to_nat (len messages - kr) = (length messages - Z.to_nat kr)%nat) as Hcut
    by (unfold len; lia).
  destruct r as [summary | e].
  - destruct messages as [| first messages]; [unfold len in *; simpl in *; lia |].
    unfold bind, orPanic, ret. rewrite index_0.
    unfold slice_from, slice_to.
    destruct (Z.leb_spec 0 (len (first :: messages) - kr)); [| lia].
    destruct (Z.leb_spec (len (first :: messages) - kr) (len (first :: messages))); [| lia].
    cbn [andb]. rewrite Hcut.
    match goal with |- context [ensureToolPairsIntact ?a ?b] =>
      destruct (ensureToolPairsIntact_shape a b) as (brought & -> & Hsub)
    end.
    eexists _, w'. split; [reflexivity |]. right.
    exists first, (summaryMessage (len ms) summary :: brought), req.
    split; [done |]. split; [done |]. split; [| done].
    apply sublist_length in Hsub. rewrite length_take in Hsub.
    cbn [length] in *. lia.
  - destruct (truncateMessages_shape messages (kr + 1)) as (first & k & Hfirst & Ht & Hb & _);
      [lia | lia | lia |].
    unfold bind, orPanic, ret. rewrite Ht.
    eexists _, w'. split; [reflexivity |]. right.
    exists first, (take (length messages - Z.to_nat kr - k) (drop k messages)), req.
    split; [exact Hfirst |]. split; [| split; [| done]].
    + f_equal.
      rewrite <- (take_drop (length messages - Z.to_nat kr - k) (drop k messages)) at 1.
      f_equal. rewrite drop_drop. f_equal. unfold len in *. lia.
    + rewrite length_take. lia.
Qed.

(** X5: under a keep_recent that is not negative the compaction neither
    panics nor returns an error; it asks the provider at most once, with
    the summary prompt and no tools, and returns at most two messages
    more than it was given. *)
Theorem Compact_asks_at_most_once
    (c : Compactor) (messages : list Message) (w : @World PS) :
  0 <= KeepRecent (config c) -> is_int (KeepRecent (config c)) ->
  len messages < 2 ^ 63 ->
  exists r w',
    Compact provider_Call c messages w = Some (Ok r, w')
    /\ len r <= len messages + 2
    /\ (provider_calls w' = provider_calls w
        \/ exists req, provider_calls w' = (provider_calls w ++ [req])%list
                       /\ System req = compactSummaryPrompt /\ Tools req = []).
Proof.
  intros Hk Hint Hlen.
  destruct (Compact_cases c messages w Hk Hint Hlen)
    as (r & w' & HC & [[-> ->] | (first & front & req & Hfirst & -> & Hf & Hcalls & Hreq)]).
  - exists messages, w. split; [done |]. split; [lia | by left].
  - eexists _, w'. split; [done |]. split; [| right; by exists req].
    unfold len. cbn [length]. rewrite length_app, length_drop. lia.
Qed.

(** X6: whatever the provider does, the compacted conversation starts with
    the first message of the conversation and ends with its last
    keep_recent messages. *)
Theorem Compact_keeps_first_and_recent
    (c : Compactor) (messages : list Message) (w : @World PS) :
  0 <= KeepRecent (config c) -> is_int (KeepRecent (config c)) ->
  len messages < 2 ^ 63 ->
  exists r w',
    Compact provider_Call c messages w = Some (Ok r, w')
    /\ head r = head messages
    /\ drop (length messages - Z.to_nat (KeepRecent (config c))) messages `suffix_of` r.
Proof.
  intros Hk Hint Hlen.
  destruct (Compact_cases c messages w Hk Hint Hlen)
    as (r & w' & HC & [[-> ->] | (first & front & req & Hfirst & -> & _)]).
  - exists messages, w. split; [done |]. split; [done |]. apply suffix_drop.
  - eexists _, w'. split; [done |]. split.
    + destruct messages; [done |]. by inversion Hfirst.
    + exists (first :: front). done.
Qed.
End WithProvider.

Lemma validateToolPairs_accepts_intact_pairs_witness :
  pairsIntact fourTexts /\ ~ pairsIntact recentResult.
Proof.
  split.
  - apply (validateToolPairs_accepts_intact_pairs fourTexts). reflexivity.
  - intros H%(validateToolPairs_accepts_intact_pairs recentResult). discriminate H.
Defined.

Lemma truncateMessages_keeps_first_and_tail_witness :
  exists result,
    truncateMessages fourTexts 2 = Some result
    /\ (len fourTexts <= 2 -> result = fourTexts)
    /\ (2 < len fourTexts ->
        exists first k,
          fourTexts !! 0%nat = Some first /\ result = first :: drop k fourTexts
          /\ 1 <= Z.of_nat k <= len fourTexts - 2 + 1).
Proof.
  apply (truncateMessages_keeps_first_and_tail fourTexts 2); [lia |].
  unfold len. simpl. lia.
Defined.

Lemma truncateMessages_panics_without_room_witness :
  truncateMessages fourTexts 0 = None.
Proof.
  apply (truncateMessages_panics_without_room fourTexts 0).
  - unfold is_int. lia.
  - lia.
  - unfold len. simpl. lia.
  - unfold len. simpl. lia.
Defined.

Lemma ensureToolPairsIntact_brings_tool_uses_back_witness :
  usesID "a" (ensureToolPairsIntact recentResult olderUse).
Proof.
  apply (ensureToolPairsIntact_brings_tool_uses_back recentResult olderUse
           (NewToolResultMessage "a" "out" false) (toolResultBlock "a" "out" false)).
  - apply list_elem_of_here.
  - apply list_elem_of_here.
  - reflexivity.
  - exists (mkMessage RoleAssistant [toolUseBlock "a" "bash" ∅]), (toolUseBlock "a" "bash" ∅).
    repeat split; [apply list_elem_of_here | apply list_elem_of_here | discriminate].
Defined.

Lemma Compact_asks_at_most_once_witness :
  exists r w',
    Compact (answeringProvider "summary") (NewCompactor keepOne) fourTexts (mkWorld tt [])
    = Some (Ok r, w')
    /\ len r <= len fourTexts + 2.
Proof.
  destruct (Compact_asks_at_most_once (answeringProvider "summary") (NewCompactor keepOne)
              fourTexts (mkWorld tt [])) as (r & w' & H & Hlen & _).
  - simpl. lia.
  - unfold is_int. simpl. lia.
  - unfold len. simpl. lia.
  - by exists r, w'.
Defined.

Lemma Compact_keeps_first_and_recent_witness :
  exists r w',
    Compact failingProvider (NewCompactor keepOne) fourTexts (mkWorld tt [])
    = Some (Ok r, w')
    /\ head r = Some (NewTextMessage RoleUser "task")
    /\ [NewTextMessage RoleAssistant "done"] `suffix_of` r.
Proof.
  destruct (Compact_keeps_first_and_recent failingProvider (NewCompactor keepOne)
              fourTexts (mkWorld tt [])) as (r & w' & H & Hhead & Hrecent).
  - simpl. lia.
  - unfold is_int. simpl. lia.
  - unfold len. simpl. lia.
  - by exists r, w'.
Defined.

End history_props.

(** ** The agent loop: what follows the answer of the provider *)

Module agentloop_props.
Import llm tools orchestrator orchestrator_spec orchestrator_props effects llm_run.
Import agentloop agentloop_spec.

Section Entropy.
Variable entropy : nat -> string.

#[local] Abbreviation gen k := (generateToolUseID (entropy k)).

Lemma uniqueToolUseIDs_cons block rest seen n :
  uniqueToolUseIDs entropy (block :: rest) seen n
  = if isToolUse block then
      let fixed := if String.eqb (ID block) "" || bool_decide (ID block ∈ seen)
                   then withID block (gen n) else block in
      let n1 := if String.eqb (ID block) "" || bool_decide (ID block ∈ seen)
                then S n else n in
      let r := uniqueToolUseIDs entropy rest ({[ ID fixed ]} ∪ seen) n1 in
      (fixed :: r.1.1, r.1.2, r.2)
    else
      let r := uniqueToolUseIDs entropy rest seen n in
      (block :: r.1.1, r.1.2, r.2).
Proof.
  cbn [uniqueToolUseIDs].
  destruct (isToolUse block).
  - destruct (String.eqb (ID block) "" || bool_decide (ID block ∈ seen)); cbv zeta;
      by destruct (uniqueToolUseIDs entropy rest _ _) as [[? ?] ?].
  - cbv zeta. by destruct (uniqueToolUseIDs entropy rest _ _) as [[? ?] ?].
Qed.

Lemma generated_nonempty e : generateToolUseID e <> "".
Proof. done. Qed.

Lemma uniqueToolUseIDs_regenerated content seen n :
  Forall2 (regenerated entropy) content (uniqueToolUseIDs entropy content seen n).1.1.
Proof.
  revert seen n. induction content as [| block rest IH]; intros seen n; [constructor |].
  rewrite uniqueToolUseIDs_cons.
  destruct (isToolUse block) eqn:Hu; cbv zeta; cbn [fst snd].
  - constructor; [| apply IH].
    destruct (String.eqb (ID block) "" || bool_decide (ID block ∈ seen));
      [right; split; [done | by exists n] | by left].
  - constructor; [by left | apply IH].
Qed.

Lemma regenerated_type given stored :
  regenerated entropy given stored -> Type_ stored = Type_ given /\ Text stored = Text given.
Proof. by intros [-> | (_ & k & ->)]. Qed.

Lemma uniqueToolUseIDs_nonempty content seen n x :
  x ∈ toolUseIDs (uniqueToolUseIDs entropy content seen n).1.1 -> x <> "".
Proof.
  revert seen n. induction content as [| block rest IH]; intros seen n.
  { by intros ?%elem_of_nil. }
  rewrite uniqueToolUseIDs_cons.
  destruct (isToolUse block) eqn:Hu; cbv zeta; cbn [fst snd].
  - unfold toolUseIDs. cbn [List.filter].
    destruct (String.eqb_spec (ID block) "") as [He | Hne]; cbn [orb].
    + change (isToolUse (withID block (gen n))) with (isToolUse block). rewrite Hu.
      cbn [map]. intros [-> | Hx]%elem_of_cons; [done | by eapply IH].
    + case_bool_decide.
      * change (isToolUse (withID block (gen n))) with (isToolUse block). rewrite Hu.
        cbn [map]. intros [-> | Hx]%elem_of_cons; [done | by eapply IH].
      * rewrite Hu. cbn [map]. intros [-> | Hx]%elem_of_cons; [done | by eapply IH].
  - unfold toolUseIDs. cbn [List.filter]. rewrite Hu. apply IH.
Qed.

Lemma uniqueToolUseIDs_fresh content seen n :
  (forall k, (n <= k)%nat -> gen k ∉ seen) ->
  (forall k block, (n <= k)%nat -> block ∈ content -> ID block <> gen k) ->
  (forall j k, (n <= j < k)%nat -> entropy j <> entropy k) ->
  let r := uniqueToolUseIDs entropy content seen n in
  NoDup (toolUseIDs r.1.1)
  /\ (forall x, x ∈ toolUseIDs r.1.1 -> x ∉ seen)
  /\ r.1.2 = list_to_set (toolUseIDs r.1.1) ∪ seen.
Proof.
  revert seen n. induction content as [| block rest IH]; intros seen n Hseen Hids Hinj.
  { cbn. split; [constructor |]. split; [by intros x ?%elem_of_nil |].
    by rewrite (left_id_L ∅ (∪)). }
  cbv zeta. rewrite uniqueToolUseIDs_cons.
  destruct (isToolUse block) eqn:Hu; cbv zeta; cbn [fst snd].
  2: { unfold toolUseIDs. cbn [List.filter]. rewrite Hu.
       apply IH; [done | | done].
       intros k b Hk Hb. apply Hids; [done | by apply list_elem_of_further]. }
  set (cond := String.eqb (ID block) "" || bool_decide (ID block ∈ seen)).
  set (fixed := if cond then withID block (gen n) else block).
  set (n1 := if cond then S n else n).
  assert (isToolUse fixed = true) as Hfu by (unfold fixed; by destruct cond).
  assert ((ID fixed ∉ seen) /\ (n <= n1)%nat
          /\ forall k, (n1 <= k)%nat -> gen k <> ID fixed) as (Hfresh & Hn1 & Hlater).
  { unfold fixed, n1, cond.
    destruct (String.eqb_spec (ID block) "") as [He | Hne]; cbn [orb].
    - split; [apply Hseen; lia |]. split; [lia |].
      intros k Hk [= Heq]. apply (Hinj n k); [lia | done].
    - case_bool_decide as Hin.
      + split; [apply Hseen; lia |]. split; [lia |].
        intros k Hk [= Heq]. apply (Hinj n k); [lia | done].
      + split; [done |]. split; [lia |].
        intros k Hk Heq. apply (Hids k block); [lia | apply list_elem_of_here | done]. }
  destruct (IH ({[ ID fixed ]} ∪ seen) n1) as (Hnd & Hout & Hset).
  { intros k Hk [Heq%elem_of_singleton | Hin]%elem_of_union.
    - by apply (Hlater k).
    - apply (Hseen k); [lia | done]. }
  { intros k b Hk Hb. apply Hids; [lia | by apply list_elem_of_further]. }
  { intros j k Hjk. apply Hinj. lia. }
  unfold toolUseIDs in *. cbn [List.filter]. rewrite Hfu. cbn [map].
  split; [| split].
  - constructor; [| done]. intros Hin. apply (Hout _ Hin).
    apply elem_of_union. left. by apply elem_of_singleton.
  - intros x [-> | Hx]%elem_of_cons; [done |].
    intros Hin. apply (Hout _ Hx). apply elem_of_union. by right.
  - rewrite Hset. apply set_eq. intros x.
    rewrite !elem_of_union, !elem_of_list_to_set, elem_of_cons, elem_of_singleton. tauto.
Qed.

(** X7: the tool_use ids of a stored answer are never empty; nothing but
    tool_use ids is changed; and while the random source neither
    repeats itself nor hits an id of the run or of the answer, the ids
    are distinct from each other and from every id met before in the
    run, and they are the ids added to the ones met. *)
Theorem uniqueToolUseIDs_makes_ids_unique
    (content : list ContentBlock) (seen : gset string) (n : nat) :
  (forall k, (n <= k)%nat -> generateToolUseID (entropy k) ∉ seen) ->
  (forall k block, (n <= k)%nat -> block ∈ content ->
                   ID block <> generateToolUseID (entropy k)) ->
  (forall j k, (n <= j < k)%nat -> entropy j <> entropy k) ->
  let r := uniqueToolUseIDs entropy content seen n in
  Forall2 (regenerated entropy) content r.1.1
  /\ NoDup (toolUseIDs r.1.1)
  /\ (forall x, x ∈ toolUseIDs r.1.1 -> x <> "" /\ x ∉ seen)
  /\ r.1.2 = list_to_set (toolUseIDs r.1.1) ∪ seen.
Proof.
  intros Hseen Hids Hinj r.
  destruct (uniqueToolUseIDs_fresh content seen n Hseen Hids Hinj) as (Hnd & Hout & Hset).
  split; [apply uniqueToolUseIDs_regenerated |]. split; [done |]. split; [| done].
  intros x Hx. split; [by eapply uniqueToolUseIDs_nonempty | by apply Hout].
Qed.

Lemma GetText_regenerated given stored acc :
  Forall2 (regenerated entropy) given stored ->
  fold_left GetText_step stored acc = fold_left GetText_step given acc.
Proof.
  intros H. revert acc. induction H as [| g s gs ss Hrel _ IH]; intros acc; [done |].
  cbn [fold_left]. rewrite IH. f_equal.
  apply regenerated_type in Hrel as [Hty Htx]. unfold GetText_step. by rewrite Hty, Htx.
Qed.

End Entropy.

Section Tools.
Variable entropy : nat -> string.
Context {TW : Type}.
Variable registryGet :
  string ->
  option (ToolContext -> gmap string any -> TW -> (ToolResult * option error) * TW).

(** *** Tool execution *)

Lemma executeTools_cons toolCtx use rest w :
  executeTools registryGet toolCtx (use :: rest) w
  = let r := executeTool registryGet toolCtx use w in
    let rs := executeTools registryGet toolCtx rest r.2 in
    (r.1 :: rs.1, rs.2).
Proof.
  cbn [executeTools]. destruct (executeTool registryGet toolCtx use w) as [r w1].
  cbv zeta. cbn [fst snd]. by destruct (executeTools registryGet toolCtx rest w1).
Qed.

Lemma executeTool_fields toolCtx use w :
  let r := (executeTool registryGet toolCtx use w).1 in
  EID r = ID use /\ EName r = Name use /\ EInput r = Input use
  /\ (registryGet (Name use) = None ->
      EResult r = mkToolResult ("tool not found: " ++ Name use) true).
Proof.
  unfold executeTool.
  destruct (registryGet (Name use)) as [execute |].
  - destruct (execute toolCtx (Input use) w) as [[result [err |]] w1]; by cbn.
  - by cbn.
Qed.

Lemma executeTools_ids toolCtx uses w :
  map EID (executeTools registryGet toolCtx uses w).1 = map ID uses.
Proof.
  revert w. induction uses as [| use rest IH]; intros w; [done |].
  rewrite executeTools_cons. cbv zeta. cbn [fst map].
  rewrite IH. f_equal. apply executeTool_fields.
Qed.

Lemma executeTools_lookup toolCtx uses w i use :
  uses !! i = Some use ->
  exists r w1, (executeTools registryGet toolCtx uses w).1 !! i = Some r
               /\ r = (executeTool registryGet toolCtx use w1).1.
Proof.
  revert w i. induction uses as [| u rest IH]; intros w i Hi; [done |].
  rewrite executeTools_cons. cbv zeta. cbn [fst].
  destruct i as [| i].
  - injection Hi as ->. by eexists _, w.
  - apply (IH _ _ Hi).
Qed.

(** X8: every tool_use is answered by one tool_result, in the order of
    the calls and under the id of the call, in one message of the user
    role; a tool the registry does not know is answered by an error
    result that names it. *)
Theorem every_tool_use_gets_one_result
    (toolCtx : ToolContext) (uses : list ContentBlock) (w : TW) :
  let message := buildToolResultMessage (executeTools registryGet toolCtx uses w).1 in
  Role message = RoleUser
  /\ map ToolUseID (MContent message) = map ID uses
  /\ Forall (fun block => isToolResult block = true) (MContent message)
  /\ forall i use,
       uses !! i = Some use -> registryGet (Name use) = None ->
       exists block,
         MContent message !! i = Some block
         /\ IsError block = true
         /\ Content block = "tool not found: " ++ Name use.
Proof.
  cbv zeta. unfold buildToolResultMessage. cbn [Role MContent].
  split; [done |]. split; [| split].
  - rewrite map_map. cbn [ToolUseID]. apply executeTools_ids.
  - apply Forall_map, Forall_true. done.
  - intros i use Hi Hnone.
    destruct (executeTools_lookup toolCtx uses w i use Hi) as (r & w1 & Hr & ->).
    eexists. rewrite list_lookup_fmap, Hr. cbn [fmap option_fmap option_map].
    split; [reflexivity |]. cbn [IsError Content].
    destruct (executeTool_fields toolCtx use w1) as (_ & _ & _ & Hres).
    by rewrite (Hres Hnone).
Qed.

(** *** One iteration *)

Lemma fold_AddToolCall_messages results state :
  SMessages (fold_left (fun s tr => AddToolCall s (EName tr) (EInput tr) (EResult tr))
                       results state) = SMessages state.
Proof.
  revert state. induction results as [| r rs IH]; intros state; [done |].
  cbn [fold_left]. by rewrite IH.
Qed.

Lemma afterResponse_messages toolCtx state seen n resp w :
  let content := (uniqueToolUseIDs entropy (RContent resp) seen n).1.1 in
  let answer := mkMessage (RRole resp) content in
  let o := (afterResponse entropy registryGet toolCtx state seen n resp w).1 in
  messagesOf o = (SMessages state ++ [answer])%list
  \/ messagesOf o
     = ((SMessages state ++ [answer])
        ++ [buildToolResultMessage
              (executeTools registryGet toolCtx (List.filter isToolUse content) w).1])%list.
Proof.
  cbv zeta. unfold afterResponse.
  destruct (uniqueToolUseIDs entropy (RContent resp) seen n) as [[content seen1] n1].
  cbn [fst snd StopReason withContent].
  destruct (String.eqb (StopReason resp) StopReasonEndTurn); [by left |].
  destruct (String.eqb (StopReason resp) StopReasonMaxTokens); [by left |].
  match goal with |- context [if ?c then _ else _] => destruct c end; [| by left].
  unfold ResponseGetToolUses, withContent. cbn [RContent].
  destruct (executeTools registryGet toolCtx (List.filter isToolUse content) w)
    as [results w1].
  right. cbn [fst messagesOf AddMessage SMessages].
  rewrite fold_AddToolCall_messages. reflexivity.
Qed.

Lemma pairsIntact_app history more :
  pairsIntact history ->
  (forall msg block,
     msg ∈ more -> block ∈ MContent msg -> isToolResult block = true ->
     ToolUseID block <> ""
     /\ exists msg' block',
          msg' ∈ (history ++ more)%list /\ block' ∈ MContent msg'
          /\ isToolUse block' = true /\ ID block' = ToolUseID block) ->
  pairsIntact (history ++ more)%list.
Proof.
  intros Hh Hm msg block [Hin | Hin]%elem_of_app Hb Hr.
  - destruct (Hh msg block Hin Hb Hr) as (Hne & m' & b' & Hm' & H').
    split; [done |]. exists m', b'. split; [| done]. apply elem_of_app. by left.
  - by apply (Hm msg).
Qed.

(** X9: an iteration only adds to the conversation, and it keeps every
    tool_result paired with a tool_use: when the pairs of the history
    are intact and the answer of the provider holds no tool_result, the
    pairs of the conversation the iteration leaves behind are intact. *)
Theorem afterResponse_keeps_pairs_intact
    (toolCtx : ToolContext) (state : State) (seen : gset string) (n : nat)
    (resp : AgentResponse) (w : TW) :
  pairsIntact (SMessages state) ->
  Forall (fun block => isToolResult block = false) (RContent resp) ->
  let o := (afterResponse entropy registryGet toolCtx state seen n resp w).1 in
  SMessages state `prefix_of` messagesOf o /\ pairsIntact (messagesOf o).
Proof.
  intros Hpairs Hnone o.
  pose proof (uniqueToolUseIDs_regenerated entropy (RContent resp) seen n) as Hreg.
  set (content := (uniqueToolUseIDs entropy (RContent resp) seen n).1.1) in *.
  assert (forall block, block ∈ content -> isToolResult block = false) as Hcontent.
  { intros block Hb.
    apply list_elem_of_lookup in Hb as [i Hi].
    destruct (Forall2_lookup_r _ _ _ _ _ Hreg Hi) as (given & Hg & Hrel).
    apply (regenerated_type entropy) in Hrel as [Hty _].
    unfold isToolResult. rewrite Hty.
    apply (proj1 (Forall_lookup _ _) Hnone i given Hg). }
  assert (pairsIntact (SMessages state ++ [mkMessage (RRole resp) content])%list) as Hone.
  { apply pairsIntact_app; [done |].
    intros msg block ->%list_elem_of_singleton Hb Hr.
    cbn [MContent] in Hb. by rewrite (Hcontent block Hb) in Hr. }
  unfold o. clear o.
  destruct (afterResponse_messages toolCtx state seen n resp w) as [-> | ->];
    fold content.
  - split; [by apply prefix_app_r | done].
  - split; [rewrite <- app_assoc; by apply prefix_app_r |].
    apply pairsIntact_app; [done |].
    intros msg block ->%list_elem_of_singleton Hb Hr.
    unfold buildToolResultMessage in Hb. cbn [MContent] in Hb.
    apply list_elem_of_fmap in Hb as (r & -> & Hin).
    cbn [ToolUseID].
    assert (EID r ∈ toolUseIDs content) as Hid.
    { unfold toolUseIDs. rewrite <- (executeTools_ids toolCtx _ w).
      apply list_elem_of_fmap. by exists r. }
    split; [by eapply (uniqueToolUseIDs_nonempty entropy) |].
    unfold toolUseIDs in Hid.
    apply list_elem_of_fmap in Hid as (use & Hu & Huse).
    apply list_elem_of_In, filter_In in Huse as [Huse Hty].
    exists (mkMessage (RRole resp) content), use.
    split; [| split; [by apply list_elem_of_In | done]].
    apply elem_of_app. left. apply elem_of_app. right. by apply list_elem_of_singleton.
Qed.

(** *** The end of a run *)

Lemma lastAssistant_last earlier msg :
  Role msg = RoleAssistant -> lastAssistant (rev (earlier ++ [msg])) = msg.
Proof. intros H. rewrite rev_app_distr. cbn. by rewrite H. Qed.

(** X10: an answer of the assistant role that ends the turn ends the run
    without an error and without running a tool, whatever blocks it
    holds; the answer is the final message and the last message of the
    result, and the final text is the text of the answer. *)
Theorem end_turn_returns_the_answer
    (toolCtx : ToolContext) (state : State) (seen : gset string) (n : nat)
    (resp : AgentResponse) (w : TW) :
  StopReason resp = StopReasonEndTurn -> RRole resp = RoleAssistant ->
  exists result,
    afterResponse entropy registryGet toolCtx state seen n resp w
    = (Return result None, w)
    /\ RMessages result = (SMessages state ++ [FinalMessage result])%list
    /\ Forall2 (regenerated entropy) (RContent resp) (MContent (FinalMessage result))
    /\ GetFinalText result = ResponseGetText resp.
Proof.
  intros Hstop Hrole. unfold afterResponse.
  pose proof (uniqueToolUseIDs_regenerated entropy (RContent resp) seen n) as Hreg.
  destruct (uniqueToolUseIDs entropy (RContent resp) seen n) as [[content seen1] n1].
  cbn [fst] in Hreg. cbn [StopReason withContent]. rewrite Hstop. cbn [String.eqb].
  change (String.eqb StopReasonEndTurn StopReasonEndTurn) with true. cbv iota.
  eexists. split; [reflexivity |].
  unfold GetFinalText, ToResult. cbn [FinalMessage RMessages AddMessage SMessages UpdateUsage].
  unfold ToMessage. cbn [RRole RContent].
  rewrite lastAssistant_last by done.
  split; [done |]. split; [done |].
  unfold ResponseGetText, GetText, ToMessage. cbn [MContent].
  by apply (GetText_regenerated entropy).
Qed.
End Tools.

Lemma tally_length k : String.length (tally k) = k.
Proof. induction k as [| k IH]; [done |]. simpl. by rewrite IH. Qed.

Lemma uniqueToolUseIDs_makes_ids_unique_witness :
  NoDup (toolUseIDs (uniqueToolUseIDs tally (RContent twoCalls) ∅ 0).1.1)
  /\ toolUseIDs (uniqueToolUseIDs tally (RContent twoCalls) ∅ 0).1.1
     = ["toolu_"; "toolu_x"].
Proof.
  destruct (uniqueToolUseIDs_makes_ids_unique tally (RContent twoCalls) ∅ 0)
    as (_ & Hnd & _).
  - intros k _. apply not_elem_of_empty.
  - intros k block _ Hin.
    repeat (apply elem_of_cons in Hin as [-> | Hin]; [discriminate |]).
    by apply elem_of_nil in Hin.
  - intros j k Hjk Heq. apply (f_equal String.length) in Heq.
    rewrite !tally_length in Heq. lia.
  - split; [exact Hnd | reflexivity].
Defined.

Lemma every_tool_use_gets_one_result_witness :
  map ToolUseID
    (MContent (buildToolResultMessage
                 (executeTools noTools (NewToolContext "/w")
                    [toolUseBlock "t1" "bash" ∅; toolUseBlock "t2" "read_file" ∅] tt).1))
  = ["t1"; "t2"].
Proof.
  destruct (every_tool_use_gets_one_result noTools (NewToolContext "/w")
              [toolUseBlock "t1" "bash" ∅; toolUseBlock "t2" "read_file" ∅] tt)
    as (_ & Hids & _).
  exact Hids.
Defined.

Lemma afterResponse_keeps_pairs_intact_witness :
  pairsIntact
    (messagesOf
       (afterResponse tally noTools (NewToolContext "/w")
          (NewState [NewTextMessage RoleUser "task"]) ∅ 0 twoCalls tt).1).
Proof.
  apply (afterResponse_keeps_pairs_intact tally noTools (NewToolContext "/w")
           (NewState [NewTextMessage RoleUser "task"]) ∅ 0 twoCalls tt).
  - apply validateToolPairs_pairsIntact. reflexivity.
  - repeat constructor.
Defined.

Lemma end_turn_returns_the_answer_witness :
  exists result,
    afterResponse tally noTools (NewToolContext "/w")
      (NewState [NewTextMessage RoleUser "task"]) ∅ 0 lastWords tt
    = (Return result None, tt)
    /\ GetFinalText result = "done".
Proof.
  destruct (end_turn_returns_the_answer tally noTools (NewToolContext "/w")
              (NewState [NewTextMessage RoleUser "task"]) ∅ 0 lastWords tt)
    as (result & Hrun & _ & _ & Htext); [reflexivity | reflexivity |].
  by exists result.
Defined.

End agentloop_props.

(** ** The reading of LLM output and the runner: edge cases *)

Module llm_edge_props.
Import llm_run llm_parse llm_parse_spec llm_parse_props string_lemmas llm_edge_spec.
Import effects agentloop agentloop_spec workflow_spec.

Lemma TrimLeftSpace_blank fuel s :
  blank s = true -> (String.length s <= fuel)%nat -> strings.TrimLeftSpace fuel s = "".
Proof.
  revert s. induction fuel as [| fuel IH]; intros s Hb Hlen.
  - destruct s; [done | simpl in Hlen; lia].
  - destruct s as [| c s]; [done |].
    unfold blank in Hb. cbn [strings.everyByte] in Hb.
    apply andb_true_iff in Hb as [Hc Hs].
    cbn [strings.TrimLeftSpace strings.leadingSpace]. rewrite Hc. cbn [sdrop].
    apply IH; [done | simpl in Hlen; lia].
Qed.

Lemma TrimSpace_blank s : blank s = true -> strings.TrimSpace s = "".
Proof.
  intros Hb. unfold strings.TrimSpace.
  by rewrite (TrimLeftSpace_blank _ s Hb) by lia.
Qed.

Lemma blank_noBrace s : blank s = true -> noBrace s = true.
Proof.
  unfold blank, noBrace. induction s as [| c s IH]; [done |].
  cbn [strings.everyByte strings.IndexByte]. intros [Hc Hs]%andb_true_iff.
  destruct (Ascii.eqb_spec c "{") as [-> | _]; [done |].
  specialize (IH Hs). by destruct (strings.IndexByte s "{").
Qed.

Lemma ParseResponse_noBrace data :
  noBrace data = true ->
  ParseResponse data
  = Err (errorString (if String.eqb (strings.TrimSpace data) ""
                      then "LLM output is empty" else "LLM output missing JSON object")).
Proof.
  intros Hn. unfold ParseResponse, extractResponseJSON. cbv zeta.
  destruct (String.eqb (strings.TrimSpace data) ""); [done |].
  destruct (TrimSpace_infix data) as (a & z & Hdata).
  rewrite Hdata, !noBrace_app in Hn.
  apply andb_true_iff in Hn as [_ [Hn _]%andb_true_iff].
  cbn [candidates]. unfold noBrace in Hn.
  by destruct (strings.IndexByte (strings.TrimSpace data) "{").
Qed.

(** X11: text without an opening brace never gives a response: when
    [TrimSpace] leaves nothing of it, as of empty text and of text of ASCII
    white space alone, it is reported as empty output, and when
    [TrimSpace] leaves something, as output without a JSON object. *)
Theorem ParseResponse_needs_a_brace (data : string) :
  noBrace data = true ->
  (strings.TrimSpace data = "" ->
   ParseResponse data = Err (errorString "LLM output is empty"))
  /\ (strings.TrimSpace data <> "" ->
      ParseResponse data = Err (errorString "LLM output missing JSON object"))
  /\ (blank data = true -> strings.TrimSpace data = "").
Proof.
  intros Hn. rewrite (ParseResponse_noBrace data Hn). split; [| split].
  - by intros ->.
  - intros Hne. by destruct (String.eqb_spec (strings.TrimSpace data) "").
  - apply TrimSpace_blank.
Qed.

(** *** The runner *)

(** X12: a run that the orchestrator ends without an error calls the
    orchestrator once; its output is the final text of the answer that
    call gave, and it always comes with a decision: the one of the
    response read from that final text, or else proceed, with the final
    text as the summary and no file; final text without an opening brace
    is always such a case. *)
Theorem Run_always_decides
    (env : Environment RunnerCall) (r : OrchestratorRunner) (req : Request)
    (workDir : string) (result : RunResult) (trace : list (Event RunnerCall)) :
  interp env (Run r req workDir) [] = ((result, None), trace) ->
  exists (orchReq : OrchestratorRequest) (answer : OrchestratorResult),
    trace = [mkEvent (OrchestratorRun orchReq) (answer, None)]
    /\ Stdout result = GetFinalText answer
    /\ Decision (RResponse result) <> ""
    /\ (forall resp, ParseResponse (GetFinalText answer) = Ok resp -> RResponse result = resp)
    /\ ((exists e, ParseResponse (GetFinalText answer) = Err e) ->
        RResponse result
        = mkResponse DecisionProceed "" "" "" "" "" ∅ (GetFinalText answer))
    /\ (noBrace (GetFinalText answer) = true ->
        Decision (RResponse result) = DecisionProceed).
Proof.
  unfold Run. cbv zeta. cbn [bind call interp].
  match goal with |- context [env _ [] ?c] => destruct (env _ [] c) as [res oerr] end.
  destruct oerr as [err |]; cbn [interp]; [done |].
  intros [= <- <-]. eexists _, res. split; [reflexivity |].
  cbn [RResponse Stdout]. unfold responseOf.
  split; [done |].
  destruct (ParseResponse (GetFinalText res)) as [resp | e] eqn:Hp.
  - split; [by apply ParseResponse_Ok in Hp as [Hd _] |].
    split; [by intros ? [= <-] |]. split; [by intros [? ?] |].
    intros Hn. by rewrite (ParseResponse_noBrace _ Hn) in Hp.
  - split; [done |]. split; [done |]. done.
Qed.

Lemma ParseResponse_needs_a_brace_witness :
  ParseResponse "  " = Err (errorString "LLM output is empty")
  /\ ParseResponse noBreakSpace = Err (errorString "LLM output is empty")
  /\ ParseResponse "all done" = Err (errorString "LLM output missing JSON object").
Proof.
  split; [| split].
  - apply (ParseResponse_needs_a_brace "  "); reflexivity.
  - apply (ParseResponse_needs_a_brace noBreakSpace); reflexivity.
  - apply (ParseResponse_needs_a_brace "all done"); [reflexivity | discriminate].
Defined.

Lemma Run_always_decides_witness :
  let run := interp (endingWith "all done")
               (Run (mkOrchestratorRunner "" 50 50 orchestrator.DefaultCompactConfig)
                    emptyRequest "/w") [] in
  exists orchReq answer,
    run.2 = [mkEvent (OrchestratorRun orchReq) (answer, None)]
    /\ Stdout run.1.1 = GetFinalText answer
    /\ Decision (RResponse run.1.1) = DecisionProceed.
Proof.
  intros run.
  destruct (Run_always_decides (endingWith "all done")
              (mkOrchestratorRunner "" 50 50 orchestrator.DefaultCompactConfig)
              emptyRequest "/w" run.1.1 run.2 eq_refl)
    as (orchReq & answer & Ht & Hs & _ & _ & _ & Hn).
  exists orchReq, answer. split; [exact Ht |]. split; [exact Hs |].
  apply Hn. rewrite <- Hs. reflexivity.
Defined.

End llm_edge_props.

(** ** The bash tool: the patterns of the command check *)

Module bash_props.
Import llm tools builtin string_lemmas bash_spec.

Lemma HasPrefix_split s p : HasPrefix s p = true -> exists rest, s = p ++ rest.
Proof.
  revert s. induction p as [| a p IH]; intros s H; [by exists s |].
  destruct s as [| b s]; [done |]. cbn [HasPrefix] in H.
  destruct (Ascii.eqb_spec a b) as [-> | _]; [| done].
  destruct (IH s H) as [rest ->]. by exists rest.
Qed.

Lemma Index_split s sub n :
  Index s sub = Some n -> exists before after, s = before ++ sub ++ after.
Proof.
  revert n. induction s as [| c s IH]; intros n; cbn [Index].
  - destruct (HasPrefix "" sub) eqn:Hp; [| done].
    intros _. destruct (HasPrefix_split _ _ Hp) as [rest Hr]. by exists "", rest.
  - destruct (HasPrefix (String c s) sub) eqn:Hp.
    + intros _. destruct (HasPrefix_split _ _ Hp) as [rest Hr]. by exists "", rest.
    + destruct (Index s sub) as [m |] eqn:Hm; [| done]. intros _.
      destruct (IH m eq_refl) as (before & after & ->).
      by exists (String c before), after.
Qed.

Lemma Contains_noUpper s sub :
  Contains s sub = true -> noUpper s = true -> noUpper sub = true.
Proof.
  unfold Contains. intros [n Hn]%bool_decide_eq_true_1.
  destruct (Index_split _ _ _ Hn) as (before & after & ->).
  unfold noUpper. rewrite !everyByte_app.
  by intros [_ [H _]%andb_true_iff]%andb_true_iff.
Qed.

Lemma lowerByte_noUpper c :
  negb ((65 <=? N_of_ascii (strings.lowerByte c))%N
        && (N_of_ascii (strings.lowerByte c) <=? 90)%N) = true.
Proof. by destruct c as [[] [] [] [] [] [] [] []]. Qed.

Lemma ToLowerASCII_noUpper s : noUpper (strings.ToLowerASCII s) = true.
Proof.
  unfold noUpper. induction s as [| c s IH]; [done |].
  cbn [strings.ToLowerASCII strings.everyByte]. by rewrite lowerByte_noUpper, IH.
Qed.

Section Environment.
Variable ToLower : string -> string.

(** X13: the command is compared in lower case with patterns of which the
    last holds an upper-case letter, so that pattern never matches: a
    command is let through exactly when its lower-case form holds none
    of the six other patterns, and the error never names the last
    one. *)
Theorem validateCommand_never_matches_chmod (command : string) :
  noUpper (ToLower command) = true ->
  (validateCommand ToLower command = None
   <-> forall d, d ∈ lowerCasePatterns -> Contains (ToLower command) d = false)
  /\ validateCommand ToLower command
     <> Some (errorString "potentially dangerous command blocked: chmod -R 777 /").
Proof.
  intros Hlow. unfold validateCommand, dangerous, lowerCasePatterns.
  assert (Contains (ToLower command) "chmod -R 777 /" = false) as Hchmod.
  { destruct (Contains (ToLower command) "chmod -R 777 /") eqn:Hc; [| done].
    by pose proof (Contains_noUpper _ _ Hc Hlow). }
  cbn [List.find]. rewrite Hchmod.
  repeat match goal with
         | |- context [if Contains (ToLower command) ?d then _ else _] =>
             destruct (Contains (ToLower command) d) eqn:?
         end;
    (split; [split; [try done; intros _ d Hd | intros Hall] | done]);
    try (exfalso;
         match goal with
         | H : Contains _ ?d = true |- _ =>
             rewrite (Hall d) in H by (repeat constructor); done
         end);
    try done.
  repeat (apply elem_of_cons in Hd as [-> | Hd]; [done |]).
  by apply elem_of_nil in Hd.
Qed.
End Environment.

Lemma validateCommand_never_matches_chmod_witness :
  validateCommand strings.ToLowerASCII "chmod -R 777 /" = None.
Proof.
  apply (validateCommand_never_matches_chmod strings.ToLowerASCII "chmod -R 777 /").
  - apply ToLowerASCII_noUpper.
  - intros d Hd.
    repeat (apply elem_of_cons in Hd as [-> | Hd]; [reflexivity |]).
    by apply elem_of_nil in Hd.
Defined.

End bash_props.

(** ** The tool context: where an accepted path lies *)

Module path_props.
Import llm tools string_lemmas url_spec url_props path_spec.
Import filepath.

Lemma isSep_slash : isSep "/" = true.
Proof. done. Qed.

Lemma lacks_not_sep c s : lacks "/" (String c s) = true -> isSep c = false /\ lacks "/" s = true.
Proof.
  cbn [lacks strings.everyByte]. intros [Hc Hs]%andb_true_iff.
  split; [by apply negb_true_iff in Hc | done].
Qed.

Lemma lacks_srev c s : lacks c (strings.srev s) = lacks c s.
Proof. apply everyByte_srev. Qed.

(** *** backtrack *)

Lemma backtrack_to_sep x r w :
  lacks "/" x = true -> w = (String.length x + String.length r)%nat ->
  (1 <= String.length r)%nat ->
  backtrack (x ++ String "/" r) w 1 = r.
Proof.
  revert w. induction x as [| c x IH]; intros w Hx -> Hr; sapp.
  - cbn [backtrack]. by rewrite isSep_slash, andb_false_r.
  - apply lacks_not_sep in Hx as [Hc Hx]. cbn [backtrack]. rewrite Hc.
    destruct (Nat.ltb_spec 1 (String.length (String c x) + String.length r)) as [_ | Hlt];
      [| simpl in Hlt; lia].
    cbn [andb negb]. apply IH; [done | simpl; lia | done].
Qed.

Lemma backtrack_to_root x :
  lacks "/" x = true -> x <> "" ->
  backtrack (x ++ "/") (String.length x) 1 = "/".
Proof.
  induction x as [| c x IH]; intros Hx Hne; [done |]. sapp.
  apply lacks_not_sep in Hx as [Hc Hx]. cbn [backtrack]. rewrite Hc.
  destruct x as [| d x].
  - done.
  - destruct (Nat.ltb_spec 1 (String.length (String c (String d x)))) as [_ | Hlt];
      [| simpl in Hlt; lia].
    cbn [andb negb].
    replace (String.length (String c (String d x)) - 1)%nat
      with (String.length (String d x)) by (simpl; lia).
    by apply IH.
Qed.

Lemma element_fields e :
  element e = true -> e <> "" /\ lacks "/" e = true /\ e <> "." /\ e <> "..".
Proof.
  unfold element. rewrite !andb_true_iff, !negb_true_iff, !String.eqb_neq. tauto.
Qed.

Lemma rootedOut_length es :
  Forall (fun e => element e = true) es ->
  (String.length (rootedOut es) = 1)%nat <-> es = [].
Proof.
  intros Hes. destruct es as [| e es]; [done |].
  apply Forall_cons in Hes as [(Hne & _)%element_fields _].
  split; [| done]. cbn [rootedOut]. rewrite slength_app, slength_srev.
  destruct e; [done |]. destruct es; simpl; rewrite ?slength_app; simpl; lia.
Qed.

Lemma rootedOut_pos es : (1 <= String.length (rootedOut es))%nat.
Proof.
  destruct es as [| e es]; [simpl; lia |]. cbn [rootedOut]. rewrite slength_app.
  destruct es; [simpl; lia |]. rewrite slength_app. simpl. lia.
Qed.

Lemma backtrack_rootedOut e es :
  Forall (fun e => element e = true) (e :: es) ->
  backtrack (rootedOut (e :: es)) (String.length (rootedOut (e :: es)) - 1) 1
  = rootedOut es.
Proof.
  intros [(Hne & Hl & _)%element_fields Hes]%Forall_cons. cbn [rootedOut].
  destruct es as [| e' es].
  - rewrite slength_app. cbn [String.length rootedOut].
    replace (String.length (strings.srev e) + 1 - 1)%nat with (String.length (strings.srev e))
      by lia.
    apply backtrack_to_root; [by rewrite lacks_srev |].
    intros H. apply Hne. by rewrite <- (srev_involutive e), H.
  - set (r := rootedOut (e' :: es)).
    change ("/" ++ r) with (String "/" r).
    apply backtrack_to_sep; [by rewrite lacks_srev | | apply rootedOut_pos].
    rewrite slength_app. simpl. lia.
Qed.

(** *** The elements of a path *)

Lemma isSep_eq c : isSep c = true -> c = "/"%char.
Proof. unfold isSep, Separator. by intros ?%Ascii.eqb_eq. Qed.

Lemma copyElement_spec path out rest out' :
  copyElement path out = (rest, out') ->
  exists e, path = e ++ rest /\ lacks "/" e = true /\ out' = strings.srev e ++ out
            /\ (rest = "" \/ exists r, rest = String "/" r).
Proof.
  revert out. induction path as [| c path IH]; intros out; cbn [copyElement].
  - intros [= <- <-]. exists "". repeat split; auto.
  - destruct (isSep c) eqn:Hc.
    + intros [= <- <-]. exists "". apply isSep_eq in Hc as ->.
      repeat split; eauto.
    + intros (e & -> & He & -> & Hrest)%IH. exists (String c e).
      split; [done |]. split.
      * cbn [lacks strings.everyByte]. fold (lacks "/" e). rewrite He.
        unfold isSep, Separator in Hc. by rewrite Hc.
      * split; [| done]. rewrite srev_cons, <- sapp_assoc. by sapp.
Qed.

Lemma startsDot_eq c s :
  startsDot (String c s)
  = Ascii.eqb c "." && match s with EmptyString => true | String d _ => isSep d end.
Proof. destruct c as [[] [] [] [] [] [] [] []]; reflexivity. Qed.

Lemma startsDotDot_eq c d s :
  startsDotDot (String c (String d s))
  = Ascii.eqb c "." && Ascii.eqb d "."
    && match s with EmptyString => true | String f _ => isSep f end.
Proof.
  destruct c as [[] [] [] [] [] [] [] []]; try reflexivity.
  destruct d as [[] [] [] [] [] [] [] []]; reflexivity.
Qed.

Lemma startsDotDot_one c : startsDotDot (String c "") = false.
Proof. destruct c as [[] [] [] [] [] [] [] []]; reflexivity. Qed.

Lemma boundary_head rest :
  boundary rest -> match rest with EmptyString => true | String d _ => isSep d end = true.
Proof. by intros [-> | [r ->]]. Qed.

Lemma element_starts e rest :
  element e = true -> boundary rest ->
  exists c e', e = String c e' /\ isSep c = false
               /\ startsDot (e ++ rest) = false /\ startsDotDot (e ++ rest) = false.
Proof.
  intros (Hne & Hl & Hdot & Hdd)%element_fields Hrest.
  destruct e as [| c e]; [done |]. exists c, e. split; [done |].
  apply lacks_not_sep in Hl as [Hc Hl]. split; [done |]. sapp.
  split.
  - rewrite startsDot_eq. destruct (Ascii.eqb_spec c ".") as [-> | _]; [| done].
    destruct e as [| d e]; [done |]. sapp. by apply lacks_not_sep in Hl as [-> _].
  - destruct e as [| d e]; sapp.
    + destruct rest as [| f rest]; [apply startsDotDot_one |].
      rewrite startsDotDot_eq.
      destruct (Ascii.eqb_spec c ".") as [-> | _]; [| done].
      destruct Hrest as [? | [r [= -> ->]]]; [done |]. done.
    + rewrite startsDotDot_eq.
      destruct (Ascii.eqb_spec c ".") as [-> | _]; [| done].
      destruct (Ascii.eqb_spec d ".") as [-> | _]; [| done].
      destruct e as [| f e]; [done |]. sapp.
      apply lacks_not_sep in Hl as [_ Hl]. by apply lacks_not_sep in Hl as [-> _].
Qed.

Lemma copied_element c path e rest :
  isSep c = false -> startsDot (String c path) = false ->
  startsDotDot (String c path) = false ->
  String c path = e ++ rest -> lacks "/" e = true -> boundary rest ->
  element e = true.
Proof.
  intros Hc Hdot Hdd Heq Hl Hrest.
  destruct e as [| c' e].
  { rewrite sapp_nil_l in Heq. subst rest. destruct Hrest as [? | [r [= -> _]]]; done. }
  rewrite sapp_cons in Heq. injection Heq as <- ->.
  unfold element. rewrite Hl. change (String.eqb (String c e) "") with false.
  cbn [negb andb].
  pose proof (boundary_head _ Hrest) as Hb.
  destruct (String.eqb_spec (String c e) ".") as [[= -> ->] | _].
  { rewrite sapp_nil_l, startsDot_eq in Hdot. by rewrite Hb in Hdot. }
  destruct (String.eqb_spec (String c e) "..") as [[= -> ->] | _]; [| done].
  rewrite sapp_cons, sapp_nil_l in Hdd.
  destruct rest as [| f rest]; [done |].
  rewrite startsDotDot_eq in Hdd. by rewrite Hb in Hdd.
Qed.

(** *** Clean on a rooted path *)

Abbreviation elements es := (Forall (fun e => element e = true) es).

Lemma rootedOut_cons e es :
  elements es ->
  rootedOut (e :: es)
  = strings.srev e
    ++ (if negb (String.length (rootedOut es) =? 1)%nat
        then String "/" (rootedOut es) else rootedOut es).
Proof.
  intros Hes. cbn [rootedOut]. destruct es as [| e' es]; [done |].
  destruct (Nat.eqb_spec (String.length (rootedOut (e' :: es))) 1) as [H | _]; [| done].
  by apply rootedOut_length in H.
Qed.

Lemma sdrop_length n s : (String.length (sdrop n s) <= String.length s)%nat.
Proof.
  revert s. induction n as [| n IH]; intros s; [simpl; lia |].
  destruct s as [| c s]; [simpl; lia |]. cbn [sdrop String.length]. specialize (IH s). lia.
Qed.

Lemma cleanLoop_rooted fuel path es :
  elements es -> (String.length path <= fuel)%nat ->
  exists es', elements es' /\ cleanLoop fuel true path (rootedOut es) 1 = rootedOut es'.
Proof.
  revert path es. induction fuel as [| fuel IH]; intros path es Hes Hlen; [by exists es |].
  destruct path as [| c path]; [by exists es |].
  cbn [cleanLoop]. cbn [String.length] in Hlen.
  destruct (isSep c) eqn:Hc; [apply IH; [done | lia] |].
  destruct (startsDot (String c path)) eqn:Hdot; [apply IH; [done | lia] |].
  destruct (startsDotDot (String c path)) eqn:Hdd.
  - assert (String.length (sdrop 2 (String c path)) <= fuel)%nat as Hl2.
    { change (sdrop 2 (String c path)) with (sdrop 1 path).
      pose proof (sdrop_length 1 path). lia. }
    destruct (Nat.ltb_spec 1 (String.length (rootedOut es))) as [Hw | Hw].
    + destruct es as [| e es]; [simpl in Hw; lia |].
      rewrite backtrack_rootedOut by done.
      apply IH; [by apply Forall_cons in Hes as [_ ?] | done].
    + cbn [negb]. by apply IH.
  - match goal with |- context [copyElement _ ?o] => set (out' := o) end.
    destruct (copyElement (String c path) out') as [rest out''] eqn:Hcopy.
    apply copyElement_spec in Hcopy as (e & Heq & Hl & -> & Hrest).
    assert (element e = true) as He by (by eapply copied_element).
    assert (strings.srev e ++ out' = rootedOut (e :: es)) as ->.
    { rewrite rootedOut_cons by done. unfold out'. cbn [andb negb orb].
      by rewrite orb_false_r. }
    apply IH; [by constructor |].
    apply (f_equal String.length) in Heq. rewrite slength_app in Heq.
    apply element_fields in He as (Hne & _). destruct e; [done |].
    cbn [String.length] in Heq. lia.
Qed.

Lemma rootedOut_nonempty es : rootedOut es <> "".
Proof. intros H. pose proof (rootedOut_pos es) as Hp. rewrite H in Hp. simpl in Hp. lia. Qed.

(** [Clean] of a rooted path is the separator followed by elements. *)
Lemma Clean_rooted rest :
  exists es, elements es /\ Clean (String "/" rest) = strings.srev (rootedOut es).
Proof.
  unfold Clean. rewrite isSep_slash.
  destruct (cleanLoop_rooted (String.length (String "/" rest)) rest [])
    as (es & Hes & Heq); [by constructor | cbn [String.length]; lia |].
  exists es. split; [done |]. cbv zeta.
  change (cleanLoop (String.length (String "/" rest)) true rest "/" 1)
    with (cleanLoop (String.length (String "/" rest)) true rest (rootedOut []) 1).
  rewrite Heq.
  destruct (rootedOut es) as [| d r] eqn:E; [by apply rootedOut_nonempty in E | done].
Qed.

(** *** Clean is idempotent on rooted paths *)

Lemma joined_cons e es :
  joined (e :: es) = e ++ match es with [] => "" | _ => "/" ++ joined es end.
Proof. unfold joined. cbn [String.concat]. destruct es; [by rewrite sapp_nil_r | done]. Qed.

Lemma joined_boundary es : boundary (match es with [] => "" | _ => "/" ++ joined es end).
Proof. destruct es; [by left | right; by eexists]. Qed.

Lemma rootedOut_forward es done :
  strings.srev (rootedOut (rev es ++ done))
  = strings.srev (rootedOut done)
    ++ match done, es with
       | _, [] => ""
       | [], _ => joined es
       | _, _ => "/" ++ joined es
       end.
Proof.
  revert done. induction es as [| e es IH]; intros done.
  - cbn [rev app]. destruct done; by rewrite sapp_nil_r.
  - cbn [rev]. rewrite <- app_assoc. cbn [app]. rewrite IH, joined_cons.
    cbn [rootedOut]. rewrite srev_app, srev_involutive.
    destruct done as [| d done].
    + change (strings.srev "/") with "/". rewrite <- !sapp_assoc.
      repeat f_equal; try done; by destruct es.
    + change ("/" ++ rootedOut (d :: done)) with (String "/" (rootedOut (d :: done))).
      rewrite srev_cons, <- !sapp_assoc; sapp; repeat f_equal; try done; by destruct es.
Qed.

Lemma copyElement_element e rest out :
  lacks "/" e = true -> boundary rest ->
  copyElement (e ++ rest) out = (rest, strings.srev e ++ out).
Proof.
  revert out. induction e as [| c e IH]; intros out Hl Hrest; sapp.
  - destruct Hrest as [-> | [r ->]]; [done |]. cbn [copyElement]. by rewrite isSep_slash.
  - apply lacks_not_sep in Hl as [Hc Hl]. cbn [copyElement]. rewrite Hc, IH by done.
    f_equal. rewrite srev_cons, <- sapp_assoc. by sapp.
Qed.

Lemma cleanLoop_end fuel out : cleanLoop fuel true "" out 1 = out.
Proof. by destruct fuel. Qed.

Lemma cleanLoop_elements es done fuel :
  elements es -> elements done ->
  (String.length (joined es) <= fuel)%nat ->
  cleanLoop fuel true (joined es) (rootedOut done) 1 = rootedOut (rev es ++ done).
Proof.
  revert done fuel. induction es as [| e es IH]; intros done fuel Hes Hdone Hlen.
  - apply cleanLoop_end.
  - apply Forall_cons in Hes as [He Hes].
    rewrite joined_cons in *.
    set (rest := match es with [] => "" | _ => "/" ++ joined es end) in *.
    pose proof (joined_boundary es) as Hrest. fold rest in Hrest.
    destruct (element_starts e rest He Hrest) as (c & e' & -> & Hc & Hdot & Hdd).
    rewrite sapp_cons in Hdot, Hdd, Hlen. cbn [String.length] in Hlen.
    destruct fuel as [| fuel]; [lia |].
    rewrite sapp_cons. cbn [cleanLoop]. rewrite Hc, Hdot, Hdd.
    cbn [negb andb orb]. rewrite orb_false_r.
    rewrite <- sapp_cons.
    rewrite copyElement_element; [| by apply element_fields in He as (_ & ? & _) | done].
    rewrite <- rootedOut_cons by done.
    cbn [rev]. rewrite <- app_assoc. cbn [app].
    rewrite slength_app in Hlen.
    subst rest. destruct es as [| e2 es]; [apply cleanLoop_end |].
    change ("/" ++ joined (e2 :: es)) with (String "/" (joined (e2 :: es))) in *.
    cbn [String.length] in Hlen.
    destruct fuel as [| fuel]; [lia |].
    cbn [cleanLoop]. rewrite isSep_slash.
    apply IH; [done | by constructor | lia].
Qed.

Lemma Clean_rootedOut es :
  elements es -> Clean (strings.srev (rootedOut es)) = strings.srev (rootedOut es).
Proof.
  intros Hes.
  pose proof (rootedOut_forward (rev es) []) as Hf.
  rewrite rev_involutive, app_nil_r in Hf. cbn [rootedOut] in Hf.
  change (strings.srev "/") with "/" in Hf.
  assert (strings.srev (rootedOut es) = String "/" (joined (rev es))) as Hpath.
  { rewrite Hf. by destruct (rev es). }
  rewrite Hpath at 1. unfold Clean. rewrite isSep_slash. cbv zeta.
  change (cleanLoop (String.length (String "/" (joined (rev es)))) true (joined (rev es))
            "/" 1)
    with (cleanLoop (String.length (String "/" (joined (rev es)))) true (joined (rev es))
            (rootedOut []) 1).
  rewrite cleanLoop_elements; [| by apply Forall_rev | constructor | simpl; lia].
  rewrite rev_involutive, app_nil_r.
  destruct (rootedOut es) as [| d r] eqn:E; [by apply rootedOut_nonempty in E | done].
Qed.

(** [Clean] is idempotent on rooted paths; the result is rooted, and it
    ends in a separator only when it is the root. *)
Lemma Clean_idempotent rest :
  Clean (Clean (String "/" rest)) = Clean (String "/" rest).
Proof.
  destruct (Clean_rooted rest) as (es & Hes & ->). by apply Clean_rootedOut.
Qed.

Lemma rooted_head es : exists r, strings.srev (rootedOut es) = String "/" r.
Proof.
  pose proof (rootedOut_forward (rev es) []) as Hf.
  rewrite rev_involutive, app_nil_r in Hf. cbn [rootedOut] in Hf.
  change (strings.srev "/") with "/" in Hf. rewrite Hf.
  destruct (rev es); by eexists.
Qed.

Lemma rooted_no_trailing es t :
  elements es -> strings.srev (rootedOut es) = t ++ "/" -> es = [].
Proof.
  intros Hes Heq. apply (f_equal strings.srev) in Heq.
  rewrite srev_involutive, srev_app in Heq. change (strings.srev "/") with "/" in Heq.
  destruct es as [| e es]; [done |]. exfalso.
  apply Forall_cons in Hes as [(Hne & Hl & _)%element_fields _].
  cbn [rootedOut] in Heq. rewrite <- (lacks_srev "/" e) in Hl.
  destruct (strings.srev e) as [| c r] eqn:Hr.
  { apply Hne. by rewrite <- (srev_involutive e), Hr. }
  rewrite !sapp_cons, sapp_nil_l in Heq. injection Heq as -> _.
  by apply lacks_not_sep in Hl as [? _].
Qed.

(** *** Rel *)

Lemma cutElement_spec s el rest :
  cutElement s = (el, rest) -> s = el ++ rest /\ boundary rest.
Proof.
  revert el rest. induction s as [| c s IH]; intros el rest; cbn [cutElement].
  - intros [= <- <-]. split; [done | by left].
  - destruct (isSep c) eqn:Hc.
    + intros [= <- <-]. apply isSep_eq in Hc as ->. split; [done | right; by eexists].
    + destruct (cutElement s) as [e r]. intros [= <- <-].
      destruct (IH e r eq_refl) as [-> Hr]. by split.
Qed.

Lemma relLoop_empty fuel targ : relLoop fuel "" targ = ("", "", targ).
Proof. by destruct fuel. Qed.

Lemma relLoop_targ_empty fuel base : relLoop fuel base "" = ("", base, "").
Proof. destruct fuel; [done |]. cbn [relLoop]. by rewrite orb_true_r. Qed.

(** When the loop of [Rel] uses up the base, the target is the base and
    the rest of the target, up to the separator between them. *)
Lemma relLoop_done fuel base targ el rest :
  relLoop fuel base targ = (el, "", rest) ->
  (targ = base ++ rest /\ (base = "" \/ (exists b, base = b ++ "/") \/ rest = ""))
  \/ targ = base ++ "/" ++ rest
  \/ (base = targ ++ "/" /\ rest = "").
Proof.
  revert base targ. induction fuel as [| fuel IH]; intros base targ.
  { intros [= _ -> ->]. left. split; [done | by left]. }
  cbn [relLoop].
  destruct (String.eqb base "" || String.eqb targ "") eqn:He.
  { intros [= _ -> ->]. left. split; [done | by left]. }
  apply orb_false_iff in He as [Hb Ht].
  destruct (cutElement base) as [eb restb] eqn:Hcb.
  destruct (cutElement targ) as [et restt] eqn:Hct.
  apply cutElement_spec in Hcb as [-> Hrb]. apply cutElement_spec in Hct as [-> Hrt].
  destruct (String.eqb_spec et eb) as [-> | _]; cbn [negb].
  2: { intros [= _ Hbase _]. by rewrite Hbase in Hb. }
  destruct Hrb as [-> | [b' ->]]; cbn [skipSep]; rewrite ?isSep_slash.
  - rewrite relLoop_empty. intros [= _ <-].
    destruct Hrt as [-> | [t' ->]]; cbn [skipSep]; rewrite ?isSep_slash.
    + left. split; [by rewrite !sapp_nil_r | by right; right].
    + right. left. rewrite sapp_nil_r. by sapp.
  - destruct Hrt as [-> | [t' ->]]; cbn [skipSep]; rewrite ?isSep_slash.
    + rewrite relLoop_targ_empty. intros [= _ -> <-].
      right. right. by rewrite sapp_nil_r.
    + intros [(-> & Hside) | [-> | (-> & ->)]]%IH.
      * left. split; [by rewrite <- !sapp_assoc; sapp |].
        right. destruct Hside as [-> | [[b ->] | ->]].
        -- left. by exists eb.
        -- left. exists (eb ++ String "/" b). by rewrite <- !sapp_assoc; sapp.
        -- by right.
      * right. left. by rewrite <- !sapp_assoc; sapp.
      * right. right. split; [| done]. by rewrite <- !sapp_assoc; sapp.
Qed.

Lemma HasPrefix_dots s : HasPrefix (".." ++ s) ".." = true.
Proof. apply HasPrefix_app. Qed.

Lemma Rel_within bs ts rel :
  elements bs -> elements ts ->
  Rel (strings.srev (rootedOut bs)) (strings.srev (rootedOut ts)) = Ok rel ->
  HasPrefix rel ".." = false ->
  within (strings.srev (rootedOut bs)) (strings.srev (rootedOut ts)).
Proof.
  intros Hbs Hts. unfold Rel. rewrite !Clean_rootedOut by done. cbv zeta.
  set (base := strings.srev (rootedOut bs)). set (targ := strings.srev (rootedOut ts)).
  destruct (String.eqb_spec targ base) as [Heq | Hne]; [intros _ _; by left |].
  destruct (rooted_head bs) as [b Hb]. destruct (rooted_head ts) as [t Ht].
  fold base in Hb. fold targ in Ht.
  assert (String.eqb base "." = false) as -> by (by rewrite Hb).
  assert (HasPrefix base "/" = true) as -> by (by rewrite Hb).
  assert (HasPrefix targ "/" = true) as -> by (by rewrite Ht).
  cbn [Bool.eqb negb].
  destruct (relLoop (S (String.length base)) base targ) as [[el baseRest] targRest] eqn:Hloop.
  destruct (String.eqb el ".."); [done |].
  destruct (String.eqb_spec baseRest "") as [-> | _]; cbn [negb].
  2: { intros [= <-]. by rewrite HasPrefix_dots. }
  intros [= ->] _. unfold within.
  apply relLoop_done in Hloop as [(Heq & Hside) | [Heq | (Heq & ->)]].
  - destruct Hside as [Hside | [[b' Hside] | ->]].
    + by rewrite Hside in Hb.
    + apply rooted_no_trailing in Hside; [| done].
      right. unfold base. rewrite Hside. cbn. by rewrite Ht.
    + left. by rewrite sapp_nil_r in Heq.
  - right. destruct (String.eqb_spec base "/") as [_ | _]; [by rewrite Ht |].
    rewrite Heq, sapp_assoc. apply HasPrefix_app.
  - exfalso. pose proof Heq as Hbs'. apply rooted_no_trailing in Hbs'; [| done].
    unfold base in Heq. rewrite Hbs', Ht, sapp_cons in Heq.
    change (strings.srev (rootedOut [])) with "/" in Heq.
    injection Heq as Heq. by destruct t.
Qed.

(** *** ValidatePath *)

Lemma IsAbs_split p : IsAbs p = true -> exists rest, p = String "/" rest.
Proof.
  unfold IsAbs. destruct p as [| c p]; [done |]. cbn [HasPrefix].
  destruct (Ascii.eqb_spec "/" c) as [<- | _]; [by eexists | done].
Qed.

(** X14: with an absolute working directory, a path that [ValidatePath]
    accepts is absolute and in the form [Clean] gives - so that no
    element of it is [..] - and it is the cleaned working directory or
    lies under it. *)
Theorem ValidatePath_stays_within_root
    (getwd : Result string) (c : ToolContext) (path p : string) :
  IsAbs (WorkDir c) = true ->
  ValidatePath getwd c path = Ok p ->
  IsAbs p = true /\ Clean p = p /\ within (Clean (WorkDir c)) p.
Proof.
  intros [w Hw]%IsAbs_split. unfold ValidatePath, Abs. rewrite Hw.
  change (String.eqb (String "/" w) "") with false.
  change (IsAbs (String "/" w)) with true. cbv iota.
  assert (exists x, (if IsAbs path then Clean path
                     else Clean (Join [String "/" w; path]))
                    = Clean (String "/" x)) as [x ->].
  { destruct (IsAbs path) eqn:Hp.
    - apply IsAbs_split in Hp as [rest ->]. by eexists.
    - cbn [Join String.eqb]. unfold strings.Join. cbn [String.concat].
      rewrite sapp_cons, Clean_idempotent. by eexists. }
  rewrite Clean_idempotent.
  destruct (Clean_rooted w) as (bs & Hbs & ->).
  destruct (Clean_rooted x) as (ts & Hts & ->).
  destruct (Rel _ _) as [rel | e] eqn:Hrel; [| done].
  destruct (HasPrefix rel "..") eqn:Hdots; [done |].
  intros [= <-]. split; [| split].
  - destruct (rooted_head ts) as [t ->]. done.
  - by apply Clean_rootedOut.
  - by apply (Rel_within bs ts rel).
Qed.

(** *** Clean on a path that is not rooted *)

Lemma HasPrefix_app_nonempty s t :
  s <> "" -> HasPrefix (s ++ t) "/" = HasPrefix s "/".
Proof. destruct s as [| c s]; [done |]. intros _. by sapp. Qed.

Lemma srev_nonempty s : s <> "" -> strings.srev s <> "".
Proof. intros Hne H. apply Hne. by rewrite <- (srev_involutive s), H. Qed.

Lemma unslashed_push c out : out <> "" -> unslashed out -> unslashed (String c out).
Proof.
  unfold unslashed. intros Hne Hu. rewrite srev_cons, HasPrefix_app_nonempty; [done |].
  by apply srev_nonempty.
Qed.

Lemma unslashed_pushes x out : out <> "" -> unslashed out -> unslashed (x ++ out).
Proof.
  intros Hne Hu. induction x as [| c x IH]; sapp; [done |].
  apply unslashed_push; [| done]. by destruct x, out.
Qed.

Lemma unslashed_suffix x out : unslashed (x ++ out) -> unslashed out.
Proof.
  unfold unslashed. rewrite srev_app. destruct out as [| c out]; [done |].
  rewrite HasPrefix_app_nonempty; [done |]. by apply srev_nonempty.
Qed.

Lemma backtrack_suffix t w dotdot : exists x, t = x ++ backtrack t w dotdot.
Proof.
  revert w. induction t as [| c t IH]; intros w; [by exists "" |].
  cbn [backtrack]. destruct ((dotdot <? w)%nat && negb (isSep c)).
  - destruct (IH (w - 1)%nat) as [x Hx]. exists (String c x). sapp. by rewrite <- Hx.
  - by exists (String c "").
Qed.

Lemma unslashed_element e : e <> "" -> lacks "/" e = true -> unslashed (strings.srev e).
Proof.
  unfold unslashed. rewrite srev_involutive. destruct e as [| c e]; [done |].
  intros _ [Hc _]%lacks_not_sep. cbn [HasPrefix].
  unfold isSep, Separator in Hc. by rewrite Ascii.eqb_sym, Hc.
Qed.

Lemma cleanLoop_unslashed fuel path out dotdot :
  unslashed out -> unslashed (cleanLoop fuel false path out dotdot).
Proof.
  revert path out dotdot. induction fuel as [| fuel IH]; intros path out dotdot Hu; [done |].
  destruct path as [| c path]; [done |]. cbn [cleanLoop].
  destruct (isSep c) eqn:Hc; [by apply IH |].
  destruct (startsDot (String c path)) eqn:Hdot; [by apply IH |].
  destruct (startsDotDot (String c path)) eqn:Hdd.
  - destruct (dotdot <? String.length out)%nat.
    + apply IH. destruct (backtrack_suffix out (String.length out - 1) dotdot) as [x Hx].
      rewrite Hx in Hu. by apply unslashed_suffix in Hu.
    + cbn [negb]. apply IH.
      destruct out as [| d out]; [done |].
      change (0 <? String.length (String d out))%nat with true. cbv iota.
      by apply (unslashed_pushes "../").
  - cbn [negb andb orb].
    match goal with |- context [copyElement _ ?o] => set (out' := o) end.
    destruct (copyElement (String c path) out') as [rest out''] eqn:Hcopy.
    apply copyElement_spec in Hcopy as (e & Heq & Hl & -> & Hrest).
    apply IH.
    assert (e <> "") as Hne.
    { intros ->. rewrite sapp_nil_l in Heq. subst rest.
      destruct Hrest as [? | [r [= -> _]]]; done. }
    unfold out'. destruct out as [| d out].
    + cbn. rewrite sapp_nil_r. by apply unslashed_element.
    + change (String.length (String d out) =? 0)%nat with false. cbn [negb].
      apply (unslashed_pushes (strings.srev e ++ "/")) in Hu; [| done].
      by rewrite <- sapp_assoc in Hu.
Qed.

Lemma Clean_relative p : IsAbs p = false -> IsAbs (Clean p) = false.
Proof.
  unfold IsAbs, Clean. destruct p as [| c p]; [done |]. cbn [HasPrefix].
  destruct (Ascii.eqb_spec "/" c) as [| Hc]; [done |]. intros _.
  assert (isSep c = false) as ->.
  { unfold isSep, Separator. apply Ascii.eqb_neq. congruence. }
  pose proof (cleanLoop_unslashed (String.length (String c p)) (String c p) "" 0 eq_refl)
    as Hu.
  destruct (cleanLoop _ false _ "" 0) as [| d out]; [done |]. exact Hu.
Qed.

(** X15: with a working directory that is relative, every relative path is
    rejected as lying outside, when the process has a current directory
    (an absolute path). *)
Theorem ValidatePath_rejects_under_relative_root
    (wd : string) (c : ToolContext) (path : string) :
  WorkDir c <> "" -> IsAbs (WorkDir c) = false -> IsAbs path = false ->
  IsAbs wd = true ->
  ValidatePath (Ok wd) c path = Err ErrPathOutsideWorkDir.
Proof.
  intros Hne Hrel Hpath [w ->]%IsAbs_split.
  unfold ValidatePath, Abs. rewrite Hrel, Hpath.
  destruct (String.eqb_spec (WorkDir c) "") as [| _]; [done |].
  assert (Join [String "/" w; WorkDir c] = Clean (String "/" (w ++ "/" ++ WorkDir c))) as ->.
  { cbn [Join String.eqb]. unfold strings.Join. cbn [String.concat]. by sapp. }
  rewrite Clean_idempotent.
  destruct (Clean_rooted (w ++ "/" ++ WorkDir c)) as (bs & Hbs & ->).
  assert (IsAbs (Clean (Join [WorkDir c; path])) = false) as Htarg.
  { apply Clean_relative. cbn [Join].
    destruct (String.eqb_spec (WorkDir c) "") as [| _]; [done |].
    apply Clean_relative. unfold strings.Join. cbn [String.concat].
    destruct (WorkDir c) as [| d r]; [done |]. by sapp. }
  set (targ := Clean (Join [WorkDir c; path])) in *.
  unfold Rel. rewrite Clean_rootedOut by done. cbv zeta.
  destruct (rooted_head bs) as [b ->].
  pose proof (Clean_relative targ Htarg) as Hct. unfold IsAbs in Hct.
  destruct (String.eqb_spec (Clean targ) (String "/" b)) as [Heq | _].
  { by rewrite Heq in Hct. }
  change (String.eqb (String "/" b) ".") with false. cbv iota.
  change (HasPrefix (String "/" b) "/") with true. by rewrite Hct.
Qed.

Lemma ValidatePath_stays_within_root_witness :
  within "/tmp/t" "/tmp/t/subdir/file.txt".
Proof.
  apply (ValidatePath_stays_within_root (Ok "/") (NewToolContext "/tmp/t")
           "subdir/../subdir/file.txt" "/tmp/t/subdir/file.txt");
    reflexivity.
Defined.

Lemma ValidatePath_rejects_under_relative_root_witness :
  ValidatePath (Ok "/srv/app") (NewToolContext "workdir/issue-12/repo") "README.md"
  = Err ErrPathOutsideWorkDir.
Proof.
  apply (ValidatePath_rejects_under_relative_root "/srv/app"
           (NewToolContext "workdir/issue-12/repo") "README.md");
    [discriminate | reflexivity | reflexivity | reflexivity].
Defined.

End path_props.

(** ** The git client: the token in the URL of the remote *)

Module remote_props.
Import effects url url_spec url_readback gitutil string_lemmas url_props.
Import url_readback_props.

Lemma compose_query scheme userinfo host path fq query fragment :
  compose scheme userinfo host path (fq && String.eqb query "") query fragment
  = compose scheme userinfo host path fq query fragment.
Proof.
  unfold compose, queryPart. destruct query as [| c q]; [| by rewrite !orb_true_r].
  by rewrite andb_true_r.
Qed.




(** X17: for a URL with a hierarchical part (no opaque part; no path, or
    a path written with a slash in front; no byte outside ASCII in a zone
    identifier), injecting into the URL that already carries a token
    replaces the token: the result is the text that injecting the new
    token into the original URL gives. *)
Theorem injectToken_replaces_the_token (rawURL old new : string) (u : URL) (injected : string) :
  Parse rawURL = Ok u -> hierarchical u = true ->
  injectToken rawURL old = Ok injected ->
  injectToken injected new = injectToken rawURL new.
Proof.
  intros Hparse Hu. pose proof (Parse_readable _ _ Hparse Hu) as Hr.
  rewrite !(injectToken_written _ _ _ Hparse). intros [= <-].
  destruct (Parse_written u (UserPassword "x-access-token" old) Hr)
    as (v & Hv & _ & _ & _ & Hback); [right; by eexists |].
  by rewrite (injectToken_written _ _ _ Hv), Hback.
Qed.

(** X18: for a URL with a hierarchical part (as in X17), the redacted text
    does not depend on the token: whatever token was injected, redacting
    gives one and the same text, which is the URL as [String] writes it
    with the user x-access-token and no password in front of the host; and
    redacting that text again changes nothing. *)
Theorem RedactToken_forgets_the_token (rawURL : string) (u : URL) :
  Parse rawURL = Ok u -> hierarchical u = true ->
  let redacted :=
    compose (Scheme u) "x-access-token" (escape (Host u) encodeHost) (EscapedPath u)
      (ForceQuery u) (RawQuery u) (EscapedFragment u) in
  (forall token injected,
     injectToken rawURL token = Ok injected -> RedactToken injected = redacted)
  /\ RedactToken redacted = redacted.
Proof.
  intros Hparse Hu redacted. pose proof (Parse_readable _ _ Hparse Hu) as Hr.
  pose proof Hr as (Ho & Hroot & _).
  assert (redacted = String_ (withUser u (Some (User "x-access-token")))) as Hred.
  { by rewrite String_hier. }
  split.
  - intros token injected. rewrite (injectToken_written _ _ _ Hparse). intros [= <-].
    destruct (Parse_written u (UserPassword "x-access-token" token) Hr)
      as (v & Hv & Huser & _ & _ & Hback); [right; by eexists |].
    by rewrite (RedactToken_written _ _ _ Hv Huser), Hback.
  - rewrite Hred.
    destruct (Parse_written u (User "x-access-token") Hr)
      as (v & Hv & Huser & _ & _ & Hback); [by left |].
    by rewrite (RedactToken_written _ _ _ Hv Huser), Hback.
Qed.


Lemma injectToken_replaces_the_token_witness :
  injectToken "https://x-access-token:old@[fe80::1%25en0]:8080/my%20repo.git?ref=main#top"
    "new"
  = injectToken literalURL "new".
Proof.
  apply (injectToken_replaces_the_token literalURL "old" "new" literalParsed);
    vm_compute; reflexivity.
Defined.

Lemma RedactToken_forgets_the_token_witness :
  RedactToken
    "https://x-access-token:s3cr3t@[fe80::1%25en0]:8080/my%20repo.git?ref=main#top"
  = "https://x-access-token@[fe80::1%25en0]:8080/my%20repo.git?ref=main#top".
Proof.
  destruct (RedactToken_forgets_the_token literalURL literalParsed) as [Hany _];
    [vm_compute; reflexivity | vm_compute; reflexivity |].
  apply (Hany "s3cr3t"). vm_compute. reflexivity.
Defined.

End remote_props.

(** ** The git client: what is staged *)

Module status_props.
Import effects gitutil porcelain string_lemmas.

Lemma filesToStage_nil lines :
  filesToStage lines = [] <-> existsb changedFile lines = false.
Proof.
  unfold filesToStage. induction lines as [| l lines IH]; [done |].
  cbn [omap list_omap existsb]. unfold changedFile at 1.
  destruct (lineFilename l) as [f |]; cbn [negb orb]; [| exact IH].
  destruct (excluded (filepath.Base f)); cbn [negb orb]; [exact IH |].
  split; done.
Qed.


Section Git.
Variable env : Environment GitCall.
Variable c : Client.
Variable dir : string.

#[local] Abbreviation statusCall :=
  (RunDirOutput (gitBinary c) dir ["status"; "--porcelain"]).

(** X19: on the same answer of git status, [HasChanges] reports no
    change exactly when [CommitAll] does nothing more and returns no
    error; and when [HasChanges] reports a change, [CommitAll] either
    returns the error of the scanner or runs git add. *)
Theorem HasChanges_agrees_with_CommitAll (message : string) :
  ((interp env (HasChanges c dir) []).1 = Ok false
   <-> interp env (CommitAll c dir message) []
       = (None, [mkEvent statusCall (env _ [] statusCall)]))
  /\ ((interp env (HasChanges c dir) []).1 = Ok true ->
      (exists output,
         env _ [] statusCall = Ok output
         /\ (interp env (CommitAll c dir message) []).1 = (scanLines output).2
         /\ (scanLines output).2 <> None)
      \/ exists files answer,
           files <> []
           /\ (interp env (CommitAll c dir message) []).2 !! 1%nat
              = Some (mkEvent (RunDir (gitBinary c) dir ("add" :: "--" :: files)) answer)).
Proof.
  unfold HasChanges, CommitAll, runDirOutput, runDir, call.
  cbn [bind interp app].
  destruct (env _ [] (RunDirOutput (gitBinary c) dir ["status"; "--porcelain"]))
    as [output | e]; cbn [bind interp fst snd]; [| done].
  destruct (scanLines output) as [lines scanErr] eqn:Hscan. cbn [fst snd].
  pose proof (filesToStage_nil lines) as Hnil.
  destruct (existsb changedFile lines) eqn:Hex; cbn [interp fst].
  - split.
    + split; [done |]. intros H. exfalso.
      destruct scanErr as [e |]; [done |].
      destruct (filesToStage lines) as [| f fs]; [by destruct Hnil as [Hn _]; specialize (Hn eq_refl) |].
      cbn [bind interp app] in H.
      match type of H with context [env ?T ?tr ?call] => destruct (env T tr call) end;
        cbn [interp] in H; [done |].
      by injection H.
    + intros _. destruct scanErr as [e |]; [left; exists output; by rewrite Hscan |].
      right. destruct (filesToStage lines) as [| f fs] eqn:Hf;
        [by destruct Hnil as [Hn _]; specialize (Hn eq_refl) |].
      cbn [bind interp app].
      match goal with |- context [env ?T ?tr ?call] => destruct (env T tr call) eqn:Hadd end;
        cbn [interp snd app]; by eexists (f :: fs), _.
  - destruct Hnil as [_ Hn]. rewrite (Hn eq_refl).
    destruct scanErr as [e |]; cbn [interp fst]; split; done.
Qed.

End Git.

Lemma HasChanges_agrees_with_CommitAll_witness :
  interp (gitPrinting (statusOutput artifactInSpacedDir))
    (CommitAll (mkClient "") "/w/repo" "msg") []
  <> (None, [mkEvent (RunDirOutput "git" "/w/repo" ["status"; "--porcelain"])
               (Ok (statusOutput artifactInSpacedDir))]).
Proof.
  intros H.
  apply (HasChanges_agrees_with_CommitAll
           (gitPrinting (statusOutput artifactInSpacedDir)) (mkClient "") "/w/repo" "msg")
    in H.
  vm_compute in H. discriminate H.
Defined.


End status_props.

(** ** The engine: when it publishes, and when the LLM run fails *)

Module engine_props.
Import effects llm_run workflow workflow_spec workflow_trace.

Section MapOrder.
Variable rangeOrder : gset string -> list string.

#[local] Arguments labelsInProgress : simpl never.
#[local] Arguments labelsNeedsInfo : simpl never.
#[local] Arguments labelsDone : simpl never.
#[local] Arguments notProceedComment : simpl never.
#[local] Arguments repoDir : simpl never.
#[local] Arguments fallback : simpl never.
#[local] Arguments itoa : simpl never.
#[local] Arguments issueMode : simpl never.
#[local] Arguments toLLMComments : simpl never.
#[local] Arguments int_add : simpl never.
#[local] Arguments splitFullName : simpl never.
#[local] Arguments String.append : simpl never.

Ltac answer env :=
  match goal with
  | |- context [env ?T ?tr ?c] =>
      lazymatch tr with
      | context [env] => fail
      | _ => destruct (env T tr c) eqn:?
      end
  end.

Ltac clock env :=
  match goal with
  | |- context [env string ?tr Now] =>
      generalize (env string tr Now); intros ?
  end.

(** One step of the engine: the next answer of the environment, or the
    next test. *)
Ltac step env :=
  first
    [ clock env
    | answer env
    | match goal with
      | |- context [match ?o with Some _ => _ | None => _ end] =>
          is_var o; destruct o
      | |- context [String.eqb (github.State ?issue) "open"] =>
          destruct (String.eqb (github.State issue) "open") eqn:?
      | |- context [String.eqb (webhook.DefaultBranch ?r) ""] =>
          destruct (String.eqb (webhook.DefaultBranch r) "") eqn:?
      | |- context [String.eqb (Decision ?r) DecisionProceed] =>
          destruct (String.eqb (Decision r) DecisionProceed) eqn:?
      | |- context [String.eqb (NeedsInfoLabel ?cfg) ""] =>
          destruct (String.eqb (NeedsInfoLabel cfg) "") eqn:?
      | |- context [negb ?b] => is_var b; destruct b
      | |- context [?b && negb (String.eqb (webhook.Sender ?e) "")] =>
          destruct (b && negb (String.eqb (webhook.Sender e) "")) eqn:?
      end ];
  simpl.

Ltac engine env :=
  unfold handleIssue;
  match goal with |- context [splitFullName ?n] =>
    destruct (splitFullName n) as [[? ?] | ?] end; simpl;
  repeat step env.

(** The event of the trace that answers a question. *)
Ltac place := (apply list_elem_of_here) + (apply list_elem_of_further; place).
Ltac in_trace := (eexists; split; [place |]); reflexivity.

(** Every event of the trace at hand. *)
Ltac each_event Hin Hev tac :=
  repeat (apply elem_of_cons in Hin as [-> | Hin];
          [first [discriminate Hev | tac] |]);
  by apply elem_of_nil in Hin.

Lemma cons_split {A} (x : A) before l rest :
  l = (before ++ rest)%list -> x :: l = ((x :: before) ++ rest)%list.
Proof. by intros ->. Qed.

(** The place of three events that follow each other. *)
Ltac cut_trace := (apply (eq_refl : _ = ([] ++ _)%list)) + (apply cons_split; cut_trace).

Lemma exists_existsb {A} (p : A -> bool) (l : list A) :
  (exists x, x ∈ l /\ p x = true) -> existsb p l = true.
Proof.
  intros (x & Hx & Hp). apply existsb_exists. exists x.
  split; [by apply list_elem_of_In | done].
Qed.

Lemma handleIssue_facts
    (cfg : Config) (event : webhook.Event) (requireLabeler : bool)
    (log : Logger) (env : Environment Call) :
  let out := interp env (handleIssue rangeOrder cfg event requireLabeler log) [] in
  let trace := snd out in
  (existsb publishes trace = true ->
   exists result,
     (exists e1, e1 ∈ trace /\ llmAnswer e1 = Some (result, None))
     /\ Decision (RResponse result) = DecisionProceed
     /\ (exists e2, e2 ∈ trace /\ applyAnswer e2 = Some None)
     /\ (exists e3, e3 ∈ trace /\ changesAnswer e3 = Some (Ok true)))
  /\ (existsb opensPR trace = true ->
      exists before commit push pr after,
        trace = (before ++ commit :: push :: pr :: after)%list
        /\ commitAnswer commit = Some None /\ pushAnswer push = Some None
        /\ opensPR pr = true)
  /\ (existsb llmFailed trace = true ->
      exists err posted n,
        (forall ev answer, ev ∈ trace -> llmAnswer ev = Some answer ->
                           answer.2 = Some err)
        /\ last trace = Some posted
        /\ (exists number answer,
              commentPosted posted
              = Some (number, "Automation failed: " ++ Error err, answer))
        /\ out.1.1 = Some (WorkflowError (workflowName log) "run-llm" n "Run" err)
        /\ existsb publishes trace = false).
Proof.
  cbv zeta. engine env.
  all: split; [| split]; intros H; try discriminate H.
  all: lazymatch goal with
       | |- exists _ : RunResult, _ =>
           eexists; split; [in_trace |]; split; [by apply String.eqb_eq |];
           split; in_trace
       | |- exists _ : list (Event Call), _ =>
           (eexists _, _, _, _, _; split; [cut_trace |]); by repeat split
       | |- exists _ : error, _ =>
           eexists _, _, _; split;
           [intros ev answer Hin Hev;
            repeat (apply elem_of_cons in Hin as [-> | Hin];
                    [first [discriminate Hev | by injection Hev as <-] |]);
            by apply elem_of_nil in Hin |];
           split; [reflexivity |]; split; [by eexists _, _ |];
           split; reflexivity
       end.
Qed.

(** X21: nothing is committed or pushed and no pull request is opened
    unless the LLM run ended without an error in the decision proceed,
    the changes were applied without an error and the repository was
    found changed. *)
Theorem publishing_needs_proceed_and_changes
    (cfg : Config) (event : webhook.Event) (requireLabeler : bool)
    (log : Logger) (env : Environment Call) :
  let trace := snd (interp env (handleIssue rangeOrder cfg event requireLabeler log) []) in
  (exists ev, ev ∈ trace /\ publishes ev = true) ->
  exists result,
    (exists e1, e1 ∈ trace /\ llmAnswer e1 = Some (result, None))
    /\ Decision (RResponse result) = DecisionProceed
    /\ (exists e2, e2 ∈ trace /\ applyAnswer e2 = Some None)
    /\ (exists e3, e3 ∈ trace /\ changesAnswer e3 = Some (Ok true)).
Proof.
  intros trace H%exists_existsb.
  by apply (handleIssue_facts cfg event requireLabeler log env).
Qed.

(** X22: a pull request is opened only right after a commit and a push
    that both succeeded, in this order. *)
Theorem pull_request_follows_commit_and_push
    (cfg : Config) (event : webhook.Event) (requireLabeler : bool)
    (log : Logger) (env : Environment Call) :
  let trace := snd (interp env (handleIssue rangeOrder cfg event requireLabeler log) []) in
  (exists ev, ev ∈ trace /\ opensPR ev = true) ->
  exists before commit push pr after,
    trace = (before ++ commit :: push :: pr :: after)%list
    /\ commitAnswer commit = Some None /\ pushAnswer push = Some None
    /\ opensPR pr = true.
Proof.
  intros trace H%exists_existsb.
  by apply (handleIssue_facts cfg event requireLabeler log env).
Qed.

(** X23: when the LLM run returns an error, the last thing the engine
    does is to post the comment "Automation failed: " with the message
    of the error on the issue; it returns the error, wrapped as the
    failure of the step run-llm, whatever posting the comment gave, and
    nothing is committed or pushed and no pull request is opened. *)
Theorem llm_failure_is_reported
    (cfg : Config) (event : webhook.Event) (requireLabeler : bool)
    (log : Logger) (env : Environment Call) (result : RunResult) (err : error) :
  let out := interp env (handleIssue rangeOrder cfg event requireLabeler log) [] in
  (exists ev, ev ∈ snd out /\ llmAnswer ev = Some (result, Some err)) ->
  exists posted number answer n,
    last (snd out) = Some posted
    /\ commentPosted posted = Some (number, "Automation failed: " ++ Error err, answer)
    /\ out.1.1 = Some (WorkflowError (workflowName log) "run-llm" n "Run" err)
    /\ forall ev, ev ∈ snd out -> publishes ev = false.
Proof.
  intros out (ev & Hin & Hev).
  destruct (handleIssue_facts cfg event requireLabeler log env) as (_ & _ & Hfail).
  destruct Hfail as (err' & posted & n & Hone & Hlast & (number & answer & Hc) & Hret & Hpub).
  { apply exists_existsb. exists ev. split; [done |]. unfold llmFailed. by rewrite Hev. }
  specialize (Hone ev _ Hin Hev). cbn [snd] in Hone. injection Hone as <-.
  exists posted, number, answer, n. split; [done |]. split; [done |]. split; [done |].
  intros ev' Hin'. destruct (publishes ev') eqn:Hp; [| done].
  fold out in Hpub. rewrite <- Hpub. symmetry. apply existsb_exists.
  exists ev'. split; [by apply list_elem_of_In | done].
Qed.
End MapOrder.

Lemma publishing_needs_proceed_and_changes_witness :
  exists result,
    (exists e1, e1 ∈ snd (interp proceedingEnv
                            (handleIssue sortedOrder defaultConfig labeledEvent true
                               (StartWorkflow "issue-label")) [])
                /\ llmAnswer e1 = Some (result, None))
    /\ Decision (RResponse result) = DecisionProceed.
Proof.
  destruct (publishing_needs_proceed_and_changes sortedOrder defaultConfig labeledEvent true
              (StartWorkflow "issue-label") proceedingEnv) as (result & H1 & H2 & _).
  - eexists (mkEvent (CommitAll _ _) _). split; [| reflexivity].
    vm_compute. do 12 apply list_elem_of_further. apply list_elem_of_here.
  - by exists result.
Defined.

Lemma pull_request_follows_commit_and_push_witness :
  exists before commit push pr after,
    snd (interp proceedingEnv
           (handleIssue sortedOrder defaultConfig labeledEvent true
              (StartWorkflow "issue-label")) [])
    = (before ++ commit :: push :: pr :: after)%list
    /\ commitAnswer commit = Some None /\ pushAnswer push = Some None
    /\ opensPR pr = true.
Proof.
  apply (pull_request_follows_commit_and_push sortedOrder defaultConfig labeledEvent true
           (StartWorkflow "issue-label") proceedingEnv).
  eexists (mkEvent (CreatePR _ _ _) _). split; [| reflexivity].
  vm_compute. do 14 apply list_elem_of_further. apply list_elem_of_here.
Defined.

Lemma llm_failure_is_reported_witness :
  exists posted number answer n,
    last (snd (interp failingEnv
                 (handleIssue sortedOrder defaultConfig labeledEvent true
                    (StartWorkflow "issue-label")) []))
    = Some posted
    /\ commentPosted posted
       = Some (number, "Automation failed: " ++ Error runFailure, answer)
    /\ (interp failingEnv
          (handleIssue sortedOrder defaultConfig labeledEvent true
             (StartWorkflow "issue-label")) []).1.1
       = Some (WorkflowError "issue-label" "run-llm" n "Run" runFailure).
Proof.
  destruct (llm_failure_is_reported sortedOrder defaultConfig labeledEvent true
              (StartWorkflow "issue-label") failingEnv
              (mkRunResult emptyResponse "" "") runFailure)
    as (posted & number & answer & n & Hlast & Hposted & Hret & _).
  - eexists (mkEvent (LLMRun _ _) _). split; [| reflexivity].
    vm_compute. do 8 apply list_elem_of_further. apply list_elem_of_here.
  - by exists posted, number, answer, n.
Defined.

End engine_props.

(** ** The engine: its helpers *)

Module helpers_props.
Import effects llm_run workflow workflow_spec workflow_trace string_lemmas url_spec.

(** *** splitFullName *)

Lemma SplitFrom_slash fuel s cur :
  (String.length s <= fuel)%nat -> strings.SplitFrom fuel s "/" cur = splitSlash s cur.
Proof.
  revert s cur. induction fuel as [| fuel IH]; intros s cur Hlen.
  - destruct s; [done | simpl in Hlen; lia].
  - destruct s as [| c s]; [done |]. cbn [strings.SplitFrom splitSlash].
    change (HasPrefix (String c s) "/") with (if Ascii.eqb "/" c then true else false).
    rewrite (Ascii.eqb_sym "/" c).
    simpl in Hlen. destruct (Ascii.eqb c "/"); cbn [String.length sdrop]; rewrite IH by lia; done.
Qed.

Lemma splitSlash_nonempty s cur : splitSlash s cur <> [].
Proof.
  revert cur. induction s as [| c s IH]; intros cur; [done |].
  cbn [splitSlash]. destruct (Ascii.eqb c "/"); [done | apply IH].
Qed.

Lemma splitSlash_one s cur y :
  splitSlash s cur = [y] <-> lacks "/" s = true /\ y = strings.srev cur ++ s.
Proof.
  revert cur. induction s as [| c s IH]; intros cur.
  - cbn. rewrite sapp_nil_r. split; [by intros [= <-] | by intros [_ ->]].
  - cbn [splitSlash lacks strings.everyByte].
    destruct (Ascii.eqb c "/") eqn:Hc; cbn [negb andb].
    + split; [| by intros [? _]]. intros [= _ H]. by apply splitSlash_nonempty in H.
    + rewrite IH. fold (lacks "/" s). rewrite srev_cons, <- sapp_assoc. by sapp.
Qed.

Lemma splitSlash_two s cur x y :
  splitSlash s cur = [x; y] <->
  exists a, s = a ++ "/" ++ y /\ lacks "/" a = true /\ lacks "/" y = true
            /\ x = strings.srev cur ++ a.
Proof.
  revert cur. induction s as [| c s IH]; intros cur.
  - cbn. split; [done |]. intros (a & Heq & _). by destruct a.
  - cbn [splitSlash]. destruct (Ascii.eqb_spec c "/") as [-> | Hc].
    + split.
      * intros [= <- [Hl ->]%splitSlash_one]. exists "". cbn. sapp.
        rewrite sapp_nil_r. done.
      * intros (a & Heq & Ha & Hy & ->). destruct a as [| d a].
        -- cbn in Heq. injection Heq as ->. rewrite sapp_nil_r. f_equal.
           apply splitSlash_one. done.
        -- rewrite sapp_cons in Heq. injection Heq as <- _. done.
    + rewrite IH. split.
      * intros (a & -> & Ha & Hy & ->). exists (String c a). sapp.
        split; [done |]. split.
        -- cbn [lacks strings.everyByte]. fold (lacks "/" a). rewrite Ha.
           by destruct (Ascii.eqb_spec c "/").
        -- split; [done |]. rewrite srev_cons, <- sapp_assoc. by sapp.
      * intros (a & Heq & Ha & Hy & ->). destruct a as [| d a].
        -- cbn in Heq. by injection Heq as ->.
        -- rewrite sapp_cons in Heq. injection Heq as <- ->. exists a.
           split; [done |]. cbn [lacks strings.everyByte] in Ha.
           apply andb_true_iff in Ha as [_ Ha]. split; [done |]. split; [done |].
           rewrite srev_cons, <- sapp_assoc. by sapp.
Qed.

(** X24: a full name is taken apart exactly when it holds one slash: the
    owner is the text before the slash and the repository the text
    behind it, and either may be empty. *)
Theorem splitFullName_needs_one_slash (full owner repo : string) :
  splitFullName full = Ok (owner, repo)
  <-> full = owner ++ "/" ++ repo /\ lacks "/" owner = true /\ lacks "/" repo = true.
Proof.
  unfold splitFullName, strings.Split. rewrite SplitFrom_slash by lia.
  destruct (splitSlash full "") as [| x [| y [| z l]]] eqn:Hs.
  1, 2, 4: split; [done |]; intros (-> & Ho & Hr);
    assert (splitSlash (owner ++ "/" ++ repo) "" = [owner; repo]) as Heq
      by (apply splitSlash_two; by exists owner);
    by rewrite Heq in Hs.
  apply splitSlash_two in Hs as (a & -> & Ha & Hy & ->).
  change (strings.srev "" ++ a) with ("" ++ a). rewrite sapp_nil_l.
  split.
  - by intros [= <- <-].
  - intros (Heq & Ho & Hr).
    assert (splitSlash (owner ++ "/" ++ repo) "" = [owner; repo]) as H1
      by (apply splitSlash_two; by exists owner).
    assert (splitSlash (a ++ "/" ++ y) "" = [a; y]) as H2
      by (apply splitSlash_two; by exists a).
    rewrite Heq, H1 in H2. by injection H2 as <- <-.
Qed.

(** *** The slash command *)

(** X25: the text that [appendSlashContext] returns holds the slash
    command, and it is left as it is when given again: the note is
    appended once. *)
Theorem appendSlashContext_appends_once (body slash : string) :
  Contains (appendSlashContext body slash) slash = true
  /\ appendSlashContext (appendSlashContext body slash) slash
     = appendSlashContext body slash.
Proof.
  assert (Contains (appendSlashContext body slash) slash = true) as H.
  { unfold appendSlashContext. destruct (Contains body slash) eqn:Hc; [done |].
    match goal with |- Contains ?t _ = _ =>
      assert (t = (strings.TrimSpace body ++ nl ++ nl
                   ++ "Automated optimization triggered by: ") ++ slash ++ "") as ->
        by (by rewrite sapp_nil_r, <- !sapp_assoc)
    end.
    apply Contains_infix. }
  split; [done |]. unfold appendSlashContext at 1. by rewrite H.
Qed.

Section MapOrder.
Variable rangeOrder : gset string -> list string.
Hypothesis rangeOrder_perm : forall s, rangeOrder s ≡ₚ elements s.

(** X26: every participant with a name - the author and whoever wrote a
    comment - is mentioned once, as an at sign and the name, the
    mentions are separated by one space, and without participants the
    text is empty. *)
Theorem mentionParticipants_mentions_each_once
    (author : string) (comments : list github.Comment) :
  exists users,
    NoDup users
    /\ (forall u, u ∈ users <->
                  u <> "" /\ (u = author \/ u ∈ map github.User comments))
    /\ mentionParticipants rangeOrder author comments
       = strings.Join (map (fun u => "@" ++ u) users) " ".
Proof.
  unfold mentionParticipants. cbv zeta.
  set (mentions := (_ ∪ _ : gset string)).
  exists (rangeOrder mentions). split; [| split].
  - rewrite rangeOrder_perm. apply NoDup_elements.
  - intros u. rewrite rangeOrder_perm, elem_of_elements. unfold mentions.
    rewrite elem_of_union, elem_of_list_to_set, list_elem_of_In, filter_In,
      <- list_elem_of_In, negb_true_iff, String.eqb_neq.
    destruct (String.eqb_spec author "") as [-> | Ha]; cbn [negb].
    + rewrite elem_of_empty. intuition congruence.
    + rewrite elem_of_singleton. intuition congruence.
  - case_bool_decide as He; [| done].
    assert (rangeOrder mentions = []) as ->; [| done].
    apply Permutation_nil_r. by rewrite rangeOrder_perm, He, elements_empty.
Qed.

(** X27: the label list that [updateProgressLabels] returns has no
    duplicates; it holds the label to add, when that is not empty, and
    the current labels other than the labels to remove, of which an
    empty one removes nothing. *)
Theorem updateProgressLabels_members (current : list string) (add : string)
    (remove : list string) :
  NoDup (updateProgressLabels rangeOrder current add remove)
  /\ forall x,
       x ∈ updateProgressLabels rangeOrder current add remove <->
       (x = add /\ add <> "") \/ (x ∈ current /\ ~ (x ∈ remove /\ x <> "")).
Proof.
  split.
  - unfold updateProgressLabels. rewrite rangeOrder_perm. apply NoDup_elements.
  - intros x. by apply workflow_props.elem_of_updateProgressLabels.
Qed.
End MapOrder.

Lemma splitFullName_needs_one_slash_witness :
  splitFullName "org/" = Ok ("org", "") /\ splitFullName "a/b/c" <> Ok ("a", "b/c").
Proof.
  split.
  - apply (splitFullName_needs_one_slash "org/" "org" ""). by repeat split.
  - intros (_ & _ & H)%(splitFullName_needs_one_slash "a/b/c" "a" "b/c"). discriminate H.
Defined.

Lemma mentionParticipants_mentions_each_once_witness :
  exists users,
    NoDup users
    /\ mentionParticipants sortedOrder "author"
         [github.mkComment "author" "hello"; github.mkComment "" "anonymous"]
       = strings.Join (map (fun u => "@" ++ u) users) " ".
Proof.
  destruct (mentionParticipants_mentions_each_once sortedOrder (fun s => reflexivity _)
              "author" [github.mkComment "author" "hello"; github.mkComment "" "anonymous"])
    as (users & Hnd & _ & Heq).
  exists users. split; [exact Hnd | exact Heq].
Defined.

Lemma updateProgressLabels_members_witness :
  NoDup (updateProgressLabels sortedOrder ["bug"; "bug"; "ai-ready"] "ai-in-progress"
           [""; "ai-ready"]).
Proof.
  destruct (updateProgressLabels_members sortedOrder (fun s => reflexivity _)
              ["bug"; "bug"; "ai-ready"] "ai-in-progress" [""; "ai-ready"]) as [Hnd _].
  exact Hnd.
Defined.

End helpers_props.
